(* ===== verification/_CoqProject ===== *)
-Q . S2P
Prelude.v
Crypto.v
Chacha8.v
Ecies.v
ChunkMerkle.v
WalrusMerkle.v
WalrusConfig.v
Cid.v
Gf256.v
Rslh.v
WalrusOpen.v
ReedSolomon.v
BlobEncoding.v
BlobMatrix.v
Decoder.v
Slivers.v
GeneralSymbols.v
Rejection.v
Mp4.v
VideoSampling.v
DatasetSampling.v
Multiproof.v
SymbolReader.v
HostOpening.v
EncodedBlob.v
Consistency.v
Agreement.v
Quilt.v
QuiltLayout.v
QuiltRoundtrip.v
QuiltDecoder.v
VssGuest.v
VddGuest.v
VddRslh.v
VddRslhRuns.v
Archive.v
ClusterGuest.v
FlowGuest.v
ExactOpenings.v
VideoGuest.v
