(* ===== verification/Prelude.v ===== *)
(** * TrustDrop: a verification development

    TrustDrop sells encrypted files.  A seller stores the ciphertext of an asset
    on Walrus or Filecoin and publishes digests of the original and of the key
    and the address of the ciphertext; zkVM guests prove that the three belong
    together (delivery), or that samples shown to buyers are the parts of the
    committed asset that a public seed selects (sampling).  The development
    translates the Rust code of these programs and of the libraries they run
    ([drop-lib], [walrus-core], [extensions/dataset-sampling]) into functions and
    proves what an accepted proof means, and that honest hosts are accepted.

    ** Files and the code they model

    - Shared: [Prelude.v] (this file: bytes, machine integers, slices, vectors
      that are written in place, the outcome monad, hints and tactics) and
      [Crypto.v] (hash functions and key stream, a class with its laws).
    - Encryption: [Chacha8.v] ([drop-lib/src/chacha8.rs], [kdf.rs]), [Ecies.v]
      ([ecies.rs]), [ChunkMerkle.v] ([merkle.rs]), [VssGuest.v]
      ([guest/vss/program], [common.rs]).
    - Addresses: [Cid.v] ([cid.rs]); [WalrusMerkle.v] ([walrus-core/src/merkle.rs]);
      [WalrusConfig.v] ([bft.rs], [metadata.rs], [encoding/config.rs],
      [encoding/utils.rs], [lib.rs] and [drop-lib/src/walrus_blob_id.rs]);
      [ReedSolomon.v] ([encoding/symbols.rs], [encoding/basic_encoding.rs],
      [encoding/config.rs]); [BlobEncoding.v] and [BlobMatrix.v]
      ([encoding/blob_encoding.rs], [encoding/slivers.rs],
      [drop-lib/src/walrus_address.rs]); [EncodedBlob.v] joins them.
    - Reading encoded blobs: [Decoder.v] (the decoders of
      [encoding/basic_encoding.rs] and [encoding/blob_encoding.rs]), [Slivers.v]
      (verification and recovery of slivers, [inconsistency.rs]),
      [GeneralSymbols.v] ([encoding/symbols.rs]), [Consistency.v]
      ([decode_and_verify] of [encoding/config.rs] and its checks), [Agreement.v]
      (readers of inconsistently encoded blobs).
    - Quilts ([encoding/quilt_encoding.rs], [metadata.rs]): [Quilt.v] (data, index,
      symbol size, writing and reading), [QuiltLayout.v] (the matrix as a stream of
      columns), [QuiltRoundtrip.v] (construction and reading), [QuiltDecoder.v]
      (reading from slivers).
    - Delivery by sampling: [Gf256.v] and [Rslh.v] ([rslh_ve.rs]),
      [WalrusOpen.v] ([walrus_open.rs]).
    - Delivery guests and hosts: [VddGuest.v] ([guest/vdd/program-vdd-filecoin],
      [program-vdd-walrus]), [VddRslh.v] and [VddRslhRuns.v]
      ([program-vdd-walrus-rslhve] and its script).
    - Choice of samples: [Rejection.v], [VideoSampling.v]
      ([drop-lib/src/video_sampling]), [DatasetSampling.v]
      ([extensions/dataset-sampling]); [Mp4.v] ([video_sampling/mp4.rs]).
    - Sampling guests: [Multiproof.v], [SymbolReader.v] (the authenticated reader
      of [guest/*-sampling/program/src/main.rs]), [HostOpening.v] (the opening
      their scripts build), [Archive.v], [ClusterGuest.v], [FlowGuest.v],
      [ExactOpenings.v] (what their openings disclose), [VideoGuest.v].

    Operations keep their Rust names; a struct is a record, an enum an inductive
    type.  [Result] and panics are the [outcome] monad: [Ok], [Err] with the
    error type of the function, [Panic].  A guest has the error type
    [Empty_set]: it ends with its public values or panics, and a panic means that
    there is no proof.  Mutable vectors are threaded through the loops, and
    in-place writes keep their order ([ofold], [zip_update]).

    ** What the theorems show

    - Delivery: [VddGuest] (an accepted run shows that the file at the published
      address decrypts to the published original), [VddRslh] (an accepted run
      shows that in each challenged column the weighted deviations of the
      ciphertext cancel; the honest host is accepted for every asset), resting on
      [WalrusOpen.column_check_exact], [Rslh.verify_rslh_ve_combat_spec] and
      [Gf256.gf256_field].  [VssGuest], [ChunkMerkle] and [Ecies] are round trips.
    - Addresses: the three blob encoders agree and an identifier pins the blob
      ([EncodedBlob], with the numbers of shards for which the computation of an
      identifier panics); Merkle paths are complete and sound ([WalrusMerkle]); the
      two CID computations agree ([Cid]); the sizes of the encoding are exact and
      do not overflow ([WalrusConfig]).
    - Reading: enough distinct slivers give the blob back, whatever is mixed in
      among them ([Decoder], [Consistency]); a sliver passes its verification
      exactly when it is the encoder's, recovery symbols that pass theirs give
      the encoder's sliver, and no proof of inconsistency exists for an encoded
      blob while every generated one is accepted ([Slivers]); the strict check,
      and the default one when it is made on every row, let only the committed
      blob through ([Consistency], with an example where rows are skipped); two
      readers that make the default check of slivers without surplus agree, also
      on a blob that was encoded inconsistently ([Agreement]).
    - Quilts: a constructed quilt is parsed back from its bytes and gives its blobs,
      by identifier, by tag and by patch ([QuiltRoundtrip]); any slivers of its
      encoding that hold the columns of a patch give the blob ([QuiltDecoder]); the
      symbol size is the least that fits ([Quilt]); the construction does not panic,
      unless an empty blob ends the matrix ([QuiltRoundtrip]).
    - Sampling: a range read through an opening is that range of the committed
      blob ([SymbolReader], [Multiproof]), so that a run of a guest over an
      opening equals a run over the blob, whose samples are characterised
      ([ClusterGuest], [FlowGuest], [VideoGuest]); the cluster and flow graph
      guests accept openings of exactly the symbols that they need
      ([ExactOpenings]); the choice of the samples is deterministic and in range,
      and that of clusters is the first fresh draw for each ordinal
      ([VideoSampling], [DatasetSampling]); the parser of videos never panics ([Mp4]).

    Collision resistance is a hypothesis on the finite or explicit set of
    messages hashed in the runs a theorem compares ([inj_on]), never a global
    assumption.

    ** Integers, bounds and fuel

    [usize] and [u64] are 64 bits wide.  Integers are [Z]; where the code wraps,
    casts or checks, the model does ([checked_add] and the like return [None]),
    and range hypotheses state what the Rust types promise.  Where the
    model follows a plain operator into overflow, it panics, as a build with
    overflow checks does.  Allocations succeed.  Loops over ranges and
    collections are structural; the others have fuel.  The caller's fuel bounds
    the splitting loop of [ChunkMerkle] (the length of the file is enough for
    every positive chunk size, none is for zero) and the rejection samplers,
    unbounded in the code, whose theorems hold for each fuel that reaches an
    accepted candidate (for the cluster sampler, exactly when the reference
    selection exists).  The other loops get their fuel from their data: the box
    loop of [Mp4] the bytes of the range (a box takes eight), its chunk table the
    entries, [read_origin_range] the symbols of the range, the levels of a Merkle
    tree or of a multiproof the leaves (a level halves), a varint its ten bytes,
    the pruning of [HostOpening] the width, the cells of a quilt the bytes to
    transfer (a cell takes one), the search of its symbol size the interval.
    The theorems on these functions describe their complete results, so that a
    loop that stopped early would contradict them; the samplers and the
    splitting loop answer [OutOfFuel].

    ** Parameters

    Crates outside the repository are classes with the documented facts that the
    code relies on, each with an executable instance on which the witnesses run:
    [Crypto] (sha2, blake3, BLAKE2b, ChaCha8), [Ecdh] (k256), [CidApi] (cid), [Bcs]
    (bcs: round trips, and a width that does not depend on the indices),
    [ReedSolomon], [ReedSolomonDecode], [ReedSolomonCommutes] and
    [ReedSolomonRestores] (reed-solomon-simd: sizes, restoration from enough
    shards, rows and columns encoded in either order, only missing shards
    restored).  The opening readers of the cluster and the
    flow graph guest are the same text and are modelled once.

    ** Not modelled

    ABI encodings made by alloy macros, serde, display code, command lines, files,
    HTTP and contract calls, and the prover ([drop-cli], [drop-script], [storage],
    [sdk] but for its key derivations, the scripts around the hosts), because they
    hold no logic of the protocol; [elgamal.rs] and [poseidon.rs], thin layers
    over crates; the storage-node messages of [walrus-core], which the programs do
    not use. *)

From stdpp Require Export base tactics list numbers strings gmap.
From Stdlib Require Export ZArith Lia.
#[global] Open Scope Z_scope.
#[global] Set Default Goal Selector "1".

(** ** Outcomes

    Rust code answers in one of four ways: it returns [Ok], it returns [Err],
    it panics (a failed [assert!], [expect], [unwrap], an index out of range,
    a panicking guest), or a loop of the model has used up its fuel (the code
    is still running). *)
Inductive outcome (E A : Type) : Type :=
  | Ok (a : A)
  | Err (e : E)
  | Panic (msg : string)
  | OutOfFuel.
Arguments Ok {E A} a.
Arguments Err {E A} e.
Arguments Panic {E A} msg.
Arguments OutOfFuel {E A}.

#[export] Instance outcome_ret {E} : MRet (outcome E) := fun A a => Ok a.
#[export] Instance outcome_bind {E} : MBind (outcome E) := fun A B f m =>
  match m with
  | Ok a => f a
  | Err e => Err e
  | Panic s => Panic s
  | OutOfFuel => OutOfFuel
  end.

(** A guest program answers or panics: it returns no errors. *)
Abbreviation guest A := (outcome Empty_set A).

(** [opt.ok_or(e)?] *)
Definition ok_or {E A} (o : option A) (e : E) : outcome E A :=
  match o with Some a => Ok a | None => Err e end.

(** [opt.expect(msg)], [opt.unwrap()] and slice indexing. *)
Definition expect {E A} (o : option A) (msg : string) : outcome E A :=
  match o with Some a => Ok a | None => Panic msg end.

(** [if !b { return Err(e) }] *)
Definition ensure {E} (b : bool) (e : E) : outcome E unit :=
  if b then Ok tt else Err e.

(** [assert!(b, msg)] *)
Definition assert {E} (b : bool) (msg : string) : outcome E unit :=
  if b then Ok tt else Panic msg.

(** [res.expect(msg)]: an error becomes a panic. *)
Definition unwrap {E F A} (m : outcome E A) (msg : string) : outcome F A :=
  match m with
  | Ok a => Ok a
  | Err _ => Panic msg
  | Panic s => Panic s
  | OutOfFuel => OutOfFuel
  end.

(** [res.map_err(f)] *)
Definition map_err {E F A} (m : outcome E A) (f : E -> F) : outcome F A :=
  match m with
  | Ok a => Ok a
  | Err e => Err (f e)
  | Panic s => Panic s
  | OutOfFuel => OutOfFuel
  end.

(** A step without errors, in a function with errors of type [E]. *)
Definition no_error {E A} (m : outcome Empty_set A) : outcome E A :=
  map_err m (fun e : Empty_set => match e with end).

(** [for x in l { acc = f(acc, x)?; }] *)
Fixpoint ofold {E A B} (f : B -> A -> outcome E B) (acc : B) (l : list A)
    : outcome E B :=
  match l with
  | [] => Ok acc
  | x :: l' => acc' ← f acc x; ofold f acc' l'
  end.

(** [l.iter().map(f).collect::<Result<Vec<_>, _>>()] *)
Fixpoint omapM {E A B} (f : A -> outcome E B) (l : list A) : outcome E (list B) :=
  match l with
  | [] => Ok []
  | x :: l' => y ← f x; ys ← omapM f l'; Ok (y :: ys)
  end.

(** [for x in l { f(x)?; }] *)
Fixpoint oforall {E A} (f : A -> outcome E unit) (l : list A) : outcome E unit :=
  match l with
  | [] => Ok tt
  | x :: l' => f x ;; oforall f l'
  end.

Definition is_ok {E A} (m : outcome E A) : bool :=
  match m with Ok _ => true | _ => false end.

Section Outcome.
Context {E : Type}.
Implicit Types A B : Type.

Lemma bind_Ok_inv {A B} (m : outcome E A) (f : A -> outcome E B) b :
  (m ≫= f) = Ok b <-> exists a, m = Ok a /\ f a = Ok b.
Proof.
  split; [|by intros (a & -> & ?)].
  destruct m; cbn; intros H; [eauto|discriminate..].
Qed.

Lemma Ok_inj {A} (a b : A) : @Ok E A a = Ok b -> a = b.
Proof. by intros [= ->]. Qed.
Lemma ensure_Ok (b : bool) (e : E) u : ensure b e = Ok u <-> b = true.
Proof. destruct b, u; cbn; split; congruence. Qed.

Lemma assert_Ok (b : bool) s u : @assert E b s = Ok u <-> b = true.
Proof. destruct b, u; cbn; split; congruence. Qed.

Lemma ok_or_Ok {A} (o : option A) (e : E) a : ok_or o e = Ok a <-> o = Some a.
Proof. destruct o; cbn; split; congruence. Qed.

Lemma expect_Ok {A} (o : option A) s a : @expect E A o s = Ok a <-> o = Some a.
Proof. destruct o; cbn; split; congruence. Qed.

Lemma unwrap_Ok {F A} (m : outcome E A) s a : @unwrap E F A m s = Ok a <-> m = Ok a.
Proof. destruct m; cbn; split; congruence. Qed.

Lemma map_err_Ok {F A} (m : outcome E A) (f : E -> F) a :
  map_err m f = Ok a <-> m = Ok a.
Proof. destruct m; cbn; split; congruence. Qed.

Lemma no_error_Ok {A} (m : outcome Empty_set A) a : @no_error E A m = Ok a <-> m = Ok a.
Proof. destruct m as [|[]| |]; cbn; split; congruence. Qed.

Lemma ofold_app {A B} (f : B -> A -> outcome E B) acc l1 l2 :
  ofold f acc (l1 ++ l2) = (acc' ← ofold f acc l1; ofold f acc' l2).
Proof.
  revert acc; induction l1 as [|x l1 IH]; intros acc; cbn; [done|].
  destruct (f acc x); cbn; [apply IH|done..].
Qed.

(** Invariant rule for a loop over a list. *)
Lemma ofold_inv {A B} (P : list A -> B -> Prop) (f : B -> A -> outcome E B) acc l r :
  P [] acc ->
  (forall done x todo b b', l = done ++ x :: todo -> P done b -> f b x = Ok b' ->
     P (done ++ [x]) b') ->
  ofold f acc l = Ok r -> P l r.
Proof.
  intros H0 Hstep.
  enough (forall todo done b, l = done ++ todo -> P done b ->
            ofold f b todo = Ok r -> P l r) as H by (intros; by eapply (H l [])).
  induction todo as [|x todo IH]; intros done b -> Hb; cbn.
  - rewrite app_nil_r. by intros [= ->].
  - intros (b' & Hf & Hr)%bind_Ok_inv.
    eapply (IH (done ++ [x]) b'); [by rewrite <- app_assoc|eauto|done].
Qed.

Lemma omapM_Ok {A B} (f : A -> outcome E B) l l' :
  omapM f l = Ok l' <-> Forall2 (fun x y => f x = Ok y) l l'.
Proof.
  split.
  - revert l'; induction l as [|x l IH]; intros l'; cbn; [by intros [= <-]|].
    intros (y & Hy & (ys & Hys & [= <-])%bind_Ok_inv)%bind_Ok_inv.
    constructor; [done|by apply IH].
  - induction 1 as [|x y l l' Hx _ IH]; cbn; [done|]. by rewrite Hx; cbn; rewrite IH.
Qed.

Lemma omapM_fmap {A B} (f : A -> outcome E B) (g : A -> B) l :
  (forall x, x ∈ l -> f x = Ok (g x)) -> omapM f l = Ok (g <$> l).
Proof.
  intros H. apply omapM_Ok. apply Forall2_fmap_r, Forall_Forall2_diag, Forall_forall, H.
Qed.

Lemma oforall_Ok {A} (f : A -> outcome E unit) l u :
  oforall f l = Ok u <-> Forall (fun x => f x = Ok tt) l.
Proof.
  destruct u. induction l as [|x l IH]; cbn; [split; [constructor|done]|].
  rewrite Forall_cons, <- IH, bind_Ok_inv.
  split; [intros ([] & ? & ?); eauto|intros [-> ?]; eauto].
Qed.
End Outcome.

(** ** Runs that neither panic nor run out of fuel *)
Definition no_panic {E A} (m : outcome E A) : Prop :=
  match m with Ok _ | Err _ => True | _ => False end.
Create HintDb no_panic.

Section NoPanic.
Context {E : Type}.
Implicit Types A B : Type.

Lemma no_panic_bind {A B} (m : outcome E A) (f : A -> outcome E B) :
  no_panic m -> (forall a, m = Ok a -> no_panic (f a)) -> no_panic (m ≫= f).
Proof. destruct m; cbn; eauto. Qed.
Lemma no_panic_ok_or {A} (o : option A) (e : E) : no_panic (ok_or o e).
Proof. by destruct o. Qed.
Lemma no_panic_ensure (b : bool) (e : E) : no_panic (ensure b e).
Proof. by destruct b. Qed.
Lemma no_panic_if {A} (b : bool) (m n : outcome E A) :
  (b = true -> no_panic m) -> (b = false -> no_panic n) -> no_panic (if b then m else n).
Proof. destruct b; eauto. Qed.
Lemma no_panic_expect {A} (o : option A) s : is_Some o -> no_panic (@expect E A o s).
Proof. by intros [a ->]. Qed.
Lemma no_panic_ofold {A B} (P : B -> Prop) (f : B -> A -> outcome E B) acc l :
  P acc -> (forall b x, x ∈ l -> P b -> no_panic (f b x) /\ (forall b', f b x = Ok b' -> P b')) ->
  no_panic (ofold f acc l).
Proof.
  revert acc. induction l as [|x l IH]; intros acc Hacc Hf; cbn [ofold]; [done|].
  destruct (Hf acc x) as [Hn Hp]; [set_solver|done|].
  apply no_panic_bind; [done|]. intros b Hb. apply IH; [by apply Hp|].
  intros b' y Hy. apply Hf. set_solver.
Qed.
Lemma no_panic_ofold_simple {A B} (f : B -> A -> outcome E B) acc l :
  (forall b x, x ∈ l -> no_panic (f b x)) -> no_panic (ofold f acc l).
Proof. intros H. apply (no_panic_ofold (fun _ => True)); [done|]. eauto. Qed.
Lemma no_panic_oforall {A} (f : A -> outcome E unit) l :
  (forall x, x ∈ l -> no_panic (f x)) -> no_panic (oforall f l).
Proof.
  induction l as [|x l IH]; intros Hf; cbn [oforall]; [done|].
  apply no_panic_bind; [apply Hf; set_solver|]. intros _ _. apply IH. intros y Hy. apply Hf. set_solver.
Qed.
Lemma no_panic_omapM {A B} (f : A -> outcome E B) l : (forall x, no_panic (f x)) -> no_panic (omapM f l).
Proof.
  intros Hf. induction l as [|x l IH]; cbn [omapM]; [done|].
  apply no_panic_bind; [apply Hf|intros y _]. by apply no_panic_bind.
Qed.
End NoPanic.
#[export] Hint Resolve no_panic_ok_or no_panic_ensure : no_panic.

(** [np] steps through straight-line code: binds, checks and branches. *)
Ltac np_step :=
  match goal with
  | |- no_panic (Ok _) => exact I
  | |- no_panic (Err _) => exact I
  | |- no_panic (ok_or _ _) => apply no_panic_ok_or
  | |- no_panic (ensure _ _) => apply no_panic_ensure
  | |- no_panic (_ ≫= _) => apply no_panic_bind; [|intros ? ?; cbv beta]
  | |- no_panic (if _ then _ else _) => apply no_panic_if; intros ?
  | |- no_panic (let _ := _ in _) => cbv zeta
  | |- no_panic (match ?x with _ => _ end) => destruct x eqn:?
  | |- no_panic _ => solve [auto with no_panic]
  end.
Ltac np := repeat np_step.

(** [inv_ok] turns a successful run of monadic code into its steps. *)
Ltac inv_ok_step :=
  match goal with
  | H : (_ ≫= _) = Ok _ |- _ =>
      apply bind_Ok_inv in H; destruct H as (? & ? & H)
  | H : ensure _ _ = Ok _ |- _ => apply ensure_Ok in H
  | H : assert _ _ = Ok _ |- _ => apply assert_Ok in H
  | H : ok_or _ _ = Ok _ |- _ => apply ok_or_Ok in H
  | H : expect _ _ = Ok _ |- _ => apply expect_Ok in H
  | H : unwrap _ _ = Ok _ |- _ => apply unwrap_Ok in H
  | H : map_err _ _ = Ok _ |- _ => apply map_err_Ok in H
  | H : Ok _ = Ok _ |- _ => injection H as H
  | H : Err _ = Ok _ |- _ => discriminate H
  | H : Panic _ = Ok _ |- _ => discriminate H
  | H : OutOfFuel = Ok _ |- _ => discriminate H
  | H : Some _ = Some _ |- _ => injection H as H
  | H : None = Some _ |- _ => discriminate H
  | x : unit |- _ => destruct x
  end.
Ltac inv_ok := cbn beta in *; repeat (inv_ok_step; cbn beta iota in *).

Ltac bool_hyps :=
  repeat match goal with
  | H : (_ && _)%bool = true |- _ => apply andb_true_iff in H as [? ?]
  | H : (_ || _)%bool = true |- _ => apply orb_true_iff in H
  | H : (_ || _)%bool = false |- _ => apply orb_false_iff in H as [? ?]
  | H : negb _ = true |- _ => apply negb_true_iff in H
  | H : negb _ = false |- _ => apply negb_false_iff in H
  | H : bool_decide _ = true |- _ => apply bool_decide_eq_true in H
  | H : bool_decide _ = false |- _ => apply bool_decide_eq_false in H
  | H : (_ <? _) = true |- _ => apply Z.ltb_lt in H
  | H : (_ <? _) = false |- _ => apply Z.ltb_ge in H
  | H : (_ <=? _) = true |- _ => apply Z.leb_le in H
  | H : (_ <=? _) = false |- _ => apply Z.leb_gt in H
  | H : (_ =? _) = true |- _ => apply Z.eqb_eq in H
  | H : (_ =? _) = false |- _ => apply Z.eqb_neq in H
  end.

(** ** Machine integers

    A [w]-bit integer is a [Z]; the checked operations of Rust answer [None]
    outside the range of the type, the casts wrap. *)
Definition u64_max : Z := 2 ^ 64 - 1.
Definition i64_max : Z := 2 ^ 63 - 1.
Definition i64_min : Z := - 2 ^ 63.

(** [u64] and [i64] results of [checked_add], [checked_sub], [checked_mul] and
    [try_from]. *)
Definition to_u64 (z : Z) : option Z :=
  if (0 <=? z) && (z <? 2 ^ 64) then Some z else None.
Definition to_i64 (z : Z) : option Z :=
  if (- 2 ^ 63 <=? z) && (z <? 2 ^ 63) then Some z else None.
Definition to_u128 (z : Z) : option Z :=
  if (0 <=? z) && (z <? 2 ^ 128) then Some z else None.

(** [z as u32], [z as i32], [z as i64], [wrapping_add]. *)
Definition wrap (w z : Z) : Z := z `mod` 2 ^ w.
Definition swrap (w z : Z) : Z := (z + 2 ^ (w - 1)) `mod` 2 ^ w - 2 ^ (w - 1).

Definition is_byte (z : Z) : Prop := 0 <= z < 256.
Abbreviation bytes := (list Z).
Abbreviation is_bytes := (Forall is_byte).
Abbreviation zlen l := (Z.of_nat (length l)).

(** Byte string literals. *)
Definition ascii_bytes (s : string) : bytes :=
  (fun c => Z.of_N (Ascii.N_of_ascii c)) <$> String.list_ascii_of_string s.

Lemma to_u64_Some z r : to_u64 z = Some r <-> r = z /\ 0 <= z < 2 ^ 64.
Proof.
  unfold to_u64. destruct (Z.leb_spec 0 z), (Z.ltb_spec z (2 ^ 64)); cbn;
    naive_solver lia.
Qed.
Lemma to_i64_Some z r : to_i64 z = Some r <-> r = z /\ - 2 ^ 63 <= z < 2 ^ 63.
Proof.
  unfold to_i64. destruct (Z.leb_spec (- 2 ^ 63) z), (Z.ltb_spec z (2 ^ 63)); cbn;
    naive_solver lia.
Qed.
Lemma to_u128_Some z r : to_u128 z = Some r <-> r = z /\ 0 <= z < 2 ^ 128.
Proof.
  unfold to_u128. destruct (Z.leb_spec 0 z), (Z.ltb_spec z (2 ^ 128)); cbn;
    naive_solver lia.
Qed.
Lemma to_u64_ok z : 0 <= z < 2 ^ 64 -> to_u64 z = Some z.
Proof. intros Hz. by apply to_u64_Some. Qed.
Lemma to_u64_None z : z < 0 \/ 2 ^ 64 <= z -> to_u64 z = None.
Proof.
  intros Hz. destruct (to_u64 z) as [r|] eqn:Hr; [|done]. apply to_u64_Some in Hr. lia.
Qed.
Lemma wrap_range w z : 0 <= w -> 0 <= wrap w z < 2 ^ w.
Proof. intros. apply Z.mod_pos_bound. lia. Qed.
Lemma wrap_small w z : 0 <= z < 2 ^ w -> wrap w z = z.
Proof. intros. by apply Z.mod_small. Qed.

(** Big- and little-endian encodings of width [n]. *)
Fixpoint le_bytes (n : nat) (z : Z) : bytes :=
  match n with O => [] | S n => z `mod` 256 :: le_bytes n (z `div` 256) end.
Fixpoint le_val (l : bytes) : Z :=
  match l with [] => 0 | b :: l => b + 256 * le_val l end.
Definition be_bytes (n : nat) (z : Z) : bytes := rev (le_bytes n z).
Definition be_val (l : bytes) : Z := le_val (rev l).

Lemma le_bytes_length n z : length (le_bytes n z) = n.
Proof. revert z; induction n as [|n IH]; intros z; cbn; [done|by rewrite IH]. Qed.
Lemma le_bytes_bytes n z : is_bytes (le_bytes n z).
Proof.
  revert z; induction n as [|n IH]; intros z; cbn; constructor; [|apply IH].
  apply Z.mod_pos_bound; lia.
Qed.
Lemma pow_256_S n : 2 ^ (8 * Z.of_nat (S n)) = 256 * 2 ^ (8 * Z.of_nat n).
Proof.
  replace (8 * Z.of_nat (S n)) with (8 + 8 * Z.of_nat n) by lia.
  rewrite Z.pow_add_r by lia. change (2 ^ 8) with 256. ring.
Qed.
Lemma le_val_bytes n z : 0 <= z < 2 ^ (8 * Z.of_nat n) -> le_val (le_bytes n z) = z.
Proof.
  revert z; induction n as [|n IH]; intros z Hz; cbn [le_val le_bytes].
  - change (2 ^ (8 * Z.of_nat 0)) with 1 in Hz. lia.
  - rewrite pow_256_S in Hz. rewrite IH.
    + pose proof (Z.div_mod z 256). lia.
    + split; [apply Z.div_pos; lia|apply Z.div_lt_upper_bound; lia].
Qed.
Lemma le_bytes_val l : is_bytes l -> le_bytes (length l) (le_val l) = l.
Proof.
  unfold is_byte. induction 1 as [|b l Hb _ IH]; cbn [le_val le_bytes length]; [done|].
  rewrite (Z.mul_comm 256), Z.add_comm, Z.div_add_l, Z.add_comm, Z.mod_add by lia.
  rewrite (Z.div_small b), Z.mod_small, Z.add_0_r by lia. by rewrite IH.
Qed.
Lemma le_val_range l : is_bytes l -> 0 <= le_val l < 2 ^ (8 * zlen l).
Proof.
  unfold is_byte. induction 1 as [|b l Hb _ IH]; cbn [le_val length]; [done|].
  rewrite pow_256_S. lia.
Qed.
Lemma be_bytes_length n z : length (be_bytes n z) = n.
Proof. unfold be_bytes. by rewrite length_rev, le_bytes_length. Qed.
Lemma be_bytes_bytes n z : is_bytes (be_bytes n z).
Proof. unfold be_bytes. apply Forall_rev, le_bytes_bytes. Qed.
Lemma be_val_bytes n z : 0 <= z < 2 ^ (8 * Z.of_nat n) -> be_val (be_bytes n z) = z.
Proof. unfold be_val, be_bytes. rewrite rev_involutive. apply le_val_bytes. Qed.
Lemma be_bytes_val l : is_bytes l -> be_bytes (length l) (be_val l) = l.
Proof.
  intros H. unfold be_bytes, be_val. rewrite <- (length_rev l).
  rewrite le_bytes_val by by apply Forall_rev. apply rev_involutive.
Qed.
Lemma be_val_range l : is_bytes l -> 0 <= be_val l < 2 ^ (8 * zlen l).
Proof.
  intros H. unfold be_val. rewrite <- (length_rev l). by apply le_val_range, Forall_rev.
Qed.
Lemma be_bytes_inj n x y :
  0 <= x < 2 ^ (8 * Z.of_nat n) -> 0 <= y < 2 ^ (8 * Z.of_nat n) ->
  be_bytes n x = be_bytes n y -> x = y.
Proof. intros ?? H. by rewrite <- (be_val_bytes n x), H, be_val_bytes. Qed.

(** ** Slices *)

(** [data.get(off..off + len)] *)
Definition get_range {A} (l : list A) (off len : Z) : option (list A) :=
  if (0 <=? off) && (0 <=? len) && (off + len <=? zlen l)
  then Some (take (Z.to_nat len) (drop (Z.to_nat off) l)) else None.

(** [data.get(off..)] *)
Definition get_from {A} (l : list A) (off : Z) : option (list A) :=
  if (0 <=? off) && (off <=? zlen l) then Some (drop (Z.to_nat off) l) else None.

(** [data[i]] for a machine integer [i]. *)
Definition get_at {A} (l : list A) (i : Z) : option A :=
  if (0 <=? i) && (i <? zlen l) then l !! Z.to_nat i else None.

Section Slices.
Context {A : Type}.
Implicit Types l r : list A.

Lemma get_range_Some l off len r :
  get_range l off len = Some r <->
  0 <= off /\ 0 <= len /\ off + len <= zlen l /\
  r = take (Z.to_nat len) (drop (Z.to_nat off) l).
Proof.
  unfold get_range.
  destruct (Z.leb_spec 0 off), (Z.leb_spec 0 len), (Z.leb_spec (off + len) (zlen l)); cbn;
    split; try congruence; try (intros (?&?&?&?); lia); [|intros (_&_&_&->); done].
  intros [= <-]. repeat split; lia.
Qed.
Lemma get_range_length l off len r :
  get_range l off len = Some r -> zlen r = len.
Proof.
  intros (?&?&?&->)%get_range_Some. rewrite length_take, length_drop. lia.
Qed.
Lemma get_range_is_Some l off len :
  0 <= off -> 0 <= len -> off + len <= zlen l -> is_Some (get_range l off len).
Proof. intros. eexists. apply get_range_Some. done. Qed.
Lemma get_at_Some l i x :
  get_at l i = Some x <-> 0 <= i < zlen l /\ l !! Z.to_nat i = Some x.
Proof.
  unfold get_at. destruct (Z.leb_spec 0 i), (Z.ltb_spec i (zlen l)); cbn; naive_solver lia.
Qed.
Lemma get_from_Some l off r :
  get_from l off = Some r <-> 0 <= off <= zlen l /\ r = drop (Z.to_nat off) l.
Proof.
  unfold get_from. destruct (Z.leb_spec 0 off), (Z.leb_spec off (zlen l)); cbn; naive_solver lia.
Qed.
Lemma get_range_Forall (P : A -> Prop) l off len r :
  Forall P l -> get_range l off len = Some r -> Forall P r.
Proof. intros H (_&_&_&->)%get_range_Some. by apply Forall_take, Forall_drop. Qed.
End Slices.

(** [data.chunks(n)]: consecutive blocks of [n] elements, the last one shorter. *)
Fixpoint chunks_go {A} (fuel n : nat) (l : list A) : list (list A) :=
  match fuel, l with
  | O, _ | _, [] => []
  | S fuel, _ => take n l :: chunks_go fuel n (drop n l)
  end.
Definition chunks {A} (n : nat) (l : list A) : list (list A) := chunks_go (length l) n l.

Section Chunks.
Context {A : Type}.
Implicit Types l : list A.
Local Open Scope nat_scope.

Lemma chunks_go_fuel n fuel l :
  0 < n -> length l <= fuel -> chunks_go fuel n l = chunks n l.
Proof.
  intros Hn. revert l. unfold chunks.
  induction fuel as [fuel IH] using lt_wf_ind; intros l Hl.
  destruct l as [|x l]; [by destruct fuel|]. destruct fuel as [|fuel]; [cbn in Hl; lia|].
  cbn [chunks_go length]. f_equal.
  assert (length (drop n (x :: l)) <= length l) by (rewrite length_drop; cbn; lia).
  cbn in Hl. rewrite (IH fuel), (IH (length l)) by lia. done.
Qed.
Lemma chunks_cons n l :
  0 < n -> l <> [] -> chunks n l = take n l :: chunks n (drop n l).
Proof.
  intros Hn Hl. destruct l as [|x l]; [done|].
  unfold chunks at 1; cbn [chunks_go length]. f_equal. apply chunks_go_fuel; [done|].
  rewrite length_drop; cbn; lia.
Qed.
Lemma chunks_nil n : chunks n (@nil A) = [].
Proof. done. Qed.

Lemma chunks_ind n (Hn : 0 < n) (P : list A -> Prop) :
  P [] -> (forall l, l <> [] -> P (drop n l) -> P l) -> forall l, P l.
Proof.
  intros H0 HS. induction l as [l IH] using (induction_ltof1 _ (@length A)).
  unfold ltof in IH. destruct l as [|x l]; [done|].
  apply HS; [done|]. apply IH. rewrite length_drop; cbn; lia.
Qed.

Lemma concat_chunks n l : 0 < n -> concat (chunks n l) = l.
Proof.
  intros Hn. induction l as [|l Hl IH] using (chunks_ind n Hn); [done|].
  rewrite chunks_cons by done. cbn. by rewrite IH, take_drop.
Qed.
Lemma chunks_length_le n l : 0 < n -> Forall (fun c => 0 < length c <= n) (chunks n l).
Proof.
  intros Hn. induction l as [|l Hl IH] using (chunks_ind n Hn); [constructor|].
  rewrite chunks_cons by done. constructor; [|done].
  rewrite length_take. destruct l; [done|cbn; lia].
Qed.
Lemma chunks_inj n l1 l2 : 0 < n -> chunks n l1 = chunks n l2 -> l1 = l2.
Proof. intros Hn H. by rewrite <- (concat_chunks n l1), H, concat_chunks. Qed.
Lemma chunks_singleton n l : l <> [] -> length l <= n -> chunks n l = [l].
Proof.
  intros Hl Hn. assert (0 < length l) by (destruct l; [done|cbn; lia]).
  rewrite chunks_cons by (done || lia). rewrite take_ge, drop_ge by lia. done.
Qed.
Lemma chunks_cons_app n l1 l2 :
  0 < n -> length l1 = n -> chunks n (l1 ++ l2) = l1 :: chunks n l2.
Proof.
  intros Hn H. rewrite chunks_cons by (done || (destruct l1; [cbn in H; lia|done])).
  by rewrite take_app_length', drop_app_length' by done.
Qed.
End Chunks.

(** Induction two elements at a time, for the levels of Merkle trees. *)
Lemma list_ind2 {A} (P : list A -> Prop) :
  P [] -> (forall x, P [x]) -> (forall x y l, P l -> P (x :: y :: l)) -> forall l, P l.
Proof.
  intros H0 H1 H2 l. enough (P l /\ forall x, P (x :: l)) by naive_solver.
  induction l as [|x l [IH1 IH2]]; split; eauto.
Qed.

Lemma div2_lt n : (1 < n)%nat -> (0 < (n + 1) / 2 < n)%nat.
Proof.
  intros H. split; [apply Nat.div_str_pos; lia|apply Nat.Div0.div_lt_upper_bound; lia].
Qed.

(** Facts about bytes by evaluation on all 256 of them. *)
Lemma byte_check (P : Z -> bool) :
  forallb P (seqZ 0 256) = true -> forall b, is_byte b -> P b = true.
Proof.
  intros H b Hb. rewrite forallb_forall in H. apply H.
  apply list_elem_of_In, elem_of_seqZ. unfold is_byte in Hb. lia.
Qed.
Definition is_byteb (b : Z) : bool := (0 <=? b) && (b <? 256).
Lemma forallb_Forall {A} (f : A -> bool) (P : A -> Prop) l :
  (forall x, f x = true -> P x) -> forallb f l = true -> Forall P l.
Proof.
  intros Hf H. apply Forall_forall. intros x Hx. rewrite forallb_forall in H.
  by apply Hf, H, list_elem_of_In.
Qed.
Lemma is_bytes_check l : forallb is_byteb l = true -> is_bytes l.
Proof. apply forallb_Forall. unfold is_byteb. intros b Hb. by bool_hyps. Qed.

Lemma list_filter_all {A} (P : A -> Prop) `{forall x, Decision (P x)} l :
  Forall P l -> filter P l = l.
Proof.
  induction 1 as [|x l Hx _ IH]; [done|]. by rewrite filter_cons_True, IH.
Qed.
Lemma list_filter_none {A} (P : A -> Prop) `{forall x, Decision (P x)} l :
  Forall (fun x => ~ P x) l -> filter P l = [].
Proof.
  induction 1 as [|x l Hx _ IH]; [done|]. by rewrite filter_cons_False, IH.
Qed.

Lemma list_filter_ext_in {A} (P Q : A -> Prop) `{forall x, Decision (P x)} `{forall x, Decision (Q x)} (l : list A) :
  (forall x, x ∈ l -> P x <-> Q x) -> filter P l = filter Q l.
Proof.
  induction l as [|x l IH]; intros HPQ; [done|]. rewrite !filter_cons, IH by set_solver.
  pose proof (HPQ x ltac:(set_solver)). by destruct (decide (P x)), (decide (Q x)); try naive_solver.
Qed.

(** [vec![0u8; n]] *)
Definition zeros (n : Z) : bytes := replicate (Z.to_nat n) 0.

Lemma zeros_length n : length (zeros n) = Z.to_nat n.
Proof. apply length_replicate. Qed.
Lemma zeros_nth n i : nth i (zeros n) 0 = 0.
Proof.
  rewrite nth_lookup. destruct (_ !! i) eqn:H; [|done]. by apply lookup_replicate in H as [-> _].
Qed.

(** [data[start..start + piece.len()].copy_from_slice(piece)], in range. *)
Definition splice (data : bytes) (start : Z) (piece : bytes) : bytes :=
  take (Z.to_nat start) data ++ piece ++ drop (Z.to_nat start + length piece) data.

Lemma get_range_app {A} (a b c : list A) off len : off = zlen a -> len = zlen b ->
  get_range (a ++ b ++ c) off len = Some b.
Proof.
  intros -> ->. apply get_range_Some. rewrite !length_app. split_and!; [lia..|].
  rewrite !Nat2Z.id, drop_app_length. by rewrite take_app_length.
Qed.
Lemma splice_length l s d : 0 <= s -> s + zlen d <= zlen l -> length (splice l s d) = length l.
Proof. intros Hs Hd. unfold splice. rewrite !length_app, length_take, length_drop. lia. Qed.
Lemma splice_same l s d : 0 <= s -> s + zlen d <= zlen l -> get_range (splice l s d) s (zlen d) = Some d.
Proof. intros Hs Hd. apply get_range_app; [rewrite length_take; lia|done]. Qed.
Lemma splice_lookup l s d x : 0 <= s -> s + zlen d <= zlen l ->
  ~ (s <= Z.of_nat x < s + zlen d) -> splice l s d !! x = l !! x.
Proof.
  intros Hs Hd Hx. unfold splice. destruct (decide (Z.of_nat x < s)).
  - rewrite lookup_app_l by (rewrite length_take; lia). apply lookup_take_lt. lia.
  - rewrite lookup_app_r, length_take by (rewrite length_take; lia).
    rewrite lookup_app_r, lookup_drop by lia. f_equal. lia.
Qed.
(** A range that does not meet what was written. *)
Lemma splice_apart l s d o n : 0 <= s -> s + zlen d <= zlen l -> o + n <= s \/ s + zlen d <= o ->
  get_range (splice l s d) o n = get_range l o n.
Proof.
  intros Hs Hd Hap. unfold get_range. rewrite splice_length by done.
  destruct (_ && _) eqn:Hc; [|done]. bool_hyps. f_equal. apply list_eq. intros i.
  destruct (decide (i < Z.to_nat n)%nat); [|rewrite !lookup_take_ge by lia; done].
  rewrite !lookup_take_lt, !lookup_drop by lia. apply splice_lookup; [done|done|]. lia.
Qed.

Lemma splice_lookup_in l s d x : 0 <= s -> s + zlen d <= zlen l ->
  s <= Z.of_nat x < s + zlen d -> splice l s d !! x = d !! (x - Z.to_nat s)%nat.
Proof.
  intros Hs Hd Hx. unfold splice. rewrite lookup_app_r, length_take by (rewrite length_take; lia).
  rewrite lookup_app_l by lia. f_equal. lia.
Qed.
Lemma splice_app l s d d' : 0 <= s -> s + zlen d + zlen d' <= zlen l ->
  splice (splice l s d) (s + zlen d) d' = splice l s (d ++ d').
Proof.
  intros Hs Hd. apply list_eq. intros x.
  assert (zlen (splice l s d) = zlen l) as Hl by (rewrite splice_length; lia).
  destruct (decide (s <= Z.of_nat x < s + zlen d)).
  { rewrite splice_lookup, !splice_lookup_in, lookup_app_l by (rewrite ?length_app; lia). done. }
  destruct (decide (s + zlen d <= Z.of_nat x < s + zlen d + zlen d')).
  - rewrite !splice_lookup_in, lookup_app_r by (rewrite ?length_app; lia). f_equal. lia.
  - rewrite !splice_lookup by (rewrite ?length_app; lia). done.
Qed.
Lemma splice_nil l s : 0 <= s <= zlen l -> splice l s [] = l.
Proof. intros Hs. unfold splice. cbn. by rewrite Nat.add_0_r, take_drop. Qed.
Lemma get_range_split {A} (l : list A) o n m r r' :
  get_range l o n = Some r -> get_range l (o + n) m = Some r' -> get_range l o (n + m) = Some (r ++ r').
Proof.
  rewrite !get_range_Some. intros (?&?&?&->) (_&?&?&->). split_and!; [lia..|].
  rewrite !Z2Nat.inj_add by lia. by rewrite <- drop_drop, take_take_drop.
Qed.

Lemma get_range_sub {A} (v : list A) o b off n r : get_range v o (zlen b) = Some b -> 0 <= off -> get_range b off n = Some r ->
  get_range v (o + off) n = Some r.
Proof.
  rewrite !get_range_Some. intros (Ho & _ & Hl & Hb) Hoff (_ & Hn & Hr & ->). split_and!; [lia..|].
  rewrite Hb, skipn_firstn_comm, take_take, drop_drop. f_equal; [lia|]. f_equal. lia.
Qed.

(** [data.chunks_exact(n)] *)
Definition chunks_exact (n : nat) (data : bytes) : list bytes :=
  filter (fun c => length c = n) (chunks n data).

Lemma chunks_exact_full n k (data : bytes) : (0 < n)%nat -> length data = (k * n)%nat ->
  chunks_exact n data = chunks n data /\ Forall (fun c => length c = n) (chunks n data).
Proof.
  intros Hn Hl. assert (Forall (fun c : bytes => length c = n) (chunks n data)) as Hall.
  { revert data Hl. induction k as [|k IH]; intros data Hl; cbn in Hl.
    { by destruct data. }
    rewrite chunks_cons by (first [done|by destruct data; cbn in Hl; [lia|]]).
    constructor; [rewrite length_take; lia|]. apply IH. rewrite length_drop. lia. }
  split; [|done]. by apply list_filter_all.
Qed.
Lemma chunks_concat n (cs : list bytes) : (0 < n)%nat -> Forall (fun c => length c = n) cs ->
  chunks n (concat cs) = cs.
Proof.
  intros Hn. induction 1 as [|c cs Hc _ IH]; [done|]. cbn [concat]. by rewrite chunks_cons_app, IH.
Qed.
Lemma chunks_length n k (data : bytes) : (0 < n)%nat -> length data = (k * n)%nat ->
  length (chunks n data) = k.
Proof.
  intros Hn. revert data. induction k as [|k IH]; intros data Hl; cbn in Hl; [by destruct data|].
  rewrite chunks_cons by (first [done|by destruct data; cbn in Hl; [lia|]]).
  cbn [length]. f_equal. apply IH. rewrite length_drop. lia.
Qed.
Lemma chunks_lookup n (data : bytes) i c : (0 < n)%nat -> chunks n data !! i = Some c ->
  c = take n (drop (i * n) data) /\ (i * n < length data)%nat.
Proof.
  intros Hn. revert i. induction data as [|data Hne IH] using (chunks_ind n Hn); intros i; [done|].
  rewrite chunks_cons by done. destruct i as [|i]; cbn [lookup list_lookup].
  - intros [= <-]. split; [done|]. destruct data; [done|cbn; lia].
  - intros [-> Hlt]%IH. rewrite drop_drop, length_drop in *. split; [|cbn; lia]. do 2 f_equal.
Qed.
Lemma chunks_lookup_None n (data : bytes) i : (0 < n)%nat -> chunks n data !! i = None -> (length data <= i * n)%nat.
Proof.
  intros Hn. revert i. induction data as [|data Hne IH] using (chunks_ind n Hn); intros i; [cbn; lia|].
  rewrite chunks_cons by done. destruct i as [|i]; cbn [lookup list_lookup]; [done|].
  intros H%IH. rewrite length_drop in H. cbn. lia.
Qed.
