(* ===== verification/Crypto.v ===== *)
(** The cryptographic crates the program calls, as one interface.

    [sha2], [blake3], fastcrypto's [Blake2b256] and [chacha20] are not part of
    the repository: they are the operations of a class [Crypto], with the
    documented facts the code relies on in [CryptoLaws] (digests are 32 bytes,
    keystream bytes are bytes).  [toy_crypto] is a concrete instance on which
    the theorems of the development are evaluated.

    Collision resistance is never assumed globally (it would be false of any
    function into 32 bytes): the binding theorems assume [inj_on H Q] for the
    explicit set [Q] of messages hashed in the runs they talk about. *)
From S2P Require Import Prelude.

Class Crypto := {
  sha256 : bytes -> bytes;
  blake3 : bytes -> bytes;
  blake2b256 : bytes -> bytes;
  (** [keystream key nonce pos]: byte [pos] of the ChaCha8 key stream; the crate
      panics past its end, at 256 GiB, which is not modelled. *)
  keystream : bytes -> bytes -> Z -> Z;
}.

Class CryptoLaws (C : Crypto) : Prop := {
  sha256_length m : length (sha256 m) = 32%nat;
  blake3_length m : length (blake3 m) = 32%nat;
  blake2b256_length m : length (blake2b256 m) = 32%nat;
  sha256_bytes m : is_bytes (sha256 m);
  blake3_bytes m : is_bytes (blake3 m);
  blake2b256_bytes m : is_bytes (blake2b256 m);
  keystream_byte k n p : is_byte (keystream k n p);
}.
Create HintDb crypto.
#[export] Hint Resolve sha256_length blake3_length blake2b256_length sha256_bytes
  blake3_bytes blake2b256_bytes keystream_byte : crypto.
#[export] Hint Rewrite @sha256_length @blake3_length @blake2b256_length
  using (typeclasses eauto) : crypto.

(** No two of the messages of [Q] collide under [H]. *)
Definition inj_on (H : bytes -> bytes) (Q : bytes -> Prop) : Prop :=
  forall x y, Q x -> Q y -> H x = H y -> x = y.

Lemma inj_on_weaken H (Q Q' : bytes -> Prop) :
  (forall x, Q' x -> Q x) -> inj_on H Q -> inj_on H Q'.
Proof. unfold inj_on. naive_solver. Qed.

Lemma fmap_inj_on H (Q : bytes -> Prop) cs1 cs2 :
  inj_on H Q -> (forall m, m ∈ cs1 ++ cs2 -> Q m) -> H <$> cs1 = H <$> cs2 -> cs1 = cs2.
Proof.
  intros Hinj. revert cs2. induction cs1 as [|c cs1 IH]; intros [|d cs2] HQ; try done.
  cbn. intros [= Hh Hr]. f_equal; [apply Hinj; [apply HQ; set_solver..|done]|].
  apply IH; [set_solver|done].
Qed.

(** Deciding injectivity on a concrete list of messages, hashing each once. *)
Definition inj_on_check (H : bytes -> bytes) (l : list bytes) : bool :=
  let hs := (fun x => (x, H x)) <$> remove_dups l in
  forallb (fun p => forallb (fun q => negb (bool_decide (p.2 = q.2)) || bool_decide (p.1 = q.1)) hs) hs.
Lemma inj_on_list H (l : list bytes) : inj_on_check H l = true -> inj_on H (fun m => m ∈ l).
Proof.
  unfold inj_on_check. intros Hb x y Hx Hy Heq. rewrite <- elem_of_remove_dups in Hx, Hy.
  rewrite forallb_forall in Hb.
  specialize (Hb (x, H x)). rewrite <- list_elem_of_In in Hb.
  specialize (Hb ltac:(apply list_elem_of_fmap; eauto)). rewrite forallb_forall in Hb.
  specialize (Hb (y, H y)). rewrite <- list_elem_of_In in Hb.
  specialize (Hb ltac:(apply list_elem_of_fmap; eauto)). cbn in Hb.
  apply orb_true_iff in Hb as [Hb|Hb]; [|by apply bool_decide_eq_true in Hb].
  by rewrite bool_decide_eq_true_2 in Hb.
Qed.

(** ** Exclusive or of byte strings *)

Lemma lxor_byte a b : is_byte a -> is_byte b -> is_byte (Z.lxor a b).
Proof.
  unfold is_byte. intros Ha Hb. split; [apply Z.lxor_nonneg; lia|].
  destruct (Z.eq_dec (Z.lxor a b) 0) as [->|Hne]; [lia|].
  assert (0 <= Z.lxor a b) by (apply Z.lxor_nonneg; lia).
  change 256 with (2 ^ 8). apply Z.log2_lt_pow2; [lia|].
  eapply Z.le_lt_trans; [apply Z.log2_lxor; lia|].
  apply Z.max_lub_lt; (destruct (Z.eq_dec a 0), (Z.eq_dec b 0); subst; cbn; try lia;
    apply Z.log2_lt_pow2; lia).
Qed.
Lemma lxor_cancel_r a b : Z.lxor (Z.lxor a b) b = a.
Proof. by rewrite Z.lxor_assoc, Z.lxor_nilpotent, Z.lxor_0_r. Qed.

(** [apply_keystream] of a cipher that was [seek]ed to byte [pos]. *)
Definition apply_keystream `{Crypto} (key nonce : bytes) (pos : Z) (buf : bytes) : bytes :=
  imap (fun i b => Z.lxor b (keystream key nonce (pos + Z.of_nat i))) buf.

Section Keystream.
Context `{HC : Crypto} {HL : CryptoLaws HC}.
Implicit Types key nonce buf : bytes.

Lemma apply_keystream_length key nonce pos buf :
  length (apply_keystream key nonce pos buf) = length buf.
Proof. apply length_imap. Qed.
Lemma apply_keystream_bytes key nonce pos buf :
  is_bytes buf -> is_bytes (apply_keystream key nonce pos buf).
Proof.
  intros Hb. apply Forall_lookup. intros i x. unfold apply_keystream.
  rewrite list_lookup_imap, fmap_Some. intros (b & Hi & ->).
  apply lxor_byte; [|apply keystream_byte]. by eapply Forall_lookup in Hb.
Qed.
Lemma apply_keystream_involutive key nonce pos buf :
  apply_keystream key nonce pos (apply_keystream key nonce pos buf) = buf.
Proof.
  apply list_eq. intros i. unfold apply_keystream. rewrite !list_lookup_imap.
  destruct (buf !! i); cbn; [|done]. by rewrite lxor_cancel_r.
Qed.
Lemma apply_keystream_lookup key nonce pos buf i b :
  buf !! i = Some b ->
  apply_keystream key nonce pos buf !! i
  = Some (Z.lxor b (keystream key nonce (pos + Z.of_nat i))).
Proof. intros Hb. unfold apply_keystream. by rewrite list_lookup_imap, Hb. Qed.
Lemma apply_keystream_app key nonce pos b1 b2 :
  apply_keystream key nonce pos (b1 ++ b2)
  = apply_keystream key nonce pos b1 ++ apply_keystream key nonce (pos + zlen b1) b2.
Proof.
  unfold apply_keystream. rewrite imap_app. f_equal. apply imap_ext. intros i x _.
  unfold compose. do 2 f_equal. lia.
Qed.
End Keystream.
#[export] Hint Rewrite @apply_keystream_length : crypto.

(** ** A concrete instance

    A linear feedback register of eight bytes, written four times, and a linear
    key stream: enough to evaluate every definition on concrete inputs. *)
Definition toy_step (lanes : bytes) (b : Z) : bytes :=
  match lanes with
  | x :: y :: _ => tail lanes ++ [Z.land (x * 5 + y * 3 + b * 7 + 29) 255]
  | _ => lanes
  end.
Definition toy_hash (tag : Z) (m : bytes) : bytes :=
  let lanes := fold_left toy_step m [tag; 1; 2; 3; 4; 5; 6; 7] in
  lanes ++ lanes ++ lanes ++ lanes.
Definition toy_keystream (key nonce : bytes) (pos : Z) : Z :=
  (fold_left Z.add key (fold_left Z.add nonce (pos * 7 + 13))) `mod` 256.
Lemma land_255_byte z : is_byte (Z.land z 255).
Proof. unfold is_byte. change 255 with (Z.ones 8). rewrite Z.land_ones by lia. apply Z.mod_pos_bound. lia. Qed.
Lemma toy_hash_ok tag m : is_byte tag -> length (toy_hash tag m) = 32%nat /\ is_bytes (toy_hash tag m).
Proof.
  intros Ht. unfold toy_hash.
  assert (forall l, length l = 8%nat -> is_bytes l ->
    length (fold_left toy_step m l) = 8%nat /\ is_bytes (fold_left toy_step m l)) as Hf.
  { induction m as [|b m IH]; intros l Hl Hb; [done|]. cbn [fold_left]. apply IH.
    - destruct l as [|x [|y l]]; [done..|]. cbn [toy_step tail]. rewrite length_app. cbn in *. lia.
    - destruct l as [|x [|y l]]; [done..|]. cbn [toy_step tail]. apply Forall_cons in Hb as [_ Hb].
      apply Forall_app. split; [exact Hb|]. constructor; [apply land_255_byte|constructor]. }
  destruct (Hf [tag; 1; 2; 3; 4; 5; 6; 7]) as [Hl Hb]; [done| |].
  - constructor; [done|]. unfold is_byte. repeat constructor; lia.
  - rewrite !length_app, Hl. split; [done|]. by repeat (apply Forall_app; split).
Qed.
#[export] Instance toy_crypto : Crypto := {
  sha256 := toy_hash 101;
  blake3 := toy_hash 202;
  blake2b256 := toy_hash 151;
  keystream := toy_keystream;
}.
#[export] Instance toy_crypto_laws : CryptoLaws toy_crypto.
Proof.
  split; intros; try (apply toy_hash_ok; unfold is_byte; lia).
  apply Z.mod_pos_bound. lia.
Qed.
