(* ===== verification/Chacha8.v ===== *)
(** Key derivation and the ChaCha8 wrappers: [drop-lib/src/chacha8.rs],
    [drop-lib/src/kdf.rs], [sdk/src/chacha8.rs] and the digest part of
    [sdk/src/key_manager.rs].  Keys and nonces are the 32- and 12-byte arrays
    the signatures ask for. *)
From S2P Require Import Prelude Crypto.

Section Chacha8.
Context `{HC : Crypto}.

(** SHA-256 over key and auxiliary data, truncated to 12 bytes. *)
Definition derive_nonce (key aux_data : bytes) : bytes :=
  take 12 (sha256 (key ++ aux_data)).

(** [cipher.seek(initial_counter as u64)] positions the key stream. *)
Definition chacha8_encrypt (msg key nonce : bytes) (initial_counter : Z)
    : outcome string bytes :=
  Ok (apply_keystream key nonce initial_counter msg).

Definition chacha8_encrypt_in_place (msg key nonce : bytes) (initial_counter : Z)
    : outcome string bytes :=
  Ok (apply_keystream key nonce initial_counter msg).

Definition chacha8_decrypt (msg key nonce : bytes) (initial_counter : Z)
    : outcome string bytes :=
  Ok (apply_keystream key nonce initial_counter msg).

Definition chacha8_seal (msg key aux_data : bytes) : outcome string bytes :=
  chacha8_encrypt msg key (derive_nonce key aux_data) 0.

(** The new contents of the buffer are the result. *)
Definition chacha8_seal_in_place (msg key aux_data : bytes) : outcome string bytes :=
  chacha8_encrypt_in_place msg key (derive_nonce key aux_data) 0.

Definition chacha8_unseal (msg key aux_data : bytes) : outcome string bytes :=
  chacha8_decrypt msg key (derive_nonce key aux_data) 0.

(** [kdf.rs]: the length test cannot fail on the array types of the
    signature, it is kept as written. *)
Definition key_derive (ecc_sk msg_hash : bytes) : outcome string bytes :=
  if negb (length ecc_sk =? 32)%nat || negb (length msg_hash =? 32)%nat
  then Err "输入密钥和哈希长度必须为 32 字节"
  else Ok (sha256 (ecc_sk ++ msg_hash)).

(** [sdk/src/chacha8.rs] *)
Definition sdk_chacha8_encrypt (data key nonce : bytes) (counter : Z)
    : outcome string bytes :=
  Ok (apply_keystream key nonce counter data).
Definition sdk_chacha8_decrypt (data key nonce : bytes) (counter : Z)
    : outcome string bytes :=
  sdk_chacha8_encrypt data key nonce counter.

(** [sdk/src/key_manager.rs]; the hex decoding of the key string is left
    out, the argument is the decoded key. *)
Definition SELLER_ASSET_KEY_DOMAIN : bytes :=
  [116; 114; 117; 115; 116; 100; 114; 111; 112; 58; 115; 101; 108; 108; 101; 114;
   45; 97; 115; 115; 101; 116; 45; 101; 110; 99; 114; 121; 112; 116; 105; 111;
   110; 45; 107; 101; 121; 58; 118; 49].
Definition derive_asset_encryption_key (seller_key : bytes) (chain_id : Z) : bytes :=
  blake3 (SELLER_ASSET_KEY_DOMAIN ++ be_bytes 8 chain_id ++ seller_key).
Definition asset_key_commitment (asset_encryption_key : bytes) : bytes :=
  blake3 asset_encryption_key.

Context {HL : CryptoLaws HC}.

Lemma derive_nonce_length key aux : length (derive_nonce key aux) = 12%nat.
Proof. unfold derive_nonce. rewrite length_take, sha256_length. done. Qed.

Lemma chacha8_seal_unseal msg key aux :
  (c ← chacha8_seal msg key aux; chacha8_unseal c key aux) = Ok msg.
Proof. exact (f_equal Ok (apply_keystream_involutive _ _ _ _)). Qed.
Lemma chacha8_unseal_seal msg key aux :
  (c ← chacha8_unseal msg key aux; chacha8_seal c key aux) = Ok msg.
Proof. exact (chacha8_seal_unseal msg key aux). Qed.
Lemma chacha8_seal_Ok msg key aux c :
  chacha8_seal msg key aux = Ok c ->
  length c = length msg /\ chacha8_unseal c key aux = Ok msg.
Proof.
  intros H. pose proof (chacha8_seal_unseal msg key aux) as Hr. rewrite H in Hr.
  split; [|done]. injection H as <-. apply apply_keystream_length.
Qed.

(** The encryption started at [initial_counter] is the encryption of the
    padded message from the start of the key stream, cut after
    [initial_counter] bytes: the counter counts bytes, not 64-byte blocks. *)
Lemma chacha8_counter_counts_bytes msg key nonce (c : nat) :
  chacha8_encrypt msg key nonce (Z.of_nat c)
  = (full ← chacha8_encrypt (replicate c 0 ++ msg) key nonce 0; Ok (drop c full)).
Proof.
  unfold chacha8_encrypt; cbn. f_equal. rewrite apply_keystream_app.
  rewrite drop_app_length'; rewrite ?apply_keystream_length, ?length_replicate; done.
Qed.
End Chacha8.
#[global] Arguments chacha8_seal : simpl never.
#[global] Arguments chacha8_unseal : simpl never.
#[global] Arguments chacha8_encrypt : simpl never.
#[global] Arguments chacha8_decrypt : simpl never.
