(* ===== verification/Ecies.v ===== *)
(** The key package a buyer stores on chain for a seller:
    [drop-lib/src/ecies.rs].  The elliptic-curve crate [k256] is the class
    [Ecdh]; the random ephemeral secret is an argument. *)
From S2P Require Import Prelude Crypto.

Class Ecdh := {
  scalar : Type;
  point : Type;
  secret_key_from_slice : bytes -> option scalar;
  public_key_from_sec1 : bytes -> option point;
  public_key : scalar -> point;
  encode_compressed : point -> bytes;
  diffie_hellman : scalar -> point -> bytes;
}.
Class EcdhLaws (D : Ecdh) : Prop := {
  encode_compressed_length p : length (encode_compressed p) = 33%nat;
  sec1_roundtrip p : public_key_from_sec1 (encode_compressed p) = Some p;
  dh_agree a b : diffie_hellman a (public_key b) = diffie_hellman b (public_key a);
}.

(** The messages of the [anyhow!] errors. *)
Inductive EciesError :=
  | InvalidRecipientPublicKey
  | InvalidSecretKey
  | InvalidEphemeralPublicKey
  | InvalidPackageLength (expected got : nat)
  | UnsupportedPackageVersion (version : Z).

Section Ecies.
Context `{HC : Crypto} `{HD : Ecdh}.

Definition PACKAGE_VERSION_XOR_SHA256_K256_COMPRESSED : Z := 1.
Definition COMPRESSED_PUBKEY_LEN : nat := 33.
Definition SECRET_LEN : nat := 32.

Definition encrypt (ephemeral_sk : scalar) (recipient_pubkey_bytes secret : bytes)
    : outcome EciesError (bytes * bytes) :=
  recipient_pubk ← ok_or (public_key_from_sec1 recipient_pubkey_bytes)
    InvalidRecipientPublicKey;
  let mask := sha256 (diffie_hellman ephemeral_sk recipient_pubk) in
  Ok (zip_with Z.lxor secret mask, encode_compressed (public_key ephemeral_sk)).

Definition encrypt_package (ephemeral_sk : scalar)
    (recipient_pubkey_bytes secret : bytes) : outcome EciesError bytes :=
  '(ciphertext, ephemeral_pubkey) ← encrypt ephemeral_sk recipient_pubkey_bytes secret;
  Ok ([PACKAGE_VERSION_XOR_SHA256_K256_COMPRESSED] ++ ephemeral_pubkey ++ ciphertext).

Definition decrypt (my_sk_bytes ciphertext ephemeral_pubkey_bytes : bytes)
    : outcome EciesError bytes :=
  my_sk ← ok_or (secret_key_from_slice my_sk_bytes) InvalidSecretKey;
  ephemeral_pk ← ok_or (public_key_from_sec1 ephemeral_pubkey_bytes)
    InvalidEphemeralPublicKey;
  let mask := sha256 (diffie_hellman my_sk ephemeral_pk) in
  Ok (zip_with Z.lxor ciphertext mask).

Definition decrypt_package (my_sk_bytes package : bytes) : outcome EciesError bytes :=
  let expected_len := (1 + COMPRESSED_PUBKEY_LEN + SECRET_LEN)%nat in
  ensure (length package =? expected_len)%nat
    (InvalidPackageLength expected_len (length package)) ;;
  version ← expect (package !! 0%nat) "index out of bounds";
  ensure (version =? PACKAGE_VERSION_XOR_SHA256_K256_COMPRESSED)
    (UnsupportedPackageVersion version) ;;
  let ephemeral_pubkey := take COMPRESSED_PUBKEY_LEN (drop 1 package) in
  let ciphertext := drop (1 + COMPRESSED_PUBKEY_LEN) package in
  decrypt my_sk_bytes ciphertext ephemeral_pubkey.

Context {HL : CryptoLaws HC} {HDL : EcdhLaws HD}.

Lemma zip_lxor_involutive (a m : bytes) :
  (length a <= length m)%nat -> zip_with Z.lxor (zip_with Z.lxor a m) m = a.
Proof.
  revert m; induction a as [|x a IH]; intros [|y m] Hlen; cbn in *; try done; [lia|].
  by rewrite lxor_cancel_r, IH by lia.
Qed.

(** what [encrypt_package] builds for a recipient, [decrypt_package]
    opens with the recipient's secret key and gives back the secret; the
    package is 66 bytes and starts with the version byte. *)
Theorem ecies_package_roundtrip (eph sk : scalar) pk_bytes sk_bytes secret :
  public_key_from_sec1 pk_bytes = Some (public_key sk) ->
  secret_key_from_slice sk_bytes = Some sk ->
  length secret = SECRET_LEN ->
  exists package,
    encrypt_package eph pk_bytes secret = Ok package /\
    length package = 66%nat /\ package !! 0%nat = Some 1 /\
    decrypt_package sk_bytes package = Ok secret.
Proof.
  intros Hpk Hsk Hlen. unfold encrypt_package, encrypt. rewrite Hpk; cbn.
  eexists; split; [done|].
  set (E := encode_compressed _). assert (length E = 33%nat) as HE
    by apply encode_compressed_length.
  set (M := sha256 _). assert (length M = 32%nat) as HM by apply sha256_length.
  assert (length (zip_with Z.lxor secret M) = 32%nat) as HX.
  { rewrite length_zip_with, Hlen, HM. done. }
  split; [cbn; rewrite length_app, HE, HX; done|]. split; [done|].
  unfold decrypt_package. cbn [length app]. rewrite length_app, HE, HX. cbn.
  change (drop 0 ?l) with l. unfold COMPRESSED_PUBKEY_LEN.
  rewrite take_app_length', drop_app_length' by done.
  unfold decrypt. rewrite Hsk. cbn. unfold E at 1. rewrite sec1_roundtrip. cbn.
  rewrite dh_agree. fold M. f_equal. apply zip_lxor_involutive. rewrite Hlen, HM. done.
Qed.

(** every package of the wrong length and every package of another
    version is refused before any key is touched, with the error that names
    what was wrong; acceptance implies both. *)
Theorem decrypt_package_rejects sk_bytes package :
  (length package <> 66%nat ->
     decrypt_package sk_bytes package = Err (InvalidPackageLength 66 (length package))) /\
  (forall v, length package = 66%nat -> package !! 0%nat = Some v -> v <> 1 ->
     decrypt_package sk_bytes package = Err (UnsupportedPackageVersion v)) /\
  (forall s, decrypt_package sk_bytes package = Ok s ->
     length package = 66%nat /\ package !! 0%nat = Some 1).
Proof.
  unfold decrypt_package. split; [|split].
  - intros Hl. unfold ensure.
    destruct (Nat.eqb_spec (length package) (1 + COMPRESSED_PUBKEY_LEN + SECRET_LEN));
      [by destruct Hl|done].
  - intros v Hl Hv Hne%Z.eqb_neq. rewrite Hl. cbn. rewrite Hv. cbn.
    unfold PACKAGE_VERSION_XOR_SHA256_K256_COMPRESSED. by rewrite Hne.
  - intros s H. inv_ok. apply Nat.eqb_eq in H0. apply Z.eqb_eq in H2 as ->. done.
Qed.
End Ecies.

(** A toy curve: the two-element field, where [dh a P = a * P]. *)
#[export] Instance toy_ecdh : Ecdh := {
  scalar := bool;
  point := bool;
  secret_key_from_slice b := if (length b =? 32)%nat then Some (Z.odd (le_val b)) else None;
  public_key_from_sec1 b :=
    match b with 2 :: _ => Some false | 3 :: _ => Some true | _ => None end;
  public_key a := a;
  encode_compressed p := (if p then 3 else 2) :: replicate 32 0;
  diffie_hellman a p := replicate 32 (if a && p then 1 else 0);
}.
#[export] Instance toy_ecdh_laws : EcdhLaws toy_ecdh.
Proof. split; [by intros []|by intros []|]. intros a b; cbn. by rewrite andb_comm. Qed.

Lemma ecies_package_roundtrip_witness :
  exists package,
    encrypt_package (HD := toy_ecdh) true (3 :: replicate 32 0) (replicate 32 9) = Ok package /\
    length package = 66%nat /\ package !! 0%nat = Some 1 /\
    decrypt_package (HD := toy_ecdh) (1 :: replicate 31 0) package = Ok (replicate 32 9).
Proof. apply (ecies_package_roundtrip (HD := toy_ecdh) true true); reflexivity. Defined.
