(* ===== verification/ChunkMerkle.v ===== *)
(** The chunked Merkle tree of [drop-lib/src/merkle.rs]: a file is cut into
    chunks, the BLAKE3 digests of the chunks are the leaves, a level of odd
    length repeats its last node.  [encrypt_merkle_tree] seals every chunk
    under a nonce bound to the root and the chunk index. *)
From S2P Require Import Prelude Crypto Chacha8.

Definition DEFAULT_CHUNK_SIZE : nat := 1024 * 1024.

Record MerkleTree := {
  mt_chunks : list bytes;
  mt_layers : list (list bytes);
}.

Section ChunkMerkle.
Context `{HC : Crypto}.

(** [self.layers.last().unwrap()[0]] *)
Definition root (t : MerkleTree) : outcome string bytes :=
  layer ← expect (last (mt_layers t)) "called `Option::unwrap()` on a `None` value";
  expect (layer !! 0%nat) "index out of bounds".

Definition assemble (t : MerkleTree) : bytes := concat (mt_chunks t).
Definition reconstruct_data (t : MerkleTree) : bytes := concat (mt_chunks t).

Definition get_chunk (t : MerkleTree) (index : nat) : outcome string bytes :=
  expect (mt_chunks t !! index) "index out of bounds".

Definition chunk_aux (origin_root : bytes) (i : nat) : bytes :=
  origin_root ++ le_bytes 8 (Z.of_nat i).

Definition decrypt_chunk (t : MerkleTree) (index : nat) (key origin_root : bytes)
    : outcome string bytes :=
  c ← get_chunk t index;
  unwrap (chacha8_unseal c key (chunk_aux origin_root index)) "single chunk decrypt failed".

(** The [while offset < data.len()] loop; [fuel] counts iterations. *)
Fixpoint split_loop (fuel : nat) (data : bytes) (chunk_size offset : nat)
    (acc : list bytes) : outcome string (list bytes) :=
  if (offset <? length data)%nat then
    match fuel with
    | O => OutOfFuel
    | S fuel =>
        let e := Nat.min (offset + chunk_size) (length data) in
        split_loop fuel data chunk_size e (acc ++ [take (e - offset) (drop offset data)])
    end
  else Ok acc.

(** One level of parents of a level of even length. *)
Fixpoint parents (layer : list bytes) : list bytes :=
  match layer with
  | l :: r :: layer' => blake3 (l ++ r) :: parents layer'
  | _ => []
  end.

(** A level of odd length repeats its last node. *)
Definition pad_layer (layer : list bytes) : list bytes :=
  if Nat.odd (length layer)
  then match last layer with Some x => layer ++ [x] | None => layer end
  else layer.

(** The [while layer.len() > 1] loop. *)
Fixpoint build_layers (fuel : nat) (layer : list bytes) (layers : list (list bytes))
    : list (list bytes) :=
  match fuel with
  | O => layers
  | S fuel =>
      if (1 <? length layer)%nat then
        let parent := parents (pad_layer layer) in
        build_layers fuel parent (layers ++ [parent])
      else layers
  end.

Definition leaf_layer (cs : list bytes) : list bytes := blake3 <$> cs.

Definition build_merkle_tree_from_chunks (cs : list bytes) : MerkleTree :=
  let layer := leaf_layer cs in
  {| mt_chunks := cs; mt_layers := build_layers (length layer) layer [layer] |}.

Definition build_merkle_tree (fuel : nat) (data : bytes) (chunk_size : nat)
    : outcome string MerkleTree :=
  cs ← split_loop fuel data chunk_size 0 [];
  let layer := leaf_layer cs in
  Ok {| mt_chunks := cs; mt_layers := build_layers (length layer) layer [layer] |}.

Definition new_from_data := build_merkle_tree.

(** The sealing loop, from chunk index [i]. *)
Fixpoint seal_chunks (i : nat) (cs : list bytes) (key origin_root : bytes)
    : outcome string (list bytes) :=
  match cs with
  | [] => Ok []
  | c :: cs =>
      cipher ← chacha8_seal c key (chunk_aux origin_root i);
      rest ← seal_chunks (S i) cs key origin_root;
      Ok (cipher :: rest)
  end.
Fixpoint unseal_chunks (i : nat) (cs : list bytes) (key origin_root : bytes)
    : outcome string (list bytes) :=
  match cs with
  | [] => Ok []
  | c :: cs =>
      plain ← chacha8_unseal c key (chunk_aux origin_root i);
      rest ← unseal_chunks (S i) cs key origin_root;
      Ok (plain :: rest)
  end.

Definition encrypt_merkle_tree (origin_tree : MerkleTree) (key : bytes)
    : outcome string MerkleTree :=
  origin_root ← root origin_tree;
  cs ← seal_chunks 0 (mt_chunks origin_tree) key origin_root;
  Ok (build_merkle_tree_from_chunks cs).

Definition decrypt_cipher_merkle_tree (cipher_tree : MerkleTree)
    (origin_root key : bytes) : outcome string MerkleTree :=
  cs ← unseal_chunks 0 (mt_chunks cipher_tree) key origin_root;
  Ok (build_merkle_tree_from_chunks cs).

(** ** Levels *)

Definition next_layer (layer : list bytes) : list bytes := parents (pad_layer layer).

(** The root as a recursive function of a level. *)
Fixpoint root_of (fuel : nat) (layer : list bytes) : option bytes :=
  match fuel with
  | O => head layer
  | S fuel => if (1 <? length layer)%nat then root_of fuel (next_layer layer)
              else head layer
  end.

(** The messages hashed to build the inner levels above a level. *)
Fixpoint pair_msgs (layer : list bytes) : list bytes :=
  match layer with
  | l :: r :: layer' => (l ++ r) :: pair_msgs layer'
  | _ => []
  end.
Fixpoint layer_msgs (fuel : nat) (layer : list bytes) : list bytes :=
  match fuel with
  | O => []
  | S fuel => if (1 <? length layer)%nat
              then pair_msgs (pad_layer layer) ++ layer_msgs fuel (next_layer layer)
              else []
  end.
Definition tree_msgs (cs : list bytes) : list bytes :=
  cs ++ layer_msgs (length cs) (leaf_layer cs).

Lemma parents_length l : length (parents l) = (length l / 2)%nat.
Proof.
  induction l as [|x|x y l IH] using list_ind2; cbn [parents length]; [done|done|].
  rewrite IH. change (S (S ?n)) with (2 + n)%nat at 2.
  rewrite Nat.add_comm, (Nat.div_add _ 1 2) by done. lia.
Qed.
Lemma pad_layer_cases layer :
  (Nat.odd (length layer) = false /\ pad_layer layer = layer) \/
  (exists x, Nat.odd (length layer) = true /\ last layer = Some x /\
     pad_layer layer = layer ++ [x]).
Proof.
  unfold pad_layer. destruct (Nat.odd (length layer)) eqn:Ho; [|by left].
  destruct (last layer) as [x|] eqn:Hl; [right; eauto|].
  apply last_None in Hl as ->. done.
Qed.
Lemma pad_layer_even layer : Nat.Even (length (pad_layer layer)).
Proof.
  destruct (pad_layer_cases layer) as [[Ho ->]|(x & Ho & _ & ->)].
  - apply Nat.even_spec. by rewrite <- Nat.negb_odd, Ho.
  - rewrite length_app, Nat.add_comm. apply Nat.Even_succ, Nat.odd_spec, Ho.
Qed.
Lemma next_layer_length layer :
  length (next_layer layer) = ((length layer + 1) / 2)%nat.
Proof.
  unfold next_layer. rewrite parents_length.
  destruct (pad_layer_cases layer) as [[Ho ->]|(x & Ho & _ & ->)].
  - rewrite <- Nat.negb_even in Ho. apply negb_false_iff, Nat.even_spec in Ho as [k ->].
    rewrite Nat.mul_comm, Nat.div_mul, Nat.div_add_l by done. cbn. lia.
  - by rewrite length_app.
Qed.
Lemma next_layer_shrinks layer :
  (1 < length layer)%nat -> (0 < length (next_layer layer) < length layer)%nat.
Proof.
  intros H. rewrite next_layer_length. split; [apply Nat.div_str_pos; lia|].
  apply Nat.Div0.div_lt_upper_bound. lia.
Qed.

Lemma build_layers_root fuel layer layers :
  (length layer <= fuel)%nat -> layer <> [] -> last layers = Some layer ->
  exists x, last (build_layers fuel layer layers) = Some [x] /\
    root_of fuel layer = Some x.
Proof.
  revert layer layers. induction fuel as [|fuel IH]; intros layer layers Hf Hne Hl.
  { destruct layer; [done|cbn in Hf; lia]. }
  cbn [build_layers root_of]. destruct (Nat.ltb_spec 1 (length layer)) as [Hlt|Hge].
  - pose proof (next_layer_shrinks layer Hlt).
    apply IH; [unfold next_layer in *; lia| |].
    + intros Hn. change (next_layer layer = []) in Hn. rewrite Hn in H. cbn in H. lia.
    + by rewrite last_app.
  - destruct layer as [|x [|y layer]]; [done| |cbn in Hge; lia]. eauto.
Qed.

Lemma leaf_layer_length cs : length (leaf_layer cs) = length cs.
Proof. apply length_fmap. Qed.

Lemma root_from_chunks cs :
  cs <> [] -> exists x, root (build_merkle_tree_from_chunks cs) = Ok x /\
    root_of (length cs) (leaf_layer cs) = Some x.
Proof.
  intros Hne. destruct (build_layers_root (length cs) (leaf_layer cs) [leaf_layer cs])
    as (x & Hl & Hr); [by rewrite leaf_layer_length|by destruct cs|done|].
  exists x. split; [|done]. unfold root, build_merkle_tree_from_chunks; cbn [mt_layers].
  by rewrite leaf_layer_length, Hl.
Qed.

(** ** Splitting *)

Lemma split_loop_chunks fuel data n offset acc :
  (0 < n)%nat -> (offset <= length data)%nat -> (length data - offset <= fuel)%nat ->
  split_loop fuel data n offset acc = Ok (acc ++ chunks n (drop offset data)).
Proof.
  intros Hn. revert offset acc. induction fuel as [|fuel IH]; intros offset acc Ho Hf;
    cbn [split_loop]; destruct (Nat.ltb_spec offset (length data)); try lia.
  1,3: rewrite drop_ge, app_nil_r by lia; done.
  assert (Hne : drop offset data <> []).
  { intros Hd. apply (f_equal length) in Hd. rewrite length_drop in Hd. cbn in Hd. lia. }
  rewrite IH by lia. rewrite <- app_assoc. do 2 f_equal.
  rewrite (chunks_cons n (drop offset data)) by done. rewrite drop_drop. cbn [app]. f_equal.
  - destruct (Nat.min_spec (offset + n) (length data)) as [[? ->]|[? ->]].
    + f_equal. lia.
    + rewrite !take_ge by (rewrite length_drop; lia). done.
  - destruct (Nat.min_spec (offset + n) (length data)) as [[? ->]|[? ->]]; [done|].
    rewrite !drop_ge by lia. done.
Qed.

Lemma build_merkle_tree_Ok data n :
  (0 < n)%nat ->
  build_merkle_tree (length data) data n
  = Ok (build_merkle_tree_from_chunks (chunks n data)).
Proof.
  intros Hn. unfold build_merkle_tree. rewrite split_loop_chunks by lia. done.
Qed.

(** ** Sealing *)

Lemma seal_chunks_Ok i cs key r :
  exists cs', seal_chunks i cs key r = Ok cs' /\ unseal_chunks i cs' key r = Ok cs /\
    length cs' = length cs /\
    forall j c', cs' !! j = Some c' -> exists c, cs !! j = Some c /\
      length c' = length c /\ chacha8_unseal c' key (chunk_aux r (i + j)) = Ok c.
Proof.
  revert i. induction cs as [|c cs IH]; intros i; [by exists []|].
  destruct (IH (S i)) as (cs' & Hs & Hu & Hl & Hj).
  destruct (chacha8_seal c key (chunk_aux r i)) as [c'|e|m|] eqn:Hc; try discriminate.
  destruct (chacha8_seal_Ok _ _ _ _ Hc) as [Hlen Hun].
  exists (c' :: cs'). cbn [seal_chunks unseal_chunks]. rewrite Hc, Hun; cbn.
  rewrite Hs, Hu; cbn. split; [done|]. split; [done|]. split; [by f_equal|].
  intros [|j] d; cbn; [intros [= <-]; exists c; by rewrite Nat.add_0_r|].
  intros Hd. rewrite Nat.add_succ_r. by apply Hj.
Qed.

(** for a positive chunk size the splitting loop stops and the tree holds
    the file: the chunks are its consecutive blocks, none empty or longer
    than the chunk size, and [assemble] returns the file.  With chunk size
    zero the loop makes no progress: on a non-empty file it never stops,
    whatever the fuel. *)
Theorem build_merkle_tree_splits data chunk_size :
  ((0 < chunk_size)%nat -> exists t,
     build_merkle_tree (length data) data chunk_size = Ok t /\
     assemble t = data /\
     Forall (fun c => (0 < length c <= chunk_size)%nat) (mt_chunks t)) /\
  (data <> [] -> forall fuel, build_merkle_tree fuel data 0 = OutOfFuel).
Proof.
  split.
  - intros Hn. eexists. split; [by apply build_merkle_tree_Ok|].
    split; [by apply concat_chunks|by apply chunks_length_le].
  - intros Hne fuel. unfold build_merkle_tree.
    enough (split_loop fuel data 0 0 [] = OutOfFuel) as -> by done.
    assert (0 < length data)%nat by (destruct data; [done|cbn; lia]).
    generalize (@nil bytes). induction fuel as [|fuel IH]; intros acc; cbn [split_loop];
      destruct (Nat.ltb_spec 0 (length data)); try lia; [done|].
    rewrite Nat.min_l by lia. apply IH.
Qed.

(** C32: a sealed tree can be opened again: for a non-empty file,
    [encrypt_merkle_tree] succeeds, [decrypt_cipher_merkle_tree] with the
    plain root gives back the very same tree (chunks and every layer), and
    [decrypt_chunk] gives back each single chunk. *)
Theorem encrypt_decrypt_merkle_tree data chunk_size key :
  data <> [] -> (0 < chunk_size)%nat ->
  exists t r ct,
    build_merkle_tree (length data) data chunk_size = Ok t /\
    root t = Ok r /\ encrypt_merkle_tree t key = Ok ct /\
    decrypt_cipher_merkle_tree ct r key = Ok t /\
    reconstruct_data t = data /\
    forall i c, mt_chunks t !! i = Some c -> decrypt_chunk ct i key r = Ok c.
Proof.
  intros Hne Hn. pose proof (build_merkle_tree_Ok data chunk_size Hn) as Hb.
  destruct (root_from_chunks (chunks chunk_size data)) as (r & Hr & _).
  { intros Hc. pose proof (concat_chunks chunk_size data Hn) as Hcc.
    rewrite Hc in Hcc. by subst. }
  destruct (seal_chunks_Ok 0 (chunks chunk_size data) key r) as (cs & Hs & Hu & Hl & Hj).
  eexists _, r, _. split; [exact Hb|]. split; [exact Hr|].
  split. { unfold encrypt_merkle_tree. rewrite Hr; cbn. rewrite Hs. done. }
  split. { unfold decrypt_cipher_merkle_tree; cbn. rewrite Hu. done. }
  split; [by apply concat_chunks|]. cbn. intros i c Hi.
  unfold decrypt_chunk, get_chunk; cbn.
  destruct (lookup_lt_is_Some_2 cs i) as [d Hd].
  { rewrite Hl. by eapply lookup_lt_Some. }
  rewrite Hd; cbn. destruct (Hj i d Hd) as (c0 & Hc0 & _ & Hun).
  rewrite Hc0 in Hi. injection Hi as ->. rewrite Nat.add_0_l in Hun. by rewrite Hun.
Qed.

(** on an empty file there is no root: [root] and hence
    [encrypt_merkle_tree] panic on the index, they do not return an error. *)
Theorem empty_tree_panics chunk_size key :
  exists t, build_merkle_tree 0 [] chunk_size = Ok t /\
    root t = Panic "index out of bounds" /\
    encrypt_merkle_tree t key = Panic "index out of bounds".
Proof. eexists. split; [done|]. split; done. Qed.

(** ** What the root commits to *)

Context {HL : CryptoLaws HC}.

Definition digests (layer : list bytes) : Prop :=
  Forall (fun d => length d = 32%nat) layer.

Lemma leaf_layer_digests cs : digests (leaf_layer cs).
Proof. apply Forall_fmap, Forall_true. intros c. apply blake3_length. Qed.
Lemma parents_digests l : digests (parents l).
Proof.
  induction l as [|x|x y l IH] using list_ind2; [constructor..|].
  constructor; [apply blake3_length|done].
Qed.
Lemma pad_layer_digests l : digests l -> digests (pad_layer l).
Proof.
  intros H. destruct (pad_layer_cases l) as [[_ ->]|(x & _ & Hx & ->)]; [done|].
  apply Forall_app. split; [done|]. constructor; [|done].
  apply last_Some_elem_of in Hx. by eapply Forall_forall in H.
Qed.
Lemma pad_layer_inj l1 l2 :
  length l1 = length l2 -> pad_layer l1 = pad_layer l2 -> l1 = l2.
Proof.
  intros Hlen. destruct (pad_layer_cases l1) as [[Ho1 ->]|(x1 & Ho1 & _ & ->)],
    (pad_layer_cases l2) as [[Ho2 ->]|(x2 & Ho2 & _ & ->)];
    rewrite Hlen in Ho1; try congruence.
  intros H. by apply app_inj_tail in H as [? _].
Qed.

Lemma parents_inj Q l1 l2 :
  inj_on blake3 Q -> (forall m, m ∈ pair_msgs l1 ++ pair_msgs l2 -> Q m) ->
  digests l1 -> digests l2 -> Nat.Even (length l1) -> length l1 = length l2 ->
  parents l1 = parents l2 -> l1 = l2.
Proof.
  intros Hinj. revert l2. induction l1 as [|x|x y l1 IH] using list_ind2;
    intros [|x' [|y' l2]] HQ Hd1 Hd2 He Hlen Hp; try discriminate; [done| |].
  { destruct He as [k Hk]. cbn in Hk. lia. }
  cbn in Hp. injection Hp as Hh Hp. cbn in HQ.
  apply Hinj in Hh; [|apply HQ; set_solver..].
  do 2 apply Forall_cons in Hd1 as [? Hd1]. do 2 apply Forall_cons in Hd2 as [? Hd2].
  apply app_inj_1 in Hh as [-> ->]; [|congruence].
  do 2 f_equal. apply IH; try done.
  - intros m Hm. apply HQ. set_solver.
  - destruct He as [k Hk]. exists (k - 1)%nat. cbn in Hk. lia.
  - cbn in Hlen. lia.
Qed.

Lemma root_of_inj Q fuel l1 l2 r :
  inj_on blake3 Q -> (forall m, m ∈ layer_msgs fuel l1 ++ layer_msgs fuel l2 -> Q m) ->
  digests l1 -> digests l2 -> length l1 = length l2 -> (length l1 <= fuel)%nat ->
  root_of fuel l1 = Some r -> root_of fuel l2 = Some r -> l1 = l2.
Proof.
  intros Hinj. revert l1 l2. induction fuel as [|fuel IH]; intros l1 l2 HQ Hd1 Hd2 Hlen Hf.
  { destruct l1; [|cbn in Hf; lia]. done. }
  cbn [root_of layer_msgs] in *. rewrite <- Hlen in *.
  destruct (Nat.ltb_spec 1 (length l1)) as [Hlt|Hge].
  - intros H1 H2. apply pad_layer_inj; [done|].
    pose proof (next_layer_shrinks l1 Hlt).
    apply (parents_inj Q); try done; try (by apply pad_layer_digests);
      try apply pad_layer_even.
    + intros m Hm. apply HQ. set_solver.
    + unfold pad_layer in *. pose proof (next_layer_length l1).
      destruct (pad_layer_cases l1) as [[Ho1 E1]|(x1 & Ho1 & _ & E1)],
        (pad_layer_cases l2) as [[Ho2 E2]|(x2 & Ho2 & _ & E2)];
        unfold pad_layer in E1, E2; rewrite E1, E2, ?length_app;
        rewrite Hlen in Ho1; congruence || (cbn; lia).
    + apply IH; try apply parents_digests; [| |unfold next_layer in *; lia|done..].
      * intros m Hm. apply HQ. set_solver.
      * pose proof (next_layer_length l1) as Hn1. pose proof (next_layer_length l2) as Hn2.
        unfold next_layer in *. rewrite Hn1, Hn2, Hlen. done.
  - destruct l1 as [|x1 [|? ?]], l2 as [|x2 [|? ?]]; cbn in *; try lia; congruence.
Qed.

(** two files cut into the same number of chunks and with the same root
    have the same chunks, provided no two of the messages hashed in the two
    trees collide under BLAKE3. *)
Theorem chunk_root_binding cs1 cs2 r :
  length cs1 = length cs2 -> cs1 <> [] ->
  inj_on blake3 (fun m => m ∈ tree_msgs cs1 ++ tree_msgs cs2) ->
  root (build_merkle_tree_from_chunks cs1) = Ok r ->
  root (build_merkle_tree_from_chunks cs2) = Ok r -> cs1 = cs2.
Proof.
  intros Hlen Hne Hinj H1 H2.
  assert (cs2 <> []) as Hne2 by (by destruct cs1, cs2).
  destruct (root_from_chunks cs1 Hne) as (r1 & E1 & R1).
  destruct (root_from_chunks cs2 Hne2) as (r2 & E2 & R2).
  rewrite H1 in E1; injection E1 as <-. rewrite H2 in E2; injection E2 as <-.
  rewrite <- Hlen in R2.
  assert (leaf_layer cs1 = leaf_layer cs2) as Hleaf.
  { apply (root_of_inj _ (length cs1) _ _ r Hinj); try apply leaf_layer_digests; try done.
    - unfold tree_msgs. rewrite <- Hlen. set_solver.
    - by rewrite !leaf_layer_length.
    - by rewrite leaf_layer_length. }
  apply (fmap_inj_on blake3 _ cs1 cs2 Hinj); [|done].
  unfold tree_msgs. set_solver.
Qed.

Lemma root_of_fuel f1 f2 l :
  (length l <= f1)%nat -> (length l <= f2)%nat -> root_of f1 l = root_of f2 l.
Proof.
  revert f2 l. induction f1 as [|f1 IH]; intros [|f2] l H1 H2; cbn [root_of]; try done;
    destruct (Nat.ltb_spec 1 (length l)) as [Hlt|]; try done; try lia.
  pose proof (next_layer_shrinks l Hlt). apply IH; lia.
Qed.
Lemma root_of_step fuel l :
  (1 < length l)%nat -> root_of (S fuel) l = root_of fuel (next_layer l).
Proof. intros H. cbn [root_of]. by destruct (Nat.ltb_spec 1 (length l)); [|lia]. Qed.
Lemma next_layer_repeat cs c :
  Nat.odd (length cs + 1) = true ->
  next_layer (leaf_layer (cs ++ [c; c])) = next_layer (leaf_layer (cs ++ [c])).
Proof.
  intros Ho. unfold next_layer. f_equal. unfold pad_layer.
  rewrite !leaf_layer_length, !length_app. cbn [length]. rewrite Ho.
  replace (Nat.odd (length cs + 2)) with false.
  2: { replace (length cs + 2)%nat with (S (length cs + 1)) by lia.
       rewrite Nat.odd_succ, <- Nat.negb_odd, Ho. done. }
  unfold leaf_layer. rewrite !fmap_app, last_app. cbn. by rewrite <- app_assoc.
Qed.

(** the root does not commit to the number of chunks: repeating the last
    chunk of a file of odd chunk count gives another file with the same root. *)
Theorem chunk_root_ignores_repeated_last cs c r :
  Nat.odd (length (cs ++ [c])) = true -> cs <> [] ->
  root (build_merkle_tree_from_chunks (cs ++ [c])) = Ok r ->
  root (build_merkle_tree_from_chunks (cs ++ [c; c])) = Ok r.
Proof.
  intros Hodd Hne Hr.
  destruct (root_from_chunks (cs ++ [c])) as (r1 & E1 & R1); [by destruct cs|].
  destruct (root_from_chunks (cs ++ [c; c])) as (r2 & E2 & R2); [by destruct cs|].
  rewrite Hr in E1. injection E1 as <-. rewrite E2. f_equal.
  enough (Some r2 = Some r) as [=] by done. rewrite <- R1, <- R2.
  assert (1 < length cs)%nat as Hc.
  { destruct cs as [|x [|y cs]]; [done|cbn in Hodd; done|cbn; lia]. }
  rewrite length_app in Hodd. cbn in Hodd.
  rewrite (root_of_fuel _ (S (S (length cs)))), (root_of_fuel _ (S (S (length cs))) (leaf_layer (cs ++ [c])))
    by (rewrite leaf_layer_length, length_app; cbn; lia).
  rewrite (root_of_step _ (leaf_layer (cs ++ [c; c]))), (root_of_step _ (leaf_layer (cs ++ [c])))
    by (rewrite leaf_layer_length, length_app; cbn; lia).
  by rewrite next_layer_repeat.
Qed.
End ChunkMerkle.

Lemma build_merkle_tree_splits_witness :
  exists t, build_merkle_tree 5 [1; 2; 3; 4; 5] 2 = Ok t /\
    assemble t = [1; 2; 3; 4; 5] /\
    Forall (fun c => (0 < length c <= 2)%nat) (mt_chunks t).
Proof. apply (proj1 (build_merkle_tree_splits [1; 2; 3; 4; 5] 2)). lia. Defined.

Lemma encrypt_decrypt_merkle_tree_witness :
  exists t r ct,
    build_merkle_tree 5 [1; 2; 3; 4; 5] 2 = Ok t /\
    root t = Ok r /\ encrypt_merkle_tree t (replicate 32 7) = Ok ct /\
    decrypt_cipher_merkle_tree ct r (replicate 32 7) = Ok t /\
    reconstruct_data t = [1; 2; 3; 4; 5] /\
    forall i c, mt_chunks t !! i = Some c -> decrypt_chunk ct i (replicate 32 7) r = Ok c.
Proof. apply (encrypt_decrypt_merkle_tree [1; 2; 3; 4; 5] 2); [discriminate|lia]. Defined.

Definition binding_example : list bytes := [[1; 2]; [3; 4]; [5]].
Lemma chunk_root_binding_witness :
  exists r, root (build_merkle_tree_from_chunks binding_example) = Ok r /\
    binding_example = [[1; 2]; [3; 4]; [5]].
Proof.
  eexists. split; [reflexivity|].
  eapply (chunk_root_binding binding_example [[1; 2]; [3; 4]; [5]]).
  - reflexivity.
  - discriminate.
  - apply inj_on_list. vm_compute. reflexivity.
  - reflexivity.
  - reflexivity.
Defined.

Lemma chunk_root_ignores_repeated_last_witness :
  exists r, root (build_merkle_tree_from_chunks [[1]; [2]; [3]; [3]]) = Ok r.
Proof.
  eexists. apply (chunk_root_ignores_repeated_last [[1]; [2]] [3]);
    [reflexivity|discriminate|reflexivity].
Defined.
