(* ===== verification/WalrusMerkle.v ===== *)
(** The Merkle tree of [walrus-core/src/merkle.rs] over BLAKE2b-256: leaves are
    hashed with prefix [0x00], inner nodes with prefix [0x01], an odd level is
    completed with an [Empty] node that counts as 32 zero bytes, and the levels
    are stored one after the other in a single vector.

    The vector is refined to the list of its levels ([levels]); proofs of
    membership are complete for every tree and sound when no two of the hashed
    messages collide. *)
From S2P Require Import Prelude Crypto.

Inductive Node :=
  | Empty
  | Digest (digest : bytes).
#[export] Instance Node_eq_dec : EqDecision Node.
Proof. solve_decision. Defined.
#[export] Instance Node_inhabited : Inhabited Node := populate Empty.

Definition DIGEST_LEN : nat := 32.
Definition LEAF_PREFIX : bytes := [0].
Definition INNER_PREFIX : bytes := [1].
Definition EMPTY_NODE : bytes := replicate DIGEST_LEN 0.

Inductive MerkleProofError :=
  | PathLengthTooLarge
  | LeafIndexOutOfBounds (index : nat)
  | RootMismatch.

(** [Node::bytes] *)
Definition node_bytes (n : Node) : bytes :=
  match n with Empty => EMPTY_NODE | Digest d => d end.

(** The array type of [Node::Digest]. *)
Definition node_ok (n : Node) : Prop :=
  match n with Empty => True | Digest d => length d = DIGEST_LEN end.

Record MerkleTree := {
  nodes : list Node;
  n_leaves : nat;
}.

Section WalrusMerkle.
Context `{HC : Crypto}.

Definition leaf_hash (input : bytes) : Node := Digest (blake2b256 (LEAF_PREFIX ++ input)).
Definition inner_hash (left right : Node) : Node :=
  Digest (blake2b256 (INNER_PREFIX ++ node_bytes left ++ node_bytes right)).

(** The [for_each] that pushes the parents of the pairs starting at [index];
    [count] pairs are left. *)
Fixpoint push_parents (count index : nat) (ns : list Node) : list Node :=
  match count with
  | O => ns
  | S count =>
      push_parents count (index + 2)
        (ns ++ [inner_hash (ns !!! index) (ns !!! (index + 1)%nat)])
  end.

(** The [while level_nodes > 1] loop. *)
Fixpoint build_loop (fuel level_nodes prev_level_index : nat) (ns : list Node)
    : list Node :=
  match fuel with
  | O => ns
  | S fuel =>
      if (1 <? level_nodes)%nat then
        let '(ns, level_nodes) :=
          if Nat.odd level_nodes then (ns ++ [Empty], (level_nodes + 1)%nat)
          else (ns, level_nodes) in
        let new_level_index := (prev_level_index + level_nodes)%nat in
        build_loop fuel (level_nodes / 2) new_level_index
          (push_parents (level_nodes / 2) prev_level_index ns)
      else ns
  end.

Definition build_from_leaf_hashes (iter : list Node) : MerkleTree :=
  {| nodes := build_loop (length iter) (length iter) 0 iter;
     n_leaves := length iter |}.

Definition build (iter : list bytes) : MerkleTree :=
  build_from_leaf_hashes (leaf_hash <$> iter).

(** [self.nodes.last().map_or(Node::Empty, ..)] *)
Definition root (t : MerkleTree) : Node := default Empty (last (nodes t)).

Definition verify_root (t : MerkleTree) (r : Node) : bool := bool_decide (root t = r).

Definition path_length (n : nat) : nat :=
  if (n <=? 1)%nat then 0%nat else (Nat.log2 (n - 1) + 1)%nat.

(** The [while n_level > 1] loop of [get_proof]. *)
Fixpoint proof_loop (fuel n_level level_index level_base_index : nat) (ns : list Node)
    : list Node :=
  match fuel with
  | O => []
  | S fuel =>
      if (1 <? n_level)%nat then
        let n_level := if Nat.odd n_level then (n_level + 1)%nat else n_level in
        let sibling_index :=
          if Nat.even level_index then (level_base_index + level_index + 1)%nat
          else (level_base_index + level_index - 1)%nat in
        (ns !!! sibling_index)
          :: proof_loop fuel (n_level / 2) (level_index / 2) (level_base_index + n_level) ns
      else []
  end.

Definition get_proof (t : MerkleTree) (leaf_index : nat)
    : outcome MerkleProofError (list Node) :=
  if (n_leaves t <=? leaf_index)%nat then Err (LeafIndexOutOfBounds leaf_index)
  else Ok (proof_loop (n_leaves t) (n_leaves t) leaf_index 0 (nodes t)).

(** The loop of [compute_root]. *)
Fixpoint climb (current_hash : Node) (level_index : nat) (path : list Node) : Node :=
  match path with
  | [] => current_hash
  | sibling :: path =>
      climb (if Nat.even level_index then inner_hash current_hash sibling
             else inner_hash sibling current_hash) (level_index / 2) path
  end.

Definition compute_root (path : list Node) (leaf : bytes) (leaf_index : nat)
    : outcome MerkleProofError Node :=
  if negb (Nat.shiftr leaf_index (length path) =? 0)%nat
  then Err (LeafIndexOutOfBounds leaf_index)
  else Ok (climb (leaf_hash leaf) leaf_index path).

Definition check_path_length (path : list Node) (max_path_length : nat)
    : outcome MerkleProofError unit :=
  if (max_path_length <? length path)%nat then Err PathLengthTooLarge else Ok tt.

Definition verify_proof (path : list Node) (rt : Node) (leaf_count : nat)
    (leaf : bytes) (leaf_index : nat) : outcome MerkleProofError unit :=
  check_path_length path (path_length leaf_count) ;;
  r ← compute_root path leaf leaf_index;
  ensure (bool_decide (r = rt)) RootMismatch.

(** ** The vector as a list of levels *)

Definition pad (l : list Node) : list Node :=
  if Nat.odd (length l) then l ++ [Empty] else l.
Fixpoint pair_up (l : list Node) : list Node :=
  match l with a :: b :: l => inner_hash a b :: pair_up l | _ => [] end.
Definition up (l : list Node) : list Node := pair_up (pad l).
Fixpoint levels (fuel : nat) (l : list Node) : list (list Node) :=
  match fuel with
  | O => [l]
  | S fuel => if (1 <? length l)%nat then pad l :: levels fuel (up l) else [l]
  end.
Fixpoint root_of (fuel : nat) (l : list Node) : Node :=
  match fuel with
  | O => default Empty (head l)
  | S fuel => if (1 <? length l)%nat then root_of fuel (up l) else default Empty (head l)
  end.
(** The root of the tree over the leaf nodes [l]. *)
Definition tree_root (l : list Node) : Node := root_of (length l) l.

Definition sibling (j : nat) : nat := if Nat.even j then (j + 1)%nat else (j - 1)%nat.
Fixpoint level_proof (fuel : nat) (l : list Node) (j : nat) : list Node :=
  match fuel with
  | O => []
  | S fuel => if (1 <? length l)%nat
              then (pad l !!! sibling j) :: level_proof fuel (up l) (j / 2) else []
  end.

Lemma pad_cases l :
  (Nat.Even (length l) /\ pad l = l) \/
  (Nat.Odd (length l) /\ pad l = l ++ [Empty]).
Proof.
  unfold pad. destruct (Nat.odd (length l)) eqn:Ho.
  - right. split; [by apply Nat.odd_spec|done].
  - left. rewrite <- Nat.negb_even in Ho. apply negb_false_iff, Nat.even_spec in Ho. done.
Qed.
Lemma pad_length l : length (pad l) = (2 * ((length l + 1) / 2))%nat.
Proof.
  destruct (pad_cases l) as [[[k Hk] ->]|[[k Hk] ->]]; rewrite ?length_app, Hk; cbn [length].
  - replace (2 * k + 1)%nat with (1 + k * 2)%nat by lia. rewrite Nat.div_add by done. cbn. lia.
  - replace (2 * k + 1 + 1)%nat with ((k + 1) * 2)%nat by lia. rewrite Nat.div_mul by done. lia.
Qed.
Lemma pad_lookup l j x : l !! j = Some x -> pad l !! j = Some x.
Proof.
  intros H. destruct (pad_cases l) as [[_ ->]|[_ ->]]; [done|]. by apply lookup_app_l_Some.
Qed.
Lemma pad_lookup_inv l j x : pad l !! j = Some x -> l !! j = Some x \/ x = Empty.
Proof.
  destruct (pad_cases l) as [[_ ->]|[_ ->]]; [by left|].
  intros [H|[_ H]]%lookup_app_Some; [by left|].
  apply list_elem_of_lookup_2, list_elem_of_singleton in H. by right.
Qed.
Lemma pair_up_length l : length (pair_up l) = (length l / 2)%nat.
Proof.
  induction l as [|x|x y l IH] using list_ind2; cbn [pair_up length]; [done|done|].
  rewrite IH. change (S (S ?n)) with (2 + n)%nat at 2.
  rewrite Nat.add_comm, (Nat.div_add _ 1 2) by done. lia.
Qed.
Lemma up_length l : length (up l) = ((length l + 1) / 2)%nat.
Proof.
  unfold up. rewrite pair_up_length, pad_length, Nat.mul_comm, Nat.div_mul by done. done.
Qed.
Lemma up_shrinks l : (1 < length l)%nat -> (0 < length (up l) < length l)%nat.
Proof. rewrite up_length. apply div2_lt. Qed.
Lemma pair_up_lookup l j x :
  pair_up l !! j = Some x <->
  exists a b, l !! (2 * j)%nat = Some a /\ l !! (2 * j + 1)%nat = Some b /\ x = inner_hash a b.
Proof.
  revert j. induction l as [|y|y z l IH] using list_ind2; intros j; cbn [pair_up].
  - rewrite lookup_nil. naive_solver.
  - rewrite lookup_nil. split; [done|]. intros (a & b & _ & Hb & _).
    apply lookup_lt_Some in Hb. cbn in Hb. lia.
  - destruct j as [|j]; [cbn; naive_solver|]. cbn [lookup list_lookup]. rewrite IH.
    replace (2 * S j)%nat with (S (S (2 * j))) by lia. done.
Qed.

Lemma push_parents_spec l pre acc :
  Nat.Even (length l) ->
  push_parents (length l / 2) (length pre) (pre ++ l ++ acc) = pre ++ l ++ acc ++ pair_up l.
Proof.
  revert pre acc. induction l as [|x|x y l IH] using list_ind2; intros pre acc He.
  - cbn. by rewrite app_nil_r.
  - destruct He as [k Hk]. cbn in Hk. lia.
  - assert (length (x :: y :: l) / 2 = S (length l / 2))%nat as ->.
    { cbn [length]. replace (S (S (length l))) with (length l + 1 * 2)%nat by lia.
      rewrite Nat.div_add by done. lia. }
    cbn [push_parents].
    rewrite (list_lookup_total_correct _ (length pre) x).
    2: { rewrite lookup_app_r, Nat.sub_diag by done. done. }
    rewrite (list_lookup_total_correct _ (length pre + 1) y).
    2: { rewrite lookup_app_r by lia. by replace (length pre + 1 - length pre)%nat with 1%nat by lia. }
    specialize (IH (pre ++ [x; y]) (acc ++ [inner_hash x y])).
    rewrite length_app in IH; cbn [length] in IH.
    rewrite <- !app_assoc in IH |- *. cbn [app] in IH |- *. rewrite IH; [by rewrite <- (app_assoc acc)|].
    destruct He as [k Hk]. exists (k - 1)%nat. cbn in Hk. lia.
Qed.

Lemma build_loop_spec fuel l pre :
  (length l <= fuel)%nat ->
  build_loop fuel (length l) (length pre) (pre ++ l) = pre ++ concat (levels fuel l).
Proof.
  revert l pre. induction fuel as [|fuel IH]; intros l pre Hf; cbn [build_loop levels].
  { destruct l; [|cbn in Hf; lia]. cbn. by rewrite !app_nil_r. }
  destruct (Nat.ltb_spec 1 (length l)) as [Hlt|]; [|cbn; by rewrite app_nil_r].
  pose proof (up_shrinks l Hlt). cbn [concat].
  assert ((if Nat.odd (length l) then (((pre ++ l) ++ [Empty])%list, (length l + 1)%nat)
           else ((pre ++ l)%list, length l)) = ((pre ++ pad l)%list, length (pad l))) as ->.
  { unfold pad. destruct (Nat.odd (length l)); [|done]. by rewrite length_app, <- app_assoc. }
  pose proof (push_parents_spec (pad l) pre []) as Hp. rewrite !app_nil_r in Hp.
  rewrite Hp by (rewrite pad_length; eexists; reflexivity).
  replace (length (pad l) / 2)%nat with (length (up l)).
  2: { unfold up. apply pair_up_length. }
  rewrite <- length_app, app_assoc. cbn [app]. fold (up l).
  rewrite IH by lia. by rewrite app_assoc.
Qed.

Lemma build_nodes l : nodes (build_from_leaf_hashes l) = concat (levels (length l) l).
Proof. exact (build_loop_spec (length l) l [] (le_n _)). Qed.

Lemma last_concat_levels fuel l :
  (length l <= fuel)%nat -> default Empty (last (concat (levels fuel l))) = root_of fuel l.
Proof.
  revert l. induction fuel as [|fuel IH]; intros l Hf; cbn [levels root_of].
  { by destruct l as [|? [|]]; cbn in *; try lia. }
  destruct (Nat.ltb_spec 1 (length l)) as [Hlt|].
  - pose proof (up_shrinks l Hlt). cbn [concat]. rewrite last_app.
    specialize (IH (up l)). destruct (last (concat (levels fuel (up l)))) as [x|] eqn:Hx.
    + rewrite <- IH by lia. done.
    + apply last_None in Hx. destruct fuel; [lia|]. cbn [levels] in Hx.
      destruct (Nat.ltb_spec 1 (length (up l))); cbn in Hx.
      * apply app_nil in Hx as [Hx _]. apply (f_equal length) in Hx.
        rewrite pad_length in Hx. cbn [length] in Hx. pose proof (div2_lt (length (up l))). lia.
      * rewrite app_nil_r in Hx. rewrite Hx in *. cbn in *. lia.
  - destruct l as [|x [|]]; cbn in *; [done|done|lia].
Qed.

Lemma build_root l : root (build_from_leaf_hashes l) = tree_root l.
Proof. unfold root. rewrite build_nodes. by apply last_concat_levels. Qed.

(** ** Membership proofs *)

Lemma path_length_step n :
  path_length n = if (1 <? n)%nat then S (path_length ((n + 1) / 2)) else 0%nat.
Proof.
  unfold path_length. destruct (Nat.leb_spec n 1), (Nat.ltb_spec 1 n); try lia.
  assert (n = 2 \/ 2 < n)%nat as [->|Hn] by lia; [done|].
  replace ((n + 1) / 2 - 1)%nat with ((n - 1) / 2)%nat.
  2: { replace (n + 1)%nat with (n - 1 + 1 * 2)%nat by lia. rewrite Nat.div_add by done. lia. }
  pose proof (div2_lt n). destruct (Nat.leb_spec ((n + 1) / 2) 1) as [Hd|Hd].
  { assert (n + 1 < 2 * 2)%nat; [|lia].
    pose proof (Nat.div_mod_eq (n + 1) 2). pose proof (Nat.mod_upper_bound (n + 1) 2). lia. }
  rewrite <- Nat.div2_div. rewrite (Nat.add_1_r (Nat.log2 (n - 1))). f_equal.
  assert (Nat.log2 (n - 1) = S (Nat.log2 (Nat.div2 (n - 1)))); [|lia].
  assert (0 < Nat.div2 (n - 1))%nat.
  { rewrite Nat.div2_div. apply Nat.div_str_pos. lia. }
  pose proof (Nat.div2_odd (n - 1)) as Ho. rewrite Ho at 1.
  destruct (Nat.odd (n - 1)); cbn [Nat.b2n].
  - by rewrite Nat.log2_succ_double.
  - by rewrite Nat.add_0_r, Nat.log2_double.
Qed.

Lemma sibling_lt l j : (j < length (pad l))%nat -> (sibling j < length (pad l))%nat.
Proof.
  rewrite pad_length. unfold sibling. intros H. destruct (Nat.even j) eqn:He; [|lia].
  apply Nat.even_spec in He as [k ->]. lia.
Qed.
Lemma up_lookup l j x :
  pad l !! j = Some x ->
  up l !! (j / 2)%nat =
    Some (if Nat.even j then inner_hash x (pad l !!! sibling j)
          else inner_hash (pad l !!! sibling j) x).
Proof.
  intros Hx. pose proof (lookup_lt_Some _ _ _ Hx) as Hlt.
  apply sibling_lt in Hlt. apply list_lookup_lookup_total_lt in Hlt.
  apply pair_up_lookup. rewrite (Nat.mul_comm 2). unfold sibling in *.
  destruct (Nat.even j) eqn:He.
  - apply Nat.even_spec in He as [k ->]. rewrite (Nat.mul_comm 2), Nat.div_mul in * by done.
    rewrite !(Nat.mul_comm k) in *. eauto.
  - rewrite <- Nat.negb_odd in He. apply negb_false_iff, Nat.odd_spec in He as [k ->].
    replace ((2 * k + 1) / 2)%nat with k.
    2: { rewrite Nat.add_comm, (Nat.mul_comm 2), Nat.div_add by done. done. }
    rewrite Nat.add_sub in *. rewrite (Nat.mul_comm k). eauto.
Qed.

Lemma climb_level_proof fuel l j x :
  (length l <= fuel)%nat -> l !! j = Some x ->
  climb x j (level_proof fuel l j) = root_of fuel l.
Proof.
  revert l j x. induction fuel as [|fuel IH]; intros l j x Hf Hx;
    pose proof (lookup_lt_Some _ _ _ Hx); cbn [level_proof root_of]; [lia|].
  destruct (Nat.ltb_spec 1 (length l)) as [Hlt|].
  - pose proof (up_shrinks l Hlt). cbn [climb]. apply IH; [lia|].
    by apply up_lookup, pad_lookup.
  - destruct l as [|y [|]]; cbn in *; [lia| |lia]. destruct j; [|lia]. by injection Hx as ->.
Qed.

Lemma level_proof_length fuel l j :
  (length l <= fuel)%nat -> length (level_proof fuel l j) = path_length (length l).
Proof.
  revert l j. induction fuel as [|fuel IH]; intros l j Hf; rewrite path_length_step;
    cbn [level_proof]; destruct (Nat.ltb_spec 1 (length l)) as [Hlt|]; try done; [lia|].
  pose proof (up_shrinks l Hlt). cbn [length]. rewrite IH by lia. by rewrite up_length.
Qed.

Lemma proof_loop_spec fuel l pre j :
  (length l <= fuel)%nat -> (j < length l)%nat ->
  proof_loop fuel (length l) j (length pre) (pre ++ concat (levels fuel l))
  = level_proof fuel l j.
Proof.
  revert l pre j. induction fuel as [|fuel IH]; intros l pre j Hf Hj;
    cbn [proof_loop level_proof levels]; [done|].
  destruct (Nat.ltb_spec 1 (length l)) as [Hlt|]; [|done].
  pose proof (up_shrinks l Hlt). cbn [concat].
  assert ((if Nat.odd (length l) then (length l + 1)%nat else length l) = length (pad l)) as ->.
  { unfold pad. destruct (Nat.odd (length l)); [|done]. by rewrite length_app. }
  assert (j < length (pad l))%nat as Hjp.
  { destruct (lookup_lt_is_Some_2 l j Hj) as [y Hy].
    by eapply lookup_lt_Some, pad_lookup. }
  assert ((if Nat.even j then (length pre + j + 1)%nat else (length pre + j - 1)%nat)
          = (length pre + sibling j)%nat) as ->.
  { unfold sibling. destruct (Nat.even j) eqn:He; [lia|]. destruct j; [done|lia]. }
  f_equal.
  - pose proof (sibling_lt l j Hjp) as Hs.
    destruct (lookup_lt_is_Some_2 _ _ Hs) as [y Hy].
    rewrite (list_lookup_total_correct _ _ y Hy). apply list_lookup_total_correct.
    rewrite lookup_app_r, Nat.add_comm, Nat.add_sub by lia. by apply lookup_app_l_Some.
  - rewrite pad_length, Nat.mul_comm, Nat.div_mul, <- up_length by done.
    rewrite app_assoc. replace (length pre + _)%nat with (length (pre ++ pad l)).
    2: { rewrite length_app, pad_length, up_length. lia. }
    apply IH; [lia|]. rewrite up_length.
    apply Nat.Div0.div_lt_upper_bound. pose proof (Nat.div_mod_eq (length l + 1) 2).
    pose proof (Nat.mod_upper_bound (length l + 1) 2). lia.
Qed.

(** The proof [get_proof] returns, over levels. *)
Lemma get_proof_spec l i :
  get_proof (build_from_leaf_hashes l) i =
    if (length l <=? i)%nat then Err (LeafIndexOutOfBounds i)
    else Ok (level_proof (length l) l i).
Proof.
  unfold get_proof; cbn [n_leaves build_from_leaf_hashes].
  destruct (Nat.leb_spec (length l) i); [done|]. f_equal.
  rewrite build_nodes. by apply (proof_loop_spec (length l) l []).
Qed.

Lemma path_length_pow n i : (i < n)%nat -> (i / 2 ^ path_length n = 0)%nat.
Proof.
  revert i. induction n as [n IH] using lt_wf_ind. intros i Hi. rewrite path_length_step.
  destruct (Nat.ltb_spec 1 n) as [Hlt|]; [|rewrite Nat.pow_0_r, Nat.div_1_r; lia].
  rewrite Nat.pow_succ_r', <- Nat.Div0.div_div. apply IH; [by apply div2_lt|].
  apply Nat.Div0.div_lt_upper_bound. pose proof (Nat.div_mod_eq (n + 1) 2).
  pose proof (Nat.mod_upper_bound (n + 1) 2). lia.
Qed.

Lemma get_proof_complete l i leaf :
  l !! i = Some (leaf_hash leaf) ->
  exists path, get_proof (build_from_leaf_hashes l) i = Ok path /\
    length path = path_length (length l) /\
    verify_proof path (root (build_from_leaf_hashes l)) (length l) leaf i = Ok tt.
Proof.
  intros Hi. pose proof (lookup_lt_Some _ _ _ Hi). rewrite get_proof_spec.
  destruct (Nat.leb_spec (length l) i); [lia|]. eexists. split; [done|].
  assert (length (level_proof (length l) l i) = path_length (length l)) as Hl
    by by apply level_proof_length.
  split; [done|]. unfold verify_proof, check_path_length, compute_root. rewrite Hl.
  rewrite (proj2 (Nat.ltb_ge _ _)) by done. cbn [mbind outcome_bind].
  rewrite Nat.shiftr_div_pow2, path_length_pow by done. cbn [negb Nat.eqb mbind outcome_bind].
  rewrite build_root, climb_level_proof by done. by rewrite bool_decide_eq_true_2.
Qed.

(** [get_proof] is complete: for every leaf of every tree it returns a
    path of exactly [path_length] siblings that [verify_proof] accepts
    against the root, for the leaf's data and index; a leaf index outside the
    tree is the error [LeafIndexOutOfBounds]. *)
Theorem get_proof_verifies leaves i :
  (forall leaf, leaves !! i = Some leaf ->
     exists path, get_proof (build leaves) i = Ok path /\
       length path = path_length (length leaves) /\
       verify_proof path (root (build leaves)) (length leaves) leaf i = Ok tt) /\
  (leaves !! i = None -> get_proof (build leaves) i = Err (LeafIndexOutOfBounds i)).
Proof.
  unfold build. split.
  - intros leaf Hi. rewrite <- (length_fmap leaf_hash leaves). apply get_proof_complete.
    by rewrite list_lookup_fmap, Hi.
  - intros Hn%lookup_ge_None. rewrite get_proof_spec, length_fmap.
    by destruct (Nat.leb_spec (length leaves) i); [|lia].
Qed.

(** ** Soundness *)

Context {HL : CryptoLaws HC}.

Fixpoint climb_msgs (cur : Node) (j : nat) (path : list Node) : list bytes :=
  match path with
  | [] => []
  | s :: path =>
      let m := INNER_PREFIX ++ (if Nat.even j then node_bytes cur ++ node_bytes s
                                else node_bytes s ++ node_bytes cur) in
      m :: climb_msgs (Digest (blake2b256 m)) (j / 2) path
  end.
Fixpoint pair_msgs (l : list Node) : list bytes :=
  match l with
  | a :: b :: l => (INNER_PREFIX ++ node_bytes a ++ node_bytes b) :: pair_msgs l
  | _ => []
  end.
Fixpoint tree_msgs (fuel : nat) (l : list Node) : list bytes :=
  match fuel with
  | O => []
  | S fuel => if (1 <? length l)%nat then pair_msgs (pad l) ++ tree_msgs fuel (up l) else []
  end.
(** Every message hashed to build the tree over [leaves]. *)
Definition build_msgs (leaves : list bytes) : list bytes :=
  ((fun d => LEAF_PREFIX ++ d) <$> leaves)
    ++ tree_msgs (length leaves) (leaf_hash <$> leaves).
(** Every message hashed to check a proof. *)
Definition verify_msgs (path : list Node) (leaf : bytes) (i : nat) : list bytes :=
  (LEAF_PREFIX ++ leaf) :: climb_msgs (leaf_hash leaf) i path.

(** No collision among the messages of [Q], and none hashes to the digest of
    an empty node. *)
Definition collision_free (Q : bytes -> Prop) : Prop :=
  inj_on blake2b256 Q /\ forall m, Q m -> blake2b256 m <> EMPTY_NODE.

Lemma collision_free_weaken (Q Q' : bytes -> Prop) :
  (forall x, Q x -> Q' x) -> collision_free Q' -> collision_free Q.
Proof. intros HQ [Hi He]. split; [by apply (inj_on_weaken _ Q')|]. intros m Hm. by apply He, HQ. Qed.

Lemma node_bytes_length n : node_ok n -> length (node_bytes n) = DIGEST_LEN.
Proof. destruct n; [done|by cbn]. Qed.
Lemma inner_hash_ok a b : node_ok (inner_hash a b).
Proof. apply blake2b256_length. Qed.
Lemma pad_ok l : Forall node_ok l -> Forall node_ok (pad l).
Proof.
  intros H. destruct (pad_cases l) as [[_ ->]|[_ ->]]; [done|]. apply Forall_app. by repeat constructor.
Qed.
Lemma pair_up_ok l : Forall node_ok (pair_up l).
Proof.
  induction l as [|x|x y l IH] using list_ind2; [constructor..|].
  constructor; [apply inner_hash_ok|done].
Qed.
Lemma pair_msgs_lookup l j a b :
  l !! (2 * j)%nat = Some a -> l !! (2 * j + 1)%nat = Some b ->
  INNER_PREFIX ++ node_bytes a ++ node_bytes b ∈ pair_msgs l.
Proof.
  revert j. induction l as [|y|y z l IH] using list_ind2; intros j; [done| |].
  - intros _ Hb. apply lookup_lt_Some in Hb. cbn in Hb. lia.
  - destruct j as [|j]; [cbn; intros [= ->] [= ->]; set_solver|].
    replace (2 * S j)%nat with (S (S (2 * j))) by lia. cbn [lookup list_lookup pair_msgs].
    intros Ha Hb. apply list_elem_of_further. by eapply IH.
Qed.
Lemma inner_msg_inj a b c d :
  node_ok a -> node_ok c -> INNER_PREFIX ++ node_bytes a ++ node_bytes b
    = INNER_PREFIX ++ node_bytes c ++ node_bytes d ->
  node_bytes a = node_bytes c /\ node_bytes b = node_bytes d.
Proof.
  intros Ha Hc H. apply app_inv_head in H. apply app_inj_1 in H; [done|].
  by rewrite !node_bytes_length.
Qed.

(** One step down: a parent with the digest of [(p, q)] in the level above
    pins the digests of its two children. *)
Lemma children_of_parent Q l j p q y :
  collision_free Q -> Forall node_ok l -> node_ok p ->
  (forall x, x ∈ pair_msgs (pad l) -> Q x) ->
  Q (INNER_PREFIX ++ node_bytes p ++ node_bytes q) ->
  up l !! j = Some y -> node_bytes y = node_bytes (inner_hash p q) ->
  exists a b, pad l !! (2 * j)%nat = Some a /\ pad l !! (2 * j + 1)%nat = Some b /\
    node_bytes a = node_bytes p /\ node_bytes b = node_bytes q.
Proof.
  intros [Hinj _] Hok Hp HQ Hq (a & b & Ha & Hb & ->)%pair_up_lookup Hy.
  exists a, b. do 2 (split; [done|]). cbn in Hy. apply Hinj in Hy; [|by eapply HQ, pair_msgs_lookup|done].
  apply inner_msg_inj in Hy; [done| |done]. apply pad_ok in Hok. by eapply Forall_lookup in Hok.
Qed.

Lemma even_odd_index j :
  j = (2 * (j / 2) + (if Nat.even j then 0 else 1))%nat.
Proof.
  rewrite (Nat.div_mod_eq j 2) at 1. f_equal.
  destruct (Nat.even j) eqn:He.
  - apply Nat.even_spec in He as [k ->]. by rewrite Nat.mul_comm, Nat.Div0.mod_mul.
  - rewrite <- Nat.negb_odd in He. apply negb_false_iff, Nat.odd_spec in He as [k ->].
    by rewrite Nat.add_comm, Nat.mul_comm, Nat.Div0.mod_add.
Qed.

Section Climb.
Context (Q : bytes -> Prop) (HQ : collision_free Q).

(** A climb of full height that reaches the root started at a node of the
    level. *)
Lemma climb_sound fuel l m j path :
  Q m -> (forall x, x ∈ climb_msgs (Digest (blake2b256 m)) j path -> Q x) ->
  (forall x, x ∈ tree_msgs fuel l -> Q x) ->
  Forall node_ok l -> Forall node_ok path -> (0 < length l <= fuel)%nat ->
  length path = path_length (length l) -> (j / 2 ^ length path = 0)%nat ->
  node_bytes (climb (Digest (blake2b256 m)) j path) = node_bytes (root_of fuel l) ->
  exists y, l !! j = Some y /\ node_bytes y = blake2b256 m.
Proof.
  revert l m j path. induction fuel as [|fuel IH]; intros l m j path Hm Hc Ht Hl Hp Hf Hlen Hj;
    [lia|]. rewrite path_length_step in Hlen. cbn [root_of tree_msgs] in *.
  destruct (Nat.ltb_spec 1 (length l)) as [Hlt|Hge].
  - destruct path as [|s path]; [done|]. injection Hlen as Hlen.
    cbn [climb climb_msgs] in *. apply Forall_cons in Hp as [Hs Hp].
    pose proof (up_shrinks l Hlt). intros Hroot.
    set (p := if Nat.even j then Digest (blake2b256 m) else s) in *.
    set (q := if Nat.even j then s else Digest (blake2b256 m)) in *.
    assert ((if Nat.even j then inner_hash (Digest (blake2b256 m)) s
             else inner_hash s (Digest (blake2b256 m))) = inner_hash p q) as Hin
      by (subst p q; by destruct (Nat.even j)).
    assert (INNER_PREFIX ++ (if Nat.even j then node_bytes (Digest (blake2b256 m)) ++ node_bytes s
              else node_bytes s ++ node_bytes (Digest (blake2b256 m)))
            = INNER_PREFIX ++ node_bytes p ++ node_bytes q) as Hmsg
      by (subst p q; by destruct (Nat.even j)).
    rewrite Hin in Hroot. rewrite Hmsg in Hc.
    assert (node_ok p) by (subst p; destruct (Nat.even j); [apply blake2b256_length|done]).
    destruct (IH (up l) (INNER_PREFIX ++ node_bytes p ++ node_bytes q) (j / 2)%nat path)
      as (y & Hy & Hyb); try done.
    + apply Hc. set_solver.
    + intros x Hx. apply Hc. set_solver.
    + intros x Hx. apply Ht. set_solver.
    + apply pair_up_ok.
    + lia.
    + by rewrite up_length.
    + cbn [length] in Hj. by rewrite Nat.Div0.div_div, <- Nat.pow_succ_r'.
    + destruct (children_of_parent Q l (j / 2) p q y HQ Hl) as (a & b & Ha & Hb & Hab & Hbb);
        try done; [set_solver|apply Hc; set_solver|].
      assert (exists z, pad l !! j = Some z /\ node_bytes z = blake2b256 m) as (z & Hz & Hzb).
      { pose proof (even_odd_index j) as He. subst p q. destruct (Nat.even j).
        - exists a. rewrite Nat.add_0_r in He. rewrite He at 1. done.
        - exists b. rewrite He at 1. done. }
      exists z. split; [|done]. apply pad_lookup_inv in Hz as [Hz| ->]; [done|].
      destruct HQ as [_ HE]. by destruct (HE m Hm).
  - destruct path; [|done]. cbn [length] in Hj.
    rewrite Nat.pow_0_r, Nat.div_1_r in Hj. subst j.
    destruct l as [|y [|]]; cbn in *; [lia| |lia]. intros Hy. by eexists.
Qed.

(** A shorter climb stops at an inner node. *)
Lemma climb_sound_short fuel l m j path :
  Q m -> (forall x, x ∈ climb_msgs (Digest (blake2b256 m)) j path -> Q x) ->
  (forall x, x ∈ tree_msgs fuel l -> Q x) ->
  Forall node_ok l -> Forall node_ok path -> (0 < length l <= fuel)%nat ->
  (length path < path_length (length l))%nat -> (j / 2 ^ length path = 0)%nat ->
  node_bytes (climb (Digest (blake2b256 m)) j path) = node_bytes (root_of fuel l) ->
  exists r, m = INNER_PREFIX ++ r.
Proof.
  revert l. induction fuel as [|fuel IH]; intros l Hm Hc Ht Hl Hp Hf Hlen Hj; [lia|].
  rewrite path_length_step in Hlen. cbn [root_of tree_msgs] in *.
  destruct (Nat.ltb_spec 1 (length l)) as [Hlt|Hge]; [|lia].
  pose proof (up_shrinks l Hlt). intros Hroot. rewrite <- up_length in Hlen.
  destruct (Nat.eq_dec (length path) (path_length (length (up l)))) as [He|He].
  - destruct (climb_sound fuel (up l) m j path) as (y & Hy & Hyb); try done.
    + set_solver.
    + apply pair_up_ok.
    + lia.
    + apply pair_up_lookup in Hy as (a & b & Ha & Hb & ->). cbn in Hyb.
      exists (node_bytes a ++ node_bytes b). destruct HQ as [Hinj _].
      apply Hinj; [done| |done].
      apply Ht, elem_of_app. left. by eapply pair_msgs_lookup.
  - apply (IH (up l)); try done; [set_solver|apply pair_up_ok|lia|lia].
Qed.
End Climb.

(** What a path accepted against the digest of the root shows of the tree over
    the leaf nodes [l], for any collision-free set [Q] that covers the two
    runs. *)
Lemma verify_proof_node Q l rt path leaf i :
  collision_free Q -> (forall x, x ∈ tree_msgs (length l) l -> Q x) ->
  (forall x, x ∈ verify_msgs path leaf i -> Q x) ->
  l <> [] -> Forall node_ok l -> Forall node_ok path ->
  node_bytes rt = node_bytes (root (build_from_leaf_hashes l)) ->
  verify_proof path rt (length l) leaf i = Ok tt ->
  exists y, l !! i = Some y /\ node_bytes y = blake2b256 (LEAF_PREFIX ++ leaf).
Proof.
  intros HQ Ht Hm Hne Hl Hp Hrt Hv. unfold verify_proof, check_path_length, compute_root in Hv.
  destruct (Nat.ltb_spec (path_length (length l)) (length path)) as [|Hle]; [done|].
  cbn [mbind outcome_bind] in Hv. rewrite Nat.shiftr_div_pow2 in Hv.
  destruct (Nat.eqb_spec (i / 2 ^ length path) 0) as [Hi|]; [|done].
  cbn [negb mbind outcome_bind] in Hv. apply ensure_Ok, bool_decide_eq_true in Hv.
  subst rt. rewrite build_root in Hrt. unfold verify_msgs in Hm.
  assert (0 < length l)%nat by (destruct l; [done|cbn; lia]).
  destruct (decide (length path = path_length (length l))) as [He|He].
  - apply (climb_sound Q HQ (length l) l (LEAF_PREFIX ++ leaf) i path); try done; set_solver.
  - destruct (climb_sound_short Q HQ (length l) l (LEAF_PREFIX ++ leaf) i path)
      as (r & Hr); try done; try set_solver; lia.
Qed.

(** The same for the tree over the leaves [leaves]. *)
Lemma verify_proof_leaf Q leaves path leaf i :
  collision_free Q -> (forall x, x ∈ build_msgs leaves ++ verify_msgs path leaf i -> Q x) ->
  leaves <> [] -> Forall node_ok path ->
  verify_proof path (root (build leaves)) (length leaves) leaf i = Ok tt ->
  leaves !! i = Some leaf.
Proof.
  intros HQ Hin Hne Hp Hv. unfold build in Hv. rewrite <- (length_fmap leaf_hash leaves) in Hv.
  eapply verify_proof_node in Hv as (y & Hy & Hyb); try exact HQ; try done.
  - rewrite list_lookup_fmap, fmap_Some in Hy. destruct Hy as (d & Hd & ->).
    rewrite Hd. f_equal. cbn [node_bytes leaf_hash] in Hyb.
    apply HQ in Hyb; [by apply app_inv_head in Hyb| |apply Hin; unfold verify_msgs; set_solver].
    apply Hin. unfold build_msgs. apply elem_of_app. left. apply elem_of_app. left.
    apply list_elem_of_fmap. exists d. split; [done|]. by eapply list_elem_of_lookup_2.
  - intros x Hx. apply Hin. unfold build_msgs. rewrite length_fmap in Hx. set_solver.
  - set_solver.
  - by destruct leaves.
  - apply Forall_fmap, Forall_true. intros d. apply blake2b256_length.
Qed.

(** C29: [verify_proof] is sound: a path accepted against the root of a tree
    (of any length the check lets through, with any index) shows the leaf the
    tree really holds at that index, provided the messages hashed in the tree
    and in the check do not collide and none hashes to 32 zero bytes. *)
Theorem verify_proof_sound leaves path leaf i :
  leaves <> [] -> Forall node_ok path ->
  collision_free (fun m => m ∈ build_msgs leaves ++ verify_msgs path leaf i) ->
  verify_proof path (root (build leaves)) (length leaves) leaf i = Ok tt ->
  leaves !! i = Some leaf.
Proof. intros Hne Hp HQ. by eapply verify_proof_leaf. Qed.

Lemma root_of_ok (P : Node -> Prop) fuel l :
  P Empty \/ l <> [] -> (forall a b, P (inner_hash a b)) -> Forall P l -> P (root_of fuel l).
Proof.
  intros HE Hin. revert l HE. induction fuel as [|fuel IH]; intros l HE Hl; cbn [root_of].
  - destruct l; [by destruct HE|by inversion Hl].
  - destruct (Nat.ltb_spec 1 (length l)) as [Hlt|].
    + apply IH.
      * right. pose proof (up_shrinks l Hlt). by destruct (up l); [cbn in *; lia|].
      * unfold up. induction (pad l) as [|x|x y l' IH'] using list_ind2; by repeat constructor.
    + destruct l; [by destruct HE|by inversion Hl].
Qed.
Lemma build_root_ok l : Forall node_ok l -> node_ok (root (build_from_leaf_hashes l)).
Proof. intros Hl. rewrite build_root. unfold tree_root. apply root_of_ok; [by left|apply inner_hash_ok|done]. Qed.
(** The root of a non-empty tree over leaf hashes is a digest. *)
Lemma build_root_digest l :
  l <> [] -> Forall (fun x => x <> Empty) l ->
  Digest (node_bytes (root (build_from_leaf_hashes l))) = root (build_from_leaf_hashes l).
Proof.
  intros Hne Hl. rewrite build_root.
  assert (tree_root l <> Empty) as H by (apply (root_of_ok (fun x => x <> Empty)); by try right).
  by destruct (tree_root l).
Qed.

(** Two lists of nodes of the same length with the same root hold the same
    digests. *)
Lemma digests_of_root_inj Q fuel l m :
  collision_free Q -> (forall x, x ∈ tree_msgs fuel l ++ tree_msgs fuel m -> Q x) ->
  Forall node_ok l -> Forall node_ok m -> length l = length m -> (length l <= fuel)%nat ->
  node_bytes (root_of fuel l) = node_bytes (root_of fuel m) -> node_bytes <$> l = node_bytes <$> m.
Proof.
  intros HQ. revert l m. induction fuel as [|fuel IH]; intros l m Ht Hl Hm Hlen Hf Hr.
  { by destruct l, m; cbn in *; try lia. }
  cbn [root_of tree_msgs] in *. rewrite <- Hlen in *. destruct (Nat.ltb_spec 1 (length l)) as [Hlt|].
  - pose proof (up_shrinks l Hlt). apply IH in Hr; try apply pair_up_ok; [|set_solver| |lia].
    2: by rewrite !up_length, Hlen.
    assert (length (pad l) = length (pad m)) as Hpl by by rewrite !pad_length, Hlen.
    assert (node_bytes <$> pad l = node_bytes <$> pad m) as Hp.
    { assert (Hx : forall x, x ∈ pair_msgs (pad l) ++ pair_msgs (pad m) -> Q x) by set_solver.
      apply pad_ok in Hl, Hm. assert (Nat.Even (length (pad l))) as Hev
        by (rewrite pad_length; by eexists).
      unfold up in Hr. clear -HQ Hr Hl Hm Hpl Hx Hev.
      revert Hr Hl Hm Hpl Hx Hev. generalize (pad m). induction (pad l) as [|a|a b l' IH2] using list_ind2;
        intros [|c [|d m']] Hr Hl Hm Hpl Hx Hev; try done;
        [destruct Hev as [k Hk]; cbn [length] in Hk; lia|].
      cbn in Hr, Hpl, Hx. injection Hr as Hh Hr. decompose_Forall.
      apply HQ in Hh; [|apply Hx; set_solver..].
      apply inner_msg_inj in Hh as [-> ->]; [|done..]. cbn. do 2 f_equal.
      apply IH2; try done; [set_solver|destruct Hev as [k Hk]; exists (k - 1)%nat; cbn in Hk; lia]. }
    unfold pad in Hp. rewrite <- Hlen in Hp. destruct (Nat.odd (length l)); [|done].
    rewrite !fmap_app in Hp. by apply app_inj_2 in Hp as [? _].
  - destruct l as [|x [|]], m as [|y [|]]; cbn in *; try lia; [done|]. by rewrite Hr.
Qed.

(** Two lists of leaves of the same length with the same root are equal. *)
Lemma build_inj Q ls ms :
  collision_free Q -> (forall x, x ∈ build_msgs ls ++ build_msgs ms -> Q x) ->
  length ls = length ms ->
  node_bytes (root (build ls)) = node_bytes (root (build ms)) -> ls = ms.
Proof.
  intros HQ Ht Hlen Hr. unfold build in Hr. rewrite !build_root in Hr. unfold tree_root in Hr.
  rewrite !length_fmap, <- Hlen in Hr.
  assert (forall l, Forall node_ok (leaf_hash <$> l)) as Hok
    by (intros l; apply Forall_fmap, Forall_true; intros d; apply blake2b256_length).
  unfold build_msgs in Ht. rewrite <- Hlen in Ht.
  apply (digests_of_root_inj Q) in Hr; try done; rewrite ?length_fmap; try done;
    [|set_solver]. rewrite <- !list_fmap_compose in Hr.
  assert ((fun d => blake2b256 (LEAF_PREFIX ++ d)) <$> ls = (fun d => blake2b256 (LEAF_PREFIX ++ d)) <$> ms)
    as Hf by exact Hr.
  apply (inj (fmap (LEAF_PREFIX ++.))). apply (fmap_inj_on blake2b256 Q); [apply HQ|set_solver|].
  by rewrite <- !list_fmap_compose.
Qed.

(** the three ways [verify_proof] refuses: a path longer than
    [path_length], an index with bits above the path, a recomputed root that
    differs; nothing else makes it fail and it never panics. *)
Theorem verify_proof_cases path rt n leaf i :
  verify_proof path rt n leaf i =
    (if (path_length n <? length path)%nat then Err PathLengthTooLarge
     else if negb (i / 2 ^ length path =? 0)%nat then Err (LeafIndexOutOfBounds i)
     else if bool_decide (climb (leaf_hash leaf) i path = rt) then Ok tt else Err RootMismatch).
Proof.
  unfold verify_proof, check_path_length, compute_root, ensure.
  rewrite Nat.shiftr_div_pow2.
  destruct (path_length n <? length path)%nat; [done|]. cbn [mbind outcome_bind].
  by destruct (negb _).
Qed.
End WalrusMerkle.
#[global] Arguments root _ : simpl never.
#[global] Arguments build_from_leaf_hashes {_} _ : simpl never.
#[global] Arguments verify_proof {_} _ _ _ _ _ : simpl never.
#[global] Arguments get_proof _ _ : simpl never.

Definition example_leaves : list bytes := [[102; 111; 111]; [98; 97; 114]; [98; 97; 122]].
Lemma get_proof_verifies_witness :
  exists path, get_proof (build example_leaves) 2 = Ok path /\
    length path = path_length 3 /\
    verify_proof path (root (build example_leaves)) 3 [98; 97; 122] 2 = Ok tt.
Proof. apply (proj1 (get_proof_verifies example_leaves 2)). reflexivity. Defined.

Definition collision_free_list `{HC : Crypto} (l : list bytes) : bool :=
  inj_on_check blake2b256 l
  && forallb (fun x => negb (bool_decide (blake2b256 x = EMPTY_NODE))) (remove_dups l).
Lemma collision_free_list_ok `{HC : Crypto} l :
  collision_free_list l = true -> collision_free (fun m => m ∈ l).
Proof.
  intros [H1 H2]%andb_true_iff. split; [by apply inj_on_list|].
  intros m Hm. rewrite <- elem_of_remove_dups in Hm. rewrite forallb_forall in H2.
  specialize (H2 m (proj1 (list_elem_of_In _ _) Hm)). by bool_hyps.
Qed.

Definition example_path : list Node :=
  match get_proof (build example_leaves) 2 with Ok p => p | _ => [] end.
Lemma verify_proof_sound_witness : example_leaves !! 2%nat = Some [98; 97; 122].
Proof.
  apply (verify_proof_sound example_leaves example_path).
  - discriminate.
  - repeat constructor.
  - apply collision_free_list_ok. vm_compute. reflexivity.
  - vm_compute. reflexivity.
Defined.
