(* ===== verification/WalrusConfig.v ===== *)
(** The encoding configuration and the blob metadata of [walrus-core]
    ([bft.rs], [encoding/utils.rs], [encoding/config.rs], [lib.rs],
    [metadata.rs]) and the blob identifier helpers of
    [drop-lib/src/walrus_blob_id.rs].

    Machine integers are [Z]; the non-zero types of the code are the range
    hypotheses of the theorems.  The symbol size is characterised as the least
    aligned size that makes the matrix hold the blob, and a blob identifier is
    shown to pin the metadata it was computed from. *)
From S2P Require Import Prelude Crypto WalrusMerkle.

(** ** Byzantine fault tolerance ([bft.rs]) *)

Definition max_n_faulty (n : Z) : Z := (n - 1) `div` 3.
Definition min_n_correct (n : Z) : Z := n - max_n_faulty n.

(** ** Encoding types and sizes *)

Inductive EncodingType := RedStuffRaptorQ | RS2.
#[export] Instance EncodingType_eq_dec : EqDecision EncodingType.
Proof. solve_decision. Defined.
Inductive InvalidEncodingType := invalid_encoding_type.
Inductive DataTooLargeError := data_too_large_error.

Definition encoding_to_u8 (e : EncodingType) : Z :=
  match e with RedStuffRaptorQ => 0 | RS2 => 1 end.
Definition encoding_try_from (value : Z) : outcome InvalidEncodingType EncodingType :=
  if value =? 1 then Ok RS2 else Err invalid_encoding_type.
Definition required_alignment (e : EncodingType) : Z := 2.
Definition max_symbol_size (e : EncodingType) : Z := 65535 - 1.

(** [u64::div_ceil] and [u64::next_multiple_of] (in the release profile the
    sum of the latter wraps). *)
Definition div_ceil (a b : Z) : Z :=
  let d := a `div` b in if a `mod` b =? 0 then d else d + 1.
Definition next_multiple_of (a b : Z) : Z :=
  if a `mod` b =? 0 then a else wrap 64 (a + (b - a `mod` b)).

Definition compute_symbol_size (data_length n_symbols alignment : Z)
    : outcome DataTooLargeError Z :=
  let data_length := Z.max data_length 1 in
  _ ← assert (negb (alignment =? 0)) "attempt to calculate the remainder with a divisor of zero";
  let symbol_size := next_multiple_of (div_ceil data_length n_symbols) alignment in
  symbol_size ← (if symbol_size <? 65536 then Ok symbol_size else Err data_too_large_error);
  expect (if symbol_size =? 0 then None else Some symbol_size)
    "we start with something positive and always round up".

(** The functions below that return an [Option] have [Err tt] for [None]. *)
Definition source_symbols_for_n_shards (n_shards : Z) : Z * Z :=
  (min_n_correct n_shards - max_n_faulty n_shards, min_n_correct n_shards).
Definition metadata_length_for_n_shards (n_shards : Z) : Z := n_shards * 32 * 2 + 32.
Definition max_sliver_size_for_n_secondary (n_secondary : Z) (e : EncodingType) : Z :=
  n_secondary * max_symbol_size e.
Definition max_sliver_size_for_n_shards (n_shards : Z) : Z :=
  max_sliver_size_for_n_secondary (source_symbols_for_n_shards n_shards).2 RS2.
Definition source_symbols_per_blob_for_n_shards (n_shards : Z) : Z :=
  let '(primary, secondary) := source_symbols_for_n_shards n_shards in primary * secondary.
Definition max_blob_size_for_n_shards (n_shards : Z) (e : EncodingType) : Z :=
  source_symbols_per_blob_for_n_shards n_shards * max_symbol_size e.
Definition encoded_slivers_length_for_n_shards (n_shards unencoded_length : Z)
    (e : EncodingType) : outcome unit Z :=
  let '(primary, secondary) := source_symbols_for_n_shards n_shards in
  symbol_size ← map_err (compute_symbol_size unencoded_length
    (source_symbols_per_blob_for_n_shards n_shards) (required_alignment e)) (fun _ => tt);
  Ok (n_shards * ((primary + secondary) * symbol_size)).
Definition encoded_blob_length_for_n_shards (n_shards unencoded_length : Z)
    (e : EncodingType) : outcome unit Z :=
  slivers_size ← encoded_slivers_length_for_n_shards n_shards unencoded_length e;
  Ok (n_shards * metadata_length_for_n_shards n_shards + slivers_size).

(** The configuration object: [ReedSolomonEncodingConfig] is the only variant
    of [EncodingConfigEnum]. *)
Record ReedSolomonEncodingConfig := {
  source_symbols_primary : Z;
  source_symbols_secondary : Z;
  rs_n_shards : Z;
}.
Definition MAX_SOURCE_SYMBOLS : Z := 65535.
Definition new_from_nonzero_parameters {E} (primary secondary n_shards : Z)
    : outcome E ReedSolomonEncodingConfig :=
  let f := max_n_faulty n_shards in
  assert ((primary <? MAX_SOURCE_SYMBOLS) && (secondary <? MAX_SOURCE_SYMBOLS))
    "the number of source symbols can be at most `MAX_SOURCE_SYMBOLS`" ;;
  assert (secondary <=? n_shards - f)
    "the secondary encoding can be at most a n-f encoding" ;;
  assert (primary <=? n_shards - 2 * f)
    "the primary encoding can be at most an n-2f encoding" ;;
  Ok {| source_symbols_primary := primary; source_symbols_secondary := secondary;
        rs_n_shards := n_shards |}.
Definition config_new {E} (n_shards : Z) : outcome E ReedSolomonEncodingConfig :=
  let '(primary, secondary) := source_symbols_for_n_shards n_shards in
  new_from_nonzero_parameters primary secondary n_shards.
Definition get_for_type {E} (c : ReedSolomonEncodingConfig) (e : EncodingType)
    : outcome E ReedSolomonEncodingConfig :=
  match e with RS2 => Ok c | _ => Panic "unsupported encoding type" end.
Definition symbol_size_for_blob (c : ReedSolomonEncodingConfig) (blob_size : Z)
    : outcome DataTooLargeError Z :=
  compute_symbol_size blob_size (source_symbols_primary c * source_symbols_secondary c)
    (required_alignment RS2).
Definition max_blob_size (c : ReedSolomonEncodingConfig) : Z :=
  max_blob_size_for_n_shards (rs_n_shards c) RS2.

(** Slivers and their pairs: primary slivers ascend, secondary slivers
    descend. *)
Definition to_sliver_index (is_primary : bool) (pair n_shards : Z) : Z :=
  if is_primary then pair else wrap 16 (wrap 16 (n_shards - pair) - 1).
Definition to_pair_index (is_primary : bool) (sliver n_shards : Z) : Z :=
  if is_primary then sliver else wrap 16 (wrap 16 (n_shards - sliver) - 1).

(** ** Properties of the configuration *)

Lemma source_symbols_range n : 1 <= n < 65536 ->
  let '(p, s) := source_symbols_for_n_shards n in
  1 <= p <= s /\ s <= n /\ s < MAX_SOURCE_SYMBOLS /\ p = n - 2 * max_n_faulty n.
Proof.
  intros Hn. cbn. unfold min_n_correct, max_n_faulty, MAX_SOURCE_SYMBOLS.
  pose proof (Z.div_mod (n - 1) 3). pose proof (Z.mod_pos_bound (n - 1) 3). lia.
Qed.

Lemma config_new_eq {E} n : 1 <= n < 65536 ->
  @config_new E n = Ok {| source_symbols_primary := n - 2 * max_n_faulty n;
    source_symbols_secondary := n - max_n_faulty n; rs_n_shards := n |}.
Proof.
  intros Hn. pose proof (source_symbols_range n Hn) as H. unfold config_new.
  destruct (source_symbols_for_n_shards n) as [p s] eqn:Hps.
  unfold source_symbols_for_n_shards, min_n_correct in Hps. injection Hps as Hp Hs.
  unfold new_from_nonzero_parameters.
  rewrite !(proj2 (Z.ltb_lt _ _)), !(proj2 (Z.leb_le _ _)) by lia.
  cbn. by subst s; destruct H as (_ & _ & _ & ->).
Qed.

(** The Byzantine bounds: for every committee size, [max_n_faulty] is the
    greatest [f] with [3 f < n]; two sets of [min_n_correct] shards intersect
    in more than [f] shards; the numbers of source symbols are positive and
    [EncodingConfig::new] never panics, for any number of shards. *)
Theorem committee_config n :
  (1 <= n < 65536 ->
   3 * max_n_faulty n < n /\ n <= 3 * (max_n_faulty n + 1) /\
   max_n_faulty n < 2 * min_n_correct n - n) /\
  (1 <= n < 65536 ->
   @config_new DataTooLargeError n
   = Ok {| source_symbols_primary := n - 2 * max_n_faulty n;
           source_symbols_secondary := n - max_n_faulty n; rs_n_shards := n |}) /\
  (forall is_primary i, 0 <= i < n -> n < 65536 ->
     0 <= to_sliver_index is_primary i n < n /\
     to_pair_index is_primary (to_sliver_index is_primary i n) n = i).
Proof.
  split; [|split].
  - intros Hn. unfold min_n_correct, max_n_faulty.
    pose proof (Z.div_mod (n - 1) 3). pose proof (Z.mod_pos_bound (n - 1) 3). lia.
  - apply config_new_eq.
  - intros is_primary i Hi Hn. unfold to_sliver_index, to_pair_index. destruct is_primary; [lia|].
    rewrite !wrap_small by (rewrite ?wrap_small; lia). lia.
Qed.

Lemma div_ceil_spec a b : 0 < b -> b * (div_ceil a b - 1) < a <= b * div_ceil a b.
Proof.
  intros Hb. unfold div_ceil. pose proof (Z.div_mod a b). pose proof (Z.mod_pos_bound a b).
  destruct (Z.eqb_spec (a `mod` b) 0); lia.
Qed.
Lemma next_multiple_of_spec a b : 0 < b -> 0 <= a -> a + b <= 2 ^ 64 ->
  a <= next_multiple_of a b < a + b /\ (next_multiple_of a b) `mod` b = 0.
Proof.
  intros Hb Ha Hab. unfold next_multiple_of.
  pose proof (Z.div_mod a b). pose proof (Z.mod_pos_bound a b).
  destruct (Z.eqb_spec (a `mod` b) 0); [lia|]. rewrite wrap_small by lia. split; [lia|].
  replace (a + (b - a `mod` b)) with ((a `div` b + 1) * b) by lia.
  apply Z.mod_mul. lia.
Qed.

Section SymbolSize.
Context (len n align : Z) (Hlen : 0 <= len < 2 ^ 63) (Hn : 1 <= n < 2 ^ 32)
  (Ha : 1 <= align < 2 ^ 16).

(** The unchecked symbol size, and what makes it the right one. *)
Let raw := next_multiple_of (div_ceil (Z.max len 1) n) align.

Lemma raw_symbol_size :
  Z.max len 1 <= n * raw /\ raw `mod` align = 0 /\ 1 <= raw /\
  forall s, s `mod` align = 0 -> Z.max len 1 <= n * s -> raw <= s.
Proof.
  subst raw. pose proof (div_ceil_spec (Z.max len 1) n ltac:(lia)) as Hd.
  set (d := div_ceil (Z.max len 1) n) in *. assert (0 < d <= Z.max len 1) as Hd' by nia.
  destruct (next_multiple_of_spec d align) as [Hm Hmod]; [lia..|].
  set (m := next_multiple_of d align) in *. split; [nia|]. split; [done|]. split; [lia|].
  intros s Hs Hle. assert (d <= s) by nia.
  apply Z.mod_divide in Hmod as [k Hk]; [|lia]. apply Z.mod_divide in Hs as [k' Hk']; [|lia].
  assert (k <= k') by nia. nia.
Qed.

Lemma compute_symbol_size_eq :
  compute_symbol_size len n align
  = if raw <? 65536 then Ok raw else Err data_too_large_error.
Proof.
  pose proof raw_symbol_size as (_ & _ & H1 & _).
  unfold compute_symbol_size. rewrite (proj2 (Z.eqb_neq align 0)) by lia.
  cbn [negb assert mbind outcome_bind]. fold raw.
  destruct (Z.ltb_spec raw 65536); [|done]. cbn [mbind outcome_bind].
  by rewrite (proj2 (Z.eqb_neq raw 0)) by lia.
Qed.

(** [compute_symbol_size] returns the least multiple of the alignment with
    which [n] symbols hold the blob (at least one byte), if it fits in 16
    bits, and [DataTooLargeError] exactly when no such size exists; it does
    not panic. *)
Theorem compute_symbol_size_spec :
  (forall s, compute_symbol_size len n align = Ok s <->
     1 <= s < 65536 /\ s `mod` align = 0 /\ Z.max len 1 <= n * s /\
     forall s', s' `mod` align = 0 -> Z.max len 1 <= n * s' -> s <= s') /\
  (compute_symbol_size len n align = Err data_too_large_error <->
     forall s, s `mod` align = 0 -> Z.max len 1 <= n * s -> 65536 <= s).
Proof.
  rewrite compute_symbol_size_eq. pose proof raw_symbol_size as (H1 & H2 & H3 & H4).
  split.
  - intros s. split.
    + destruct (Z.ltb_spec raw 65536); [|done]. intros [= <-]. naive_solver.
    + intros (Hs & Hmod & Hle & Hmin). assert (raw = s) as ->
        by (apply Z.le_antisymm; [by apply H4|by apply Hmin]).
      by rewrite (proj2 (Z.ltb_lt s 65536)) by lia.
  - destruct (Z.ltb_spec raw 65536); split; try done.
    + intros Hall. specialize (Hall raw H2 H1). lia.
    + intros _ s Hs Hle. specialize (H4 s Hs Hle). lia.
Qed.
End SymbolSize.

Lemma compute_symbol_size_spec_witness : compute_symbol_size 16 5 2 = Ok 4.
Proof.
  apply (proj1 (compute_symbol_size_spec 16 5 2 ltac:(lia) ltac:(lia) ltac:(lia)) 4).
  split; [lia|]. split; [done|]. split; [lia|]. intros s Hs Hle.
  apply Z.mod_divide in Hs as [k Hk]; lia.
Defined.

(** [max_blob_size] is exact: for every committee, an RS2 symbol size exists
    exactly for the blobs of at most [max_blob_size_for_n_shards] bytes, and
    then the encoded length fits in 64 bits with room to spare. *)
Theorem max_blob_size_exact n len : 1 <= n < 65536 -> 0 <= len < 2 ^ 63 ->
  (is_ok (encoded_blob_length_for_n_shards n len RS2)
   = (len <=? max_blob_size_for_n_shards n RS2)) /\
  (forall e, encoded_blob_length_for_n_shards n len RS2 = Ok e -> len <= e < 2 ^ 50).
Proof.
  intros Hn Hlen. pose proof (source_symbols_range n Hn) as Hps.
  unfold encoded_blob_length_for_n_shards, encoded_slivers_length_for_n_shards,
    max_blob_size_for_n_shards, source_symbols_per_blob_for_n_shards, max_symbol_size.
  destruct (source_symbols_for_n_shards n) as [p s]. destruct Hps as (Hp & Hs & _ & Hpe).
  assert (1 <= p * s < 2 ^ 32) as Hps by nia.
  pose proof (raw_symbol_size len (p * s) 2 Hlen Hps ltac:(lia)) as (H1 & H2 & H3 & H4).
  change (required_alignment RS2) with 2.
  rewrite (compute_symbol_size_eq len (p * s) 2 Hlen Hps ltac:(lia)).
  set (raw := next_multiple_of _ 2) in *.
  apply Z.mod_divide in H2 as [k Hk]; [|lia].
  destruct (Z.ltb_spec raw 65536) as [Hr|Hr]; cbn; split; try done.
  - symmetry. apply Z.leb_le. assert (raw <= 65534) by lia.
    assert (p * s * raw <= p * s * 65534) by (apply Z.mul_le_mono_nonneg_l; lia). lia.
  - intros e [= <-]. unfold metadata_length_for_n_shards.
    assert (0 <= (p + s) * raw <= 2 ^ 17 * 2 ^ 16) as Hb by nia.
    assert (0 <= n * ((p + s) * raw) <= 2 ^ 16 * (2 ^ 17 * 2 ^ 16)) by nia.
    assert (0 <= n * (n * 32 * 2 + 32) <= 2 ^ 16 * 2 ^ 23) by nia.
    assert (p * s <= n * (p + s)) as Hsq by nia.
    pose proof (Z.mul_le_mono_nonneg_r _ _ raw ltac:(lia) Hsq). lia.
  - symmetry. apply Z.leb_gt. specialize (H4 65534 eq_refl). lia.
Qed.
Lemma max_blob_size_exact_witness :
  is_ok (encoded_blob_length_for_n_shards 1000 1048576 RS2) = true.
Proof. rewrite (proj1 (max_blob_size_exact 1000 1048576 ltac:(lia) ltac:(lia))). reflexivity. Defined.

(** ** Metadata and blob identifiers *)

Record SliverPairMetadata := {
  primary_hash : Node;
  secondary_hash : Node;
}.
Record BlobMetadata := {
  encoding_type : EncodingType;
  unencoded_length : Z;
  hashes : list SliverPairMetadata;
}.
Record BlobMetadataWithId := {
  blob_id : bytes;
  metadata : BlobMetadata;
}.
Inductive VerificationError :=
  | InvalidHashCount (actual expected : Z)
  | BlobIdMismatch
  | UnencodedLengthTooLarge.
Record SliverPairRoots := {
  sp_primary : bytes;
  sp_secondary : bytes;
}.
#[export] Instance SliverPairRoots_eq_dec : EqDecision SliverPairRoots.
Proof. solve_decision. Defined.
#[export] Instance SliverPairRoots_inhabited : Inhabited SliverPairRoots :=
  populate {| sp_primary := []; sp_secondary := [] |}.

Section BlobId.
Context `{HC : Crypto}.

Definition pair_leaf_input (h : SliverPairMetadata) : bytes :=
  node_bytes (primary_hash h) ++ node_bytes (secondary_hash h).
Definition compute_root_hash (md : BlobMetadata) : Node :=
  root (build (pair_leaf_input <$> hashes md)).

(** [BlobId::from_metadata]: the digest of encoding, length and root. *)
Definition blob_id_msg (merkle_root : Node) (e : EncodingType) (len : Z) : bytes :=
  [encoding_to_u8 e] ++ le_bytes 8 len ++ node_bytes merkle_root.
Definition from_metadata (merkle_root : Node) (e : EncodingType) (len : Z) : bytes :=
  blake2b256 (blob_id_msg merkle_root e len).
Definition from_sliver_pair_metadata (md : BlobMetadata) : bytes :=
  from_metadata (compute_root_hash md) (encoding_type md) (unencoded_length md).

(** [BlobId::try_from(&[u8])] *)
Definition blob_id_try_from (value : bytes) : option bytes :=
  if bool_decide (length value = 32%nat) then Some value else None.

Definition new_verified_from_metadata (hs : list SliverPairMetadata) (e : EncodingType)
    (len : Z) : BlobMetadataWithId :=
  let md := {| encoding_type := e; unencoded_length := len; hashes := hs |} in
  {| blob_id := from_sliver_pair_metadata md; metadata := md |}.

(** [UnverifiedBlobMetadataWithId::verify] *)
Definition metadata_verify (m : BlobMetadataWithId) (c : ReedSolomonEncodingConfig)
    : outcome VerificationError BlobMetadataWithId :=
  let md := metadata m in
  ensure (zlen (hashes md) =? rs_n_shards c)
    (InvalidHashCount (zlen (hashes md)) (rs_n_shards c)) ;;
  c' ← get_for_type c (encoding_type md);
  ensure (unencoded_length md <=? max_blob_size c') UnencodedLengthTooLarge ;;
  ensure (bool_decide (from_sliver_pair_metadata md = blob_id m)) BlobIdMismatch ;;
  Ok m.

Definition roots_metadata (r : SliverPairRoots) : SliverPairMetadata :=
  {| primary_hash := Digest (sp_primary r); secondary_hash := Digest (sp_secondary r) |}.
Definition compute_blob_id_from_sliver_pair_roots (roots : list SliverPairRoots)
    (e : EncodingType) (len : Z) : bytes :=
  from_sliver_pair_metadata
    {| encoding_type := e; unencoded_length := len; hashes := roots_metadata <$> roots |}.

(** ** A blob identifier pins its metadata *)

Context {HL : CryptoLaws HC}.

Definition metadata_ok (md : BlobMetadata) : Prop :=
  0 <= unencoded_length md < 2 ^ 64 /\
  Forall (fun h => node_ok (primary_hash h) /\ node_ok (secondary_hash h)) (hashes md).

(** Every message hashed to compute the blob identifier. *)
Definition metadata_msgs (md : BlobMetadata) : list bytes :=
  blob_id_msg (compute_root_hash md) (encoding_type md) (unencoded_length md)
    :: build_msgs (pair_leaf_input <$> hashes md).

Lemma root_bytes_length ls : length (node_bytes (root (build ls))) = DIGEST_LEN.
Proof.
  apply node_bytes_length, build_root_ok, Forall_fmap, Forall_true. intros d. apply blake2b256_length.
Qed.

Lemma blob_id_msg_inj r1 e1 l1 r2 e2 l2 :
  0 <= l1 < 2 ^ 64 -> 0 <= l2 < 2 ^ 64 ->
  blob_id_msg r1 e1 l1 = blob_id_msg r2 e2 l2 ->
  e1 = e2 /\ l1 = l2 /\ node_bytes r1 = node_bytes r2.
Proof.
  unfold blob_id_msg. intros H1 H2 H.
  apply app_inj_1 in H as [He H]; [|done]. apply app_inj_1 in H as [Hl ->];
    [|by rewrite !le_bytes_length].
  split; [by destruct e1, e2|]. split; [|done].
  by rewrite <- (le_val_bytes 8 l1), Hl, le_val_bytes.
Qed.

Lemma from_sliver_pair_metadata_inj Q md1 md2 :
  collision_free Q -> (forall x, x ∈ metadata_msgs md1 ++ metadata_msgs md2 -> Q x) ->
  metadata_ok md1 -> metadata_ok md2 -> length (hashes md1) = length (hashes md2) ->
  from_sliver_pair_metadata md1 = from_sliver_pair_metadata md2 ->
  encoding_type md1 = encoding_type md2 /\ unencoded_length md1 = unencoded_length md2 /\
  pair_leaf_input <$> hashes md1 = pair_leaf_input <$> hashes md2.
Proof.
  unfold metadata_msgs. intros HQ Ht [Hl1 Hn1] [Hl2 Hn2] Hlen H. apply HQ in H; [|set_solver..].
  apply blob_id_msg_inj in H as (He & Hl & Hr); [|done..]. do 2 (split; [done|]).
  unfold compute_root_hash in Hr. apply (build_inj Q); try done; [set_solver|].
  by rewrite !length_fmap.
Qed.

(** C35: [verify] decides exactly whether the number of hashes is the committee's,
    the length can be encoded and the identifier is the one computed from the
    metadata, and reports the first of the three that fails; two pieces of
    metadata verified under one configuration with one blob identifier agree
    on the encoding, on the length and on every digest, unless BLAKE2b
    collides on the messages hashed. *)
Theorem metadata_verify_binds c m1 m2 :
  metadata_ok (metadata m1) -> metadata_ok (metadata m2) ->
  encoding_type (metadata m1) = RS2 ->
  (metadata_verify m1 c =
     (if negb (zlen (hashes (metadata m1)) =? rs_n_shards c)
      then Err (InvalidHashCount (zlen (hashes (metadata m1))) (rs_n_shards c))
      else if negb (unencoded_length (metadata m1) <=? max_blob_size c)
      then Err UnencodedLengthTooLarge
      else if bool_decide (from_sliver_pair_metadata (metadata m1) = blob_id m1)
      then Ok m1 else Err BlobIdMismatch)) /\
  (metadata_verify m1 c = Ok m1 -> metadata_verify m2 c = Ok m2 -> blob_id m1 = blob_id m2 ->
   collision_free (fun x => x ∈ metadata_msgs (metadata m1) ++ metadata_msgs (metadata m2)) ->
   unencoded_length (metadata m1) = unencoded_length (metadata m2) /\
   encoding_type (metadata m2) = RS2 /\
   (forall i h1 h2, hashes (metadata m1) !! i = Some h1 -> hashes (metadata m2) !! i = Some h2 ->
      node_bytes (primary_hash h1) = node_bytes (primary_hash h2) /\
      node_bytes (secondary_hash h1) = node_bytes (secondary_hash h2))).
Proof.
  intros Hok1 Hok2 He. split.
  - unfold metadata_verify. rewrite He. unfold ensure.
    destruct (_ =? _); [|done]. cbn. destruct (_ <=? _); [|done]. cbn.
    by destruct (bool_decide _).
  - unfold metadata_verify. intros H1 H2 Hid HQ. inv_ok. bool_hyps.
    destruct (from_sliver_pair_metadata_inj _ (metadata m1) (metadata m2) HQ) as (He' & Hl & Hh);
      try done; [lia|congruence|].
    split; [done|]. split; [congruence|]. intros i h1 h2 Hi1 Hi2.
    apply (f_equal (lookup i)) in Hh. rewrite !list_lookup_fmap, Hi1, Hi2 in Hh.
    injection Hh as Hh. destruct Hok1 as [_ Hok1], Hok2 as [_ Hok2].
    eapply Forall_lookup_1 in Hok1 as [? _], Hok2 as [? _]; [|done..].
    apply app_inj_1 in Hh; [done|]. by rewrite !node_bytes_length.
Qed.
End BlobId.

Definition example_pair (b : Z) : SliverPairMetadata :=
  {| primary_hash := Digest (replicate 32 b); secondary_hash := Digest (replicate 32 (b + 1)) |}.
Definition example_config : ReedSolomonEncodingConfig :=
  {| source_symbols_primary := 1; source_symbols_secondary := 2; rs_n_shards := 3 |}.
Definition example_metadata : BlobMetadataWithId :=
  new_verified_from_metadata [example_pair 1; example_pair 7; example_pair 9] RS2 100.
Lemma metadata_verify_binds_witness :
  metadata_verify example_metadata example_config = Ok example_metadata /\
  unencoded_length (metadata example_metadata) = 100.
Proof.
  assert (metadata_ok (metadata example_metadata)) as Hok
    by (split; [cbn; lia|repeat constructor]).
  destruct (metadata_verify_binds example_config example_metadata example_metadata
    Hok Hok eq_refl) as [Hv Hb].
  assert (metadata_verify example_metadata example_config = Ok example_metadata) as Hv'
    by (rewrite Hv; vm_compute; reflexivity).
  split; [exact Hv'|]. destruct (Hb Hv' Hv' eq_refl) as [Hl _].
  - apply collision_free_list_ok. vm_compute. reflexivity.
  - exact Hl.
Defined.
