(* ===== verification/Cid.v ===== *)
(** Content identifiers: [drop-lib/src/cid.rs].  A file of at most 256 KiB is
    one raw block; a larger file is cut into 256 KiB leaves listed by a DAG-PB
    root node.  The file has two implementations, one that returns the textual
    CID and one for the zkVM that returns its bytes; they are proved to denote
    the same CID, and the CID to commit to the file.

    The crate [cid] is the class [CidApi]. *)
From S2P Require Import Prelude Crypto.

Class CidApi := {
  multihash : Type;
  cid : Type;
  multihash_from_bytes : bytes -> option multihash;
  cid_new_v1 : Z -> multihash -> cid;
  cid_to_bytes : cid -> bytes;
  cid_to_string : cid -> string;
}.
(** The binary form of a version 1 CID over a SHA2-256 multihash. *)
Class CidLaws (X : CidApi) : Prop := {
  cid_sha256_bytes h : length h = 32%nat ->
    exists mh, multihash_from_bytes (18 :: 32 :: h) = Some mh /\
      forall codec, 0 <= codec < 128 ->
        cid_to_bytes (cid_new_v1 codec mh) = 1 :: codec :: 18 :: 32 :: h;
}.

Definition CHUNK_SIZE : Z := 262144.

(** [while n >= 0x80 { buf.push((n as u8) | 0x80); n >>= 7; } buf.push(n as u8)];
    a [u64] needs at most ten rounds. *)
Fixpoint write_varint_loop (fuel : nat) (n : Z) (buf : bytes) : bytes :=
  match fuel with
  | O => buf
  | S fuel =>
      if 128 <=? n
      then write_varint_loop fuel (Z.shiftr n 7) (buf ++ [Z.lor (n `mod` 256) 128])
      else buf ++ [n `mod` 256]
  end.
Definition write_varint (n : Z) (buf : bytes) : bytes := write_varint_loop 10 n buf.

#[global] Arguments write_varint : simpl never.

Section Cid.
Context `{HC : Crypto} `{HX : CidApi}.

(** *** The textual version *)

Definition sha256_multihash (hash : bytes) : outcome string multihash :=
  expect (multihash_from_bytes (concat [[18; 32]; hash])) "called `Result::unwrap()`".

Definition compute_raw_cid (data : bytes) : outcome string string :=
  mh ← sha256_multihash (sha256 data);
  Ok (cid_to_string (cid_new_v1 85 mh)).

Definition leaf_link (chunk : bytes) : outcome string (cid * Z) :=
  mh ← sha256_multihash (sha256 chunk);
  Ok (cid_new_v1 85 mh, zlen chunk).

(** One round of the loop over the links. *)
Definition push_link (dag_pb_bytes : bytes) (l : cid * Z) : bytes :=
  let '(c, size) := l in
  let cid_bytes := cid_to_bytes c in
  let link := [10] in
  let link := write_varint (zlen cid_bytes) link in
  let link := link ++ cid_bytes in
  let link := link ++ [18; 0] in
  let link := link ++ [24] in
  let link := write_varint size link in
  let dag := dag_pb_bytes ++ [18] in
  let dag := write_varint (zlen link) dag in
  dag ++ link.

Definition unix_fs (blocksizes : list Z) (total_len : Z) : bytes :=
  let inner := write_varint total_len [8; 2; 24] in
  fold_left (fun inner size => write_varint size (inner ++ [32])) blocksizes inner.

Definition dag_pb (links : list (cid * Z)) (blocksizes : list Z) (total_len : Z) : bytes :=
  let dag := fold_left push_link links [] in
  let inner := unix_fs blocksizes total_len in
  let dag := write_varint (zlen inner) (dag ++ [10]) in
  dag ++ inner.

Definition compute_root_dag_pb (links : list (cid * Z)) (blocksizes : list Z)
    (total_len : Z) : outcome string string :=
  mh ← sha256_multihash (sha256 (dag_pb links blocksizes total_len));
  Ok (cid_to_string (cid_new_v1 112 mh)).

Definition compute_ipfs_cid (data : bytes) : outcome string string :=
  if zlen data <=? CHUNK_SIZE then compute_raw_cid data
  else
    let cs := chunks (Z.to_nat CHUNK_SIZE) data in
    links ← omapM leaf_link cs;
    let blocksizes := (fun c => zlen c) <$> cs in
    let total_len := fold_left (fun t c => t + zlen c) cs 0 in
    compute_root_dag_pb links blocksizes total_len.

(** *** The zkVM version *)

(** [let mut mh_bytes = [0u8; 34]; ...; mh_bytes[2..].copy_from_slice(&hash)] *)
Definition mh_array (hash : bytes) : outcome string bytes :=
  let a := <[1%nat := 32]> (<[0%nat := 18]> (replicate 34 0)) in
  assert (length hash =? 32)%nat "copy_from_slice: source slice length mismatch" ;;
  Ok (take 2 a ++ hash).

Definition zk_multihash (hash : bytes) : outcome string multihash :=
  a ← mh_array hash;
  expect (multihash_from_bytes a) "called `Result::unwrap()`".

Definition compute_raw_cid_bytes (data : bytes) : outcome string bytes :=
  mh ← zk_multihash (sha256 data);
  Ok (cid_to_bytes (cid_new_v1 85 mh)).

Definition zk_leaf_link (chunk : bytes) : outcome string (cid * Z) :=
  mh ← zk_multihash (sha256 chunk);
  Ok (cid_new_v1 85 mh, zlen chunk).

Definition zk_push_link (dag_pb_bytes : bytes) (l : cid * Z) : bytes :=
  let '(c, size) := l in
  let cid_bytes := cid_to_bytes c in
  let link_inner := [10] in
  let link_inner := write_varint (zlen cid_bytes) link_inner in
  let link_inner := link_inner ++ cid_bytes in
  let link_inner := link_inner ++ [18; 0] in
  let link_inner := link_inner ++ [24] in
  let link_inner := write_varint size link_inner in
  let dag := dag_pb_bytes ++ [18] in
  let dag := write_varint (zlen link_inner) dag in
  dag ++ link_inner.

Definition zk_unix_fs (blocksizes : list Z) (total_len : Z) : bytes :=
  let inner := [8; 2] ++ [24] in
  let inner := write_varint total_len inner in
  fold_left (fun inner size => write_varint size (inner ++ [32])) blocksizes inner.

Definition compute_root_dag_pb_zk_optimized (links : list (cid * Z))
    (blocksizes : list Z) (total_len : Z) : outcome string bytes :=
  let dag := fold_left zk_push_link links [] in
  let inner := zk_unix_fs blocksizes total_len in
  let dag := write_varint (zlen inner) (dag ++ [10]) in
  let dag := dag ++ inner in
  mh ← zk_multihash (sha256 dag);
  Ok (cid_to_bytes (cid_new_v1 112 mh)).

Definition compute_ipfs_cid_zk_optimized (data : bytes) : outcome string bytes :=
  if zlen data <=? CHUNK_SIZE then compute_raw_cid_bytes data
  else
    let cs := chunks (Z.to_nat CHUNK_SIZE) data in
    links ← omapM zk_leaf_link cs;
    let blocksizes := (fun c => zlen c) <$> cs in
    let total_len := fold_left (fun t c => t + zlen c) cs 0 in
    compute_root_dag_pb_zk_optimized links blocksizes total_len.
End Cid.

(** ** Variable-length integers *)

(** The decoder of the wire format: low seven bits first, the high bit says
    that another byte follows. *)
Fixpoint read_varint (l : bytes) : option (Z * bytes) :=
  match l with
  | [] => None
  | b :: l =>
      if b <? 128 then Some (b, l)
      else '(n, rest) ← read_varint l; Some ((b - 128) + 128 * n, rest)
  end.

Lemma lor_128 n : Z.lor (n `mod` 256) 128 = 128 + n `mod` 128.
Proof.
  replace (n `mod` 128) with ((n `mod` 256) `mod` 128).
  2: { rewrite (Z.mod_mod_divide n 256 128); [done|by exists 2]. }
  assert (is_byte (n `mod` 256)) as Hb by (apply Z.mod_pos_bound; lia).
  revert Hb. generalize (n `mod` 256). intros r Hr. apply Z.eqb_eq.
  by apply (byte_check (fun r => Z.lor r 128 =? 128 + r `mod` 128)).
Qed.

Lemma write_varint_loop_app fuel n buf :
  write_varint_loop fuel n buf = buf ++ write_varint_loop fuel n [].
Proof.
  revert n buf. induction fuel as [|fuel IH]; intros n buf; cbn; [by rewrite app_nil_r|].
  destruct (128 <=? n); [|done]. by rewrite IH, (IH _ [_]), app_assoc.
Qed.
Lemma write_varint_app n buf : write_varint n buf = buf ++ write_varint n [].
Proof. apply write_varint_loop_app. Qed.

Lemma read_write_varint_loop fuel n rest :
  (0 < fuel)%nat -> 0 <= n < 2 ^ (7 * Z.of_nat fuel) ->
  read_varint (write_varint_loop fuel n [] ++ rest) = Some (n, rest).
Proof.
  revert n. induction fuel as [|fuel IH]; intros n Hf Hn; [lia|].
  cbn [write_varint_loop]. destruct (Z.leb_spec 128 n) as [Hge|Hlt].
  - rewrite write_varint_loop_app, <- app_assoc, lor_128. cbn [app read_varint].
    pose proof (Z.mod_pos_bound n 128). destruct (Z.ltb_spec (128 + n `mod` 128) 128); [lia|].
    rewrite Z.shiftr_div_pow2 by lia. change (2 ^ 7) with 128.
    assert (0 < fuel)%nat as Hf'.
    { destruct fuel; [|lia]. change (2 ^ (7 * Z.of_nat 1)) with 128 in Hn. lia. }
    rewrite (IH _ Hf').
    + cbn. do 2 f_equal. pose proof (Z.div_mod n 128). lia.
    + split; [apply Z.div_pos; lia|]. apply Z.div_lt_upper_bound; [lia|].
      replace (7 * Z.of_nat (S fuel)) with (7 + 7 * Z.of_nat fuel) in Hn by lia.
      rewrite Z.pow_add_r in Hn by lia. change (2 ^ 7) with 128 in Hn. lia.
  - cbn [app read_varint]. rewrite Z.mod_small by lia.
    by destruct (Z.ltb_spec n 128); [|lia].
Qed.

Lemma write_varint_loop_length fuel n : (length (write_varint_loop fuel n []) <= fuel)%nat.
Proof.
  revert n. induction fuel as [|fuel IH]; intros n; cbn; [lia|].
  destruct (128 <=? n); [|cbn; lia]. rewrite write_varint_loop_app, length_app. cbn.
  specialize (IH (Z.shiftr n 7)). lia.
Qed.

Lemma write_varint_loop_pos fuel n : (1 <= length (write_varint_loop (S fuel) n []))%nat.
Proof.
  cbn [write_varint_loop]. destruct (128 <=? n); [|cbn; lia].
  rewrite write_varint_loop_app, length_app. cbn. lia.
Qed.

(** Every [u64] written by [write_varint] is read back by the decoder of the
    wire format, whatever follows it, and takes one to ten bytes, which is what
    makes the ten rounds of the loop enough. *)
Theorem varint_roundtrip n buf rest :
  0 <= n < 2 ^ 64 ->
  exists w, write_varint n buf = buf ++ w /\ (1 <= length w <= 10)%nat /\
    read_varint (w ++ rest) = Some (n, rest).
Proof.
  intros Hn. exists (write_varint n []). split; [apply write_varint_app|]. split.
  - split; [apply (write_varint_loop_pos 9)|apply write_varint_loop_length].
  - apply read_write_varint_loop; cbn; lia.
Qed.

(** The code is prefix free. *)
Lemma write_varint_inj m n r1 r2 :
  0 <= m < 2 ^ 64 -> 0 <= n < 2 ^ 64 ->
  write_varint m [] ++ r1 = write_varint n [] ++ r2 -> m = n /\ r1 = r2.
Proof.
  intros Hm Hn H. apply (f_equal read_varint) in H.
  unfold write_varint in H. rewrite !read_write_varint_loop in H by (cbn; lia).
  by injection H.
Qed.

(** ** The two versions and the commitment *)

Section CidFacts.
Context `{HC : Crypto} {HL : CryptoLaws HC} `{HX : CidApi} {HXL : CidLaws HX}.

(** The binary CID of a SHA2-256 digest under a codec. *)
Definition cid_image (codec : Z) (h : bytes) : bytes := 1 :: codec :: 18 :: 32 :: h.

Lemma zk_multihash_eq h : length h = 32%nat -> zk_multihash h = sha256_multihash h.
Proof. intros Hh. unfold zk_multihash, mh_array, sha256_multihash. rewrite Hh. cbn. by rewrite app_nil_r. Qed.

Lemma sha256_multihash_Ok h :
  length h = 32%nat -> exists mh, sha256_multihash h = Ok mh /\
    forall codec, 0 <= codec < 128 -> cid_to_bytes (cid_new_v1 codec mh) = cid_image codec h.
Proof.
  intros Hh. destruct (cid_sha256_bytes h Hh) as (mh & Hm & Hc).
  exists mh. split; [|done]. unfold sha256_multihash. cbn. by rewrite app_nil_r, Hm.
Qed.

Lemma zk_leaf_link_eq c : zk_leaf_link c = leaf_link c.
Proof. unfold zk_leaf_link, leaf_link. by rewrite zk_multihash_eq by apply sha256_length. Qed.

Lemma leaf_link_Ok c : exists i, leaf_link c = Ok (i, zlen c) /\
  cid_to_bytes i = cid_image 85 (sha256 c).
Proof.
  destruct (sha256_multihash_Ok (sha256 c)) as (mh & Hm & Hb); [apply sha256_length|].
  exists (cid_new_v1 85 mh). unfold leaf_link. rewrite Hm. split; [done|]. by apply Hb.
Qed.

Lemma leaf_links_Ok cs : exists links, omapM leaf_link cs = Ok links /\
  Forall2 (fun c l => cid_to_bytes l.1 = cid_image 85 (sha256 c) /\ l.2 = zlen c) cs links.
Proof.
  induction cs as [|c cs (links & Hl & Hf)]; [by exists []|].
  destruct (leaf_link_Ok c) as (i & Hi & Hb). exists ((i, zlen c) :: links).
  cbn. rewrite Hi, Hl. split; [done|]. by constructor.
Qed.

Lemma omapM_ext {E A B} (f g : A -> outcome E B) l :
  (forall x, f x = g x) -> omapM f l = omapM g l.
Proof. intros H. induction l as [|x l IH]; [done|]. cbn. by rewrite H, IH. Qed.

(** C34: The implementation for the zkVM is the binary form of the textual one: on
    every file the two compute one and the same CID, and neither panics. *)
Theorem compute_ipfs_cid_equiv data :
  exists c, compute_ipfs_cid data = Ok (cid_to_string c) /\
    compute_ipfs_cid_zk_optimized data = Ok (cid_to_bytes c).
Proof.
  unfold compute_ipfs_cid, compute_ipfs_cid_zk_optimized. destruct (_ <=? _).
  - unfold compute_raw_cid, compute_raw_cid_bytes. rewrite zk_multihash_eq by apply sha256_length.
    destruct (sha256_multihash_Ok (sha256 data)) as (mh & -> & _); [apply sha256_length|]. eauto.
  - rewrite (omapM_ext _ _ _ zk_leaf_link_eq).
    destruct (leaf_links_Ok (chunks (Z.to_nat CHUNK_SIZE) data)) as (links & -> & _).
    cbn [mbind outcome_bind]. unfold compute_root_dag_pb, compute_root_dag_pb_zk_optimized.
    rewrite zk_multihash_eq by apply sha256_length.
    change (fold_left zk_push_link) with (fold_left push_link).
    change (@zk_unix_fs) with (@unix_fs). fold (dag_pb links ((λ c, zlen c) <$> chunks (Z.to_nat CHUNK_SIZE) data)
      (fold_left (λ t c, t + zlen c) (chunks (Z.to_nat CHUNK_SIZE) data) 0)).
    destruct (sha256_multihash_Ok (sha256 (dag_pb links ((λ c, zlen c) <$> chunks (Z.to_nat CHUNK_SIZE) data)
      (fold_left (λ t c, t + zlen c) (chunks (Z.to_nat CHUNK_SIZE) data) 0)))) as (mh & -> & _);
      [apply sha256_length|]. eauto.
Qed.

(** The serialised form of one link. *)
Definition link_bytes (l : cid * Z) : bytes :=
  let inner := [10] ++ write_varint (zlen (cid_to_bytes l.1)) [] ++ cid_to_bytes l.1
                 ++ [18; 0; 24] ++ write_varint l.2 [] in
  [18] ++ write_varint (zlen inner) [] ++ inner.

Lemma push_link_app acc l : push_link acc l = acc ++ link_bytes l.
Proof.
  destruct l as [c n]. unfold push_link, link_bytes; cbn [fst snd].
  rewrite (write_varint_app (zlen (cid_to_bytes c)) [10]).
  rewrite (write_varint_app n), (write_varint_app _ (acc ++ [18])).
  rewrite <- !app_assoc. cbn [app]. done.
Qed.
Lemma push_links_app acc links :
  fold_left push_link links acc = acc ++ concat (link_bytes <$> links).
Proof.
  revert acc. induction links as [|l links IH]; intros acc; cbn; [by rewrite app_nil_r|].
  by rewrite IH, push_link_app, <- app_assoc.
Qed.

Definition link_ok (l : cid * Z) : Prop :=
  length (cid_to_bytes l.1) = 36%nat /\ 0 <= l.2 < 2 ^ 63.

Lemma link_bytes_inj l1 l2 r1 r2 :
  link_ok l1 -> link_ok l2 -> link_bytes l1 ++ r1 = link_bytes l2 ++ r2 ->
  cid_to_bytes l1.1 = cid_to_bytes l2.1 /\ l1.2 = l2.2 /\ r1 = r2.
Proof.
  intros [Hc1 Hs1] [Hc2 Hs2]. unfold link_bytes. rewrite Hc1, Hc2.
  set (V := write_varint (Z.of_nat 36) []).
  cbv zeta. intros H. rewrite <- !(app_assoc [18]) in H. apply app_inv_head in H.
  rewrite <- !app_assoc in H.
  assert (forall l : cid * Z, length (cid_to_bytes l.1) = 36%nat -> link_ok l ->
    0 <= zlen ([10] ++ V ++ cid_to_bytes l.1 ++ [18; 0; 24] ++ write_varint l.2 []) < 2 ^ 64) as Hb.
  { intros l Hl _. rewrite !length_app, Hl. pose proof (write_varint_loop_length 10 l.2).
    unfold write_varint. change (length V) with 1%nat. cbn [length]. lia. }
  apply write_varint_inj in H as [_ H]; [|by apply Hb|by apply Hb].
  do 2 apply app_inv_head in H.
  apply app_inj_1 in H as [-> H]; [|by rewrite Hc1, Hc2]. apply app_inv_head in H.
  by apply write_varint_inj in H as [-> ->]; [|lia..].
Qed.

#[local] Arguments link_bytes : simpl never.
Lemma links_inj ls1 ls2 r1 r2 :
  Forall link_ok ls1 -> Forall link_ok ls2 ->
  concat (link_bytes <$> ls1) ++ 10 :: r1 = concat (link_bytes <$> ls2) ++ 10 :: r2 ->
  (cid_to_bytes ∘ fst <$> ls1) = (cid_to_bytes ∘ fst <$> ls2).
Proof.
  intros H1. revert ls2. induction H1 as [|l1 ls1 Hl1 _ IH]; intros ls2 H2.
  - destruct H2 as [|l2 ls2 _ _]; [done|]. cbn. unfold link_bytes at 1. discriminate.
  - destruct H2 as [|l2 ls2 Hl2 H2]; [cbn; unfold link_bytes at 1; discriminate|]. cbn. rewrite <- !app_assoc.
    intros (Hc & _ & Hr)%link_bytes_inj; [|done..].
    rewrite Hc. f_equal. by apply IH.
Qed.

(** The messages hashed to compute the CID of a file. *)
Definition file_links (data : bytes) : list (cid * Z) :=
  match omapM leaf_link (chunks (Z.to_nat CHUNK_SIZE) data) with Ok l => l | _ => [] end.
Definition file_dag (data : bytes) : bytes :=
  let cs := chunks (Z.to_nat CHUNK_SIZE) data in
  dag_pb (file_links data) ((fun c => zlen c) <$> cs) (fold_left (fun t c => t + zlen c) cs 0).
Definition cid_msgs (data : bytes) : list bytes :=
  if zlen data <=? CHUNK_SIZE then [data]
  else file_dag data :: chunks (Z.to_nat CHUNK_SIZE) data.

Lemma zk_cid_value data :
  compute_ipfs_cid_zk_optimized data =
    Ok (if zlen data <=? CHUNK_SIZE then cid_image 85 (sha256 data)
        else cid_image 112 (sha256 (file_dag data))).
Proof.
  unfold compute_ipfs_cid_zk_optimized, file_dag, file_links. destruct (_ <=? _).
  - unfold compute_raw_cid_bytes. rewrite zk_multihash_eq by apply sha256_length.
    destruct (sha256_multihash_Ok (sha256 data)) as (mh & -> & Hb); [apply sha256_length|].
    cbn. by rewrite Hb.
  - rewrite (omapM_ext _ _ _ zk_leaf_link_eq).
    destruct (leaf_links_Ok (chunks (Z.to_nat CHUNK_SIZE) data)) as (links & -> & _).
    cbn [mbind outcome_bind]. unfold compute_root_dag_pb_zk_optimized.
    rewrite zk_multihash_eq by apply sha256_length.
    change (fold_left zk_push_link) with (fold_left push_link).
    change (@zk_unix_fs) with (@unix_fs).
    match goal with |- context [sha256_multihash (sha256 ?d)] =>
      destruct (sha256_multihash_Ok (sha256 d)) as (mh & -> & Hb) end; [apply sha256_length|].
    cbn. by rewrite Hb.
Qed.

Lemma file_links_spec data :
  Forall link_ok (file_links data) /\
  (cid_to_bytes ∘ fst <$> file_links data)
    = cid_image 85 <$> (sha256 <$> chunks (Z.to_nat CHUNK_SIZE) data).
Proof.
  unfold file_links.
  pose proof (chunks_length_le (Z.to_nat CHUNK_SIZE) data ltac:(unfold CHUNK_SIZE; lia)) as Hlen.
  destruct (leaf_links_Ok (chunks (Z.to_nat CHUNK_SIZE) data)) as (links & -> & Hf).
  revert Hlen. induction Hf as [|c l cs links [Hb Hs] _ IH]; [done|].
  intros [Hc Hlen]%Forall_cons. destruct (IH Hlen) as [H1 H2]. split.
  - constructor; [|done]. unfold link_ok. rewrite Hb, Hs. split; [|unfold CHUNK_SIZE in Hc; lia].
    unfold cid_image. cbn [length]. by rewrite sha256_length.
  - rewrite !fmap_cons. unfold compose at 1. rewrite Hb. f_equal. done.
Qed.

Lemma dag_pb_links_inj ls1 ls2 bs1 bs2 t1 t2 :
  Forall link_ok ls1 -> Forall link_ok ls2 ->
  dag_pb ls1 bs1 t1 = dag_pb ls2 bs2 t2 ->
  (cid_to_bytes ∘ fst <$> ls1) = (cid_to_bytes ∘ fst <$> ls2).
Proof.
  intros H1 H2. unfold dag_pb. rewrite !push_links_app.
  rewrite (write_varint_app _ (([] ++ concat (link_bytes <$> ls1)) ++ [10])).
  rewrite (write_varint_app _ (([] ++ concat (link_bytes <$> ls2)) ++ [10])).
  rewrite <- !app_assoc. cbn [app]. by apply links_inj.
Qed.

(** The CID commits to the file: two files with the same CID are equal,
    provided SHA-256 does not collide on the messages hashed for them (the
    blocks and the root nodes).  A raw block and a DAG-PB root are never
    confused. *)
Theorem cid_commits_to_file d1 d2 :
  inj_on sha256 (fun m => m ∈ cid_msgs d1 ++ cid_msgs d2) ->
  compute_ipfs_cid_zk_optimized d1 = compute_ipfs_cid_zk_optimized d2 -> d1 = d2.
Proof.
  intros Hinj. rewrite !zk_cid_value. unfold cid_msgs in Hinj. intros [= H].
  destruct (zlen d1 <=? CHUNK_SIZE), (zlen d2 <=? CHUNK_SIZE); try discriminate H.
  - injection H as H. apply Hinj in H; [done|set_solver..].
  - injection H as H. apply Hinj in H; [|set_solver..].
    destruct (file_links_spec d1) as [Hl1 Hc1], (file_links_spec d2) as [Hl2 Hc2].
    apply dag_pb_links_inj in H; [|done..]. rewrite Hc1, Hc2 in H.
    apply (inj (fmap (cid_image 85))) in H.
    apply (chunks_inj (Z.to_nat CHUNK_SIZE)); [unfold CHUNK_SIZE; lia|].
    apply (fmap_inj_on sha256 _ _ _ Hinj); [set_solver|done].
Qed.

(** Every CID is 36 bytes long and ends with a SHA-256 digest, the 32 bytes the
    guests publish. *)
Lemma cid_digest_tail data c :
  compute_ipfs_cid_zk_optimized data = Ok c ->
  length c = 36%nat /\ exists codec d, c = cid_image codec d /\ length d = 32%nat.
Proof.
  rewrite zk_cid_value. intros [= <-].
  destruct (_ <=? _); (split; [unfold cid_image; cbn [length]; by rewrite sha256_length|]);
    eexists _, _; (split; [done|]); apply sha256_length.
Qed.
End CidFacts.

(** A concrete CID crate: the multihash and the CID are their byte strings. *)
#[export] Instance toy_cid : CidApi := {
  multihash := bytes;
  cid := bytes;
  multihash_from_bytes b := Some b;
  cid_new_v1 codec mh := [1; codec] ++ mh;
  cid_to_bytes c := c;
  cid_to_string c := "cid"%string;
}.
#[export] Instance toy_cid_laws : CidLaws toy_cid.
Proof. split. intros h _. by exists (18 :: 32 :: h). Qed.

Lemma varint_roundtrip_witness :
  exists w, write_varint 300 [7] = [7] ++ w /\ (1 <= length w <= 10)%nat /\
    read_varint (w ++ [9]) = Some (300, [9]).
Proof. apply (varint_roundtrip 300 [7] [9]). lia. Defined.

Lemma cid_commits_to_file_witness : [1; 2; 3] = [1; 2] ++ [3].
Proof.
  apply (cid_commits_to_file (HC := toy_crypto) (HX := toy_cid) [1; 2; 3] ([1; 2] ++ [3])).
  - apply inj_on_list. vm_compute. reflexivity.
  - reflexivity.
Defined.

Lemma compute_ipfs_cid_equiv_witness :
  compute_ipfs_cid (HX := toy_cid) [1; 2; 3] = Ok "cid"%string.
Proof.
  destruct (compute_ipfs_cid_equiv (HC := toy_crypto) (HX := toy_cid) [1; 2; 3]) as (c & Hc & _).
  exact Hc.
Defined.
