(* ===== verification/Gf256.v ===== *)
(** The field GF(256) of the column proofs: the logarithm and exponential
    tables and [gf256_mul_walrus] of [drop-lib/src/rslh_ve.rs].

    The tables are related to the field they stand for: multiplication by [x]
    in GF(2)[x] / (x^8 + x^4 + x^3 + x^2 + 1) ([xtime]); the field laws, in
    particular that a product is linear, follow. *)
From S2P Require Import Prelude Crypto.

Definition GF_LOG : list Z :=
  [0; 0; 1; 25; 2; 50; 26; 198; 3; 223; 51; 238; 27; 104; 199; 75; 4; 100; 224; 14;
   52; 141; 239; 129; 28; 193; 105; 248; 200; 8; 76; 113; 5; 138; 101; 47; 225; 36; 15; 33;
   53; 147; 142; 218; 240; 18; 130; 69; 29; 181; 194; 125; 106; 39; 249; 185; 201; 154; 9; 120;
   77; 228; 114; 166; 6; 191; 139; 98; 102; 221; 48; 253; 226; 152; 37; 179; 16; 145; 34; 136;
   54; 208; 148; 206; 143; 150; 219; 189; 241; 210; 19; 92; 131; 56; 70; 64; 30; 66; 182; 163;
   195; 72; 126; 110; 107; 58; 40; 84; 250; 133; 186; 61; 202; 94; 155; 159; 10; 21; 121; 43;
   78; 212; 229; 172; 115; 243; 167; 87; 7; 112; 192; 247; 140; 128; 99; 13; 103; 74; 222; 237;
   49; 197; 254; 24; 227; 165; 153; 119; 38; 184; 180; 124; 17; 68; 146; 217; 35; 32; 137; 46;
   55; 63; 209; 91; 149; 188; 207; 205; 144; 135; 151; 178; 220; 252; 190; 97; 242; 86; 211; 171;
   20; 42; 93; 158; 132; 60; 57; 83; 71; 109; 65; 162; 31; 45; 67; 216; 183; 123; 164; 118;
   196; 23; 73; 236; 127; 12; 111; 246; 108; 161; 59; 82; 41; 157; 85; 170; 251; 96; 134; 177;
   187; 204; 62; 90; 203; 89; 95; 176; 156; 169; 160; 81; 11; 245; 22; 235; 122; 117; 44; 215;
   79; 174; 213; 233; 230; 231; 173; 232; 116; 214; 244; 234; 168; 80; 88; 175].

Definition GF_EXP : list Z :=
  [1; 2; 4; 8; 16; 32; 64; 128; 29; 58; 116; 232; 205; 135; 19; 38; 76; 152; 45; 90;
   180; 117; 234; 201; 143; 3; 6; 12; 24; 48; 96; 192; 157; 39; 78; 156; 37; 74; 148; 53;
   106; 212; 181; 119; 238; 193; 159; 35; 70; 140; 5; 10; 20; 40; 80; 160; 93; 186; 105; 210;
   185; 111; 222; 161; 95; 190; 97; 194; 153; 47; 94; 188; 101; 202; 137; 15; 30; 60; 120; 240;
   253; 231; 211; 187; 107; 214; 177; 127; 254; 225; 223; 163; 91; 182; 113; 226; 217; 175; 67; 134;
   17; 34; 68; 136; 13; 26; 52; 104; 208; 189; 103; 206; 129; 31; 62; 124; 248; 237; 199; 147;
   59; 118; 236; 197; 151; 51; 102; 204; 133; 23; 46; 92; 184; 109; 218; 169; 79; 158; 33; 66;
   132; 21; 42; 84; 168; 77; 154; 41; 82; 164; 85; 170; 73; 146; 57; 114; 228; 213; 183; 115;
   230; 209; 191; 99; 198; 145; 63; 126; 252; 229; 215; 179; 123; 246; 241; 255; 227; 219; 171; 75;
   150; 49; 98; 196; 149; 55; 110; 220; 165; 87; 174; 65; 130; 25; 50; 100; 200; 141; 7; 14;
   28; 56; 112; 224; 221; 167; 83; 166; 81; 162; 89; 178; 121; 242; 249; 239; 195; 155; 43; 86;
   172; 69; 138; 9; 18; 36; 72; 144; 61; 122; 244; 245; 247; 243; 251; 235; 203; 139; 11; 22;
   44; 88; 176; 125; 250; 233; 207; 131; 27; 54; 108; 216; 173; 71; 142; 1].

Definition gf256_mul_walrus (a b : Z) : Z :=
  if (a =? 0) || (b =? 0) then 0
  else
    let sum := (GF_LOG !!! Z.to_nat a + GF_LOG !!! Z.to_nat b) `mod` 255 in
    GF_EXP !!! Z.to_nat sum.

(** ** The field behind the tables *)

Definition xtime (a : Z) : Z :=
  Z.lxor (Z.land (Z.shiftl a 1) 255) (if Z.testbit a 7 then 29 else 0).

Abbreviation gf_log a := (GF_LOG !!! Z.to_nat a).
Abbreviation gf_exp i := (GF_EXP !!! Z.to_nat i).

Lemma xtime_byte a : is_byte (xtime a).
Proof.
  unfold xtime. apply lxor_byte; [|by destruct (Z.testbit a 7)].
  change 255 with (Z.ones 8). rewrite Z.land_ones by lia. apply Z.mod_pos_bound. lia.
Qed.
Lemma xtime_lxor a b : xtime (Z.lxor a b) = Z.lxor (xtime a) (xtime b).
Proof.
  unfold xtime. rewrite Z.lxor_spec, Z.shiftl_lxor.
  assert (forall x y z, Z.land (Z.lxor x y) z = Z.lxor (Z.land x z) (Z.land y z)) as ->.
  { intros x y z. apply Z.bits_inj'. intros k _. rewrite !Z.land_spec, !Z.lxor_spec, !Z.land_spec.
    by destruct (Z.testbit x k), (Z.testbit y k), (Z.testbit z k). }
  set (A := Z.land _ 255). set (B := Z.land _ 255).
  destruct (Z.testbit a 7), (Z.testbit b 7); cbn [xorb]; apply Z.bits_inj'; intros k _;
    rewrite !Z.lxor_spec, ?Z.bits_0;
    destruct (Z.testbit A k), (Z.testbit B k), (Z.testbit 29 k); done.
Qed.

Fixpoint xtimes (n : nat) (a : Z) : Z :=
  match n with O => a | S n => xtime (xtimes n a) end.

Lemma xtimes_lxor n a b : xtimes n (Z.lxor a b) = Z.lxor (xtimes n a) (xtimes n b).
Proof. induction n as [|n IH]; [done|]. cbn. by rewrite IH, xtime_lxor. Qed.
Lemma xtimes_add m n a : xtimes (m + n) a = xtimes m (xtimes n a).
Proof. induction m as [|m IH]; [done|]. cbn. by rewrite IH. Qed.
Lemma xtimes_0 n : xtimes n 0 = 0.
Proof. induction n as [|n IH]; [done|]. cbn. by rewrite IH. Qed.
Lemma xtimes_byte n a : is_byte a -> is_byte (xtimes n a).
Proof. intros Ha. destruct n; [done|]. apply xtime_byte. Qed.

(** The tables, checked entry by entry. *)
Lemma gf_exp_log a : is_byte a -> a <> 0 ->
  gf_exp (gf_log a) = a /\ 0 <= gf_log a < 255.
Proof.
  intros Ha Hne.
  assert (forallb (fun a => (a =? 0) || ((gf_exp (gf_log a) =? a) &&
    (0 <=? gf_log a) && (gf_log a <? 255))) (seqZ 0 256) = true) as HC
    by (vm_compute; reflexivity).
  pose proof (byte_check _ HC a Ha) as H. cbv beta in H.
  apply orb_true_iff in H as [H|H]; bool_hyps; [done|]. lia.
Qed.
Lemma gf_exp_step i : 0 <= i < 255 ->
  gf_exp ((i + 1) `mod` 255) = xtime (gf_exp i).
Proof.
  intros Hi.
  assert (forallb (fun i => (i =? 255) || (gf_exp ((i + 1) `mod` 255) =? xtime (gf_exp i)))
    (seqZ 0 256) = true) as HC by (vm_compute; reflexivity).
  pose proof (byte_check _ HC i ltac:(unfold is_byte; lia)) as H. cbv beta in H.
  apply orb_true_iff in H as [H|H]; bool_hyps; [lia|done].
Qed.
Lemma gf_log_exp i : 0 <= i < 255 -> gf_log (gf_exp i) = i /\ gf_exp i <> 0 /\ is_byte (gf_exp i).
Proof.
  intros Hi.
  assert (forallb (fun i => (i =? 255) || ((gf_log (gf_exp i) =? i) &&
    negb (gf_exp i =? 0) && (0 <=? gf_exp i) && (gf_exp i <? 256))) (seqZ 0 256) = true) as HC
    by (vm_compute; reflexivity).
  pose proof (byte_check _ HC i ltac:(unfold is_byte; lia)) as H. cbv beta in H. unfold is_byte.
  apply orb_true_iff in H as [H|H]; bool_hyps; lia.
Qed.
Lemma gf_exp_xtimes n i : 0 <= i < 255 ->
  gf_exp ((i + Z.of_nat n) `mod` 255) = xtimes n (gf_exp i).
Proof.
  intros Hi. induction n as [|n IH]; [by rewrite Z.add_0_r, Z.mod_small|].
  cbn [xtimes]. rewrite <- IH, <- gf_exp_step by (apply Z.mod_pos_bound; lia).
  do 2 f_equal. rewrite Z.add_mod_idemp_l by lia. f_equal. lia.
Qed.
Lemma xtimes_255 a : is_byte a -> xtimes 255 a = a.
Proof.
  intros Ha. destruct (decide (a = 0)) as [->|Hne]; [apply xtimes_0|].
  destruct (gf_exp_log a Ha Hne) as [He Hl]. rewrite <- He at 1.
  rewrite <- gf_exp_xtimes by done. change (Z.of_nat 255) with (1 * 255).
  by rewrite Z.mod_add, Z.mod_small by lia.
Qed.
Lemma xtimes_mod n a : is_byte a -> xtimes n a = xtimes (n `mod` 255) a.
Proof.
  intros Ha. rewrite (Nat.div_mod_eq n 255) at 1. rewrite xtimes_add.
  set (r := xtimes (n `mod` 255) a). assert (is_byte r) as Hr by by apply xtimes_byte.
  clearbody r. generalize (n / 255)%nat. intros q.
  induction q as [|q IH]; [by rewrite Nat.mul_0_r|].
  rewrite Nat.mul_succ_r, xtimes_add, xtimes_255, IH; done.
Qed.

(** Multiplication by a non-zero [b] is [gf_log b] multiplications by [x]. *)
Lemma gf_mul_xtimes a b : is_byte a -> is_byte b -> b <> 0 ->
  gf256_mul_walrus a b = xtimes (Z.to_nat (gf_log b)) a.
Proof.
  intros Ha Hb Hne. unfold gf256_mul_walrus. rewrite (proj2 (Z.eqb_neq b 0) Hne), orb_false_r.
  destruct (Z.eqb_spec a 0) as [->|Hna]; [by rewrite xtimes_0|].
  destruct (gf_exp_log a Ha Hna) as [He Hl], (gf_exp_log b Hb Hne) as [_ Hlb].
  rewrite <- He at 2. rewrite <- gf_exp_xtimes by done. by rewrite Z2Nat.id by lia.
Qed.
Lemma gf_mul_0_r a : gf256_mul_walrus a 0 = 0.
Proof. unfold gf256_mul_walrus. by rewrite orb_true_r. Qed.
Lemma gf_mul_0_l b : gf256_mul_walrus 0 b = 0.
Proof. done. Qed.
Lemma gf_mul_comm a b : gf256_mul_walrus a b = gf256_mul_walrus b a.
Proof. unfold gf256_mul_walrus. by rewrite orb_comm, Z.add_comm. Qed.
Lemma gf_mul_byte a b : is_byte a -> is_byte b -> is_byte (gf256_mul_walrus a b).
Proof.
  intros Ha Hb. destruct (decide (b = 0)) as [->|Hne]; [by rewrite gf_mul_0_r|].
  rewrite gf_mul_xtimes by done. by apply xtimes_byte.
Qed.
Lemma gf_mul_lxor_l a a' b : is_byte a -> is_byte a' -> is_byte b ->
  gf256_mul_walrus (Z.lxor a a') b
  = Z.lxor (gf256_mul_walrus a b) (gf256_mul_walrus a' b).
Proof.
  intros Ha Ha' Hb. destruct (decide (b = 0)) as [->|Hne]; [by rewrite !gf_mul_0_r|].
  rewrite !gf_mul_xtimes by (done || by apply lxor_byte). apply xtimes_lxor.
Qed.
Lemma gf_log_mul a b : is_byte a -> is_byte b -> a <> 0 -> b <> 0 ->
  gf256_mul_walrus a b <> 0 /\
  gf_log (gf256_mul_walrus a b) = (gf_log a + gf_log b) `mod` 255.
Proof.
  intros Ha Hb Hna Hnb. unfold gf256_mul_walrus.
  rewrite (proj2 (Z.eqb_neq a 0) Hna), (proj2 (Z.eqb_neq b 0) Hnb). cbn [orb].
  destruct (gf_log_exp ((gf_log a + gf_log b) `mod` 255)) as (H1 & H2 & _);
    [apply Z.mod_pos_bound; lia|done].
Qed.
Lemma gf_mul_assoc a b c : is_byte a -> is_byte b -> is_byte c ->
  gf256_mul_walrus (gf256_mul_walrus a b) c = gf256_mul_walrus a (gf256_mul_walrus b c).
Proof.
  intros Ha Hb Hc.
  destruct (decide (b = 0)) as [->|Hnb]; [by rewrite gf_mul_0_r, !gf_mul_0_l, gf_mul_0_r|].
  destruct (decide (c = 0)) as [->|Hnc]; [by rewrite !gf_mul_0_r|].
  destruct (gf_log_mul b c) as [Hn Hl]; [done..|].
  rewrite (gf_mul_xtimes a (gf256_mul_walrus b c)) by (done || by apply gf_mul_byte).
  rewrite Hl, (gf_mul_xtimes a b) by done. rewrite gf_mul_xtimes by (done || by apply xtimes_byte).
  rewrite <- xtimes_add, xtimes_mod by done. f_equal.
  destruct (gf_exp_log b) as [_ ?]; [done..|]. destruct (gf_exp_log c) as [_ ?]; [done..|].
  rewrite <- Z2Nat.inj_add by lia. rewrite Z.add_comm.
  apply Nat2Z.inj. rewrite Nat2Z.inj_mod, !Z2Nat.id by (try apply Z.mod_pos_bound; lia). done.
Qed.

(** [gf256_mul_walrus] is the product of a field on the 256 bytes whose sum is
    exclusive or: closed, commutative, associative, distributive, with unit 1,
    no zero divisors, and an inverse for every non-zero byte. *)
Theorem gf256_field :
  (forall a b, is_byte a -> is_byte b -> is_byte (gf256_mul_walrus a b)) /\
  (forall a b, gf256_mul_walrus a b = gf256_mul_walrus b a) /\
  (forall a b c, is_byte a -> is_byte b -> is_byte c ->
     gf256_mul_walrus (gf256_mul_walrus a b) c = gf256_mul_walrus a (gf256_mul_walrus b c)) /\
  (forall a b c, is_byte a -> is_byte b -> is_byte c ->
     gf256_mul_walrus (Z.lxor a b) c = Z.lxor (gf256_mul_walrus a c) (gf256_mul_walrus b c)) /\
  (forall a, is_byte a -> gf256_mul_walrus a 1 = a) /\
  (forall a b, is_byte a -> is_byte b -> a <> 0 -> b <> 0 -> gf256_mul_walrus a b <> 0) /\
  (forall a, is_byte a -> a <> 0 ->
     exists b, is_byte b /\ gf256_mul_walrus a b = 1).
Proof.
  repeat split; intros.
  - by apply gf_mul_byte.
  - by apply gf_mul_byte.
  - apply gf_mul_comm.
  - by apply gf_mul_assoc.
  - by apply gf_mul_lxor_l.
  - by rewrite gf_mul_xtimes.
  - by apply gf_log_mul.
  - destruct (gf_exp_log a) as [Ha Hl]; [done..|].
    destruct (gf_log_exp ((255 - gf_log a) `mod` 255)) as (H1' & H2' & H3');
      [apply Z.mod_pos_bound; lia|].
    exists (gf_exp ((255 - gf_log a) `mod` 255)). split; [done|].
    unfold gf256_mul_walrus. rewrite (proj2 (Z.eqb_neq a 0)), (proj2 (Z.eqb_neq _ 0) H2') by done.
    cbn [orb]. rewrite H1', Z.add_mod_idemp_r by lia.
    replace (gf_log a + (255 - gf_log a)) with 255 by lia. done.
Qed.
