(* ===== verification/Rslh.v ===== *)
(** RSLH-VE, the sampled proof that a ciphertext is the key stream encryption
    of an original ([drop-lib/src/rslh_ve.rs]): the symbol size, the challenge
    indices, the column aggregates over GF(256), the honest prover and the
    verifier.

    Byte vectors of fixed length are lists; the in-place updates of the code
    ([p[i] ^= ..]) are [xor_blk].  The aggregate of a column is related to
    [xsum], the sum in the field of the weighted symbols of its 667 rows. *)
From S2P Require Import Prelude Crypto WalrusConfig Gf256.

Definition ROW_WIDTH_PRIMARY : Z := 334.
Definition COL_HEIGHT_SECONDARY : Z := 667.
Arguments COL_HEIGHT_SECONDARY : simpl never.
Definition DEFAULT_SAMPLE_COUNT : Z := 15.
Definition MIN_VDD_BLOB_BYTES : Z := 1024 * 1024.

Definition walrus_symbol_size (blob_len : Z) : Z :=
  let total_symbols := ROW_WIDTH_PRIMARY * COL_HEIGHT_SECONDARY in
  let raw := div_ceil (Z.max blob_len 1) total_symbols in
  raw + Z.land raw 1.

Inductive ParityType := Col | Row | NoParity.
Record VeShardProof := {
  global_index : Z;
  col_index : Z;
  parity_offset : Z;
  origin_shard : bytes;
  cipher_shard : bytes;
  p_type : ParityType;
}.

(** [for j in 0..block.len() { acc[j] ^= gf256_mul_walrus(block[j], beta) }] *)
Fixpoint xor_blk (beta : Z) (acc block : bytes) : bytes :=
  match acc, block with
  | a :: acc, b :: block => Z.lxor a (gf256_mul_walrus b beta) :: xor_blk beta acc block
  | _, _ => acc
  end.
(** The same for [j in start..]. *)
Definition xor_blk_from (start : nat) (beta : Z) (acc block : bytes) : bytes :=
  take start acc ++ xor_blk beta (drop start acc) (drop start block).

(** Flat byte offset of the symbol at logical row and column. *)
Definition symbol_offset (col row symbol_size : Z) : Z :=
  (col * COL_HEIGHT_SECONDARY + row) * symbol_size.

Section Rslh.
Context `{HC : Crypto}.

(** A key stream block: [seek(pos)], then [apply_keystream] of zeros. *)
Definition ks_block (key nonce : bytes) (pos symbol_size : Z) : bytes :=
  apply_keystream key nonce pos (zeros symbol_size).

Definition derive_rslh_nonce (key aux_data : bytes) : bytes :=
  take 12 (sha256 (key ++ aux_data)).

Definition beta_of (row parity_offset : Z) : Z :=
  GF_EXP !!! Z.to_nat ((row * wrap 32 (parity_offset + 1)) `mod` 255).

(** The aggregated key stream of the [for row] loop of
    [verify_col_homomorphism]. *)
Definition column_keystream (key nonce : bytes) (col parity_offset symbol_size : Z) : bytes :=
  foldl (fun p_ks row =>
      xor_blk (beta_of row parity_offset) p_ks
        (ks_block key nonce (symbol_offset col row symbol_size) symbol_size))
    (zeros symbol_size) (seqZ 0 COL_HEIGHT_SECONDARY).

Definition verify_col_homomorphism (key nonce : bytes) (proof : VeShardProof)
    (symbol_size : Z) : outcome string unit :=
  ensure ((zlen (origin_shard proof) =? symbol_size) && (zlen (cipher_shard proof) =? symbol_size))
    "RSLH_VE: SHARD_LENGTH_MISMATCH" ;;
  ensure (col_index proof <? ROW_WIDTH_PRIMARY) "RSLH_VE: COL_INDEX_RANGE" ;;
  let p_ks := column_keystream key nonce (col_index proof) (parity_offset proof) symbol_size in
  ensure (bool_decide (zip_with Z.lxor (origin_shard proof) p_ks = cipher_shard proof))
    "RSLH_VE: COL_HOMOMORPHISM_FAILURE".

Definition challenge_seed (c_origin c_cipher c_key : bytes) : bytes :=
  sha256 (c_origin ++ c_cipher ++ c_key).
Definition expected_idx (seed : bytes) (total_shards i : Z) : Z :=
  le_val (take 4 (sha256 (seed ++ le_bytes 4 (wrap 32 i)))) `mod` total_shards.

Definition verify_rslh_ve_combat (key c_key c_origin c_cipher aux_data : bytes)
    (total_shards symbol_size : Z) (proofs : list VeShardProof) : outcome string unit :=
  let seed := challenge_seed c_origin c_cipher c_key in
  let nonce := derive_rslh_nonce key aux_data in
  oforall (fun '(i, proof) =>
    assert (negb (total_shards =? 0))
      "attempt to calculate the remainder with a divisor of zero" ;;
    ensure (global_index proof =? expected_idx seed total_shards (Z.of_nat i))
      "RSLH_VE: INDEX_MISMATCH" ;;
    verify_col_homomorphism key nonce proof symbol_size) (imap pair proofs).

Definition verify_rslh_ve_combat_raw (key c_key c_origin_bytes c_cipher_bytes aux_data : bytes)
    (total_shards symbol_size : Z) (proofs : list VeShardProof) : outcome string unit :=
  c_origin ← ok_or (blob_id_try_from c_origin_bytes) "c_origin_cast_err";
  c_cipher ← ok_or (blob_id_try_from c_cipher_bytes) "c_cipher_cast_err";
  verify_rslh_ve_combat key c_key c_origin c_cipher aux_data total_shards symbol_size proofs.

(** One row of [create_honest_proof]. *)
Definition honest_row (key nonce : bytes) (symbol_size : Z) (origin cipher : bytes)
    (col : Z) (p : bytes * bytes) (row : Z) : outcome string (bytes * bytes) :=
  let '(p_m, p_c) := p in
  let byte_off := symbol_offset col row symbol_size in
  let beta := GF_EXP !!! Z.to_nat (row `mod` 255) in
  let n := if byte_off <? zlen origin
           then Z.min (byte_off + symbol_size) (zlen origin) - byte_off else 0 in
  '(p_m, p_c) ←
    (if byte_off <? zlen origin then
       o ← expect (get_range origin byte_off n) "index out of bounds";
       c ← expect (get_range cipher byte_off n) "index out of bounds";
       Ok (xor_blk beta p_m o, xor_blk beta p_c c)
     else Ok (p_m, p_c));
  Ok (p_m, xor_blk_from (Z.to_nat n) beta p_c (ks_block key nonce byte_off symbol_size)).

Definition create_honest_proof (key nonce : bytes) (idx symbol_size : Z)
    (origin cipher : bytes) : outcome string VeShardProof :=
  let col_idx := idx `mod` ROW_WIDTH_PRIMARY in
  '(p_m, p_c) ← ofold (honest_row key nonce symbol_size origin cipher col_idx)
    (zeros symbol_size, zeros symbol_size) (seqZ 0 COL_HEIGHT_SECONDARY);
  Ok {| global_index := idx; col_index := col_idx; parity_offset := 0;
        origin_shard := p_m; cipher_shard := p_c; p_type := Col |}.
End Rslh.

(** ** Sums in the field *)

(** The sum over the rows of [x row] weighted by [w row]. *)
Definition xsum (w x : Z -> Z) (rows : list Z) : Z :=
  foldr (fun r a => Z.lxor (gf256_mul_walrus (x r) (w r)) a) 0 rows.

Lemma gf_exp_byte i : is_byte (GF_EXP !!! Z.to_nat (i `mod` 255)).
Proof. apply gf_log_exp, Z.mod_pos_bound. lia. Qed.
Lemma gf_exp_nonzero i : GF_EXP !!! Z.to_nat (i `mod` 255) <> 0.
Proof. apply gf_log_exp, Z.mod_pos_bound. lia. Qed.

Lemma xsum_cons w x r rows :
  xsum w x (r :: rows) = Z.lxor (gf256_mul_walrus (x r) (w r)) (xsum w x rows).
Proof. done. Qed.
Lemma xsum_ext w x y rows : (forall r, r ∈ rows -> x r = y r) -> xsum w x rows = xsum w y rows.
Proof.
  intros H. induction rows as [|r rows IH]; [done|]. rewrite !xsum_cons. rewrite H, IH; [done| |set_solver].
  intros s Hs. apply H. set_solver.
Qed.
Lemma xsum_weights w w' x rows : (forall r, w r = w' r) -> xsum w x rows = xsum w' x rows.
Proof.
  intros H. induction rows as [|r rows IH]; [done|]. rewrite !xsum_cons. by rewrite H, IH.
Qed.
Lemma xsum_byte w x rows :
  (forall r, is_byte (w r)) -> (forall r, is_byte (x r)) -> is_byte (xsum w x rows).
Proof.
  intros Hw Hx. induction rows as [|r rows IH]; [done|]. rewrite xsum_cons.
  by apply lxor_byte; [apply gf_mul_byte|].
Qed.
(** The sum is linear in the symbols. *)
Lemma xsum_lxor w x y rows :
  (forall r, is_byte (w r)) -> (forall r, is_byte (x r)) -> (forall r, is_byte (y r)) ->
  xsum w (fun r => Z.lxor (x r) (y r)) rows = Z.lxor (xsum w x rows) (xsum w y rows).
Proof.
  intros Hw Hx Hy. induction rows as [|r rows IH]; [done|]. rewrite !xsum_cons.
  rewrite gf_mul_lxor_l, IH by done. rewrite !Z.lxor_assoc. f_equal.
  rewrite <- !Z.lxor_assoc. f_equal. apply Z.lxor_comm.
Qed.
Lemma xsum_zero w rows : xsum w (fun _ => 0) rows = 0.
Proof. induction rows as [|r rows IH]; [done|]. by rewrite xsum_cons, IH. Qed.
(** A sum with a single non-zero term. *)
Lemma xsum_single w x rows r :
  NoDup rows -> r ∈ rows -> (forall s, s <> r -> x s = 0) ->
  xsum w x rows = gf256_mul_walrus (x r) (w r).
Proof.
  intros Hnd Hr Hx. induction Hnd as [|s rows Hs Hnd IH]; [by apply elem_of_nil in Hr|].
  rewrite xsum_cons. destruct (decide (s = r)) as [->|Hne].
  - rewrite (xsum_ext w x (fun _ => 0)), xsum_zero; [apply Z.lxor_0_r|].
    intros t Ht. apply Hx. by intros ->.
  - rewrite Hx, gf_mul_0_l by done. rewrite IH; [apply Z.lxor_0_l|]. set_solver.
Qed.

(** ** Vectors pointwise *)

Lemma xor_blk_length beta acc block : length (xor_blk beta acc block) = length acc.
Proof. revert block. induction acc as [|a acc IH]; intros [|b block]; cbn; auto. Qed.
Lemma xor_blk_nth beta acc block i : (i < length acc)%nat ->
  nth i (xor_blk beta acc block) 0
  = Z.lxor (nth i acc 0) (gf256_mul_walrus (nth i block 0) beta).
Proof.
  revert block i. induction acc as [|a acc IH]; intros [|b block] [|i] Hi; cbn in *; try lia;
    rewrite ?gf_mul_0_l, ?Z.lxor_0_r; try done.
  apply IH. lia.
Qed.
Lemma xor_blk_from_length start beta acc block :
  length (xor_blk_from start beta acc block) = length acc.
Proof. unfold xor_blk_from. rewrite length_app, xor_blk_length, length_take, length_drop. lia. Qed.
Lemma nth_drop_Z n (l : bytes) i : nth i (drop n l) 0 = nth (n + i) l 0.
Proof. by rewrite !nth_lookup, lookup_drop. Qed.
Lemma nth_take_Z n (l : bytes) i : (i < n)%nat -> nth i (take n l) 0 = nth i l 0.
Proof. intros. by rewrite !nth_lookup, lookup_take_lt. Qed.
Lemma xor_blk_from_nth start beta acc block i : (i < length acc)%nat -> (start <= length acc)%nat ->
  nth i (xor_blk_from start beta acc block) 0
  = Z.lxor (nth i acc 0)
      (if (i <? start)%nat then 0 else gf256_mul_walrus (nth i block 0) beta).
Proof.
  intros Hi Hs. unfold xor_blk_from. destruct (Nat.ltb_spec i start).
  - rewrite app_nth1 by (rewrite length_take; lia). by rewrite nth_take_Z, Z.lxor_0_r by done.
  - rewrite app_nth2 by (rewrite length_take; lia). rewrite length_take, Nat.min_l by lia.
    rewrite xor_blk_nth by (rewrite length_drop; lia). rewrite !nth_drop_Z.
    by replace (start + (i - start))%nat with i by lia.
Qed.
Lemma bytes_nth_byte l i : is_bytes l -> is_byte (nth i l 0).
Proof.
  intros Hl. rewrite nth_lookup. destruct (l !! i) eqn:H; [|done]. by eapply Forall_lookup in Hl.
Qed.

(** Folding [xor_blk] over the rows is the weighted sum at each position. *)
Lemma fold_xor_blk_nth (w : Z -> Z) (blk : Z -> bytes) rows acc i :
  (i < length acc)%nat ->
  nth i (foldl (fun p r => xor_blk (w r) p (blk r)) acc rows) 0
  = Z.lxor (nth i acc 0) (xsum w (fun r => nth i (blk r) 0) rows).
Proof.
  revert acc. induction rows as [|r rows IH]; intros acc Hi; cbn; [by rewrite Z.lxor_0_r|].
  rewrite IH by by rewrite xor_blk_length. rewrite xor_blk_nth by done. apply Z.lxor_assoc.
Qed.
Lemma fold_xor_blk_length (w : Z -> Z) (blk : Z -> bytes) rows acc :
  length (foldl (fun p r => xor_blk (w r) p (blk r)) acc rows) = length acc.
Proof.
  revert acc. induction rows as [|r rows IH]; intros acc; cbn; [done|].
  by rewrite IH, xor_blk_length.
Qed.
Lemma list_eq_nth (l m : bytes) :
  length l = length m -> (forall i, (i < length l)%nat -> nth i l 0 = nth i m 0) -> l = m.
Proof. intros H1 H2. by apply (nth_ext l m 0 0). Qed.

Section Column.
Context `{HC : Crypto} {HL : CryptoLaws HC}.

Lemma ks_block_nth key nonce pos size i : (i < Z.to_nat size)%nat ->
  nth i (ks_block key nonce pos size) 0 = keystream key nonce (pos + Z.of_nat i).
Proof.
  intros Hi. unfold ks_block. rewrite nth_lookup.
  erewrite apply_keystream_lookup by (apply lookup_replicate; split; [done|exact Hi]).
  cbn. apply Z.lxor_0_l.
Qed.
Lemma ks_block_length key nonce pos size : length (ks_block key nonce pos size) = Z.to_nat size.
Proof. unfold ks_block. by rewrite apply_keystream_length, zeros_length. Qed.

(** The key stream byte at position [i] of the symbol at [row], [col]. *)
Definition ks_at (key nonce : bytes) (col size : Z) (i : nat) (row : Z) : Z :=
  keystream key nonce (symbol_offset col row size + Z.of_nat i).

Lemma column_keystream_length key nonce col po size :
  length (column_keystream key nonce col po size) = Z.to_nat size.
Proof. unfold column_keystream. rewrite fold_xor_blk_length. apply zeros_length. Qed.
Lemma column_keystream_nth key nonce col po size i : (i < Z.to_nat size)%nat ->
  nth i (column_keystream key nonce col po size) 0
  = xsum (fun r => beta_of r po) (ks_at key nonce col size i) (seqZ 0 COL_HEIGHT_SECONDARY).
Proof.
  intros Hi. unfold column_keystream.
  rewrite (fold_xor_blk_nth (fun r => beta_of r po)
    (fun r => ks_block key nonce (symbol_offset col r size) size)) by by rewrite zeros_length.
  rewrite zeros_nth, Z.lxor_0_l. apply xsum_ext. intros r _. by apply ks_block_nth.
Qed.

Lemma zip_lxor_nth (l m : bytes) i : length l = length m ->
  nth i (zip_with Z.lxor l m) 0 = Z.lxor (nth i l 0) (nth i m 0).
Proof.
  intros H. rewrite !nth_lookup, lookup_zip_with. destruct (l !! i) eqn:Hl; cbn.
  - apply lookup_lt_Some in Hl. destruct (lookup_lt_is_Some_2 m i) as [y ->]; [lia|done].
  - by rewrite (proj2 (lookup_ge_None m i)) by (rewrite <- H; by apply lookup_ge_None).
Qed.

(** What [verify_col_homomorphism] accepts. *)
Lemma verify_col_homomorphism_Ok key nonce p size : 0 <= size ->
  verify_col_homomorphism key nonce p size = Ok tt <->
  zlen (origin_shard p) = size /\ zlen (cipher_shard p) = size /\
  col_index p < ROW_WIDTH_PRIMARY /\
  forall i, (i < Z.to_nat size)%nat ->
    nth i (cipher_shard p) 0
    = Z.lxor (nth i (origin_shard p) 0)
        (xsum (fun r => beta_of r (parity_offset p)) (ks_at key nonce (col_index p) size i)
           (seqZ 0 COL_HEIGHT_SECONDARY)).
Proof.
  intros Hs. unfold verify_col_homomorphism.
  set (ks := column_keystream _ _ _ _ _).
  assert (length ks = Z.to_nat size) as Hks by apply column_keystream_length.
  split.
  - intros H. inv_ok. bool_hyps. do 3 (split; [done|]). intros i Hi.
    match goal with H : zip_with _ _ _ = _ |- _ => rewrite <- H end.
    rewrite zip_lxor_nth by lia. f_equal. by apply column_keystream_nth.
  - intros (Ho & Hc & Hcol & Hall). unfold ensure.
    rewrite !(proj2 (Z.eqb_eq _ _)), (proj2 (Z.ltb_lt _ _)) by done. cbn [andb mbind outcome_bind].
    rewrite bool_decide_eq_true_2; [done|]. apply list_eq_nth.
    + rewrite length_zip_with. lia.
    + intros i Hi. rewrite length_zip_with in Hi. rewrite zip_lxor_nth by lia.
      rewrite Hall by lia. f_equal. apply column_keystream_nth. lia.
Qed.

(** ** The honest prover *)

Definition weight (row : Z) : Z := GF_EXP !!! Z.to_nat (row `mod` 255).
(** Byte [i] of the symbol at [row], [col] of the zero-padded data, and of the
    ciphertext continued by the key stream. *)
Definition sym_at (data : bytes) (col size : Z) (i : nat) (row : Z) : Z :=
  nth (Z.to_nat (symbol_offset col row size + Z.of_nat i)) data 0.
Definition cipher_at (key nonce : bytes) (len : Z) (cipher : bytes) (col size : Z) (i : nat)
    (row : Z) : Z :=
  if symbol_offset col row size + Z.of_nat i <? len then sym_at cipher col size i row
  else ks_at key nonce col size i row.

Lemma beta_of_0 r : beta_of r 0 = weight r.
Proof.
  unfold beta_of, weight. change (wrap 32 (0 + 1)) with 1. by rewrite Z.mul_1_r.
Qed.
Lemma weight_byte r : is_byte (weight r).
Proof. apply gf_exp_byte. Qed.
Lemma weight_nonzero r : weight r <> 0.
Proof. apply gf_exp_nonzero. Qed.
Lemma nth_get_range (l r : bytes) off n i : get_range l off n = Some r ->
  nth i r 0 = if (Z.of_nat i <? n) then nth (Z.to_nat (off + Z.of_nat i)) l 0 else 0.
Proof.
  intros Hr. pose proof (get_range_length _ _ _ _ Hr) as Hl.
  apply get_range_Some in Hr as (Ho & Hn & Hle & ->). destruct (Z.ltb_spec (Z.of_nat i) n).
  - rewrite nth_take_Z, nth_drop_Z by lia. f_equal. lia.
  - apply nth_overflow. lia.
Qed.

Lemma honest_row_spec key nonce size origin cipher col p row :
  0 <= size -> 0 <= symbol_offset col row size -> zlen origin <= zlen cipher ->
  zlen p.1 = size -> zlen p.2 = size ->
  exists q, honest_row key nonce size origin cipher col p row = Ok q /\
    zlen q.1 = size /\ zlen q.2 = size /\
    forall i, (i < Z.to_nat size)%nat ->
      nth i q.1 0 = Z.lxor (nth i p.1 0)
        (gf256_mul_walrus (sym_at origin col size i row) (weight row)) /\
      nth i q.2 0 = Z.lxor (nth i p.2 0)
        (gf256_mul_walrus (cipher_at key nonce (zlen origin) cipher col size i row) (weight row)).
Proof.
  destruct p as [p_m p_c]. cbn [fst snd]. intros Hs Hoff Hlen Hm Hc. unfold honest_row.
  set (off := symbol_offset col row size) in *. fold (weight row).
  destruct (Z.ltb_spec off (zlen origin)) as [Hin|Hout].
  - set (n := Z.min (off + size) (zlen origin) - off).
    destruct (get_range_is_Some origin off n) as [o Ho]; [lia..|].
    destruct (get_range_is_Some cipher off n) as [c Hcc]; [lia..|].
    rewrite Ho, Hcc. cbn. eexists. split; [done|]. cbn.
    rewrite xor_blk_from_length, !xor_blk_length. do 2 (split; [done|]). intros i Hi.
    rewrite xor_blk_from_nth by (rewrite xor_blk_length; lia).
    rewrite !xor_blk_nth by lia. rewrite (nth_get_range _ _ _ _ _ Ho), (nth_get_range _ _ _ _ _ Hcc).
    unfold sym_at, cipher_at, sym_at, ks_at. fold off. rewrite ks_block_nth by done.
    destruct (Z.ltb_spec (Z.of_nat i) n), (Z.ltb_spec (off + Z.of_nat i) (zlen origin)),
      (Nat.ltb_spec i (Z.to_nat n)); try lia; rewrite ?gf_mul_0_l, ?Z.lxor_0_r; [done|].
    split; [|done]. rewrite (nth_overflow origin) by lia. by rewrite gf_mul_0_l, Z.lxor_0_r.
  - cbn. eexists. split; [done|]. cbn. rewrite xor_blk_from_length. do 2 (split; [done|]).
    intros i Hi. rewrite xor_blk_from_nth by lia. cbn. unfold sym_at, cipher_at, ks_at. fold off.
    rewrite (nth_overflow origin), gf_mul_0_l, Z.lxor_0_r, ks_block_nth by lia.
    by rewrite (proj2 (Z.ltb_ge _ _)) by lia.
Qed.

Lemma honest_rows_spec key nonce size origin cipher col rows p :
  0 <= size -> (forall r, r ∈ rows -> 0 <= symbol_offset col r size) ->
  zlen origin <= zlen cipher -> zlen p.1 = size -> zlen p.2 = size ->
  exists q, ofold (honest_row key nonce size origin cipher col) p rows = Ok q /\
    zlen q.1 = size /\ zlen q.2 = size /\
    forall i, (i < Z.to_nat size)%nat ->
      nth i q.1 0 = Z.lxor (nth i p.1 0) (xsum weight (sym_at origin col size i) rows) /\
      nth i q.2 0 = Z.lxor (nth i p.2 0)
        (xsum weight (cipher_at key nonce (zlen origin) cipher col size i) rows).
Proof.
  intros Hs. revert p. induction rows as [|r rows IH]; intros p Hr Hlen Hm Hc.
  { exists p. split; [done|]. do 2 (split; [done|]). intros i Hi. cbn. by rewrite !Z.lxor_0_r. }
  destruct (honest_row_spec key nonce size origin cipher col p r) as (q & Hq & Hq1 & Hq2 & Hqn);
    try done; [apply Hr; set_solver|].
  destruct (IH q) as (q' & Hq' & Hq1' & Hq2' & Hqn'); try done; [set_solver|].
  exists q'. cbn [ofold]. rewrite Hq. do 3 (split; [done|]). intros i Hi.
  destruct (Hqn' i Hi) as [-> ->]. destruct (Hqn i Hi) as [-> ->].
  rewrite !xsum_cons. by rewrite !Z.lxor_assoc.
Qed.

(** What [create_honest_proof] answers. *)
Lemma create_honest_proof_spec key nonce idx size origin cipher :
  0 <= idx -> 0 <= size -> zlen origin <= zlen cipher ->
  exists p, create_honest_proof key nonce idx size origin cipher = Ok p /\
    global_index p = idx /\ col_index p = idx `mod` ROW_WIDTH_PRIMARY /\ parity_offset p = 0 /\
    zlen (origin_shard p) = size /\ zlen (cipher_shard p) = size /\
    forall i, (i < Z.to_nat size)%nat ->
      nth i (origin_shard p) 0
      = xsum weight (sym_at origin (col_index p) size i) (seqZ 0 COL_HEIGHT_SECONDARY) /\
      nth i (cipher_shard p) 0
      = xsum weight (cipher_at key nonce (zlen origin) cipher (col_index p) size i)
          (seqZ 0 COL_HEIGHT_SECONDARY).
Proof.
  intros Hi Hs Hlen. unfold create_honest_proof.
  pose proof (Z.mod_pos_bound idx ROW_WIDTH_PRIMARY ltac:(done)) as Hc.
  set (c := idx `mod` ROW_WIDTH_PRIMARY) in *.
  destruct (honest_rows_spec key nonce size origin cipher c (seqZ 0 COL_HEIGHT_SECONDARY)
    (zeros size, zeros size)) as ([m cc] & Hq & H1 & H2 & Hn); try done;
    try (cbn; rewrite zeros_length; lia).
  - intros r Hr%elem_of_seqZ. unfold symbol_offset, COL_HEIGHT_SECONDARY in *. nia.
  - rewrite Hq. cbn. eexists. split; [done|]. cbn in *. do 5 (split; [done|]). intros i Hil.
    destruct (Hn i Hil) as [-> ->]. by rewrite zeros_nth, !Z.lxor_0_l.
Qed.

(** Honest proofs are accepted, for any sampled index: when the ciphertext
    is the key stream encryption of the original, [create_honest_proof] does
    not fail and its result passes [verify_col_homomorphism], also for the
    columns in which the data ends. *)
Theorem honest_proof_accepted key nonce idx size origin :
  0 <= idx -> 0 <= size -> is_bytes origin ->
  exists p, create_honest_proof key nonce idx size origin (apply_keystream key nonce 0 origin) = Ok p /\
    global_index p = idx /\ col_index p = idx `mod` ROW_WIDTH_PRIMARY /\
    verify_col_homomorphism key nonce p size = Ok tt.
Proof.
  intros Hi Hs Ho.
  destruct (create_honest_proof_spec key nonce idx size origin (apply_keystream key nonce 0 origin))
    as (p & Hp & Hg & Hc & Hpo & H1 & H2 & Hn); [done|done|by rewrite apply_keystream_length|].
  pose proof (Z.mod_pos_bound idx ROW_WIDTH_PRIMARY ltac:(done)) as Hcr.
  exists p. do 3 (split; [done|]). apply verify_col_homomorphism_Ok; [done|].
  do 2 (split; [done|]). split; [lia|]. intros i Hil. destruct (Hn i Hil) as [-> ->].
  rewrite Hpo, (xsum_weights (fun r => beta_of r 0) weight) by apply beta_of_0. rewrite <- Hc in Hcr.
  transitivity (xsum weight (fun r => Z.lxor (sym_at origin (col_index p) size i r)
      (ks_at key nonce (col_index p) size i r)) (seqZ 0 COL_HEIGHT_SECONDARY)).
  - apply xsum_ext. intros r Hr%elem_of_seqZ.
    assert (0 <= symbol_offset (col_index p) r size) as Hoff
      by (unfold symbol_offset, COL_HEIGHT_SECONDARY in *; nia).
    unfold cipher_at. destruct (Z.ltb_spec (symbol_offset (col_index p) r size + Z.of_nat i) (zlen origin))
      as [Hlt|Hge]; unfold sym_at.
    + destruct (lookup_lt_is_Some_2 origin (Z.to_nat (symbol_offset (col_index p) r size + Z.of_nat i)))
        as [b Hb]; [lia|].
      rewrite !nth_lookup, (apply_keystream_lookup _ _ _ _ _ _ Hb), Hb. cbn. unfold ks_at.
      by rewrite Z2Nat.id, Z.add_0_l by lia.
    + rewrite (nth_overflow origin) by lia. by rewrite Z.lxor_0_l.
  - apply xsum_lxor; [apply weight_byte|intros r; by apply bytes_nth_byte|intros r; apply keystream_byte].
Qed.

Lemma combat_Ok key c_key c_origin c_cipher aux total size proofs : 0 < total ->
  verify_rslh_ve_combat key c_key c_origin c_cipher aux total size proofs = Ok tt <->
  forall i p, proofs !! i = Some p ->
    global_index p = expected_idx (challenge_seed c_origin c_cipher c_key) total (Z.of_nat i) /\
    verify_col_homomorphism key (derive_rslh_nonce key aux) p size = Ok tt.
Proof.
  intros Ht. unfold verify_rslh_ve_combat. rewrite oforall_Ok, Forall_lookup.
  assert (forall i p, imap pair proofs !! i = Some p <-> p.1 = i /\ proofs !! i = Some p.2) as Him.
  { intros i [k p]. rewrite list_lookup_imap, fmap_Some. naive_solver. }
  rewrite (proj2 (Z.eqb_neq total 0)) by lia. cbn [negb assert mbind outcome_bind].
  split.
  - intros H i p Hp. specialize (H i (i, p)). rewrite Him in H. specialize (H ltac:(done)).
    cbv beta iota in H. apply bind_Ok_inv in H as (u & Hi%ensure_Ok & Hv). bool_hyps. by split.
  - intros H i [k p] Hp. apply Him in Hp as [<- Hp]. cbv beta iota. cbn [fst snd] in *.
    destruct (H _ _ Hp) as (-> & Hv). unfold ensure at 1. by rewrite Z.eqb_refl.
Qed.
(** C33: The verifier as a whole: it accepts exactly the lists of proofs whose
    indices are the challenge derived from the two identifiers and the key
    commitment and whose columns satisfy the relation [cipher = origin + key
    stream] in the field. *)
Theorem verify_rslh_ve_combat_spec key c_key c_origin c_cipher aux total size proofs :
  0 < total -> 0 <= size ->
  verify_rslh_ve_combat key c_key c_origin c_cipher aux total size proofs = Ok tt <->
  forall i p, proofs !! i = Some p ->
    global_index p = expected_idx (challenge_seed c_origin c_cipher c_key) total (Z.of_nat i) /\
    zlen (origin_shard p) = size /\ zlen (cipher_shard p) = size /\
    col_index p < ROW_WIDTH_PRIMARY /\
    forall j, (j < Z.to_nat size)%nat ->
      nth j (cipher_shard p) 0
      = Z.lxor (nth j (origin_shard p) 0)
          (xsum (fun r => beta_of r (parity_offset p))
             (ks_at key (derive_rslh_nonce key aux) (col_index p) size j)
             (seqZ 0 COL_HEIGHT_SECONDARY)).
Proof.
  intros Ht Hs. rewrite combat_Ok by done. split.
  - intros H i p Hp. destruct (H i p Hp) as [Hi Hv%verify_col_homomorphism_Ok]; [by split|done].
  - intros H i p Hp. destruct (H i p Hp) as [Hi Hv]. split; [done|]. by apply verify_col_homomorphism_Ok.
Qed.
End Column.

(** The bit operations round up to an even size. *)
Lemma walrus_symbol_size_eq len : 0 <= len < 2 ^ 63 ->
  walrus_symbol_size len
  = next_multiple_of (div_ceil (Z.max len 1) (ROW_WIDTH_PRIMARY * COL_HEIGHT_SECONDARY)) 2.
Proof.
  intros Hlen. unfold walrus_symbol_size, next_multiple_of.
  pose proof (div_ceil_spec (Z.max len 1) (ROW_WIDTH_PRIMARY * COL_HEIGHT_SECONDARY) ltac:(done)).
  set (d := div_ceil _ _) in *. change 1 with (Z.ones 1). rewrite Z.land_ones by lia.
  change (2 ^ 1) with 2. assert (0 < d < 2 ^ 63) by (unfold ROW_WIDTH_PRIMARY, COL_HEIGHT_SECONDARY in *; lia).
  pose proof (Z.mod_pos_bound d 2). destruct (Z.eqb_spec (d `mod` 2) 0); [lia|].
  rewrite wrap_small by lia. lia.
Qed.
Lemma walrus_symbol_size_computed len : 0 <= len < 2 ^ 63 ->
  compute_symbol_size len (source_symbols_per_blob_for_n_shards 1000) (required_alignment RS2)
  = (if walrus_symbol_size len <? 65536 then Ok (walrus_symbol_size len)
     else Err data_too_large_error).
Proof.
  intros Hlen. rewrite walrus_symbol_size_eq by done.
  apply (compute_symbol_size_eq len (ROW_WIDTH_PRIMARY * COL_HEIGHT_SECONDARY) 2 Hlen);
    unfold ROW_WIDTH_PRIMARY, COL_HEIGHT_SECONDARY; lia.
Qed.

Lemma walrus_symbol_size_fits len : 0 <= len < 2 ^ 32 -> walrus_symbol_size len < 65536.
Proof.
  intros Hlen. unfold walrus_symbol_size.
  pose proof (div_ceil_spec (Z.max len 1) (ROW_WIDTH_PRIMARY * COL_HEIGHT_SECONDARY) ltac:(done)).
  set (d := div_ceil _ _) in *. change 1 with (Z.ones 1). rewrite Z.land_ones by lia. change (2 ^ 1) with 2.
  pose proof (Z.mod_pos_bound d 2). unfold ROW_WIDTH_PRIMARY, COL_HEIGHT_SECONDARY in *. lia.
Qed.

(** [walrus_symbol_size], recomputed by the guests without dependencies, is
    the symbol size of a 1000 shard committee whenever the blob can be encoded
    at all, and exceeds 16 bits otherwise; the 222778 symbols hold the blob. *)
Theorem walrus_symbol_size_spec len : 0 <= len < 2 ^ 63 ->
  source_symbols_for_n_shards 1000 = (ROW_WIDTH_PRIMARY, COL_HEIGHT_SECONDARY) /\
  compute_symbol_size len (source_symbols_per_blob_for_n_shards 1000) (required_alignment RS2)
  = (if walrus_symbol_size len <? 65536 then Ok (walrus_symbol_size len)
     else Err data_too_large_error) /\
  1 <= walrus_symbol_size len /\
  Z.max len 1 <= ROW_WIDTH_PRIMARY * COL_HEIGHT_SECONDARY * walrus_symbol_size len.
Proof.
  intros Hlen. split; [done|]. split; [by apply walrus_symbol_size_computed|].
  rewrite walrus_symbol_size_eq by done.
  destruct (raw_symbol_size len (ROW_WIDTH_PRIMARY * COL_HEIGHT_SECONDARY) 2 Hlen) as (H1 & _ & H3 & _);
    [unfold ROW_WIDTH_PRIMARY, COL_HEIGHT_SECONDARY; lia|lia|]. by split.
Qed.

Definition example_key : bytes := replicate 32 5.
Definition example_origin : bytes := seqZ 1 9.
Lemma honest_proof_accepted_witness :
  exists p, create_honest_proof example_key [1; 2] 0 2 example_origin
      (apply_keystream example_key [1; 2] 0 example_origin) = Ok p /\
    verify_col_homomorphism example_key [1; 2] p 2 = Ok tt.
Proof.
  destruct (honest_proof_accepted example_key [1; 2] 0 2 example_origin) as (p & Hp & _ & _ & Hv);
    [lia|lia|by repeat constructor|].
  exists p. split; [exact Hp|exact Hv].
Defined.
Definition example_proof : VeShardProof :=
  match create_honest_proof example_key (derive_rslh_nonce example_key [3]) (expected_idx
    (challenge_seed [1] [2] [4]) 1000 0) 2 example_origin
    (apply_keystream example_key (derive_rslh_nonce example_key [3]) 0 example_origin) with
  | Ok p => p
  | _ => {| global_index := 0; col_index := 0; parity_offset := 0; origin_shard := [];
            cipher_shard := []; p_type := NoParity |}
  end.
Lemma verify_rslh_ve_combat_spec_witness :
  global_index example_proof = expected_idx (challenge_seed [1] [2] [4]) 1000 0.
Proof.
  refine (proj1 (proj1 (verify_rslh_ve_combat_spec example_key [4] [1] [2] [3] 1000 2
    [example_proof] ltac:(lia) ltac:(lia)) _ 0%nat example_proof eq_refl)).
  vm_compute. reflexivity.
Defined.
Lemma walrus_symbol_size_spec_witness :
  1 <= walrus_symbol_size MIN_VDD_BLOB_BYTES.
Proof.
  apply (walrus_symbol_size_spec MIN_VDD_BLOB_BYTES). split; [done|reflexivity].
Defined.
