(* ===== verification/WalrusOpen.v ===== *)
(** Openings of a Walrus blob identifier ([drop-lib/src/walrus_open.rs]): the
    host builds, from the matrix of symbol hashes of a blob, the Merkle
    openings of sampled shards ([build_walrus_blob_opening]); the guest checks
    them against the public blob identifier ([verify_walrus_blob_opening]) and
    ties the column aggregates of the RSLH proof to the opened symbols
    ([verify_cipher_column_bound], [verify_origin_column_bound]). *)
From S2P Require Import Prelude Crypto WalrusMerkle WalrusConfig Gf256 Rslh.

Record WalrusSymbolOpening := {
  so_leaf_index : Z;
  so_symbol : bytes;
  so_path : list Node;
}.
Record WalrusShardOpening := {
  shard_index : Z;
  primary_root : bytes;
  secondary_root : bytes;
  primary_symbols : list WalrusSymbolOpening;
  secondary_symbols : list WalrusSymbolOpening;
  pair_leaf_path : list Node;
  column_symbols : list bytes;
  column_leaf_hashes : list Node;
}.
Record WalrusBlobOpening := {
  bo_blob_id : bytes;
  bo_encoding_type : Z;
  bo_unencoded_length : Z;
  bo_n_shards : Z;
  sliver_pair_roots : list SliverPairRoots;
  shards : list WalrusShardOpening;
}.
Record WalrusSymbolRequest := {
  rq_leaf_index : Z;
  rq_symbol : bytes;
}.
Record WalrusSampleRequest := {
  rq_shard_index : Z;
  rq_primary_symbols : list WalrusSymbolRequest;
  rq_secondary_symbols : list WalrusSymbolRequest;
  rq_column_symbols : list WalrusSymbolRequest;
}.

Section WalrusOpen.
Context `{HC : Crypto}.

(** Row [i] of the hash matrix, and its column [n_shards - 1 - i]. *)
Definition matrix_row (n : nat) (symbol_hashes : list Node) (i : nat) : list Node :=
  take n (drop (i * n) symbol_hashes).
Definition matrix_column (n : nat) (symbol_hashes : list Node) (i : nat) : list Node :=
  (fun row => symbol_hashes !!! (row * n + n - 1 - i)%nat) <$> seq 0 n.

Definition primary_tree (n : nat) (hs : list Node) (i : nat) : MerkleTree :=
  build_from_leaf_hashes (matrix_row n hs i).
Definition secondary_tree (n : nat) (hs : list Node) (i : nat) : MerkleTree :=
  build_from_leaf_hashes (matrix_column n hs i).

Definition shard_roots (n : nat) (hs : list Node) (i : nat) : SliverPairRoots :=
  {| sp_primary := node_bytes (root (primary_tree n hs i));
     sp_secondary := node_bytes (root (secondary_tree n hs i)) |}.
Definition pair_leaf (pair : SliverPairRoots) : bytes := sp_primary pair ++ sp_secondary pair.

(** The range checks on the sample requests. *)
Definition check_sample (n : nat) (sample : WalrusSampleRequest) : outcome string unit :=
  ensure (rq_shard_index sample <? Z.of_nat n) "walrus_open: shard_index out of range" ;;
  oforall (fun request => ensure (rq_leaf_index request <? Z.of_nat n)
      "walrus_open: leaf_index out of range")
    (rq_primary_symbols sample ++ rq_secondary_symbols sample).

Definition open_symbol (tree : MerkleTree) (err : string) (request : WalrusSymbolRequest)
    : outcome string WalrusSymbolOpening :=
  proof ← map_err (get_proof tree (Z.to_nat (rq_leaf_index request))) (fun _ => err);
  Ok {| so_leaf_index := rq_leaf_index request; so_symbol := rq_symbol request;
        so_path := proof |}.

Definition open_shard (n : nat) (hs : list Node) (roots : list SliverPairRoots)
    (pair_tree : MerkleTree) (sample : WalrusSampleRequest) : outcome string WalrusShardOpening :=
  let i := Z.to_nat (rq_shard_index sample) in
  psyms ← omapM (open_symbol (primary_tree n hs i)
    "walrus_open: failed to build primary symbol proof") (rq_primary_symbols sample);
  ssyms ← omapM (open_symbol (secondary_tree n hs i)
    "walrus_open: failed to build secondary symbol proof") (rq_secondary_symbols sample);
  ensure (zlen (rq_column_symbols sample) =? COL_HEIGHT_SECONDARY)
    "walrus_open: full primary sliver must contain 667 symbols" ;;
  csyms ← omapM (fun '(leaf_index, request) =>
      ensure (rq_leaf_index request =? Z.of_nat leaf_index)
        "walrus_open: full primary sliver symbols must be ordered" ;;
      Ok (rq_symbol request)) (imap pair (rq_column_symbols sample));
  path ← map_err (get_proof pair_tree i)
    (fun _ => "walrus_open: failed to build pair leaf proof"%string);
  Ok {| shard_index := rq_shard_index sample;
        primary_root := sp_primary (roots !!! i);
        secondary_root := sp_secondary (roots !!! i);
        primary_symbols := psyms;
        secondary_symbols := ssyms;
        pair_leaf_path := path;
        column_symbols := csyms;
        column_leaf_hashes := matrix_row n hs i |}.

Definition build_walrus_blob_opening (symbol_hashes : list Node) (e : EncodingType)
    (unencoded_length : Z) (samples : list WalrusSampleRequest)
    : outcome string WalrusBlobOpening :=
  let n := Nat.sqrt (length symbol_hashes) in
  ensure (negb ((n =? 0)%nat || negb (n * n =? length symbol_hashes)%nat))
    "walrus_open: symbol_hashes length must be n_shards*n_shards" ;;
  ensure (negb (2 ^ 32 - 1 <? Z.of_nat n)) "walrus_open: n_shards too large" ;;
  oforall (check_sample n) samples ;;
  let roots := shard_roots n symbol_hashes <$> seq 0 n in
  let blob_id := compute_blob_id_from_sliver_pair_roots roots e unencoded_length in
  let pair_tree := build (pair_leaf <$> roots) in
  shards ← omapM (open_shard n symbol_hashes roots pair_tree) samples;
  Ok {| bo_blob_id := blob_id; bo_encoding_type := encoding_to_u8 e;
        bo_unencoded_length := unencoded_length; bo_n_shards := Z.of_nat n;
        sliver_pair_roots := roots; shards := shards |}.

(** One round of the loops over [primary_symbols] and [secondary_symbols]. *)
Definition verify_symbol (n_shards : Z) (rt : bytes) (err : string)
    (symbol : WalrusSymbolOpening) : outcome string unit :=
  ensure (negb (n_shards <=? so_leaf_index symbol))
    "walrus_open: symbol leaf index out of range" ;;
  map_err (verify_proof (so_path symbol) (Digest rt) (Z.to_nat n_shards) (so_symbol symbol)
    (Z.to_nat (so_leaf_index symbol))) (fun _ => err).

(** One round of the loop over [opening.shards]. *)
Definition verify_shard (n_shards : Z) (roots : list SliverPairRoots) (pair_root : Node)
    (shard : WalrusShardOpening) : outcome string unit :=
  let i := shard_index shard in
  ensure (negb (n_shards <=? i)) "walrus_open: shard index out of range" ;;
  pair ← expect (get_at roots i) "index out of bounds";
  ensure (bool_decide (sp_primary pair = primary_root shard)
          && bool_decide (sp_secondary pair = secondary_root shard))
    "walrus_open: shard root mismatch" ;;
  map_err (verify_proof (pair_leaf_path shard) pair_root (Z.to_nat n_shards)
      (primary_root shard ++ secondary_root shard) (Z.to_nat i))
    (fun _ => "walrus_open: pair leaf opening failure"%string) ;;
  oforall (verify_symbol n_shards (primary_root shard)
    "walrus_open: primary symbol opening failure") (primary_symbols shard) ;;
  oforall (verify_symbol n_shards (secondary_root shard)
    "walrus_open: secondary symbol opening failure") (secondary_symbols shard) ;;
  ensure (zlen (column_symbols shard) =? COL_HEIGHT_SECONDARY)
    "walrus_open: full primary sliver length mismatch" ;;
  ensure (zlen (column_leaf_hashes shard) =? n_shards)
    "walrus_open: primary leaf hash count mismatch" ;;
  oforall (fun '(symbol, expected_hash) =>
      ensure (bool_decide (root (build [symbol]) = expected_hash))
        "walrus_open: primary symbol/hash mismatch")
    (zip (column_symbols shard) (column_leaf_hashes shard)) ;;
  ensure (bool_decide (node_bytes (root (build_from_leaf_hashes (column_leaf_hashes shard)))
                       = primary_root shard))
    "walrus_open: full primary sliver root mismatch".

Definition verify_walrus_blob_opening (opening : WalrusBlobOpening) : outcome string unit :=
  let n_shards := bo_n_shards opening in
  ensure (negb ((n_shards =? 0) || negb (zlen (sliver_pair_roots opening) =? n_shards)))
    "walrus_open: n_shards mismatch" ;;
  e ← map_err (encoding_try_from (bo_encoding_type opening))
    (fun _ => "walrus_open: invalid encoding type"%string);
  let md := {| encoding_type := e; unencoded_length := bo_unencoded_length opening;
               hashes := roots_metadata <$> sliver_pair_roots opening |} in
  ensure (bool_decide (from_sliver_pair_metadata md = bo_blob_id opening))
    "walrus_open: blob id mismatch" ;;
  let pair_tree := build (pair_leaf <$> sliver_pair_roots opening) in
  let pair_root := root pair_tree in
  oforall (verify_shard n_shards (sliver_pair_roots opening) pair_root) (shards opening).

(** *** Column aggregates *)

(** One row of the loop of [verify_cipher_column_bound]. *)
Definition cipher_column_row (key nonce : bytes) (data_len pack_size c : Z)
    (syms : list bytes) (expected : bytes) (r : Z) : outcome string bytes :=
  let byte_off := symbol_offset c r pack_size in
  let beta := GF_EXP !!! Z.to_nat (r `mod` 255) in
  let in_data := byte_off <? data_len in
  let data_end := Z.min (byte_off + pack_size) data_len in
  expected ← (if in_data then
      sym ← expect (get_at syms r) "index out of bounds";
      ensure (zlen sym =? pack_size)
        "rslh_walrus: full primary sliver symbol size mismatch" ;;
      Ok (xor_blk beta expected (take (Z.to_nat (data_end - byte_off)) sym))
    else Ok expected);
  let ks_start := if in_data then data_end - byte_off else 0 in
  Ok (xor_blk_from (Z.to_nat ks_start) beta expected (ks_block key nonce byte_off pack_size)).

Definition cipher_column_shard (key nonce : bytes) (data_len pack_size : Z)
    (p : VeShardProof * WalrusShardOpening) : outcome string unit :=
  let '(proof, shard) := p in
  let c := col_index proof in
  ensure (negb (ROW_WIDTH_PRIMARY <=? c)) "rslh_walrus: col index out of range" ;;
  ensure (shard_index shard =? c) "rslh_walrus: shard/column mismatch" ;;
  ensure ((zlen (cipher_shard proof) =? pack_size) && (zlen (origin_shard proof) =? pack_size))
    "rslh_walrus: shard length mismatch" ;;
  ensure (zlen (column_symbols shard) =? COL_HEIGHT_SECONDARY)
    "rslh_walrus: full primary sliver length mismatch" ;;
  expected ← ofold (cipher_column_row key nonce data_len pack_size c (column_symbols shard))
    (zeros pack_size) (seqZ 0 COL_HEIGHT_SECONDARY);
  ensure (bool_decide (expected = cipher_shard proof))
    "rslh_walrus: cipher column aggregate mismatch".

Definition verify_cipher_column_bound (key aux_data : bytes) (opening : WalrusBlobOpening)
    (proofs : list VeShardProof) (pack_size : Z) : outcome string unit :=
  ensure (zlen proofs =? zlen (shards opening))
    "rslh_walrus: proof/opening sample count mismatch" ;;
  ensure (bo_n_shards opening =? 1000) "rslh_walrus: only 1000-shard RSLH-VE supported" ;;
  let data_len := bo_unencoded_length opening in
  ensure (pack_size =? walrus_symbol_size (bo_unencoded_length opening))
    "rslh_walrus: pack size mismatch" ;;
  let nonce := derive_rslh_nonce key aux_data in
  oforall (cipher_column_shard key nonce data_len pack_size) (zip proofs (shards opening)).

(** The row loop of [verify_origin_column_bound], with its [break]. *)
Fixpoint origin_column_rows (data_len pack_size column : Z) (row : Z) (expected : bytes)
    (syms : list bytes) : outcome string bytes :=
  match syms with
  | [] => Ok expected
  | symbol :: syms =>
      let byte_off := symbol_offset column row pack_size in
      if data_len <=? byte_off then Ok expected
      else
        ensure (zlen symbol =? pack_size)
          "rslh_walrus: origin full primary sliver symbol size mismatch" ;;
        let meaningful := Z.min (data_len - byte_off) pack_size in
        let beta := GF_EXP !!! Z.to_nat (row `mod` 255) in
        origin_column_rows data_len pack_size column (row + 1)
          (xor_blk beta expected (take (Z.to_nat meaningful) symbol)) syms
  end.

Definition origin_column_shard (data_len pack_size : Z)
    (p : VeShardProof * WalrusShardOpening) : outcome string unit :=
  let '(proof, shard) := p in
  let column := col_index proof in
  ensure (negb (ROW_WIDTH_PRIMARY <=? column)) "rslh_walrus: origin column index out of range" ;;
  ensure (shard_index shard =? column) "rslh_walrus: origin shard/column mismatch" ;;
  ensure (zlen (origin_shard proof) =? pack_size) "rslh_walrus: origin shard length mismatch" ;;
  ensure (zlen (column_symbols shard) =? COL_HEIGHT_SECONDARY)
    "rslh_walrus: origin full primary sliver length mismatch" ;;
  expected ← origin_column_rows data_len pack_size column 0 (zeros pack_size)
    (take (Z.to_nat COL_HEIGHT_SECONDARY) (column_symbols shard));
  ensure (bool_decide (expected = origin_shard proof))
    "rslh_walrus: origin column aggregate mismatch".

Definition verify_origin_column_bound (opening : WalrusBlobOpening)
    (proofs : list VeShardProof) (pack_size : Z) : outcome string unit :=
  ensure (zlen proofs =? zlen (shards opening))
    "rslh_walrus: origin proof/opening sample count mismatch" ;;
  ensure (bo_n_shards opening =? 1000) "rslh_walrus: only 1000-shard RSLH-VE supported" ;;
  ensure (pack_size =? walrus_symbol_size (bo_unencoded_length opening))
    "rslh_walrus: origin pack size mismatch" ;;
  let data_len := bo_unencoded_length opening in
  oforall (origin_column_shard data_len pack_size) (zip proofs (shards opening)).

(** ** The matrix and its trees *)

Section Matrix.
Context (n : nat) (syms : list bytes) (Hsyms : length syms = (n * n)%nat).
Let hs := leaf_hash <$> syms.

Lemma index_lt i r : (i < n)%nat -> (r < n)%nat -> (i * n + r < n * n)%nat.
Proof. nia. Qed.
Lemma matrix_row_length i : (i < n)%nat -> length (matrix_row n hs i) = n.
Proof.
  intros Hi. unfold matrix_row, hs. rewrite length_take, length_drop, length_fmap, Hsyms.
  pose proof (index_lt i (n - 1)). nia.
Qed.
Lemma matrix_row_lookup i r : (r < n)%nat ->
  matrix_row n hs i !! r = leaf_hash <$> syms !! (i * n + r)%nat.
Proof.
  intros Hr. unfold matrix_row, hs. by rewrite lookup_take_lt, lookup_drop, list_lookup_fmap.
Qed.
Lemma matrix_column_length i : length (matrix_column n hs i) = n.
Proof. unfold matrix_column. by rewrite length_fmap, length_seq. Qed.
Lemma matrix_column_lookup i r : (i < n)%nat -> (r < n)%nat ->
  matrix_column n hs i !! r = leaf_hash <$> syms !! (r * n + n - 1 - i)%nat.
Proof.
  intros Hi Hr. unfold matrix_column.
  rewrite list_lookup_fmap, lookup_seq_lt by done. cbn.
  destruct (lookup_lt_is_Some_2 syms (r * n + n - 1 - i)) as [s Hs]; [nia|].
  rewrite Hs. cbn. f_equal. apply list_lookup_total_correct. unfold hs. by rewrite list_lookup_fmap, Hs.
Qed.
Lemma matrix_row_leaves i : Forall (fun x => exists s, x = leaf_hash s) (matrix_row n hs i).
Proof. apply Forall_take, Forall_drop, Forall_fmap, Forall_true. intros s. by exists s. Qed.
Lemma matrix_column_leaves i : (i < n)%nat ->
  Forall (fun x => exists s, x = leaf_hash s) (matrix_column n hs i).
Proof.
  intros Hi. apply Forall_lookup. intros r x Hx. pose proof (lookup_lt_Some _ _ _ Hx) as Hr.
  rewrite matrix_column_length in Hr. rewrite matrix_column_lookup in Hx by done.
  apply fmap_Some in Hx as (s & _ & ->). by exists s.
Qed.
End Matrix.

Lemma leaves_not_empty l : Forall (fun x => exists s, x = leaf_hash s) l ->
  Forall (fun x => x <> Empty) l.
Proof. intros H. eapply Forall_impl; [exact H|]. by intros x [s ->]. Qed.

(** Proofs for a tree of leaf hashes, checked against the digest of its root. *)
Lemma get_proof_verify_digest l i leaf :
  Forall (fun x => exists s, x = leaf_hash s) l -> l !! i = Some (leaf_hash leaf) ->
  exists path, get_proof (build_from_leaf_hashes l) i = Ok path /\
    verify_proof path (Digest (node_bytes (root (build_from_leaf_hashes l)))) (length l) leaf i
    = Ok tt.
Proof.
  intros Hl Hi. destruct (get_proof_complete l i leaf Hi) as (path & Hp & _ & Hv).
  exists path. split; [done|]. rewrite build_root_digest; [done| |by apply leaves_not_empty].
  by intros ->.
Qed.

(** ** The builder's openings verify *)

(** A request shows the symbol that the matrix holds at its place. *)
Definition request_ok (l : list (option bytes)) (rq : WalrusSymbolRequest) : Prop :=
  0 <= rq_leaf_index rq /\ l !! Z.to_nat (rq_leaf_index rq) = Some (Some (rq_symbol rq)).
Definition row_symbols (n : nat) (syms : list bytes) (i : nat) : list (option bytes) :=
  (fun r => syms !! (i * n + r)%nat) <$> seq 0 n.
Definition column_symbols_of (n : nat) (syms : list bytes) (i : nat) : list (option bytes) :=
  (fun r => syms !! (r * n + n - 1 - i)%nat) <$> seq 0 n.
Definition sample_ok (n : nat) (syms : list bytes) (s : WalrusSampleRequest) : Prop :=
  let i := Z.to_nat (rq_shard_index s) in
  0 <= rq_shard_index s < Z.of_nat n /\
  Forall (request_ok (row_symbols n syms i)) (rq_primary_symbols s) /\
  Forall (request_ok (column_symbols_of n syms i)) (rq_secondary_symbols s) /\
  zlen (rq_column_symbols s) = COL_HEIGHT_SECONDARY /\
  (forall r rq, rq_column_symbols s !! r = Some rq ->
     rq_leaf_index rq = Z.of_nat r /\ ((r < n)%nat -> syms !! (i * n + r)%nat = Some (rq_symbol rq))).

Lemma request_ok_seq n f rq : request_ok (f <$> seq 0 n) rq ->
  0 <= rq_leaf_index rq < Z.of_nat n /\ f (Z.to_nat (rq_leaf_index rq)) = Some (rq_symbol rq).
Proof.
  intros [H0 H]. rewrite list_lookup_fmap in H. apply fmap_Some in H as (r & Hr & Hf).
  apply lookup_seq in Hr as [-> Hr]. split; [lia|done].
Qed.

Lemma open_symbol_ok l n err f rq :
  length l = n -> Forall (fun x => exists s, x = leaf_hash s) l ->
  (forall r, (r < n)%nat -> l !! r = leaf_hash <$> f r) -> request_ok (f <$> seq 0 n) rq ->
  exists so, open_symbol (build_from_leaf_hashes l) err rq = Ok so /\
    forall err', verify_symbol (Z.of_nat n) (node_bytes (root (build_from_leaf_hashes l))) err' so = Ok tt.
Proof.
  intros Hn Hl Hf Hrq. apply request_ok_seq in Hrq as [Hlt Hs].
  destruct (get_proof_verify_digest l (Z.to_nat (rq_leaf_index rq)) (rq_symbol rq) Hl)
    as (path & Hp & Hv); [rewrite Hf by lia; by rewrite Hs|].
  unfold open_symbol. rewrite Hp. cbn. eexists. split; [done|]. intros err'.
  unfold verify_symbol. cbn [so_leaf_index so_symbol so_path].
  rewrite (proj2 (Z.leb_gt _ _)) by lia. cbn [negb ensure mbind outcome_bind].
  rewrite Nat2Z.id. by rewrite <- Hn, Hv.
Qed.

Lemma open_symbols_ok l n err f rqs :
  length l = n -> Forall (fun x => exists s, x = leaf_hash s) l ->
  (forall r, (r < n)%nat -> l !! r = leaf_hash <$> f r) ->
  Forall (request_ok (f <$> seq 0 n)) rqs ->
  exists sos, omapM (open_symbol (build_from_leaf_hashes l) err) rqs = Ok sos /\
    forall err', oforall (verify_symbol (Z.of_nat n)
      (node_bytes (root (build_from_leaf_hashes l))) err') sos = Ok tt.
Proof.
  intros Hn Hl Hf. induction 1 as [|rq rqs Hrq _ (sos & Hs & Hv)]; [by exists []|].
  destruct (open_symbol_ok l n err f rq) as (so & Hso & Hv'); [done..|].
  exists (so :: sos). cbn. rewrite Hso. cbn. rewrite Hs. split; [done|].
  intros err'. rewrite Hv'. cbn. apply Hv.
Qed.

Lemma leaf_root s : root (build [s]) = leaf_hash s.
Proof. done. Qed.

Section Builder.
Context (n : nat) (syms : list bytes) (Hsyms : length syms = (n * n)%nat).
Let hs := leaf_hash <$> syms.
Let roots := shard_roots n hs <$> seq 0 n.

Lemma roots_lookup i : (i < n)%nat -> roots !! i = Some (shard_roots n hs i).
Proof. intros Hi. unfold roots. by rewrite list_lookup_fmap, lookup_seq_lt. Qed.
Lemma roots_length : length roots = n.
Proof. unfold roots. by rewrite length_fmap, length_seq. Qed.
Lemma roots_get_at i : 0 <= i < Z.of_nat n ->
  get_at roots i = Some (shard_roots n hs (Z.to_nat i)).
Proof.
  intros Hi. apply get_at_Some. rewrite roots_length. split; [lia|]. apply roots_lookup. lia.
Qed.

(** The checks of the verifier on the column of an honest shard. *)
Lemma column_checks i csyms rqs :
  (i < n)%nat -> csyms = rq_symbol <$> rqs ->
  (forall r rq, rqs !! r = Some rq -> (r < n)%nat -> syms !! (i * n + r)%nat = Some (rq_symbol rq)) ->
  oforall (fun '(symbol, expected_hash) =>
      @ensure string (bool_decide (root (build [symbol]) = expected_hash))
        "walrus_open: primary symbol/hash mismatch")
    (zip csyms (matrix_row n hs i)) = Ok tt.
Proof.
  intros Hi -> Hs. apply oforall_Ok, Forall_lookup. intros r [s h] Hr.
  rewrite lookup_zip_with in Hr. apply bind_Some in Hr as (s' & Hs' & Hr).
  apply bind_Some in Hr as (h' & Hh & [= -> ->]).
  rewrite list_lookup_fmap in Hs'. apply fmap_Some in Hs' as (rq & Hrq & ->).
  assert (r < n)%nat as Hrn.
  { apply lookup_lt_Some in Hh. by rewrite (matrix_row_length n syms Hsyms) in Hh. }
  rewrite (matrix_row_lookup n syms) in Hh by done. rewrite (Hs _ _ Hrq Hrn) in Hh.
  injection Hh as <-. unfold ensure. by rewrite bool_decide_eq_true_2.
Qed.

Lemma pair_proof i : (i < n)%nat ->
  exists path, get_proof (build (pair_leaf <$> roots)) i = Ok path /\
    verify_proof path (root (build (pair_leaf <$> roots))) n (pair_leaf (shard_roots n hs i)) i = Ok tt.
Proof.
  intros Hi. unfold build.
  destruct (get_proof_complete (leaf_hash <$> (pair_leaf <$> roots)) i (pair_leaf (shard_roots n hs i)))
    as (path & Hp & _ & Hv); [by rewrite !list_lookup_fmap, roots_lookup|].
  rewrite !length_fmap, roots_length in Hv. by exists path.
Qed.

Lemma column_request_symbols rqs :
  (forall r rq, rqs !! r = Some rq -> rq_leaf_index rq = Z.of_nat r) ->
  omapM (fun '(leaf_index, request) =>
      ensure (rq_leaf_index request =? Z.of_nat leaf_index)
        "walrus_open: full primary sliver symbols must be ordered" ;;
      Ok (rq_symbol request)) (imap pair rqs) = Ok (rq_symbol <$> rqs).
Proof.
  intros Hidx. rewrite (omapM_fmap _ (fun p => rq_symbol p.2)).
  - f_equal. rewrite fmap_imap. apply list_eq. intros r.
    by rewrite list_lookup_imap, list_lookup_fmap.
  - intros [r rq] Hin. apply elem_of_lookup_imap in Hin as (j & y & [= -> ->] & Hy).
    unfold ensure. by rewrite (Hidx _ _ Hy), Z.eqb_refl.
Qed.

(** The opened shard holds the full sliver that was asked for, the leaf hashes
    of its row and as many single symbols as were asked for. *)
Definition answers (sample : WalrusSampleRequest) (sh : WalrusShardOpening) : Prop :=
  shard_index sh = rq_shard_index sample /\ column_symbols sh = rq_symbol <$> rq_column_symbols sample /\
  column_leaf_hashes sh = matrix_row n hs (Z.to_nat (rq_shard_index sample)) /\
  length (primary_symbols sh) = length (rq_primary_symbols sample) /\
  length (secondary_symbols sh) = length (rq_secondary_symbols sample).
Lemma open_shard_ok sample : sample_ok n syms sample ->
  exists sh, open_shard n hs roots (build (pair_leaf <$> roots)) sample = Ok sh /\ answers sample sh /\
    verify_shard (Z.of_nat n) roots (root (build (pair_leaf <$> roots))) sh = Ok tt.
Proof.
  intros ((Hi0 & Hi) & Hps & Hss & Hcl & Hcs). set (i := Z.to_nat (rq_shard_index sample)) in *.
  assert (i < n)%nat as Hin by lia.
  destruct (open_symbols_ok (matrix_row n hs i) n "walrus_open: failed to build primary symbol proof"
    (fun r => syms !! (i * n + r)%nat) (rq_primary_symbols sample)) as (pso & Hpo & Hpv); try done.
  { by apply matrix_row_length. } { apply matrix_row_leaves. }
  { intros r Hr. by apply matrix_row_lookup. }
  destruct (open_symbols_ok (matrix_column n hs i) n "walrus_open: failed to build secondary symbol proof"
    (fun r => syms !! (r * n + n - 1 - i)%nat) (rq_secondary_symbols sample)) as (sso & Hso & Hsv); try done.
  { apply matrix_column_length. } { by apply matrix_column_leaves. }
  { intros r Hr. by apply matrix_column_lookup. }
  destruct (pair_proof i Hin) as (path & Hp & Hv).
  unfold open_shard. fold i. unfold primary_tree, secondary_tree. rewrite Hpo. cbn [mbind outcome_bind].
  rewrite Hso. cbn [mbind outcome_bind]. rewrite (proj2 (Z.eqb_eq _ _) Hcl). cbn [ensure mbind outcome_bind].
  rewrite column_request_symbols by naive_solver. cbn [mbind outcome_bind]. rewrite Hp.
  cbn [map_err mbind outcome_bind]. eexists. split; [done|]. split.
  { apply omapM_Ok, Forall2_length in Hpo. apply omapM_Ok, Forall2_length in Hso. by split_and!. }
  rewrite (list_lookup_total_correct _ _ _ (roots_lookup i Hin)).
  unfold verify_shard. cbn [shard_index primary_root secondary_root primary_symbols secondary_symbols
    pair_leaf_path column_symbols column_leaf_hashes].
  rewrite (proj2 (Z.leb_gt _ _)) by lia. rewrite roots_get_at by lia. fold i.
  cbn [negb ensure expect mbind outcome_bind]. rewrite !bool_decide_eq_true_2 by done.
  cbn [andb ensure mbind outcome_bind]. rewrite Nat2Z.id. change (sp_primary (shard_roots n hs i)
    ++ sp_secondary (shard_roots n hs i)) with (pair_leaf (shard_roots n hs i)). rewrite Hv. cbn [map_err mbind outcome_bind].
  unfold shard_roots, primary_tree, secondary_tree. cbn [sp_primary sp_secondary].
  rewrite Hpv, Hsv. cbn [mbind outcome_bind]. rewrite length_fmap, (proj2 (Z.eqb_eq _ _) Hcl).
  cbn [ensure mbind outcome_bind]. 
  rewrite (matrix_row_length n syms Hsyms i Hin : length (matrix_row n hs i) = n), Z.eqb_refl.
  cbn [ensure mbind outcome_bind].
  rewrite (column_checks i _ (rq_column_symbols sample) Hin eq_refl) by naive_solver.
  cbn [mbind outcome_bind]. done.
Qed.

(** The openings that the host builds verify: for every square matrix of
    symbols and every list of samples that ask for symbols the matrix holds,
    [build_walrus_blob_opening] answers an opening of the blob identifier
    computed from the roots of the matrix, and [verify_walrus_blob_opening]
    accepts it. *)
Theorem blob_opening_verifies len samples :
  (0 < n)%nat -> Z.of_nat n < 2 ^ 32 -> Forall (sample_ok n syms) samples ->
  exists o, build_walrus_blob_opening (leaf_hash <$> syms) RS2 len samples = Ok o /\
    bo_blob_id o = compute_blob_id_from_sliver_pair_roots
      (shard_roots n (leaf_hash <$> syms) <$> seq 0 n) RS2 len /\
    bo_n_shards o = Z.of_nat n /\ bo_unencoded_length o = len /\ sliver_pair_roots o = roots /\
    Forall2 answers samples (shards o) /\
    verify_walrus_blob_opening o = Ok tt.
Proof.
  intros Hn Hn32 Hs. fold hs. fold roots.
  assert (exists shs, omapM (open_shard n hs roots (build (pair_leaf <$> roots))) samples = Ok shs /\
    Forall2 answers samples shs /\
    oforall (verify_shard (Z.of_nat n) roots (root (build (pair_leaf <$> roots)))) shs = Ok tt)
    as (shs & Hb & Hl & Hv).
  { clear -Hs Hsyms. induction Hs as [|s ss Hs _ (shs & Hb & Hl & Hv)]; [by exists []|].
    destruct (open_shard_ok s Hs) as (sh & Hsh & Hsa & Hshv). exists (sh :: shs). cbn [omapM oforall].
    rewrite Hsh, Hshv. cbn [mbind outcome_bind]. rewrite Hb. split; [done|]. split; [by constructor|done]. }
  assert (length hs = (n * n)%nat) as Hhs by (unfold hs; by rewrite length_fmap).
  unfold build_walrus_blob_opening. rewrite Hhs, Nat.sqrt_square, Nat.eqb_refl.
  rewrite (proj2 (Nat.eqb_neq n 0)) by lia. cbn [orb negb ensure mbind outcome_bind].
  rewrite (proj2 (Z.ltb_ge _ _)) by lia. cbn [negb ensure mbind outcome_bind].
  assert (oforall (check_sample n) samples = Ok tt) as ->.
  { apply oforall_Ok. eapply Forall_impl; [exact Hs|]. intros s ((_ & Hlt) & Hp & Hse & _).
    unfold check_sample. rewrite (proj2 (Z.ltb_lt _ _)) by done. cbn [ensure mbind outcome_bind].
    apply oforall_Ok, Forall_app. split; (eapply Forall_impl; [eassumption|]);
      intros rq [Hrq _]%request_ok_seq; by rewrite (proj2 (Z.ltb_lt _ _)) by lia. }
  cbn [mbind outcome_bind]. fold roots. rewrite Hb. cbn [mbind outcome_bind].
  eexists. split; [done|]. cbn [bo_blob_id bo_n_shards bo_unencoded_length sliver_pair_roots shards]. do 5 (split; [done|]).
  unfold verify_walrus_blob_opening.
  cbn [bo_blob_id bo_n_shards shards bo_encoding_type bo_unencoded_length sliver_pair_roots].
  rewrite (proj2 (Z.eqb_neq _ 0)), roots_length, Z.eqb_refl by lia.
  cbn [orb negb ensure mbind outcome_bind encoding_try_from encoding_to_u8 Z.eqb Pos.eqb map_err].
  unfold compute_blob_id_from_sliver_pair_roots. rewrite bool_decide_eq_true_2 by done.
  cbn [ensure mbind outcome_bind]. done.
Qed.
End Builder.

(** ** Accepted openings show the committed symbols *)

Context {HL : CryptoLaws HC}.

(** The types of an opening. *)
Definition opening_symbol_typed (so : WalrusSymbolOpening) : Prop :=
  0 <= so_leaf_index so /\ Forall node_ok (so_path so).
Definition shard_typed (sh : WalrusShardOpening) : Prop :=
  0 <= shard_index sh /\ Forall opening_symbol_typed (primary_symbols sh) /\
  Forall opening_symbol_typed (secondary_symbols sh) /\ Forall node_ok (column_leaf_hashes sh).
Definition roots_typed (r : SliverPairRoots) : Prop :=
  length (sp_primary r) = DIGEST_LEN /\ length (sp_secondary r) = DIGEST_LEN.
Definition opening_typed (o : WalrusBlobOpening) : Prop :=
  0 <= bo_unencoded_length o < 2 ^ 64 /\ Forall roots_typed (sliver_pair_roots o) /\
  Forall shard_typed (shards o).

Definition roots_md (roots : list SliverPairRoots) (e : EncodingType) (len : Z) : BlobMetadata :=
  {| encoding_type := e; unencoded_length := len; hashes := roots_metadata <$> roots |}.
(** The messages hashed for the commitment to the matrix [syms], and to check
    the opening [o]. *)
Definition matrix_msgs (n : nat) (syms : list bytes) (len : Z) : list bytes :=
  let hs := leaf_hash <$> syms in
  metadata_msgs (roots_md (shard_roots n hs <$> seq 0 n) RS2 len)
    ++ ((fun s => LEAF_PREFIX ++ s) <$> syms)
    ++ concat ((fun i => tree_msgs n (matrix_row n hs i) ++ tree_msgs n (matrix_column n hs i))
                 <$> seq 0 n).
Definition symbol_msgs (so : WalrusSymbolOpening) : list bytes :=
  verify_msgs (so_path so) (so_symbol so) (Z.to_nat (so_leaf_index so)).
Definition shard_msgs (sh : WalrusShardOpening) : list bytes :=
  concat (symbol_msgs <$> primary_symbols sh) ++ concat (symbol_msgs <$> secondary_symbols sh)
    ++ ((fun s => LEAF_PREFIX ++ s) <$> column_symbols sh)
    ++ tree_msgs (length (column_leaf_hashes sh)) (column_leaf_hashes sh).
Definition opening_msgs (o : WalrusBlobOpening) : list bytes :=
  metadata_msgs (roots_md (sliver_pair_roots o) RS2 (bo_unencoded_length o))
    ++ concat (shard_msgs <$> shards o).

(** What an accepted shard shows of the matrix. *)
Definition shard_shows (n : nat) (syms : list bytes) (sh : WalrusShardOpening) : Prop :=
  let i := Z.to_nat (shard_index sh) in
  (i < n)%nat /\ zlen (column_symbols sh) = COL_HEIGHT_SECONDARY /\
  (forall r s, (r < n)%nat -> column_symbols sh !! r = Some s -> syms !! (i * n + r)%nat = Some s) /\
  Forall (fun so => (Z.to_nat (so_leaf_index so) < n)%nat /\
      syms !! (i * n + Z.to_nat (so_leaf_index so))%nat = Some (so_symbol so)) (primary_symbols sh) /\
  Forall (fun so => (Z.to_nat (so_leaf_index so) < n)%nat /\
      syms !! (Z.to_nat (so_leaf_index so) * n + n - 1 - i)%nat = Some (so_symbol so))
    (secondary_symbols sh).

Lemma elem_of_concat_fmap {A} (f : A -> list bytes) l x m :
  x ∈ l -> m ∈ f x -> m ∈ concat (f <$> l).
Proof.
  intros Hx Hm. apply list_elem_of_In, in_concat. exists (f x).
  split; apply list_elem_of_In; [|done]. apply list_elem_of_fmap. eauto.
Qed.

Section Sound.
Context (n : nat) (syms : list bytes) (Hsyms : length syms = (n * n)%nat).
Context (Q : bytes -> Prop) (HQ : collision_free Q).
Let hs := leaf_hash <$> syms.
Context (HQs : forall s, s ∈ syms -> Q (LEAF_PREFIX ++ s)).

Lemma leaves_node_ok l : Forall (fun x => exists s, x = leaf_hash s) l -> Forall node_ok l.
Proof.
  intros H. eapply Forall_impl; [exact H|]. intros x [s ->]. apply blake2b256_length.
Qed.

(** A verified symbol opening against a tree whose leaves come from [f]. *)
Lemma verify_symbol_sound l f err so :
  length l = n -> Forall (fun x => exists s, x = leaf_hash s) l ->
  (forall r, (r < n)%nat -> l !! r = leaf_hash <$> f r) ->
  (forall r s, f r = Some s -> s ∈ syms) ->
  (forall x, x ∈ tree_msgs n l -> Q x) -> (forall x, x ∈ symbol_msgs so -> Q x) ->
  opening_symbol_typed so ->
  verify_symbol (Z.of_nat n) (node_bytes (root (build_from_leaf_hashes l))) err so = Ok tt ->
  (Z.to_nat (so_leaf_index so) < n)%nat /\ f (Z.to_nat (so_leaf_index so)) = Some (so_symbol so).
Proof.
  intros Hl Hlv Hf Hfs Ht Hm [H0 Hp] Hv. unfold verify_symbol in Hv. inv_ok. bool_hyps.
  rewrite Nat2Z.id in *. assert (Z.to_nat (so_leaf_index so) < n)%nat as Hlt by lia.
  split; [done|].
  match goal with H : verify_proof _ _ _ _ _ = _ |- _ => rewrite <- Hl in H;
    eapply (verify_proof_node Q) in H as (y & Hy & Hyb) end; try done.
  - rewrite Hf in Hy by done. apply fmap_Some in Hy as (s & Hs & ->). cbn in Hyb.
    rewrite Hs. f_equal. apply HQ in Hyb; [by injection Hyb|by eapply HQs, Hfs|].
    apply Hm. unfold symbol_msgs, verify_msgs. set_solver.
  - by rewrite Hl.
  - intros ->. cbn in Hl. lia.
  - by apply leaves_node_ok.
Qed.

Lemma row_symbols_in i r s : syms !! (i * n + r)%nat = Some s -> s ∈ syms.
Proof. apply list_elem_of_lookup_2. Qed.

(** The column: recomputing the tree of the full primary sliver. *)
Lemma column_sound i csyms clh :
  (i < n)%nat -> length clh = n -> Forall node_ok clh ->
  (forall x, x ∈ tree_msgs n (matrix_row n hs i) ++ tree_msgs n clh -> Q x) ->
  (forall s, s ∈ csyms -> Q (LEAF_PREFIX ++ s)) ->
  Forall (fun '(s, h) => root (build [s]) = h) (zip csyms clh) ->
  node_bytes (root (build_from_leaf_hashes clh)) = node_bytes (root (primary_tree n hs i)) ->
  forall r s, (r < n)%nat -> csyms !! r = Some s -> syms !! (i * n + r)%nat = Some s.
Proof.
  intros Hi Hlen Hok Ht Hcs Hz Hroot r s Hr Hs. unfold primary_tree in Hroot.
  assert (length (matrix_row n hs i) = n) as Hrow by by apply matrix_row_length.
  rewrite !build_root in Hroot. unfold tree_root in Hroot. rewrite Hlen, Hrow in Hroot.
  apply (digests_of_root_inj Q) in Hroot; try done; try lia; [|set_solver|].
  2: { apply leaves_node_ok, matrix_row_leaves. }
  destruct (lookup_lt_is_Some_2 clh r) as [h Hh]; [lia|].
  rewrite Forall_lookup in Hz. specialize (Hz r (s, h)). rewrite lookup_zip_with, Hs, Hh in Hz.
  specialize (Hz eq_refl). cbn in Hz. subst h.
  apply (f_equal (lookup r)) in Hroot. rewrite !list_lookup_fmap, Hh in Hroot.
  unfold hs in Hroot. rewrite (matrix_row_lookup n syms i r Hr) in Hroot.
  destruct (syms !! (i * n + r)%nat) as [s'|] eqn:Hs'; [|done].
  cbn in Hroot. injection Hroot as Hroot. f_equal. symmetry.
  apply HQ in Hroot; [by injection Hroot|apply Hcs; by eapply list_elem_of_lookup_2|].
  by eapply HQs, row_symbols_in.
Qed.

Lemma verify_shard_sound pair_root sh :
  (forall i x, (i < n)%nat -> x ∈ tree_msgs n (matrix_row n hs i) ++ tree_msgs n (matrix_column n hs i) -> Q x) ->
  (forall x, x ∈ shard_msgs sh -> Q x) -> shard_typed sh ->
  verify_shard (Z.of_nat n) (shard_roots n hs <$> seq 0 n) pair_root sh = Ok tt ->
  shard_shows n syms sh.
Proof.
  intros Ht Hm (Hi0 & Hps & Hss & Hok) Hv. unfold verify_shard in Hv.
  apply bind_Ok_inv in Hv as (_ & Hin%ensure_Ok & Hv).
  apply bind_Ok_inv in Hv as (pair & Hpair%expect_Ok & Hv).
  apply bind_Ok_inv in Hv as (_ & Hroots%ensure_Ok & Hv).
  apply bind_Ok_inv in Hv as (_ & _ & Hv).
  apply bind_Ok_inv in Hv as (_ & Hvp%oforall_Ok & Hv).
  apply bind_Ok_inv in Hv as (_ & Hvs%oforall_Ok & Hv).
  apply bind_Ok_inv in Hv as (_ & Hcl%ensure_Ok & Hv).
  apply bind_Ok_inv in Hv as (_ & Hhl%ensure_Ok & Hv).
  apply bind_Ok_inv in Hv as (_ & Hz%oforall_Ok & Hv%ensure_Ok).
  apply andb_true_iff in Hroots as [Hrp Hrs]. bool_hyps.
  set (i := Z.to_nat (shard_index sh)) in *. assert (i < n)%nat as Hi by lia.
  rewrite (roots_get_at n syms) in Hpair by lia. injection Hpair as <-.
  fold i in Hrp, Hrs. cbn [sp_primary sp_secondary shard_roots] in *. unfold shard_msgs in Hm.
  split; [done|]. split; [done|]. split_and!.
  - apply (column_sound i (column_symbols sh) (column_leaf_hashes sh)); try done; [lia|..].
    + intros x [Hx|Hx]%elem_of_app; [apply (Ht i); set_solver|apply Hm].
      replace n with (length (column_leaf_hashes sh)) in Hx by lia. set_solver.
    + intros s Hs. apply Hm. do 2 (apply elem_of_app; right). apply elem_of_app; left.
      apply list_elem_of_fmap. eauto.
    + eapply Forall_impl; [exact Hz|]. intros [s h] Hb%ensure_Ok. by bool_hyps.
    + by rewrite Hv, <- Hrp.
  - rewrite <- Hrp in Hvp. apply Forall_forall. intros so Hso. rewrite Forall_forall in Hps, Hvp.
    eapply (verify_symbol_sound (matrix_row n hs i) (fun r => syms !! (i * n + r)%nat)) in Hvp;
      try done; [by apply matrix_row_length|apply matrix_row_leaves|by apply matrix_row_lookup| | | |by apply Hps].
    + intros r s. apply row_symbols_in.
    + intros x Hx. apply (Ht i); set_solver.
    + intros x Hx. apply Hm, elem_of_app. left. by eapply elem_of_concat_fmap.
  - rewrite <- Hrs in Hvs. apply Forall_forall. intros so Hso. rewrite Forall_forall in Hss, Hvs.
    eapply (verify_symbol_sound (matrix_column n hs i) (fun r => syms !! (r * n + n - 1 - i)%nat)) in Hvs;
      try done; [by apply matrix_column_length|by apply matrix_column_leaves|intros r Hr; by apply (matrix_column_lookup n syms Hsyms)
      | | | |by apply Hss].
    + intros r s. apply list_elem_of_lookup_2.
    + intros x Hx. apply (Ht i); set_solver.
    + intros x Hx. apply Hm, elem_of_app. right. apply elem_of_app. left.
      by eapply elem_of_concat_fmap.
Qed.
End Sound.

(** An accepted opening of the identifier of a blob shows that blob's symbols:
    when [verify_walrus_blob_opening] accepts an opening whose identifier is
    that of the matrix [syms] (with as many shards), the opening has the
    matrix' length, encoding and roots, and every symbol it shows (in rows, in
    columns, and the 667 symbols of each sampled sliver) is the symbol of the
    matrix at that place, unless BLAKE2b collides on the messages hashed. *)
Theorem opening_shows_committed_symbols n syms len o :
  length syms = (n * n)%nat -> 0 <= len < 2 ^ 64 -> opening_typed o ->
  bo_n_shards o = Z.of_nat n ->
  bo_blob_id o = compute_blob_id_from_sliver_pair_roots
    (shard_roots n (leaf_hash <$> syms) <$> seq 0 n) RS2 len ->
  collision_free (fun x => x ∈ matrix_msgs n syms len ++ opening_msgs o) ->
  verify_walrus_blob_opening o = Ok tt ->
  bo_encoding_type o = encoding_to_u8 RS2 /\ bo_unencoded_length o = len /\
  sliver_pair_roots o = shard_roots n (leaf_hash <$> syms) <$> seq 0 n /\
  Forall (shard_shows n syms) (shards o).
Proof.
  intros Hsyms Hlen (Hol & Hor & Hos) Hn Hid HQ Hv. unfold verify_walrus_blob_opening in Hv.
  set (hs := leaf_hash <$> syms) in *. set (roots := shard_roots n hs <$> seq 0 n) in *.
  apply bind_Ok_inv in Hv as (_ & Hl%ensure_Ok & Hv). bool_hyps.
  apply bind_Ok_inv in Hv as (e & He%map_err_Ok & Hv).
  apply bind_Ok_inv in Hv as (_ & Hb%ensure_Ok & Hv%oforall_Ok). bool_hyps.
  assert (e = RS2 /\ bo_encoding_type o = 1) as [-> Hene].
  { unfold encoding_try_from in He. destruct (Z.eqb_spec (bo_encoding_type o) 1); [|done].
    by injection He as <-. }
  assert (length roots = n) as Hrl by (unfold roots; by rewrite length_fmap, length_seq).
  assert (Forall roots_typed roots) as Hrt.
  { unfold roots. apply Forall_fmap, Forall_forall. intros i Hi%elem_of_seq.
    split; apply node_bytes_length, build_root_ok, leaves_node_ok;
      [apply matrix_row_leaves|apply matrix_column_leaves; [done|lia]]. }
  assert (forall rs l, Forall roots_typed rs -> 0 <= l < 2 ^ 64 -> metadata_ok (roots_md rs RS2 l)) as Hmd.
  { intros rs l Hrs Hll. split; [done|]. cbn. apply Forall_fmap. eapply Forall_impl; [exact Hrs|].
    by intros r []. }
  destruct (from_sliver_pair_metadata_inj _ (roots_md (sliver_pair_roots o) RS2 (bo_unencoded_length o))
    (roots_md roots RS2 len) HQ) as (_ & Hul & Hh); try by apply Hmd.
  { unfold matrix_msgs, opening_msgs. fold hs. fold roots. set_solver. }
  { cbn. rewrite !length_fmap. lia. }
  { by transitivity (bo_blob_id o). }
  cbn in Hul. assert (sliver_pair_roots o = roots) as Hroots.
  { clear -Hh Hor Hrt. cbn [roots_md hashes] in Hh. revert Hh Hor Hrt. generalize roots.
    induction (sliver_pair_roots o) as [|r rs IH]; intros [|r' rs'] Hh H1 H2; try done.
    cbn [fmap list_fmap] in Hh. injection Hh as Hh Hr. apply Forall_cons in H1 as [[H1 H1'] H1s].
    apply Forall_cons in H2 as [[H2 H2'] H2s]. f_equal; [|by apply IH].
    unfold pair_leaf_input in Hh. cbn in Hh. apply app_inj_1 in Hh as [Ha Hb]; [|congruence].
    destruct r, r'. cbn in *. by subst. }
  split; [done|]. split; [done|]. split; [done|]. rewrite Hroots, Hn in Hv.
  apply Forall_forall. intros sh Hsh. rewrite Forall_forall in Hv, Hos.
  eapply (verify_shard_sound n syms Hsyms _ HQ); [| | |by apply Hos|by apply Hv].
  - intros s Hs. unfold matrix_msgs. apply elem_of_app. left. apply elem_of_app. right.
    apply elem_of_app. left. apply list_elem_of_fmap. eauto.
  - intros i x Hi Hx. unfold matrix_msgs. apply elem_of_app. left. apply elem_of_app. right.
    apply elem_of_app. right. apply (elem_of_concat_fmap _ _ i); [apply elem_of_seq; lia|done].
  - intros x Hx. unfold opening_msgs. apply elem_of_app. right. apply elem_of_app. right.
    by eapply elem_of_concat_fmap.
Qed.

(** ** The aggregates and the opened symbols *)

Definition rows : list Z := seqZ 0 COL_HEIGHT_SECONDARY.
(** Byte [j] of the opened symbol of row [r]. *)
Definition opened_at (syms : list bytes) (j : nat) (r : Z) : Z :=
  nth j (default [] (syms !! Z.to_nat r)) 0.
Definition in_data (len col size : Z) (j : nat) (r : Z) : bool :=
  symbol_offset col r size + Z.of_nat j <? len.
Definition cipher_cell (key nonce : bytes) (len col size : Z) (syms : list bytes) (j : nat)
    (r : Z) : Z :=
  if in_data len col size j r then opened_at syms j r else ks_at key nonce col size j r.
Definition origin_cell (len col size : Z) (syms : list bytes) (j : nat) (r : Z) : Z :=
  if in_data len col size j r then opened_at syms j r else 0.

Lemma opened_at_byte syms j r : Forall (fun s => is_bytes s) syms -> is_byte (opened_at syms j r).
Proof.
  intros H. unfold opened_at. destruct (syms !! Z.to_nat r) eqn:Hs; cbn.
  - apply bytes_nth_byte. by eapply Forall_lookup in Hs.
  - by destruct j.
Qed.
Lemma nth_take_ge (l : bytes) n j : (n <= j)%nat -> nth j (take n l) 0 = 0.
Proof. intros H. apply nth_overflow. rewrite length_take. lia. Qed.

(** Xoring the part of a symbol that lies in the data. *)
Lemma xor_data_part (acc sym : bytes) beta off len size j :
  0 <= off < len -> (j < length acc)%nat -> (j < Z.to_nat size)%nat ->
  nth j (xor_blk beta acc (take (Z.to_nat (Z.min (off + size) len - off)) sym)) 0
  = Z.lxor (nth j acc 0) (if off + Z.of_nat j <? len then gf256_mul_walrus (nth j sym 0) beta else 0).
Proof.
  intros Hoff Hj Hs. rewrite xor_blk_nth by done. f_equal.
  destruct (Z.ltb_spec (off + Z.of_nat j) len).
  - by rewrite nth_take_Z by lia.
  - by rewrite nth_take_ge, gf_mul_0_l by lia.
Qed.

Lemma cipher_column_row_spec key nonce len size c syms acc r e :
  zlen acc = size -> 0 <= symbol_offset c r size -> 0 <= r ->
  cipher_column_row key nonce len size c syms acc r = Ok e ->
  zlen e = size /\ forall j, (j < Z.to_nat size)%nat ->
    nth j e 0 = Z.lxor (nth j acc 0)
      (gf256_mul_walrus (cipher_cell key nonce len c size syms j r) (weight r)).
Proof.
  intros Hacc Hoff Hr H. unfold cipher_column_row in H. fold (weight r) in H.
  unfold cipher_cell, in_data, opened_at, ks_at. set (off := symbol_offset c r size) in *.
  destruct (Z.ltb_spec off len) as [Hin|Hout].
  - apply bind_Ok_inv in H as (a & H & He).
    apply bind_Ok_inv in H as (sym & Hsym%expect_Ok & H).
    apply bind_Ok_inv in H as (_ & Hl%ensure_Ok & H). injection H as <-. injection He as <-.
    apply get_at_Some in Hsym as [_ ->]. cbn [default]. bool_hyps.
    rewrite xor_blk_from_length, xor_blk_length. split; [done|]. intros j Hj.
    rewrite xor_blk_from_nth by (rewrite xor_blk_length; lia).
    rewrite xor_data_part, ks_block_nth by lia.
    destruct (Nat.ltb_spec j (Z.to_nat (Z.min (off + size) len - off))),
      (Z.ltb_spec (off + Z.of_nat j) len); try lia; by rewrite Z.lxor_0_r.
  - injection H as <-. rewrite xor_blk_from_length. split; [done|]. intros j Hj.
    rewrite xor_blk_from_nth, ks_block_nth by lia.
    by rewrite (proj2 (Z.ltb_ge (off + Z.of_nat j) len)) by lia.
Qed.

Lemma cipher_column_rows_spec key nonce len size c syms rs acc e :
  zlen acc = size -> (forall r, r ∈ rs -> 0 <= r /\ 0 <= symbol_offset c r size) ->
  ofold (cipher_column_row key nonce len size c syms) acc rs = Ok e ->
  zlen e = size /\ forall j, (j < Z.to_nat size)%nat ->
    nth j e 0 = Z.lxor (nth j acc 0) (xsum weight (cipher_cell key nonce len c size syms j) rs).
Proof.
  revert acc. induction rs as [|r rs IH]; intros acc Hacc Hrs H; cbn [ofold] in H.
  { injection H as <-. split; [done|]. intros j Hj. by rewrite Z.lxor_0_r. }
  apply bind_Ok_inv in H as (a & Ha & H).
  apply cipher_column_row_spec in Ha as [Hal Ha]; [|done|apply Hrs; set_solver..].
  apply IH in H as [Hl H]; [|done|set_solver]. split; [done|]. intros j Hj.
  by rewrite H, Ha, xsum_cons, Z.lxor_assoc.
Qed.

Lemma origin_column_rows_spec len size c syms k acc e :
  zlen acc = size -> 0 <= k -> 0 <= c -> 0 <= size ->
  origin_column_rows len size c k acc (drop (Z.to_nat k) syms) = Ok e ->
  zlen e = size /\ forall j, (j < Z.to_nat size)%nat ->
    nth j e 0 = Z.lxor (nth j acc 0)
      (xsum weight (origin_cell len c size syms j) (seqZ k (zlen syms - k))).
Proof.
  remember (drop (Z.to_nat k) syms) as tl eqn:Htl. revert k Htl acc.
  induction tl as [|sym tl IH]; intros k Htl acc Hacc Hk Hc Hs H; cbn [origin_column_rows] in H.
  - injection H as <-. split; [done|]. intros j Hj.
    assert (zlen syms <= k) as Hle.
    { apply (f_equal length) in Htl. rewrite length_drop in Htl. cbn in Htl. lia. }
    rewrite seqZ_nil by lia. by rewrite Z.lxor_0_r.
  - fold (weight k) in H. assert (syms !! Z.to_nat k = Some sym) as Hsym.
    { rewrite <- (Nat.add_0_r (Z.to_nat k)), <- lookup_drop. by rewrite <- Htl. }
    pose proof (lookup_lt_Some _ _ _ Hsym) as Hlt. set (off := symbol_offset c k size) in *.
    assert (0 <= off) as Hoff by (unfold off, symbol_offset, COL_HEIGHT_SECONDARY; nia).
    destruct (Z.leb_spec len off) as [Hge|Hin].
    + injection H as <-. split; [done|]. intros j Hj.
      rewrite (xsum_ext _ _ (fun _ => 0)), xsum_zero, Z.lxor_0_r; [done|].
      intros r [Hr _]%elem_of_seqZ. unfold origin_cell, in_data.
      assert (off <= symbol_offset c r size) by (unfold off, symbol_offset, COL_HEIGHT_SECONDARY; nia).
      by rewrite (proj2 (Z.ltb_ge _ _)) by lia.
    + apply bind_Ok_inv in H as (_ & Hl%ensure_Ok & H). bool_hyps.
      apply (IH (k + 1)) in H as [Hel H]; try done; [| |by rewrite xor_blk_length|lia].
      2: { replace (Z.to_nat (k + 1)) with (1 + Z.to_nat k)%nat by lia.
           by rewrite Nat.add_comm, <- drop_drop, <- Htl. }
      split; [done|]. intros j Hj. rewrite H by done.
      replace (Z.min (len - off) size) with (Z.min (off + size) len - off) by lia.
      rewrite xor_data_part by lia.
      rewrite (seqZ_cons k) by lia. rewrite xsum_cons. unfold origin_cell at 2, in_data, opened_at.
      fold off. rewrite Hsym. cbn [default].
      replace (Z.pred (zlen syms - k)) with (zlen syms - (k + 1)) by lia.
      rewrite <- Z.add_1_r. destruct (off + Z.of_nat j <? len); by rewrite Z.lxor_assoc.
Qed.

Lemma rows_ok c size r : 0 <= c -> 0 <= size -> r ∈ rows -> 0 <= r /\ 0 <= symbol_offset c r size.
Proof.
  intros Hc Hs Hr%elem_of_seqZ. unfold symbol_offset, COL_HEIGHT_SECONDARY in *. nia.
Qed.

Lemma cipher_column_shard_Ok key nonce len size p sh :
  0 <= col_index p -> 0 <= size ->
  cipher_column_shard key nonce len size (p, sh) = Ok tt ->
  col_index p < ROW_WIDTH_PRIMARY /\ shard_index sh = col_index p /\
  zlen (origin_shard p) = size /\ zlen (cipher_shard p) = size /\
  forall j, (j < Z.to_nat size)%nat -> nth j (cipher_shard p) 0
    = xsum weight (cipher_cell key nonce len (col_index p) size (column_symbols sh) j) rows.
Proof.
  intros Hc Hs H. unfold cipher_column_shard in H.
  apply bind_Ok_inv in H as (_ & H1%ensure_Ok & H).
  apply bind_Ok_inv in H as (_ & H2%ensure_Ok & H).
  apply bind_Ok_inv in H as (_ & H3%ensure_Ok & H).
  apply bind_Ok_inv in H as (_ & _ & H).
  apply bind_Ok_inv in H as (e & He & H%ensure_Ok). bool_hyps. subst e.
  apply cipher_column_rows_spec in He as [_ He]; [|rewrite zeros_length; lia|].
  - do 4 (split; [done|]). intros j Hj. by rewrite He, zeros_nth, Z.lxor_0_l.
  - intros r Hr. by apply rows_ok.
Qed.

Lemma origin_column_shard_Ok len size p sh :
  0 <= col_index p -> 0 <= size ->
  origin_column_shard len size (p, sh) = Ok tt ->
  forall j, (j < Z.to_nat size)%nat -> nth j (origin_shard p) 0
    = xsum weight (origin_cell len (col_index p) size (column_symbols sh) j) rows.
Proof.
  intros Hc Hs H. unfold origin_column_shard in H.
  apply bind_Ok_inv in H as (_ & _ & H). apply bind_Ok_inv in H as (_ & _ & H).
  apply bind_Ok_inv in H as (_ & _ & H). apply bind_Ok_inv in H as (_ & Hl%ensure_Ok & H).
  apply bind_Ok_inv in H as (e & He & H%ensure_Ok). bool_hyps. subst e.
  rewrite take_ge in He by lia.
  apply (origin_column_rows_spec len size (col_index p) (column_symbols sh) 0) in He as [_ He];
    [|rewrite zeros_length; lia|lia|done|done].
  intros j Hj. rewrite He, zeros_nth, Z.lxor_0_l, Z.sub_0_r, Hl by done. done.
Qed.

(** The deviation of the opened ciphertext from [origin + key stream]. *)
Definition column_error (key nonce : bytes) (len col size : Z) (csyms osyms : list bytes)
    (j : nat) (r : Z) : Z :=
  if in_data len col size j r
  then Z.lxor (Z.lxor (opened_at csyms j r) (opened_at osyms j r)) (ks_at key nonce col size j r)
  else 0.

(** Two equal deviations 255 rows apart have the same weight and cancel. *)
Lemma equal_deviations_cancel e r :
  0 <= r < 255 -> (forall s, is_byte (e s)) -> e r = e (r + 255) ->
  (forall s, s <> r -> s <> r + 255 -> e s = 0) -> xsum weight e rows = 0.
Proof.
  intros Hr Hb Heq Hz.
  rewrite (xsum_ext _ _ (fun s => Z.lxor (if decide (s = r) then e r else 0)
    (if decide (s = r + 255) then e r else 0))).
  - rewrite xsum_lxor by (apply weight_byte || (intros s; by destruct (decide _))).
    rewrite (xsum_single _ _ _ r), (xsum_single _ _ _ (r + 255)); try apply NoDup_seqZ.
    + rewrite !decide_True by done. unfold weight at 2.
      replace ((r + 255) `mod` 255) with (r `mod` 255); [apply Z.lxor_nilpotent|].
      by rewrite <- (Z.mod_add r 1 255) by lia.
    + apply elem_of_seqZ. unfold COL_HEIGHT_SECONDARY. lia.
    + intros s Hne. by rewrite decide_False.
    + apply elem_of_seqZ. unfold COL_HEIGHT_SECONDARY. lia.
    + intros s Hne. by rewrite decide_False.
  - intros s Hs'. destruct (decide (s = r)) as [->|Hne].
    + rewrite decide_False by lia. by rewrite Z.lxor_0_r.
    + destruct (decide (s = r + 255)) as [->|Hne']; [by rewrite Z.lxor_0_l, <- Heq|].
      by rewrite Hz.
Qed.

Section ColumnCheck.
Context (key nonce : bytes) (len size : Z) (p : VeShardProof) (csh osh : WalrusShardOpening).
Context (Hc : 0 <= col_index p) (Hs : 0 <= size) (Hpo : parity_offset p = 0).
Context (Hcb : Forall (fun s => is_bytes s) (column_symbols csh)).
Context (Hob : Forall (fun s => is_bytes s) (column_symbols osh)).
Context (Hcs : cipher_column_shard key nonce len size (p, csh) = Ok tt).
Context (Hos : origin_column_shard len size (p, osh) = Ok tt).
Let err := column_error key nonce len (col_index p) size (column_symbols csh) (column_symbols osh).

Lemma column_error_byte j r : is_byte (err j r).
Proof.
  unfold err, column_error. destruct (in_data _ _ _ _ _); [|done].
  apply lxor_byte; [apply lxor_byte; by apply opened_at_byte|apply keystream_byte].
Qed.
Lemma column_check_at j : (j < Z.to_nat size)%nat ->
  xsum weight (err j) rows = 0 <->
  nth j (cipher_shard p) 0 = Z.lxor (nth j (origin_shard p) 0)
    (xsum (fun r => beta_of r (parity_offset p)) (ks_at key nonce (col_index p) size j) rows).
Proof.
  intros Hj. pose proof (cipher_column_shard_Ok _ _ _ _ _ _ Hc Hs Hcs) as (_ & _ & _ & _ & Hcs').
  rewrite Hcs', (origin_column_shard_Ok _ _ _ _ Hc Hs Hos), Hpo,
    (xsum_weights (fun r => beta_of r 0) weight) by (done || apply beta_of_0).
  assert (forall r, is_byte (origin_cell len (col_index p) size (column_symbols osh) j r)) as Ho.
  { intros r. unfold origin_cell. destruct (in_data len _ _ _ _); [by apply opened_at_byte|done]. }
  assert (forall r, is_byte (cipher_cell key nonce len (col_index p) size (column_symbols csh) j r)) as Hci.
  { intros r. unfold cipher_cell.
    destruct (in_data len _ _ _ _); [by apply opened_at_byte|apply keystream_byte]. }
  assert (forall r, is_byte (ks_at key nonce (col_index p) size j r)) as Hk
    by (intros r; apply keystream_byte).
  rewrite <- (Z.lxor_eq_0_iff (xsum weight (cipher_cell _ _ _ _ _ _ _) _)).
  rewrite <- xsum_lxor by (done || apply weight_byte).
  rewrite <- xsum_lxor by (done || apply weight_byte || (intros r; by apply lxor_byte)).
  match goal with |- (?a = 0 <-> ?b = 0) => enough (a = b) as ->; [done|] end.
  apply xsum_ext. intros r Hr. unfold err, column_error, cipher_cell, origin_cell.
  destruct (in_data len _ _ _ _).
  - by rewrite Z.lxor_assoc.
  - by rewrite Z.lxor_0_l, Z.lxor_nilpotent.
Qed.
Lemma column_check_iff :
  verify_col_homomorphism key nonce p size = Ok tt <->
  forall j, (j < Z.to_nat size)%nat -> xsum weight (err j) rows = 0.
Proof.
  pose proof (cipher_column_shard_Ok _ _ _ _ _ _ Hc Hs Hcs) as (Hcol & _ & Hol & Hcl & _).
  rewrite verify_col_homomorphism_Ok by done. split.
  - intros (_ & _ & _ & H) j Hj. by apply column_check_at, H.
  - intros H. do 3 (split; [done|]). intros j Hj. by apply column_check_at, H.
Qed.
End ColumnCheck.

(** C28: What the three checks on a sampled column establish together: given that
    the two aggregates are bound to the opened symbols, the homomorphism check
    accepts exactly when the deviations of the 667 opened symbols sum to zero
    in the field at each byte position. So a column with a single deviating
    symbol is always refused; but two equal deviations 255 rows apart have
    the same weight and cancel. *)
Theorem column_check_exact key nonce len size p csh osh :
  0 <= col_index p -> 0 <= size -> parity_offset p = 0 ->
  Forall (fun s => is_bytes s) (column_symbols csh) ->
  Forall (fun s => is_bytes s) (column_symbols osh) ->
  cipher_column_shard key nonce len size (p, csh) = Ok tt ->
  origin_column_shard len size (p, osh) = Ok tt ->
  let err := column_error key nonce len (col_index p) size (column_symbols csh) (column_symbols osh) in
  (verify_col_homomorphism key nonce p size = Ok tt <->
   forall j, (j < Z.to_nat size)%nat -> xsum weight (err j) rows = 0) /\
  (forall j r, (j < Z.to_nat size)%nat -> r ∈ rows -> (forall s, s <> r -> err j s = 0) ->
     err j r <> 0 -> verify_col_homomorphism key nonce p size <> Ok tt) /\
  (forall r, 0 <= r < 255 ->
     (forall j, err j r = err j (r + 255)) -> (forall j s, s <> r -> s <> r + 255 -> err j s = 0) ->
     verify_col_homomorphism key nonce p size = Ok tt).
Proof.
  intros Hc Hs Hpo Hcb Hob Hcs Hos err.
  pose proof (column_check_iff key nonce len size p csh osh Hc Hs Hpo Hcb Hob Hcs Hos) as Hiff.
  assert (forall j r, is_byte (err j r)) as Herr by (intros j r; by apply column_error_byte).
  split; [done|]. split.
  - intros j r Hj Hr Hz Hne Hv. pose proof (proj1 Hiff Hv j Hj) as Hx. fold err in Hx.
    rewrite (xsum_single weight (err j) rows r) in Hx; [|apply NoDup_seqZ|done|done].
    revert Hx. apply gf_log_mul; [apply Herr|apply weight_byte|done|apply weight_nonzero].
  - intros r Hr Heq Hz. apply Hiff. intros j Hj. apply (equal_deviations_cancel _ r);
      [done|apply Herr|apply Heq|apply Hz].
Qed.
End WalrusOpen.

(** ** Concrete inputs *)

Definition example_syms : list bytes := [[1; 2]; [3; 4]; [5; 6]; [7; 8]].
Definition example_request (i : nat) (s : bytes) : WalrusSymbolRequest :=
  {| rq_leaf_index := Z.of_nat i; rq_symbol := s |}.
Definition example_sample : WalrusSampleRequest :=
  {| rq_shard_index := 1;
     rq_primary_symbols := [example_request 1 [7; 8]];
     rq_secondary_symbols := [example_request 1 [5; 6]];
     rq_column_symbols :=
       (fun r => example_request r (default [9; 9] (example_syms !! (2 + r)%nat))) <$> seq 0 667 |}.
Lemma example_sample_ok : sample_ok 2 example_syms example_sample.
Proof.
  split; [done|]. split; [by repeat constructor|]. split; [by repeat constructor|].
  split; [done|]. intros r rq Hr. cbn [example_sample rq_column_symbols] in Hr.
  rewrite list_lookup_fmap in Hr. apply fmap_Some in Hr as (k & Hk & ->).
  apply lookup_seq in Hk as [-> Hk]. split; [done|]. intros Hlt.
  destruct r as [|[|]]; [done|done|lia].
Qed.
Lemma blob_opening_verifies_witness :
  exists o, build_walrus_blob_opening (leaf_hash <$> example_syms) RS2 100 [example_sample] = Ok o /\
    verify_walrus_blob_opening o = Ok tt.
Proof.
  destruct (blob_opening_verifies 2 example_syms eq_refl 100 [example_sample])
    as (o & Hb & _ & _ & _ & _ & _ & Hv); [lia|lia|apply Forall_singleton, example_sample_ok|].
  exists o. split; [exact Hb|exact Hv].
Defined.

Definition example_opening : WalrusBlobOpening :=
  match build_walrus_blob_opening (leaf_hash <$> example_syms) RS2 100 [example_sample] with
  | Ok o => o
  | _ => {| bo_blob_id := []; bo_encoding_type := 0; bo_unencoded_length := 0; bo_n_shards := 0;
            sliver_pair_roots := []; shards := [] |}
  end.
Definition node_okb (n : Node) : bool :=
  match n with Empty => true | Digest d => (length d =? DIGEST_LEN)%nat end.
Lemma node_okb_ok l : forallb node_okb l = true -> Forall node_ok l.
Proof. apply forallb_Forall. intros [|d]; [done|]. by intros ?%Nat.eqb_eq. Qed.
Definition opening_typedb (o : WalrusBlobOpening) : bool :=
  let symb so := (0 <=? so_leaf_index so) && forallb node_okb (so_path so) in
  (0 <=? bo_unencoded_length o) && (bo_unencoded_length o <? 2 ^ 64)
  && forallb (fun r => (length (sp_primary r) =? DIGEST_LEN)%nat
                       && (length (sp_secondary r) =? DIGEST_LEN)%nat) (sliver_pair_roots o)
  && forallb (fun sh => (0 <=? shard_index sh) && forallb symb (primary_symbols sh)
       && forallb symb (secondary_symbols sh) && forallb node_okb (column_leaf_hashes sh)) (shards o).
Lemma opening_typedb_ok o : opening_typedb o = true -> opening_typed o.
Proof.
  unfold opening_typedb. intros H. bool_hyps. split; [done|]. split.
  - eapply forallb_Forall; [|eassumption]. intros r Hr. apply andb_true_iff in Hr as [?%Nat.eqb_eq ?%Nat.eqb_eq].
    by split.
  - assert (forall so, (0 <=? so_leaf_index so) && forallb node_okb (so_path so) = true ->
      opening_symbol_typed so) as Hso.
    { intros so Hb. bool_hyps. split; [done|]. by apply node_okb_ok. }
    eapply forallb_Forall; [|eassumption]. intros sh Hsh. cbv beta in Hsh. bool_hyps. split; [done|].
    split_and!; [by apply (forallb_Forall _ _ _ Hso)|by apply (forallb_Forall _ _ _ Hso)|by apply node_okb_ok].
Qed.
Lemma opening_shows_committed_symbols_witness :
  bo_unencoded_length example_opening = 100 /\ Forall (shard_shows 2 example_syms) (shards example_opening).
Proof.
  destruct (opening_shows_committed_symbols 2 example_syms 100 example_opening) as (_ & Hl & _ & Hs).
  - reflexivity.
  - split; [discriminate|reflexivity].
  - apply opening_typedb_ok. vm_compute. reflexivity.
  - vm_compute. reflexivity.
  - vm_compute. reflexivity.
  - apply collision_free_list_ok. vm_compute. reflexivity.
  - vm_compute. reflexivity.
  - split; [exact Hl|exact Hs].
Defined.

(** A blob of nine bytes in symbols of two: five symbols of column 0. *)
Definition column_of (data : bytes) : list bytes :=
  take 667 (chunks 2 (data ++ replicate (1334 - length data) 0)).
Definition example_shard (data : bytes) : WalrusShardOpening :=
  {| shard_index := 0; primary_root := []; secondary_root := []; primary_symbols := [];
     secondary_symbols := []; pair_leaf_path := []; column_symbols := column_of data;
     column_leaf_hashes := [] |}.
Definition example_column_proof : VeShardProof :=
  match create_honest_proof example_key [1; 2] 0 2 example_origin
          (apply_keystream example_key [1; 2] 0 example_origin) with
  | Ok p => p
  | _ => example_proof
  end.
Lemma symbols_bytes l : forallb (forallb is_byteb) l = true -> Forall (fun s => is_bytes s) l.
Proof. apply forallb_Forall, is_bytes_check. Qed.
Lemma column_check_exact_witness :
  xsum weight (column_error example_key [1; 2] 9 0 2
    (column_of (apply_keystream example_key [1; 2] 0 example_origin)) (column_of example_origin) 0) rows = 0.
Proof.
  destruct (column_check_exact example_key [1; 2] 9 2 example_column_proof
    (example_shard (apply_keystream example_key [1; 2] 0 example_origin))
    (example_shard example_origin)) as [Hiff _].
  - vm_compute. discriminate.
  - discriminate.
  - vm_compute. reflexivity.
  - apply symbols_bytes. vm_compute. reflexivity.
  - apply symbols_bytes. vm_compute. reflexivity.
  - vm_compute. reflexivity.
  - vm_compute. reflexivity.
  - refine (proj1 Hiff _ 0%nat _); [vm_compute; reflexivity|]. apply Nat.lt_0_2.
Defined.
