(* ===== verification/ReedSolomon.v ===== *)
(** One-dimensional encoding in [walrus-core]: the symbol vectors of
    [encoding/symbols.rs], the encoder of [encoding/basic_encoding.rs] and the
    encoding functions of [encoding/config.rs].

    The codec itself is the crate [reed_solomon_simd], which is not part of the
    repository: the class [ReedSolomon] holds the two calls the encoder makes,
    with their documented facts in [ReedSolomonLaws] (the number and the size of
    the recovery symbols).  An [Encoder] is its parameters: the buffers it keeps
    between two calls are truncated before every use. *)
From S2P Require Import Prelude Crypto WalrusMerkle WalrusConfig Gf256 Rslh.

Class ReedSolomon := {
  (** [ReedSolomonEncoder::new(original_count, recovery_count, shard_bytes)] *)
  rs_new : Z -> Z -> Z -> outcome string unit;
  (** [add_original_shard] for each shard, then [encode]: the recovery shards. *)
  rs_encode : Z -> list bytes -> list bytes;
}.
Class ReedSolomonLaws (R : ReedSolomon) : Prop := {
  rs_encode_count m os : 0 <= m -> length (rs_encode m os) = Z.to_nat m;
  rs_encode_size m os s : os <> [] -> Forall (fun o => length o = s) os ->
    Forall (fun o => length o = s) (rs_encode m os);
}.

(** ** Axes ([encoding/common.rs]) *)

Inductive EncodingAxis := Primary | Secondary.
#[export] Instance EncodingAxis_eq_dec : EqDecision EncodingAxis.
Proof. solve_decision. Defined.
Definition OrthogonalAxis (e : EncodingAxis) : EncodingAxis :=
  match e with Primary => Secondary | Secondary => Primary end.
Definition n_source_symbols (c : ReedSolomonEncodingConfig) (e : EncodingAxis) : Z :=
  match e with
  | Primary => source_symbols_primary c
  | Secondary => source_symbols_secondary c
  end.

(** ** Symbols ([encoding/symbols.rs]) *)

Record Symbols := {
  sy_data : bytes;
  sy_symbol_size : Z;
}.
Inductive WrongSymbolSizeError := wrong_symbol_size_error.

Definition symbols_new (data : bytes) (size : Z) : guest Symbols :=
  assert (zlen data `mod` size =? 0) "the provided data must contain complete symbols" ;;
  Ok {| sy_data := data; sy_symbol_size := size |}.
Definition symbols_zeros (n size : Z) : Symbols :=
  {| sy_data := zeros (n * size); sy_symbol_size := size |}.
Definition symbols_empty (size : Z) : Symbols := {| sy_data := []; sy_symbol_size := size |}.
Definition symbols_truncate (s : Symbols) (n : Z) : Symbols :=
  {| sy_data := take (Z.to_nat (n * sy_symbol_size s)) (sy_data s); sy_symbol_size := sy_symbol_size s |}.
Definition symbols_len (s : Symbols) : Z := zlen (sy_data s) `div` sy_symbol_size s.
(** [self[index]]: panics out of range. *)
Definition symbols_at {E} (s : Symbols) (index : Z) : outcome E bytes :=
  expect (get_range (sy_data s) (sy_symbol_size s * index) (sy_symbol_size s)) "range end index out of range".
Definition symbols_get (s : Symbols) (index : Z) : guest (option bytes) :=
  if symbols_len s <=? index then Ok None else symbol ← symbols_at s index; Ok (Some symbol).
Definition to_symbols (s : Symbols) : list bytes := chunks (Z.to_nat (sy_symbol_size s)) (sy_data s).
Definition symbols_extend (s : Symbols) (symbols : bytes) : outcome WrongSymbolSizeError Symbols :=
  ensure (zlen symbols `mod` sy_symbol_size s =? 0) wrong_symbol_size_error ;;
  Ok {| sy_data := sy_data s ++ symbols; sy_symbol_size := sy_symbol_size s |}.

(** ** The encoder ([encoding/basic_encoding.rs]) *)

Inductive InvalidDataSizeError := DataTooLarge | EmptyData.
Inductive EncodeError :=
  | InvalidDataSize (e : InvalidDataSizeError)
  | IncorrectDataLength (expected : Z)
  | IncompatibleParameters (message : string).

Record ReedSolomonEncoder := {
  en_n_source_symbols : Z;
  en_n_shards : Z;
  en_symbol_size : Z;
}.

Section Encoder.
Context `{R : ReedSolomon}.

Definition encoder_new (symbol_size n_source_symbols n_shards : Z) : outcome EncodeError ReedSolomonEncoder :=
  ensure (n_source_symbols <=? n_shards)
    (IncompatibleParameters "n_shards must be at least n_source_symbols") ;;
  ensure (symbol_size `mod` required_alignment RS2 =? 0)
    (IncompatibleParameters "symbol_size must be a multiple of the required alignment") ;;
  map_err (rs_new n_source_symbols (n_shards - n_source_symbols) symbol_size) IncompatibleParameters ;;
  Ok {| en_n_source_symbols := n_source_symbols; en_n_shards := n_shards; en_symbol_size := symbol_size |}.

Definition check_parameters_and_compute_symbol_size (data_length n_source_symbols : Z)
    : outcome EncodeError Z :=
  ensure (negb (data_length =? 0)) (InvalidDataSize EmptyData) ;;
  symbol_size ← map_err (compute_symbol_size data_length n_source_symbols (required_alignment RS2))
    (fun _ => InvalidDataSize DataTooLarge);
  let expected_length := n_source_symbols * symbol_size in
  ensure (data_length =? expected_length) (IncorrectDataLength expected_length) ;;
  Ok symbol_size.

Definition check_data_length (e : ReedSolomonEncoder) (data : bytes) : outcome EncodeError unit :=
  let expected_length := en_n_source_symbols e * en_symbol_size e in
  ensure (zlen data =? expected_length) (IncorrectDataLength expected_length).

(** [recovery_iter] of the result of [encode]. *)
Definition encode (e : ReedSolomonEncoder) (data : bytes) : outcome EncodeError (list bytes) :=
  check_data_length e data ;;
  Ok (rs_encode (en_n_shards e - en_n_source_symbols e)
        (chunks_exact (Z.to_nat (en_symbol_size e)) data)).

Definition encode_all_repair_symbols_inner (e : ReedSolomonEncoder) (result_buffer : Symbols)
    (data : bytes) : outcome EncodeError Symbols :=
  check_data_length e data ;;
  assert (sy_symbol_size result_buffer =? en_symbol_size e)
    "result buffer must have the same symbol size as the encoder" ;;
  recovery ← encode e data;
  ofold (fun result symbol => unwrap (symbols_extend result symbol)
    "the encoded symbols definitely have the correct size") result_buffer recovery.
Definition encode_all (e : ReedSolomonEncoder) (data : bytes) : outcome EncodeError Symbols :=
  let result := symbols_empty (en_symbol_size e) in
  check_data_length e data ;;
  assert (sy_symbol_size result =? en_symbol_size e)
    "result buffer must have the same symbol size as the encoder" ;;
  result ← unwrap (symbols_extend result data) "cannot fail as we have checked the length of the data";
  encode_all_repair_symbols_inner e result data.
Definition encode_all_repair_symbols (e : ReedSolomonEncoder) (data : bytes) : outcome EncodeError Symbols :=
  encode_all_repair_symbols_inner e (symbols_empty (en_symbol_size e)) data.

Definition get_symbol (e : ReedSolomonEncoder) (data : bytes) (index : Z) : outcome EncodeError bytes :=
  check_data_length e data ;;
  assert (index <? en_n_shards e) "assertion failed: index < self.n_shards.get()" ;;
  if index <? en_n_source_symbols e then
    expect (get_range data (index * en_symbol_size e) (en_symbol_size e)) "range end index out of range"
  else
    recovery ← encode e data;
    expect (get_at recovery (index - en_n_source_symbols e))
      "we have added all source symbols and checked the index, so this cannot fail".

(** ** The encoding functions of the configuration ([encoding/config.rs]) *)

Definition get_encoder (c : ReedSolomonEncodingConfig) (e : EncodingAxis) (data_length : Z)
    : outcome EncodeError ReedSolomonEncoder :=
  symbol_size ← check_parameters_and_compute_symbol_size data_length (n_source_symbols c e);
  encoder_new symbol_size (n_source_symbols c e) (rs_n_shards c).
Definition config_encode_all_symbols (c : ReedSolomonEncodingConfig) (e : EncodingAxis) (data : bytes)
    : outcome EncodeError Symbols :=
  encoder ← get_encoder c e (zlen data); encode_all encoder data.
Definition config_encode_all_repair_symbols (c : ReedSolomonEncodingConfig) (e : EncodingAxis)
    (data : bytes) : outcome EncodeError Symbols :=
  encoder ← get_encoder c e (zlen data); encode_all_repair_symbols encoder data.
Definition config_encode_symbol (c : ReedSolomonEncodingConfig) (e : EncodingAxis) (data : bytes)
    (index : Z) : outcome EncodeError bytes :=
  symbol_size ← check_parameters_and_compute_symbol_size (zlen data) (n_source_symbols c e);
  if index <? n_source_symbols c e then
    expect (get_range data (index * symbol_size) symbol_size) "range end index out of range"
  else
    encoder ← get_encoder c e (zlen data); get_symbol encoder data index.
End Encoder.

(** ** What the encoder answers *)

Section EncoderSpec.
Context `{R : ReedSolomon} {RL : ReedSolomonLaws R}.
Context (k n s : Z) (Hk : 1 <= k <= n) (Hn : n < 65536) (Hs : 2 <= s < 65536) (Heven : s `mod` 2 = 0).
Context (Hnew : rs_new k (n - k) s = Ok tt).
Let enc := {| en_n_source_symbols := k; en_n_shards := n; en_symbol_size := s |}.
Let size := Z.to_nat s.

(** The [n] symbols of a message of [k] symbols. *)
Definition codeword (symbols : list bytes) : list bytes := symbols ++ rs_encode (n - k) symbols.

Lemma source_symbol_size : compute_symbol_size (k * s) k (required_alignment RS2) = Ok s.
Proof using Hk Hn Hs Heven.
  assert (0 <= k * s < 2 ^ 63) as Hl by nia. change (required_alignment RS2) with 2.
  rewrite (compute_symbol_size_eq (k * s) k 2 Hl ltac:(lia) ltac:(lia)).
  destruct (raw_symbol_size (k * s) k 2 Hl ltac:(lia) ltac:(lia)) as (H1 & H2 & H3 & H4).
  set (raw := next_multiple_of _ 2) in *. clearbody raw.
  assert (raw <= s) by (apply H4; [done|nia]). assert (s <= raw) by nia.
  replace raw with s by lia. by rewrite (proj2 (Z.ltb_lt s 65536)) by lia.
Qed.
Lemma parameters_ok : check_parameters_and_compute_symbol_size (k * s) k = Ok s.
Proof using Hk Hn Hs Heven.
  unfold check_parameters_and_compute_symbol_size. rewrite (proj2 (Z.eqb_neq _ 0)) by nia.
  cbn [negb ensure mbind outcome_bind]. rewrite source_symbol_size. cbn [map_err mbind outcome_bind].
  by rewrite Z.eqb_refl.
Qed.
Lemma get_encoder_ok c e : n_source_symbols c e = k -> rs_n_shards c = n -> get_encoder c e (k * s) = Ok enc.
Proof using Hk Hn Hs Heven Hnew.
  intros Hc He. unfold get_encoder. rewrite Hc, He, parameters_ok. cbn [mbind outcome_bind].
  unfold encoder_new. rewrite (proj2 (Z.leb_le k n)) by lia. change (required_alignment RS2) with 2.
  rewrite Heven. cbn [Z.eqb ensure mbind outcome_bind]. by rewrite Hnew.
Qed.

Context (data : bytes) (Hd : zlen data = k * s).

Lemma data_length : length data = (Z.to_nat k * size)%nat.
Proof using Hk Hs Hd. unfold size. nia. Qed.
Lemma source_chunks : length (chunks size data) = Z.to_nat k /\
  Forall (fun c => length c = size) (chunks size data).
Proof using Hk Hs Hd.
  pose proof data_length as Hl. split; [apply chunks_length; lia|].
  by apply (chunks_exact_full size (Z.to_nat k) data); [lia|].
Qed.
Lemma check_data_length_ok : check_data_length enc data = Ok tt.
Proof using Hd. unfold check_data_length. cbn. by rewrite Hd, Z.eqb_refl. Qed.
Lemma encode_ok : encode enc data = Ok (rs_encode (n - k) (chunks size data)).
Proof using Hk Hs Hd.
  unfold encode. rewrite check_data_length_ok. cbn [mbind outcome_bind en_n_shards en_n_source_symbols en_symbol_size].
  do 2 f_equal. apply (chunks_exact_full size (Z.to_nat k)); [lia|exact data_length].
Qed.
Lemma codeword_shape : length (codeword (chunks size data)) = Z.to_nat n /\
  Forall (fun c => length c = size) (codeword (chunks size data)).
Proof using RL Hk Hs Hd.
  destruct source_chunks as [Hl Hf]. unfold codeword. rewrite length_app, Hl, rs_encode_count by lia.
  split; [lia|]. apply Forall_app. split; [done|]. apply rs_encode_size; [|done].
  intros He. rewrite He in Hl. cbn in Hl. lia.
Qed.

Lemma extend_all s0 data0 symbols :
  Forall (fun c => length c = Z.to_nat s0) symbols -> 1 <= s0 ->
  ofold (fun result symbol => unwrap (symbols_extend result symbol)
      "the encoded symbols definitely have the correct size")
    {| sy_data := data0; sy_symbol_size := s0 |} symbols
  = Ok (E := EncodeError) {| sy_data := data0 ++ concat symbols; sy_symbol_size := s0 |}.
Proof.
  intros Hf Hs0. revert data0. induction Hf as [|c cs Hc _ IH]; intros data0; cbn [ofold concat].
  { by rewrite app_nil_r. }
  assert (symbols_extend {| sy_data := data0; sy_symbol_size := s0 |} c
    = Ok {| sy_data := data0 ++ c; sy_symbol_size := s0 |}) as ->.
  { unfold symbols_extend. cbn [sy_symbol_size sy_data]. by rewrite Hc, Z2Nat.id, Z_mod_same_full by lia. }
  cbn [mbind outcome_bind unwrap]. by rewrite IH, app_assoc.
Qed.
Lemma repair_inner_ok data0 : encode_all_repair_symbols_inner enc {| sy_data := data0; sy_symbol_size := s |} data
  = Ok {| sy_data := data0 ++ concat (rs_encode (n - k) (chunks size data)); sy_symbol_size := s |}.
Proof using RL Hk Hs Hd.
  unfold encode_all_repair_symbols_inner. rewrite check_data_length_ok, encode_ok.
  cbn [sy_symbol_size en_symbol_size enc]. rewrite Z.eqb_refl. cbn [assert mbind outcome_bind].
  apply extend_all; [|lia]. destruct codeword_shape as [_ Hf]. by apply Forall_app in Hf as [_ Hf].
Qed.
Lemma encode_all_ok : encode_all enc data
  = Ok {| sy_data := concat (codeword (chunks size data)); sy_symbol_size := s |}.
Proof using RL Hk Hs Hd.
  unfold encode_all. rewrite check_data_length_ok. cbn [sy_symbol_size en_symbol_size enc symbols_empty].
  rewrite Z.eqb_refl. cbn [assert mbind outcome_bind]. unfold symbols_extend. cbn [sy_symbol_size sy_data].
  rewrite Hd, Z_mod_mult. cbn [Z.eqb ensure mbind outcome_bind unwrap app].
  rewrite repair_inner_ok. unfold codeword. by rewrite concat_app, concat_chunks by lia.
Qed.
Lemma encode_all_repair_symbols_ok : encode_all_repair_symbols enc data
  = Ok {| sy_data := concat (rs_encode (n - k) (chunks size data)); sy_symbol_size := s |}.
Proof using RL Hk Hs Hd. exact (repair_inner_ok []). Qed.
Lemma to_symbols_concat cs : Forall (fun c => length c = size) cs ->
  to_symbols {| sy_data := concat cs; sy_symbol_size := s |} = cs.
Proof using Hs. intros Hf. clear - Hs Hf. apply chunks_concat; [cbn; lia|done]. Qed.
Lemma get_symbol_ok index : 0 <= index < n ->
  exists symbol, get_symbol enc data index = Ok symbol /\
    codeword (chunks size data) !! Z.to_nat index = Some symbol.
Proof using RL Hk Hn Hs Hd.
  intros Hi. destruct source_chunks as [Hl Hf]. destruct codeword_shape as [Hcl _].
  unfold get_symbol. rewrite check_data_length_ok. cbn [en_n_shards en_n_source_symbols en_symbol_size enc].
  rewrite (proj2 (Z.ltb_lt index n)) by lia. cbn [assert mbind outcome_bind].
  destruct (lookup_lt_is_Some_2 (codeword (chunks size data)) (Z.to_nat index)) as [symbol Hsym]; [lia|].
  exists symbol. split; [|done]. unfold codeword in Hsym. destruct (Z.ltb_spec index k).
  - rewrite lookup_app_l in Hsym by lia. apply chunks_lookup in Hsym as [-> Hlt]; [|lia].
    apply expect_Ok, get_range_Some. split_and!; [nia|lia|nia|]. do 2 f_equal. nia.
  - rewrite encode_ok. cbn [mbind outcome_bind]. apply expect_Ok, get_at_Some.
    unfold codeword in Hcl. rewrite length_app, Hl in Hcl. rewrite lookup_app_r, Hl in Hsym by lia.
    split; [lia|]. rewrite <- Hsym. f_equal. lia.
Qed.
End EncoderSpec.

Section ConfigEncode.
Context `{R : ReedSolomon} {RL : ReedSolomonLaws R}.
Context (c : ReedSolomonEncodingConfig) (e : EncodingAxis) (s : Z) (data : bytes).
Let k := n_source_symbols c e.
Let n := rs_n_shards c.
Context (Hk : 1 <= k <= n) (Hn : n < 65536) (Hs : 2 <= s < 65536) (Heven : s `mod` 2 = 0).
Context (Hnew : rs_new k (n - k) s = Ok tt) (Hd : zlen data = k * s).

Lemma config_encode_all_symbols_ok : config_encode_all_symbols c e data
  = Ok {| sy_data := concat (codeword k n (chunks (Z.to_nat s) data)); sy_symbol_size := s |}.
Proof using RL Hk Hn Hs Heven Hnew Hd.
  unfold config_encode_all_symbols. rewrite Hd, (get_encoder_ok k n s) by done.
  by apply encode_all_ok.
Qed.
Lemma config_encode_all_repair_symbols_ok : config_encode_all_repair_symbols c e data
  = Ok {| sy_data := concat (rs_encode (n - k) (chunks (Z.to_nat s) data)); sy_symbol_size := s |}.
Proof using RL Hk Hn Hs Heven Hnew Hd.
  unfold config_encode_all_repair_symbols. rewrite Hd, (get_encoder_ok k n s) by done.
  by apply encode_all_repair_symbols_ok.
Qed.

(** the three ways to encode a message agree: [encode_all_symbols] gives
    [n_shards] symbols of equal size that begin with the message,
    [encode_all_repair_symbols] the ones after it, and [encode_symbol] each of
    them, without an error or a panic, when the codec supports the parameters. *)
Theorem encodings_agree : exists all repair,
  config_encode_all_symbols c e data = Ok all /\
  config_encode_all_repair_symbols c e data = Ok repair /\
  zlen (to_symbols all) = n /\ Forall (fun x => zlen x = s) (to_symbols all) /\
  to_symbols all = chunks (Z.to_nat s) data ++ to_symbols repair /\
  forall i, 0 <= i < n -> exists symbol,
    config_encode_symbol c e data i = Ok symbol /\ to_symbols all !! Z.to_nat i = Some symbol.
Proof using RL Hk Hn Hs Heven Hnew Hd.
  do 2 eexists. split; [apply config_encode_all_symbols_ok|].
  split; [apply config_encode_all_repair_symbols_ok|].
  destruct (codeword_shape k n s Hk Hs data Hd) as [Hl Hf].
  assert (Hf' := Hf). unfold codeword in Hf'. apply Forall_app in Hf' as [_ Hrec].
  rewrite !(to_symbols_concat s Hs) by done. split; [lia|].
  split; [eapply Forall_impl; [exact Hf|]; cbn; lia|]. split; [done|].
  intros i Hi. destruct (get_symbol_ok k n s Hk Hn Hs data Hd i Hi) as (symbol & Hg & Hc).
  exists symbol. split; [|done]. unfold config_encode_symbol.
  rewrite Hd. fold k. rewrite (parameters_ok k n s) by done. cbn [mbind outcome_bind].
  rewrite (get_encoder_ok k n s) by done. cbn [mbind outcome_bind].
  destruct (Z.ltb_spec i k) as [Hik|Hik]; [|done].
  unfold get_symbol in Hg. rewrite check_data_length_ok in Hg by done.
  cbn [en_n_shards en_n_source_symbols en_symbol_size] in Hg.
  rewrite (proj2 (Z.ltb_lt i n)), (proj2 (Z.ltb_lt i k)) in Hg by lia. exact Hg.
Qed.
End ConfigEncode.

(** ** A concrete codec

    Recovery symbol [j] is the sum of the source symbols [i], byte by byte in
    GF(256), with the weights [2^((i + 1) j)]. *)
Definition toy_recovery (os : list bytes) (j : nat) : bytes :=
  fold_left (fun acc '(i, o) => xor_blk (GF_EXP !!! ((i + 1) * j `mod` 255)%nat) acc o) (imap pair os)
    (zeros (zlen (hd [] os))).
#[export] Instance toy_rs : ReedSolomon := {
  rs_new original_count recovery_count shard_bytes :=
    if (0 <? original_count) && (0 <? recovery_count) && (shard_bytes `mod` 2 =? 0)
    then Ok tt else Err "unsupported shard count"%string;
  rs_encode m os := toy_recovery os <$> seq 0 (Z.to_nat m);
}.
#[export] Instance toy_rs_laws : ReedSolomonLaws toy_rs.
Proof.
  split; cbn [rs_encode toy_rs].
  - intros m os _. by rewrite length_fmap, length_seq.
  - intros m os s Hne Hf. apply Forall_fmap, Forall_true. intros j. cbn. unfold toy_recovery.
    destruct os as [|o os]; [done|]. apply Forall_cons in Hf as [Ho _]. cbn [hd].
    assert (forall l acc, length (fold_left (fun acc '(i, o) =>
      xor_blk (GF_EXP !!! ((i + 1) * j `mod` 255)%nat) acc o) l acc) = length acc) as ->.
    { induction l as [|[i x] l IH]; intros acc; cbn [fold_left]; [done|]. by rewrite IH, xor_blk_length. }
    rewrite zeros_length. lia.
Qed.
Definition four_shards : ReedSolomonEncodingConfig :=
  {| source_symbols_primary := 2; source_symbols_secondary := 3; rs_n_shards := 4 |}.
Lemma encodings_agree_witness : exists symbol,
  config_encode_symbol four_shards Secondary [1; 2; 3; 4; 5; 6] 3 = Ok symbol /\ zlen symbol = 2.
Proof.
  destruct (encodings_agree four_shards Secondary 2 [1; 2; 3; 4; 5; 6])
    as (all & repair & _ & _ & Hl & Hf & _ & Hi); try (cbn; done || lia).
  destruct (Hi 3) as (symbol & Hs & Hlook); [cbn; lia|]. exists symbol. split; [exact Hs|].
  rewrite Forall_forall in Hf. apply Hf. by eapply list_elem_of_lookup_2.
Defined.
