(* ===== verification/BlobEncoding.v ===== *)
(** The two-dimensional encoding of a blob: [encoding/blob_encoding.rs] and the
    slivers of [encoding/slivers.rs] in [walrus-core], and the blob identifier
    [drop-lib/src/walrus_address.rs] computes with it.

    The file has three encoders: [encode_with_metadata], the deprecated
    [encode_with_metadata_legacy] over the expanded matrix, and
    [compute_metadata_with_symbol_hashes], which keeps no primary slivers.  All
    three are translated with their buffers and in-place writes, and proved to
    compute one matrix, [cell]. *)
From S2P Require Import Prelude Crypto WalrusMerkle WalrusConfig Rslh WalrusOpen ReedSolomon.

Record SliverData := {
  sd_symbols : Symbols;
  sd_index : Z;
}.
Record SliverPair := {
  pr_primary : SliverData;
  pr_secondary : SliverData;
}.
(** [BlobEncoder] and its inner [BlobEncoderData]. *)
Record BlobEncoder := {
  be_blob : bytes;
  be_symbol_size : Z;
  be_n_rows : Z;
  be_n_columns : Z;
  be_config : ReedSolomonEncodingConfig;
}.

(** [for (y, x) in ys.iter_mut().zip(xs) { f(y, x) }] *)
Fixpoint zip_update {A B} (f : B -> A -> guest B) (xs : list A) (ys : list B) : guest (list B) :=
  match xs, ys with
  | x :: xs, y :: ys => y' ← f y x; ys' ← zip_update f xs ys; Ok (y' :: ys')
  | _, _ => Ok ys
  end.
(** The same after [ys.iter_mut().skip(k)]. *)
Definition zip_update_skip {A B} (k : nat) (f : B -> A -> guest B) (xs : list A) (ys : list B)
    : guest (list B) :=
  ys' ← zip_update f xs (drop k ys); Ok (take k ys ++ ys').

(** [dest[..src.len()].copy_from_slice(src)] *)
Definition overwrite (dest src : bytes) : guest bytes :=
  expect (get_range dest 0 (zlen src)) "range end index out of range" ;; Ok (splice dest 0 src).
(** [dest.copy_from_slice(src)] *)
Definition copy_from_slice (dest src : bytes) : guest bytes :=
  assert (zlen dest =? zlen src) "source slice length does not match destination slice length" ;; Ok src.
(** [self[index].copy_from_slice(symbol)] *)
Definition symbols_write (s : Symbols) (index : Z) (symbol : bytes) : guest Symbols :=
  dest ← symbols_at s index;
  symbol ← copy_from_slice dest symbol;
  Ok {| sy_data := splice (sy_data s) (sy_symbol_size s * index) symbol;
        sy_symbol_size := sy_symbol_size s |}.
(** [symbols.to_symbols_mut().zip(srcs).for_each(..)] *)
Definition write_symbols (s : Symbols) (srcs : list bytes) : guest Symbols :=
  symbols ← zip_update overwrite srcs (to_symbols s);
  Ok {| sy_data := concat symbols; sy_symbol_size := sy_symbol_size s |}.

Definition sliver_new_empty (length symbol_size index : Z) : SliverData :=
  {| sd_symbols := symbols_zeros length symbol_size; sd_index := index |}.
Definition copy_symbol_to (sliver : SliverData) (index : Z) (symbol : bytes) : guest SliverData :=
  assert (zlen symbol =? sy_symbol_size (sd_symbols sliver))
    "assertion failed: symbol.len() == self.symbols.symbol_usize()" ;;
  symbols ← symbols_write (sd_symbols sliver) index symbol;
  Ok {| sd_symbols := symbols; sd_index := sd_index sliver |}.

Section Encode.
Context `{HC : Crypto} `{R : ReedSolomon}.

Definition blob_encoder_new (config : ReedSolomonEncodingConfig) (blob : bytes)
    : outcome DataTooLargeError BlobEncoder :=
  symbol_size ← compute_symbol_size (zlen blob)
    (source_symbols_primary config * source_symbols_secondary config) (required_alignment RS2);
  Ok {| be_blob := blob; be_symbol_size := symbol_size; be_n_rows := n_source_symbols config Primary;
        be_n_columns := n_source_symbols config Secondary; be_config := config |}.

Section Methods.
Context (self : BlobEncoder).
Let blob := be_blob self.
Let size := be_symbol_size self.
Let n_rows := Z.to_nat (be_n_rows self).
Let n_columns := Z.to_nat (be_n_columns self).
Let n_shards := Z.to_nat (rs_n_shards (be_config self)).

Definition sliver_length (e : EncodingAxis) : Z :=
  n_source_symbols (be_config self) (OrthogonalAxis e) * size.
Definition be_get_encoder (e : EncodingAxis) : guest ReedSolomonEncoder :=
  unwrap (get_encoder (be_config self) e (sliver_length (OrthogonalAxis e)))
    "this length is compatible with the encoder".
Definition empty_sliver (e : EncodingAxis) (index : Z) : SliverData :=
  sliver_new_empty (n_source_symbols (be_config self) (OrthogonalAxis e)) size index.
Definition empty_slivers_range (e : EncodingAxis) (lo hi : nat) : list SliverData :=
  (fun i => empty_sliver e (Z.of_nat i)) <$> seq lo (hi - lo).
Definition empty_sliver_pair (index : Z) : SliverPair :=
  {| pr_primary := sliver_new_empty (source_symbols_secondary (be_config self)) size index;
     pr_secondary := sliver_new_empty (source_symbols_primary (be_config self)) size
       (to_sliver_index false index (rs_n_shards (be_config self))) |}.

(** [&blob[min(start, len)..min(min(start, len) + length, len)]] *)
Definition blob_slice (start length : Z) : bytes :=
  let start_index := Z.min start (zlen blob) in
  let end_index := Z.min (start_index + length) (zlen blob) in
  take (Z.to_nat (end_index - start_index)) (drop (Z.to_nat start_index) blob).
Definition symbol_at (row_index col_index : nat) : bytes :=
  blob_slice (size * (be_n_columns self * Z.of_nat row_index + Z.of_nat col_index)) size.
Definition column_symbols : list (list bytes) :=
  (fun col_index => (fun row_index => symbol_at row_index col_index) <$> seq 0 n_rows) <$> seq 0 n_columns.
Definition blob_rows : list bytes := chunks (Z.to_nat (be_n_columns self * size)) blob.
Definition rows_all : list bytes :=
  (fun row_index => blob_slice (size * (be_n_columns self * Z.of_nat row_index))
    (size * be_n_columns self)) <$> seq 0 n_rows.

(** [compute_metadata_from_symbol_hashes]: the trees are those of
    [walrus_open.rs], over the same rows and columns of the hashes. *)
Definition sliver_pair_metadata (n : nat) (symbol_hashes : list Node) (sliver_index : nat) : SliverPairMetadata :=
  {| primary_hash := root (primary_tree n symbol_hashes sliver_index);
     secondary_hash := root (secondary_tree n symbol_hashes sliver_index) |}.
Definition compute_metadata_from_symbol_hashes (symbol_hashes : list Node) (unencoded_length : Z)
    : guest BlobMetadataWithId :=
  assert (length symbol_hashes =? n_shards * n_shards)%nat
    "assertion failed: symbol_hashes.len() == n_shards * n_shards" ;;
  Ok (new_verified_from_metadata (sliver_pair_metadata n_shards symbol_hashes <$> seq 0 n_shards)
        RS2 unencoded_length).

(** [symbol_hashes[index] = hash] *)
Definition set_hash (symbol_hashes : list Node) (index : nat) (hash : Node) : guest (list Node) :=
  assert (index <? length symbol_hashes)%nat "index out of bounds" ;;
  Ok (<[index := hash]> symbol_hashes).
Definition store_column (col_index : nat) (symbol_hashes : list Node) (symbols : list bytes)
    : guest (list Node) :=
  ofold (fun hashes '(row_index, symbol) =>
      set_hash hashes (n_shards * row_index + col_index) (leaf_hash symbol))
    symbol_hashes (imap pair symbols).

(** One row: the recovery symbols of the row become symbol [r] of the slivers
    after the first [skip]. *)
Definition encode_row (encoder : ReedSolomonEncoder) (skip r : nat) (data : bytes)
    (slivers : list SliverData) : guest (list SliverData) :=
  recovery ← unwrap (encode encoder data) "size has already been checked";
  zip_update_skip skip (fun sliver symbol => copy_symbol_to sliver (Z.of_nat r) symbol) recovery slivers.

(** ** [encode_with_metadata] *)

Definition fill_rows (primary_slivers : list SliverData) : guest (list SliverData) :=
  zip_update (fun sliver row =>
      data ← overwrite (sy_data (sd_symbols sliver)) row;
      Ok {| sd_symbols := {| sy_data := data; sy_symbol_size := sy_symbol_size (sd_symbols sliver) |};
            sd_index := sd_index sliver |})
    blob_rows primary_slivers.
Definition fill_columns (secondary_slivers : list SliverData) : guest (list SliverData) :=
  zip_update (fun sliver column =>
      symbols ← write_symbols (sd_symbols sliver) column;
      Ok {| sd_symbols := symbols; sd_index := sd_index sliver |})
    column_symbols secondary_slivers.
Definition encode_column (encoder : ReedSolomonEncoder) (col_index : nat) (column : SliverData)
    (symbol_hashes : list Node) (primary_slivers : list SliverData)
    : guest (list Node * list SliverData) :=
  symbols ← unwrap (encode_all encoder (sy_data (sd_symbols column))) "size has already been checked";
  symbol_hashes ← store_column col_index symbol_hashes (to_symbols symbols);
  primary_slivers ← (if (col_index <? n_columns)%nat
    then zip_update_skip n_rows (fun sliver symbol => copy_symbol_to sliver (Z.of_nat col_index) symbol)
           (drop n_rows (to_symbols symbols)) primary_slivers
    else Ok primary_slivers);
  Ok (symbol_hashes, primary_slivers).
Definition encode_rows (encoder : ReedSolomonEncoder) (primary_slivers secondary_slivers : list SliverData)
    : guest (list SliverData) :=
  ofold (fun slivers '(r, row) => encode_row encoder n_columns r (sy_data (sd_symbols row)) slivers)
    secondary_slivers (imap pair (take n_rows primary_slivers)).
Definition encode_columns (encoder : ReedSolomonEncoder) (secondary_slivers : list SliverData)
    (state : list Node * list SliverData) : guest (list Node * list SliverData) :=
  ofold (fun '(hashes, slivers) '(col_index, column) => encode_column encoder col_index column hashes slivers)
    state (imap pair secondary_slivers).
Definition encode_with_metadata : guest (list SliverPair * BlobMetadataWithId) :=
  primary_slivers ← fill_rows (empty_slivers_range Primary 0 n_rows);
  secondary_slivers ← fill_columns (empty_slivers_range Secondary 0 n_shards);
  secondary_encoder ← be_get_encoder Secondary;
  secondary_slivers ← encode_rows secondary_encoder primary_slivers secondary_slivers;
  let symbol_hashes := replicate (n_shards * n_shards) Empty in
  let primary_slivers := primary_slivers ++ empty_slivers_range Primary n_rows n_shards in
  primary_encoder ← be_get_encoder Primary;
  '(symbol_hashes, primary_slivers) ←
    encode_columns primary_encoder secondary_slivers (symbol_hashes, primary_slivers);
  let sliver_pairs := zip_with Build_SliverPair primary_slivers (rev secondary_slivers) in
  md ← compute_metadata_from_symbol_hashes symbol_hashes (zlen blob);
  Ok (sliver_pairs, md).

(** ** [compute_metadata_with_symbol_hashes] *)

(** A row that ends early is copied to the buffer and completed with zeros. *)
Definition row_data (buffer row : bytes) : guest (bytes * bytes) :=
  let row_length_bytes := size * be_n_columns self in
  if zlen row <? row_length_bytes then
    let cleared := splice buffer (zlen row) (zeros (row_length_bytes - zlen row)) in
    buffer ← overwrite cleared row;
    Ok (buffer, buffer)
  else Ok (buffer, row).
Definition column_buffer (buffer : Symbols) (column : list bytes) : guest Symbols :=
  write_symbols {| sy_data := zeros (zlen (sy_data buffer)); sy_symbol_size := sy_symbol_size buffer |} column.
Definition hash_column (encoder : ReedSolomonEncoder) (col_index : nat) (data : bytes)
    (symbol_hashes : list Node) : guest (list Node) :=
  symbols ← unwrap (encode_all encoder data) "size has already been checked";
  store_column col_index symbol_hashes (to_symbols symbols).
Definition encode_rows_all (encoder : ReedSolomonEncoder) (state : bytes * list SliverData)
    : guest (bytes * list SliverData) :=
  ofold (fun '(buffer, slivers) '(r, row) =>
      '(buffer, data) ← row_data buffer row;
      slivers ← encode_row encoder 0 r data slivers;
      Ok (buffer, slivers)) state (imap pair rows_all).
Definition hash_systematic (encoder : ReedSolomonEncoder) (state : Symbols * list Node)
    : guest (Symbols * list Node) :=
  ofold (fun '(buffer, hashes) '(col_index, column) =>
      buffer ← column_buffer buffer column;
      hashes ← hash_column encoder col_index (sy_data buffer) hashes;
      Ok (buffer, hashes)) state (imap pair column_symbols).
Definition hash_non_systematic (encoder : ReedSolomonEncoder) (slivers : list SliverData)
    (symbol_hashes : list Node) : guest (list Node) :=
  ofold (fun hashes '(col_index, column) =>
      hash_column encoder (col_index + n_columns) (sy_data (sd_symbols column)) hashes)
    symbol_hashes (imap pair slivers).
Definition compute_metadata_with_symbol_hashes : guest (BlobMetadataWithId * list Node) :=
  let non_systematic := replicate (n_shards - n_columns) (empty_sliver Secondary 0) in
  secondary_encoder ← be_get_encoder Secondary;
  '(_, non_systematic) ← encode_rows_all secondary_encoder
    (sy_data (symbols_zeros (be_n_columns self) size), non_systematic);
  primary_encoder ← be_get_encoder Primary;
  '(_, symbol_hashes) ← hash_systematic primary_encoder
    (symbols_zeros (be_n_rows self) size, replicate (n_shards * n_shards) Empty);
  symbol_hashes ← hash_non_systematic primary_encoder non_systematic symbol_hashes;
  md ← compute_metadata_from_symbol_hashes symbol_hashes (zlen blob);
  Ok (md, symbol_hashes).
Definition compute_metadata : guest BlobMetadataWithId :=
  r ← compute_metadata_with_symbol_hashes; Ok r.1.

(** ** [encode_with_metadata_legacy], over [ExpandedMessageMatrix] *)

Definition fill_systematic_with_rows (matrix : list Symbols) : guest (list Symbols) :=
  zip_update (fun destination_row row =>
      data ← overwrite (sy_data destination_row) row;
      Ok {| sy_data := data; sy_symbol_size := sy_symbol_size destination_row |})
    blob_rows matrix.
Definition expand_row (row : Symbols) : guest Symbols :=
  message ← expect (get_range (sy_data row) 0 (sy_symbol_size row * be_n_columns self))
    "range end index out of range";
  repair ← unwrap (config_encode_all_repair_symbols (be_config self) Secondary message)
    "size has already been checked";
  ofold (fun row '(col_index, symbol) =>
      symbols_write row (be_n_columns self + Z.of_nat col_index) symbol)
    row (imap pair (to_symbols repair)).
Definition expand_rows_for_secondary (matrix : list Symbols) : guest (list Symbols) :=
  expanded ← omapM expand_row (take n_rows matrix);
  Ok (expanded ++ drop n_rows matrix).
Definition write_cell (matrix : list Symbols) (row_index col_index : nat) (symbol : bytes)
    : guest (list Symbols) :=
  row ← expect (matrix !! row_index) "index out of bounds";
  row ← symbols_write row (Z.of_nat col_index) symbol;
  Ok (<[row_index := row]> matrix).
Definition expand_column (matrix : list Symbols) (col_index : nat) : guest (list Symbols) :=
  column ← ofold (fun column row =>
      symbol ← symbols_at row (Z.of_nat col_index);
      match symbols_extend column symbol with Ok column => Ok column | _ => Ok column end)
    (symbols_empty size) (take n_rows matrix);
  repair ← unwrap (config_encode_all_repair_symbols (be_config self) Primary (sy_data column))
    "size has already been checked";
  ofold (fun matrix '(row_index, symbol) => write_cell matrix (n_rows + row_index) col_index symbol)
    matrix (imap pair (to_symbols repair)).
Definition expanded_matrix : guest (list Symbols) :=
  let matrix := replicate n_shards (symbols_zeros (rs_n_shards (be_config self)) size) in
  matrix ← fill_systematic_with_rows matrix;
  matrix ← expand_rows_for_secondary matrix;
  ofold expand_column matrix (seq 0 n_shards).
Definition matrix_metadata (matrix : list Symbols) : guest BlobMetadataWithId :=
  symbol_hashes ← omapM (fun row => omapM (fun col =>
      symbol ← symbols_at row (Z.of_nat col); Ok (leaf_hash symbol)) (seq 0 n_shards)) matrix;
  compute_metadata_from_symbol_hashes (concat symbol_hashes) (zlen blob).
Definition drop_recovery_symbols (matrix : list Symbols) : list Symbols :=
  take n_rows matrix ++ ((fun row => symbols_truncate row (be_n_columns self)) <$> drop n_rows matrix).
(** The columns in reverse order; the zip reads only as many rows as the sliver
    has symbols. *)
Definition write_secondary_sliver (matrix : list Symbols) (pair_index : nat) (sliver : SliverData)
    : guest SliverData :=
  let col := to_sliver_index false (Z.of_nat pair_index) (rs_n_shards (be_config self)) in
  srcs ← omapM (fun row => symbols_at row col)
    (take (length (to_symbols (sd_symbols sliver))) matrix);
  symbols ← zip_update copy_from_slice srcs (to_symbols (sd_symbols sliver));
  Ok {| sd_symbols := {| sy_data := concat symbols; sy_symbol_size := sy_symbol_size (sd_symbols sliver) |};
        sd_index := sd_index sliver |}.
Definition encode_with_metadata_legacy : guest (list SliverPair * BlobMetadataWithId) :=
  matrix ← expanded_matrix;
  md ← matrix_metadata matrix;
  let matrix := drop_recovery_symbols matrix in
  let sliver_pairs := (fun i => empty_sliver_pair (Z.of_nat i)) <$> seq 0 n_shards in
  sliver_pairs ← omapM (fun '(i, sp) =>
      secondary ← write_secondary_sliver matrix i (pr_secondary sp);
      Ok {| pr_primary := pr_primary sp; pr_secondary := secondary |}) (imap pair sliver_pairs);
  let sliver_pairs := zip_with (fun sp row =>
      {| pr_primary := {| sd_symbols := symbols_truncate row (n_source_symbols (be_config self) Secondary);
                          sd_index := sd_index (pr_primary sp) |};
         pr_secondary := pr_secondary sp |}) sliver_pairs matrix in
  Ok (sliver_pairs, md).
End Methods.

(** [drop-lib/src/walrus_address.rs], over [EncodingConfig] and
    [ReedSolomonEncodingConfig::compute_metadata]. *)
Definition compute_blob_id (data : bytes) (n_shards : Z) : outcome DataTooLargeError bytes :=
  assert (negb (n_shards =? 0)) "n_shards must be > 0" ;;
  config ← config_new n_shards;
  encoding_config ← get_for_type config RS2;
  encoder ← blob_encoder_new encoding_config data;
  metadata_with_id ← unwrap (compute_metadata encoder) "called `Result::unwrap()` on an `Err` value";
  Ok (blob_id metadata_with_id).
Definition compute_blob_id_default (data : bytes) : outcome DataTooLargeError bytes :=
  compute_blob_id data 1000.
End Encode.
