(* ===== verification/BlobMatrix.v ===== *)
(** The matrix that the encoders of [BlobEncoding.v] compute.

    [cell r c] is the symbol of row [r] and column [c]: the systematic rows are
    encoded with the secondary code, then every column with the primary code.
    The buffers and in-place writes of the encoders are followed loop by loop;
    the state of a loop is a list of symbols of which the first ones are final
    ([upto]). *)
From S2P Require Import Prelude Crypto WalrusMerkle WalrusConfig Rslh WalrusOpen ReedSolomon BlobEncoding.

(** ** Loops *)

(** A loop with an invariant that always has a next state. *)
Lemma ofold_reach {E A B} (P : nat -> B -> Prop) (f : B -> A -> outcome E B) l b :
  P 0%nat b ->
  (forall i x b, l !! i = Some x -> P i b -> exists b', f b x = Ok b' /\ P (S i) b') ->
  exists b', ofold f b l = Ok b' /\ P (length l) b'.
Proof.
  revert P b. induction l as [|x l IH]; intros P b H0 HS; cbn; [by exists b|].
  destruct (HS 0%nat x b eq_refl H0) as (b1 & -> & H1). cbn [mbind outcome_bind].
  apply (IH (fun i => P (S i)) b1 H1). intros i y b2 Hi. by apply (HS (S i)).
Qed.
(** Runs the loop of the goal with an invariant. *)
Tactic Notation "loop_with" uconstr(P) "as" simple_intropattern(pat) :=
  lazymatch goal with
  | |- context [ofold ?f ?b ?l] =>
      let H := fresh in
      assert (exists b', ofold f b l = Ok b' /\ P (length l) b') as H;
      [apply (ofold_reach P)|destruct H as pat]
  end.
(** The same for [for (i, x) in l.enumerate()] and a state that is known. *)
Lemma ofold_enum {E A B} (state : nat -> B) (f : B -> nat * A -> outcome E B) l :
  (forall i x, l !! i = Some x -> f (state i) (i, x) = Ok (state (S i))) ->
  ofold f (state 0%nat) (imap pair l) = Ok (state (length l)).
Proof.
  intros HS. destruct (ofold_reach (fun i b => b = state i) f (imap pair l) (state 0%nat)) as (b' & H & ->); [done| |].
  - intros i [j x] b Hi ->. rewrite list_lookup_imap in Hi. destruct (l !! i) as [y|] eqn:Hl; [|done].
    injection Hi as <- <-. eexists. split; [by apply HS|done].
  - rewrite length_imap in H. exact H.
Qed.
Lemma ofold_seq {E B} (state : nat -> B) (f : B -> nat -> outcome E B) k :
  (forall i, (i < k)%nat -> f (state i) i = Ok (state (S i))) ->
  ofold f (state 0%nat) (seq 0 k) = Ok (state k).
Proof.
  intros HS. destruct (ofold_reach (fun i b => b = state i) f (seq 0 k) (state 0%nat)) as (b' & H & ->); [done| |].
  - intros i x b [-> Hlt]%lookup_seq ->. eexists. split; [by apply HS|done].
  - by rewrite length_seq in H.
Qed.

Lemma omapM_over {E A B C} (f : B -> outcome E C) (g : A -> B) (h : A -> C) l :
  (forall x, x ∈ l -> f (g x) = Ok (h x)) -> omapM f (g <$> l) = Ok (h <$> l).
Proof.
  intros H. apply omapM_Ok, Forall2_fmap_2, Forall_Forall2_diag, Forall_forall, H.
Qed.
Lemma zip_update_spec {A B} (f : B -> A -> guest B) xs ys zs :
  length ys = length zs ->
  (forall i y z, ys !! i = Some y -> zs !! i = Some z ->
     match xs !! i with Some x => f y x = Ok z | None => y = z end) ->
  zip_update f xs ys = Ok zs.
Proof.
  revert ys zs. induction xs as [|x xs IH]; intros ys zs Hl H; cbn.
  { f_equal. apply list_eq. intros i. destruct (ys !! i) as [y|] eqn:Hy.
    - destruct (lookup_lt_is_Some_2 zs i) as [z Hz]; [rewrite <- Hl; by eapply lookup_lt_Some|].
      rewrite Hz. by rewrite (H _ _ _ Hy Hz).
    - symmetry. apply lookup_ge_None. rewrite <- Hl. by apply lookup_ge_None. }
  destruct ys as [|y ys], zs as [|z zs]; try done. rewrite (H 0%nat y z) by done. cbn [mbind outcome_bind].
  rewrite (IH ys zs); [done|by injection Hl|]. intros i. apply (H (S i)).
Qed.
(** Every item of a list of slivers is updated. *)
Lemma zip_update_fmap {A B C} (f : B -> A -> guest B) (X : C -> A) (Y Z : C -> B) l :
  (forall x, x ∈ l -> f (Y x) (X x) = Ok (Z x)) -> zip_update f (X <$> l) (Y <$> l) = Ok (Z <$> l).
Proof.
  intros H. apply zip_update_spec; [by rewrite !length_fmap|]. intros i y z.
  rewrite !list_lookup_fmap. destruct (l !! i) as [x|] eqn:Hx; [|done]. cbn. intros [= <-] [= <-].
  by apply H, list_elem_of_lookup_2 with i.
Qed.
Lemma zip_update_skip_fmap {A B C} (f : B -> A -> guest B) (X : C -> A) (Y Z : C -> B) pre l :
  (forall x, x ∈ l -> f (Y x) (X x) = Ok (Z x)) ->
  zip_update_skip (length pre) f (X <$> l) (pre ++ (Y <$> l)) = Ok (pre ++ (Z <$> l)).
Proof.
  intros H. unfold zip_update_skip. rewrite drop_app_length, take_app_length.
  by rewrite (zip_update_fmap f X Y Z) by done.
Qed.

Lemma imap_pair_seq {A} (f : nat -> A) k : imap pair (f <$> seq 0 k) = (fun i => (i, f i)) <$> seq 0 k.
Proof.
  apply list_eq. intros i. rewrite list_lookup_imap, !list_lookup_fmap.
  destruct (seq 0 k !! i) as [j|] eqn:Hj; [|done]. by apply lookup_seq in Hj as [-> _].
Qed.
(** The rows of a matrix one after the other. *)
Lemma concat_rows {A} (f : nat -> nat -> A) m n :
  concat ((fun r => f r <$> seq 0 n) <$> seq 0 m) = (fun i => f (i / n) (i mod n))%nat <$> seq 0 (m * n).
Proof.
  induction m as [|m IH]; [done|]. rewrite seq_S, fmap_app, concat_app, IH. cbn [fmap list_fmap concat Nat.add].
  rewrite app_nil_r. replace (S m * n)%nat with (m * n + n)%nat by lia. rewrite seq_app, fmap_app. f_equal.
  apply list_eq. intros i. rewrite !list_lookup_fmap. destruct (decide (i < n)%nat).
  - rewrite !lookup_seq_lt by done. cbn [fmap option_fmap option_map Nat.add].
    rewrite <- (Nat.div_unique (m * n + i) n m i), <- (Nat.mod_unique (m * n + i) n m i) by lia. done.
  - by rewrite !lookup_ge_None_2 by (rewrite length_seq; lia).
Qed.

(** ** Padding *)

(** The first [m] bytes of a byte string completed with zeros. *)
Definition pad_to (m : nat) (d : bytes) : bytes := take m (d ++ replicate m 0).
Lemma pad_to_length m d : length (pad_to m d) = m.
Proof. unfold pad_to. rewrite length_take, length_app, length_replicate. lia. Qed.
Lemma nth_replicate_0 m i : nth i (replicate m 0) 0 = 0.
Proof. rewrite nth_lookup. destruct (_ !! i) eqn:H; [|done]. by apply lookup_replicate in H as [-> _]. Qed.
Lemma nth_app_zeros d m i : nth i (d ++ replicate m 0) 0 = nth i d 0.
Proof.
  destruct (decide (i < length d)%nat); [by rewrite app_nth1|].
  rewrite app_nth2, nth_replicate_0 by lia. symmetry. apply nth_overflow. lia.
Qed.
Lemma pad_to_nth m d i : (i < m)%nat -> nth i (pad_to m d) 0 = nth i d 0.
Proof. intros Hi. unfold pad_to. by rewrite nth_take_Z, nth_app_zeros. Qed.
Lemma pad_to_eq m d : length d = m -> pad_to m d = d.
Proof. intros <-. apply take_app_length. Qed.
Lemma pad_to_take m d : pad_to m (take m d) = pad_to m d.
Proof.
  apply list_eq_nth; [by rewrite !pad_to_length|]. intros i Hi. rewrite pad_to_length in Hi.
  rewrite !pad_to_nth by done. by apply nth_take_Z.
Qed.
Lemma pad_to_nil m : pad_to m [] = replicate m 0.
Proof. apply take_ge. by rewrite length_replicate. Qed.
Lemma concat_pad_to s m d :
  concat ((fun c => pad_to s (drop (c * s) d)) <$> seq 0 m) = pad_to (m * s) d.
Proof.
  revert d. induction m as [|m IH]; intros d; [done|].
  rewrite <- cons_seq, fmap_cons. cbn [concat]. rewrite <- fmap_S_seq, <- list_fmap_compose.
  rewrite (list_fmap_ext _ (fun c => pad_to s (drop (c * s) (drop s d))))
    by (intros; unfold compose; rewrite drop_drop; do 2 f_equal; lia).
  rewrite IH. apply list_eq_nth; [rewrite length_app, !pad_to_length; lia|].
  intros i Hi. rewrite length_app, !pad_to_length in Hi. rewrite pad_to_nth by lia.
  destruct (decide (i < s)%nat).
  - rewrite app_nth1 by (by rewrite pad_to_length). by rewrite pad_to_nth.
  - rewrite app_nth2, pad_to_length by (rewrite pad_to_length; lia).
    rewrite pad_to_nth, nth_drop_Z by lia. f_equal. lia.
Qed.

(** What is written over zeros is completed with zeros. *)
Lemma overwrite_zeros m src : (length src <= m)%nat -> overwrite (replicate m 0) src = Ok (pad_to m src).
Proof.
  intros H. unfold overwrite.
  assert (get_range (replicate m 0) 0 (zlen src) = Some (take (length src) (replicate m 0))) as ->.
  { apply get_range_Some. rewrite length_replicate. split_and!; [lia..|]. by rewrite Nat2Z.id. }
  cbn [expect mbind outcome_bind]. f_equal. unfold splice, pad_to.
  change (Z.to_nat 0) with 0%nat. rewrite take_0, app_nil_l, take_app_ge by done. f_equal. rewrite drop_replicate, take_replicate. f_equal. lia.
Qed.

(** ** Symbol vectors as lists of symbols *)

Section SymbolList.
Context (s : nat).
Implicit Types cs : list bytes.

Definition sized cs : Prop := Forall (fun c => length c = s) cs.
Definition sym_list cs : Symbols := {| sy_data := concat cs; sy_symbol_size := Z.of_nat s |}.
Definition zero_symbol : bytes := replicate s 0.

Lemma sized_zeros m : sized (replicate m zero_symbol).
Proof. apply Forall_replicate, length_replicate. Qed.
Lemma sized_insert cs i c : sized cs -> length c = s -> sized (<[i := c]> cs).
Proof. intros H Hc. by apply Forall_insert. Qed.
Lemma sized_lookup cs i c : sized cs -> cs !! i = Some c -> length c = s.
Proof. intros H Hi. by apply (proj1 (Forall_lookup _ cs) H i). Qed.
Lemma concat_length cs : sized cs -> length (concat cs) = (length cs * s)%nat.
Proof. induction 1 as [|c cs Hc _ IH]; cbn [concat length]; [done|]. rewrite length_app. lia. Qed.
Lemma concat_take cs i : sized cs -> take (i * s) (concat cs) = concat (take i cs).
Proof.
  intros H. revert i. induction H as [|c cs Hc _ IH]; intros [|i]; cbn [concat take Nat.mul]; try done.
  { by rewrite take_nil. }
  rewrite take_app_ge, Hc by lia. f_equal. rewrite <- IH. f_equal. lia.
Qed.
Lemma concat_drop cs i : sized cs -> drop (i * s) (concat cs) = concat (drop i cs).
Proof.
  intros H. revert i. induction H as [|c cs Hc _ IH]; intros [|i]; cbn [concat drop Nat.mul]; try done.
  { by rewrite drop_nil. }
  rewrite drop_app_ge, Hc by lia. rewrite <- IH. f_equal. lia.
Qed.
Lemma concat_at cs i c : sized cs -> cs !! i = Some c -> take s (drop (i * s) (concat cs)) = c.
Proof.
  intros H Hi. rewrite concat_drop by done. rewrite (drop_S _ c) by done. cbn [concat].
  apply take_app_length'. by apply sized_lookup in Hi.
Qed.
Lemma concat_write cs i c : sized cs -> (i < length cs)%nat -> length c = s ->
  splice (concat cs) (Z.of_nat s * Z.of_nat i) c = concat (<[i := c]> cs).
Proof.
  intros H Hi Hc. unfold splice. replace (Z.to_nat (Z.of_nat s * Z.of_nat i)) with (i * s)%nat by lia.
  replace (i * s + length c)%nat with (S i * s)%nat by lia.
  rewrite concat_take, concat_drop by done. rewrite insert_take_drop by done.
  by rewrite concat_app.
Qed.

Lemma symbols_at_list {E} cs i c : sized cs -> cs !! i = Some c ->
  symbols_at (E := E) (sym_list cs) (Z.of_nat i) = Ok c.
Proof.
  intros H Hi. apply expect_Ok, get_range_Some. cbn [sym_list sy_data sy_symbol_size].
  pose proof (lookup_lt_Some _ _ _ Hi). rewrite concat_length by done. split_and!; [lia|lia|nia|].
  rewrite Nat2Z.id. replace (Z.to_nat (Z.of_nat s * Z.of_nat i)) with (i * s)%nat by lia.
  by rewrite (concat_at cs i c).
Qed.
Lemma symbols_write_list cs i c : sized cs -> (i < length cs)%nat -> length c = s ->
  symbols_write (sym_list cs) (Z.of_nat i) c = Ok (sym_list (<[i := c]> cs)).
Proof.
  intros H Hi Hc. destruct (lookup_lt_is_Some_2 _ _ Hi) as [d Hd]. unfold symbols_write, copy_from_slice.
  rewrite (symbols_at_list cs i d) by done. cbn [mbind outcome_bind].
  rewrite (sized_lookup cs i d), Hc by done. rewrite Z.eqb_refl. cbn [assert mbind outcome_bind].
  unfold sym_list. cbn [sy_data sy_symbol_size]. by rewrite concat_write.
Qed.
Lemma copy_symbol_list cs idx i c : sized cs -> (i < length cs)%nat -> length c = s ->
  copy_symbol_to {| sd_symbols := sym_list cs; sd_index := idx |} (Z.of_nat i) c
  = Ok {| sd_symbols := sym_list (<[i := c]> cs); sd_index := idx |}.
Proof.
  intros H Hi Hc. unfold copy_symbol_to. cbn [sd_symbols sd_index sy_symbol_size sym_list].
  rewrite Hc, Z.eqb_refl. cbn [assert mbind outcome_bind]. by rewrite symbols_write_list.
Qed.
Lemma to_symbols_list cs : (0 < s)%nat -> sized cs -> to_symbols (sym_list cs) = cs.
Proof. intros Hs H. unfold to_symbols. cbn. rewrite Nat2Z.id. by apply chunks_concat. Qed.
Lemma concat_zeros m : concat (replicate m zero_symbol) = replicate (m * s) 0.
Proof.
  induction m as [|m IH]; [done|]. cbn [replicate concat Nat.mul]. rewrite IH.
  unfold zero_symbol. by rewrite <- replicate_add.
Qed.
Lemma symbols_zeros_list m size : size = Z.of_nat m ->
  symbols_zeros size (Z.of_nat s) = sym_list (replicate m zero_symbol).
Proof.
  intros ->. unfold symbols_zeros, sym_list, zeros. rewrite concat_zeros. do 2 f_equal. lia.
Qed.

(** [k] symbols, the first [r] of which are final. *)
Definition upto (f : nat -> bytes) (r k : nat) : list bytes :=
  (fun i => if (i <? r)%nat then f i else zero_symbol) <$> seq 0 k.
Lemma upto_length f r k : length (upto f r k) = k.
Proof. unfold upto. by rewrite length_fmap, length_seq. Qed.
Lemma upto_0 f k : upto f 0 k = replicate k zero_symbol.
Proof.
  apply list_eq. intros i. unfold upto. rewrite list_lookup_fmap.
  destruct (decide (i < k)%nat); [rewrite lookup_seq_lt, lookup_replicate_2 by done; done|].
  rewrite !lookup_ge_None_2; rewrite ?length_seq, ?length_replicate; (done || lia).
Qed.
Lemma upto_full f r k : (k <= r)%nat -> upto f r k = f <$> seq 0 k.
Proof.
  intros H. unfold upto. apply list_fmap_ext. intros i x [-> Hi]%lookup_seq.
  by rewrite (proj2 (Nat.ltb_lt _ _)) by lia.
Qed.
Lemma upto_S f r k : (r < k)%nat -> <[r := f r]> (upto f r k) = upto f (S r) k.
Proof.
  intros H. apply list_eq. intros i. destruct (decide (i = r)) as [->|Hne].
  - rewrite list_lookup_insert_eq by (by rewrite upto_length). unfold upto.
    rewrite list_lookup_fmap, lookup_seq_lt by done. cbn [fmap option_fmap option_map Nat.add].
    by rewrite (proj2 (Nat.ltb_lt _ _)) by lia.
  - rewrite list_lookup_insert_ne by done. unfold upto. rewrite !list_lookup_fmap.
    destruct (seq 0 k !! i) as [j|] eqn:Hj; [|done]. apply lookup_seq in Hj as [-> _].
    cbn [fmap option_fmap option_map Nat.add]. f_equal.
    destruct (Nat.ltb_spec i r), (Nat.ltb_spec i (S r)); (done || lia).
Qed.
Lemma upto_sized f r k : (forall i, (i < r)%nat -> (i < k)%nat -> length (f i) = s) -> sized (upto f r k).
Proof.
  intros H. apply Forall_fmap, Forall_forall. intros i [_ Hi]%elem_of_seq. cbv beta.
  unfold compose. destruct (Nat.ltb_spec i r); [apply H; lia|apply length_replicate].
Qed.
End SymbolList.

(** ** The matrix *)

Section Matrix.
Context `{HC : Crypto} `{R : ReedSolomon} {RL : ReedSolomonLaws R}.
(** Rows and columns of the message matrix, shards, bytes of a symbol. *)
Context (k1 k2 n s : nat) (blob : bytes).
Local Notation m1 := (Z.of_nat k1).
Local Notation m2 := (Z.of_nat k2).
Local Notation mn := (Z.of_nat n).
Local Notation ms := (Z.of_nat s).

Definition config : ReedSolomonEncodingConfig :=
  {| source_symbols_primary := m1; source_symbols_secondary := m2; rs_n_shards := mn |}.
Definition encoder : BlobEncoder :=
  {| be_blob := blob; be_symbol_size := ms; be_n_rows := m1; be_n_columns := m2; be_config := config |}.
Definition codec (k : nat) : ReedSolomonEncoder :=
  {| en_n_source_symbols := Z.of_nat k; en_n_shards := mn; en_symbol_size := ms |}.

Definition sym (r c : nat) : bytes := pad_to s (drop ((k2 * r + c) * s) blob).
Definition source_row (r : nat) : list bytes := sym r <$> seq 0 k2.
Definition full_row (r : nat) : list bytes := codeword m2 mn (source_row r).
Definition column (c : nat) : list bytes := (fun r => full_row r !!! c) <$> seq 0 k1.
Definition cell (r c : nat) : bytes := codeword m1 mn (column c) !!! r.
Definition matrix_hashes : list Node :=
  (fun i => leaf_hash (cell (i / n) (i mod n))) <$> seq 0 (n * n).
Definition committed_metadata : BlobMetadataWithId :=
  new_verified_from_metadata (sliver_pair_metadata n matrix_hashes <$> seq 0 n) RS2 (zlen blob).
(** The sliver pairs: rows cut after [k2] symbols, columns after [k1]. *)
Definition primary_sliver (r : nat) : SliverData :=
  {| sd_symbols := sym_list s (cell r <$> seq 0 k2); sd_index := Z.of_nat r |}.
Definition secondary_sliver (c : nat) : SliverData :=
  {| sd_symbols := sym_list s (column c); sd_index := Z.of_nat c |}.
Definition matrix_pairs : list SliverPair :=
  (fun i => {| pr_primary := primary_sliver i; pr_secondary := secondary_sliver (n - 1 - i) |}) <$> seq 0 n.

(** What the encoders need of the parameters; the codec supports both axes. *)
Record Supported : Prop := {
  sp_rows : (1 <= k1 <= n)%nat;
  sp_columns : (1 <= k2 <= n)%nat;
  sp_shards : mn < 65536;
  sp_size : 2 <= ms < 65536 /\ ms `mod` 2 = 0;
  sp_primary_code : rs_new m1 (mn - m1) ms = Ok tt;
  sp_secondary_code : rs_new m2 (mn - m2) ms = Ok tt;
  sp_blob : (length blob <= k1 * k2 * s)%nat;
}.
Context (HS : Supported).

Lemma s_pos : (0 < s)%nat.
Proof. destruct HS as [_ _ _ [Hs _] _ _ _]. lia. Qed.
Lemma codeword_sized k cs : (1 <= k <= n)%nat -> length cs = k -> sized s cs ->
  length (codeword (Z.of_nat k) mn cs) = n /\ sized s (codeword (Z.of_nat k) mn cs).
Proof.
  intros Hk Hl Hf. unfold codeword. rewrite length_app, rs_encode_count by lia.
  split; [lia|]. apply Forall_app. split; [done|]. apply rs_encode_size; [|done].
  intros ->. cbn in Hl. lia.
Qed.
Lemma sym_length r c : length (sym r c) = s.
Proof. apply pad_to_length. Qed.
Lemma source_row_sized r : length (source_row r) = k2 /\ sized s (source_row r).
Proof.
  unfold source_row. rewrite length_fmap, length_seq. split; [done|].
  apply Forall_fmap, Forall_true. intros c. apply sym_length.
Qed.
Lemma full_row_sized r : length (full_row r) = n /\ sized s (full_row r).
Proof. destruct HS. destruct (source_row_sized r). by apply codeword_sized. Qed.
Lemma full_row_lookup r c : (c < n)%nat -> full_row r !! c = Some (full_row r !!! c).
Proof. intros Hc. apply list_lookup_lookup_total_lt. by rewrite (proj1 (full_row_sized r)). Qed.
Lemma full_row_symbol r c : (c < n)%nat -> length (full_row r !!! c) = s.
Proof. intros Hc. eapply sized_lookup; [apply (full_row_sized r)|by apply full_row_lookup]. Qed.
Lemma column_sized c : (c < n)%nat -> length (column c) = k1 /\ sized s (column c).
Proof.
  intros Hc. unfold column. rewrite length_fmap, length_seq. split; [done|].
  apply Forall_fmap, Forall_true. intros r. by apply full_row_symbol.
Qed.
Lemma full_column_sized c : (c < n)%nat ->
  length (codeword m1 mn (column c)) = n /\ sized s (codeword m1 mn (column c)).
Proof. intros Hc. destruct HS. destruct (column_sized c Hc). by apply codeword_sized. Qed.
Lemma full_column c : (c < n)%nat -> codeword m1 mn (column c) = (fun r => cell r c) <$> seq 0 n.
Proof.
  intros Hc. apply list_eq. intros r. rewrite list_lookup_fmap. destruct (decide (r < n)%nat).
  - rewrite lookup_seq_lt by done. apply list_lookup_lookup_total_lt. by rewrite (proj1 (full_column_sized c Hc)).
  - rewrite !lookup_ge_None_2; rewrite ?length_seq, ?(proj1 (full_column_sized c Hc)); (done || lia).
Qed.
Lemma cell_symbol r c : (r < n)%nat -> (c < n)%nat -> length (cell r c) = s.
Proof.
  intros Hr Hc. eapply sized_lookup; [apply (full_column_sized c Hc)|].
  rewrite full_column by done. by rewrite list_lookup_fmap, lookup_seq_lt.
Qed.
Lemma cell_row r c : (r < k1)%nat -> (c < n)%nat -> cell r c = full_row r !!! c.
Proof.
  intros Hr Hc. unfold cell, codeword. rewrite lookup_total_app_l by (rewrite (proj1 (column_sized c Hc)); done).
  apply list_lookup_total_correct. unfold column. by rewrite list_lookup_fmap, lookup_seq_lt.
Qed.
(** The systematic part is the blob. *)
Lemma cell_source r c : (r < k1)%nat -> (c < k2)%nat -> cell r c = sym r c.
Proof.
  intros Hr Hc. assert (k2 <= n)%nat by (destruct HS; lia). rewrite cell_row by lia.
  apply list_lookup_total_correct. unfold full_row, codeword.
  rewrite lookup_app_l by (rewrite (proj1 (source_row_sized r)); done).
  unfold source_row. by rewrite list_lookup_fmap, lookup_seq_lt.
Qed.
Lemma row_bytes r : concat (source_row r) = pad_to (k2 * s) (drop (r * (k2 * s)) blob).
Proof.
  rewrite <- concat_pad_to. f_equal. unfold source_row. apply list_fmap_ext. intros i c _.
  unfold sym. rewrite drop_drop. do 2 f_equal. lia.
Qed.
Lemma codec_encode k cs : (1 <= k <= n)%nat -> length cs = k -> sized s cs ->
  encode (codec k) (concat cs) = Ok (rs_encode (mn - Z.of_nat k) cs).
Proof.
  intros Hk Hl Hf. pose proof s_pos. rewrite <- (chunks_concat s cs) at 2 by done.
  destruct HS as [_ _ _ Hs _ _ _].
  rewrite (encode_ok (Z.of_nat k) mn ms); [by rewrite Nat2Z.id|lia|lia|].
  rewrite (concat_length s) by done. lia.
Qed.
Lemma codec_encode_all k cs : (1 <= k <= n)%nat -> length cs = k -> sized s cs ->
  encode_all (codec k) (concat cs) = Ok (sym_list s (codeword (Z.of_nat k) mn cs)).
Proof.
  intros Hk Hl Hf. pose proof s_pos. rewrite <- (chunks_concat s cs) at 2 by done.
  destruct HS as [_ _ _ Hs _ _ _].
  rewrite (encode_all_ok (Z.of_nat k) mn ms); [by rewrite Nat2Z.id|lia|lia|].
  rewrite (concat_length s) by done. lia.
Qed.
Lemma encoder_codec e : be_get_encoder encoder e
  = Ok (codec (match e with Primary => k1 | Secondary => k2 end)).
Proof.
  destruct HS as [Hk1 Hk2 Hn [Hs Heven] H1 H2 _]. unfold be_get_encoder, sliver_length.
  cbn [be_config be_symbol_size encoder].
  destruct e; cbn [OrthogonalAxis]; erewrite get_encoder_ok; cbn; (done || lia).
Qed.

(** ** The loops of the encoders *)

Lemma seq_split : seq 0 n = seq 0 k2 ++ seq k2 (n - k2).
Proof. destruct HS. transitivity (seq 0 (k2 + (n - k2))); [f_equal; lia|apply seq_app]. Qed.
Lemma recovery_row r : rs_encode (mn - m2) (source_row r)
  = (fun c => full_row r !!! c) <$> seq k2 (n - k2).
Proof.
  destruct HS. destruct (full_row_sized r) as [Hl _]. destruct (source_row_sized r) as [Hs _].
  apply list_eq. intros i. rewrite list_lookup_fmap.
  assert (rs_encode (mn - m2) (source_row r) !! i = full_row r !! (k2 + i)%nat) as ->
    by (unfold full_row, codeword; rewrite lookup_app_r, Hs by lia; f_equal; lia).
  destruct (decide (i < n - k2)%nat).
  - rewrite lookup_seq_lt by done. apply full_row_lookup. lia.
  - rewrite !lookup_ge_None_2; rewrite ?length_seq, ?Hl; (done || lia).
Qed.
Lemma blob_slice_eq a m : blob_slice encoder (Z.of_nat a) (Z.of_nat m) = take m (drop a blob).
Proof.
  unfold blob_slice. cbn [be_blob encoder]. destruct (decide (a <= length blob)%nat).
  - rewrite (Z.min_l (Z.of_nat a)), Nat2Z.id by lia. destruct (decide (a + m <= length blob)%nat).
    + f_equal. lia.
    + rewrite !take_ge; rewrite ?length_drop; (done || lia).
  - rewrite !drop_ge by lia. by rewrite !take_nil.
Qed.
Lemma symbol_at_eq r c : symbol_at encoder r c = take s (drop ((k2 * r + c) * s) blob).
Proof.
  unfold symbol_at. cbn [be_symbol_size be_n_columns encoder]. rewrite <- blob_slice_eq. f_equal. lia.
Qed.
Lemma column_systematic c : (c < k2)%nat -> column c = (fun r => sym r c) <$> seq 0 k1.
Proof.
  intros Hc. destruct HS. apply list_fmap_ext. intros i r [-> Hr]%lookup_seq. rewrite <- cell_row by lia.
  by apply cell_source.
Qed.
Lemma row_systematic r : (r < k1)%nat -> cell r <$> seq 0 k2 = source_row r.
Proof.
  intros Hr. apply list_fmap_ext. intros i c [-> Hc]%lookup_seq. by apply cell_source.
Qed.
Lemma zero_data m : sy_data (symbols_zeros (Z.of_nat m) ms) = replicate (m * s) 0.
Proof. unfold symbols_zeros, zeros. cbn. f_equal. lia. Qed.

(** A column of the blob is written over zeros. *)
Lemma write_column c : (c < k2)%nat ->
  write_symbols (sym_list s (replicate k1 (zero_symbol s))) ((fun r => symbol_at encoder r c) <$> seq 0 k1)
  = Ok (sym_list s (column c)).
Proof.
  intros Hc. pose proof s_pos. unfold write_symbols. rewrite to_symbols_list by (done || apply sized_zeros).
  rewrite column_systematic by done. erewrite zip_update_spec; [reflexivity| |].
  - by rewrite length_replicate, length_fmap, length_seq.
  - intros i y z [-> Hi]%lookup_replicate Hz. rewrite list_lookup_fmap in Hz |- *.
    rewrite lookup_seq_lt in Hz |- * by done. injection Hz as <-. cbn [fmap option_fmap option_map].
    rewrite symbol_at_eq. unfold zero_symbol. rewrite overwrite_zeros by (rewrite length_take; lia).
    by rewrite pad_to_take.
Qed.
(** A row of the blob, the last one perhaps short, or missing. *)
Lemma blob_rows_lookup r : match blob_rows encoder !! r with
  | Some row => (length row <= k2 * s)%nat /\ pad_to (k2 * s) row = concat (source_row r)
  | None => concat (source_row r) = replicate (k2 * s) 0 end.
Proof.
  pose proof s_pos. destruct HS. unfold blob_rows. cbn [be_n_columns be_symbol_size be_blob encoder].
  replace (Z.to_nat (m2 * ms)) with (k2 * s)%nat by lia. rewrite row_bytes.
  destruct (chunks _ _ !! r) as [row|] eqn:Hrow.
  - apply chunks_lookup in Hrow as [-> _]; [|nia]. rewrite length_take. split; [lia|]. apply pad_to_take.
  - apply chunks_lookup_None in Hrow; [|nia]. rewrite drop_ge by lia. apply pad_to_nil.
Qed.
Lemma fill_rows_ok : fill_rows encoder (empty_slivers_range encoder Primary 0 k1)
  = Ok (primary_sliver <$> seq 0 k1).
Proof.
  unfold fill_rows, empty_slivers_range. rewrite Nat.sub_0_r.
  apply zip_update_spec; [by rewrite !length_fmap|]. intros r y z.
  rewrite !list_lookup_fmap. destruct (seq 0 k1 !! r) as [r'|] eqn:Hr; [|done].
  apply lookup_seq in Hr as [-> Hr]. cbn [fmap option_fmap option_map Nat.add]. intros [= <-] [= <-].
  unfold primary_sliver, empty_sliver, sliver_new_empty. rewrite row_systematic by done.
  cbn [sd_symbols sd_index n_source_symbols OrthogonalAxis be_config config source_symbols_secondary encoder
    be_symbol_size]. rewrite zero_data. pose proof (blob_rows_lookup r) as Hrow.
  destruct (blob_rows encoder !! r) as [row|].
  - destruct Hrow as [Hl Hp]. rewrite overwrite_zeros by done. cbn [mbind outcome_bind]. by rewrite Hp.
  - f_equal. unfold symbols_zeros, sym_list. rewrite Hrow. f_equal. unfold zeros. f_equal. lia.
Qed.

(** A recovery sliver when the first [r] rows have been encoded. *)
Definition rec_sliver (idx : Z) (r c : nat) : SliverData :=
  {| sd_symbols := sym_list s (upto s (fun r' => full_row r' !!! c) r k1); sd_index := idx |}.
Definition rec_slivers (idx : nat -> Z) (r : nat) : list SliverData :=
  (fun c => rec_sliver (idx c) r c) <$> seq k2 (n - k2).
Lemma rec_sliver_full idx c : rec_sliver idx k1 c = {| sd_symbols := sym_list s (column c); sd_index := idx |}.
Proof. unfold rec_sliver. by rewrite upto_full by lia. Qed.
Lemma empty_secondary idx c : empty_sliver encoder Secondary idx = rec_sliver idx 0 c.
Proof.
  pose proof s_pos. unfold empty_sliver, sliver_new_empty, rec_sliver.
  cbn [n_source_symbols OrthogonalAxis be_config config source_symbols_primary encoder be_symbol_size].
  by rewrite (symbols_zeros_list s k1), upto_0.
Qed.
Lemma fill_columns_ok : fill_columns encoder (empty_slivers_range encoder Secondary 0 n)
  = Ok ((secondary_sliver <$> seq 0 k2) ++ rec_slivers Z.of_nat 0).
Proof.
  assert ((secondary_sliver <$> seq 0 k2) ++ rec_slivers Z.of_nat 0
    = (fun c => if (c <? k2)%nat then secondary_sliver c else rec_sliver (Z.of_nat c) 0 c) <$> seq 0 n) as ->.
  { rewrite seq_split, fmap_app. f_equal; apply list_fmap_ext; intros i c [-> Hc]%lookup_seq;
      destruct (Nat.ltb_spec (0 + i) k2), (Nat.ltb_spec (k2 + i) k2); (done || lia). }
  unfold fill_columns, empty_slivers_range. rewrite Nat.sub_0_r.
  apply zip_update_spec; [by rewrite !length_fmap|]. intros c y z. rewrite !list_lookup_fmap.
  destruct (seq 0 n !! c) as [c'|] eqn:Hc; [|done]. apply lookup_seq in Hc as [-> Hc].
  cbn [fmap option_fmap option_map Nat.add]. intros [= <-] [= <-]. rewrite (empty_secondary (Z.of_nat c) c).
  unfold column_symbols. cbn [be_n_columns be_n_rows encoder]. rewrite !Nat2Z.id, list_lookup_fmap.
  destruct (Nat.ltb_spec c k2).
  - rewrite lookup_seq_lt by done. cbn [fmap option_fmap option_map Nat.add rec_sliver sd_symbols sd_index].
    by rewrite upto_0, write_column.
  - by rewrite lookup_ge_None_2 by (rewrite length_seq; lia).
Qed.
Lemma encode_row_ok idx pre r : (r < k1)%nat ->
  encode_row (codec k2) (length pre) r (concat (source_row r)) (pre ++ rec_slivers idx r)
  = Ok (pre ++ rec_slivers idx (S r)).
Proof.
  intros Hr. pose proof s_pos. unfold encode_row. destruct (source_row_sized r) as [Hl Hsz].
  rewrite codec_encode by (done || destruct HS; lia). cbn [unwrap mbind outcome_bind].
  rewrite recovery_row. apply zip_update_skip_fmap. intros c [_ Hc]%elem_of_seq.
  assert (forall i, (i < k1)%nat -> length (full_row i !!! c) = s)
    by (intros i _; apply full_row_symbol; destruct HS; lia).
  unfold rec_sliver. rewrite copy_symbol_list, (upto_S s (fun r' => full_row r' !!! c)); try done.
  - apply upto_sized. auto with lia.
  - by rewrite upto_length.
  - auto.
Qed.

(** The hashes when the first [c] columns, and [r] symbols of the next one, are
    stored. *)
Definition hashes_at (c r : nat) : list Node :=
  (fun i => if ((i mod n <? c) || ((i mod n =? c) && (i / n <? r)))%nat
    then leaf_hash (cell (i / n) (i mod n)) else Empty) <$> seq 0 (n * n).
Lemma hashes_length c r : length (hashes_at c r) = (n * n)%nat.
Proof. unfold hashes_at. by rewrite length_fmap, length_seq. Qed.
Lemma hashes_none : hashes_at 0 0 = replicate (n * n) Empty.
Proof.
  apply list_eq. intros i. unfold hashes_at. rewrite list_lookup_fmap.
  destruct (decide (i < n * n)%nat).
  - rewrite lookup_seq_lt, lookup_replicate_2 by done. cbn [fmap option_fmap option_map].
    destruct (Nat.ltb_spec ((0 + i) mod n) 0), (Nat.ltb_spec ((0 + i) / n) 0); try lia.
    by rewrite andb_false_r.
  - by rewrite !lookup_ge_None_2; rewrite ?length_seq, ?length_replicate; try lia.
Qed.
Lemma hashes_ext c r c' r' :
  (forall i, (i < n * n)%nat -> ((i mod n <? c) || ((i mod n =? c) && (i / n <? r)))%nat
    = ((i mod n <? c') || ((i mod n =? c') && (i / n <? r')))%nat) ->
  hashes_at c r = hashes_at c' r'.
Proof. intros H. apply list_fmap_ext. intros i j [-> Hi]%lookup_seq. by rewrite H. Qed.
Lemma hashes_next c : hashes_at c n = hashes_at (S c) 0.
Proof.
  assert (0 < n)%nat by (destruct HS; lia). apply hashes_ext. intros i Hi.
  assert (i / n < n)%nat by (by apply Nat.Div0.div_lt_upper_bound).
  destruct (Nat.ltb_spec (i / n) n), (Nat.ltb_spec (i / n) 0), (Nat.ltb_spec (i mod n) c),
    (Nat.ltb_spec (i mod n) (S c)), (Nat.eqb_spec (i mod n) c), (Nat.eqb_spec (i mod n) (S c)); cbn; (done || lia).
Qed.
Lemma hashes_all : hashes_at n 0 = matrix_hashes.
Proof.
  assert (0 < n)%nat by (destruct HS; lia). apply list_fmap_ext. intros i j [-> Hi]%lookup_seq.
  pose proof (Nat.mod_upper_bound (0 + i) n ltac:(lia)). by rewrite (proj2 (Nat.ltb_lt _ _)).
Qed.
Lemma set_hash_ok c r : (c < n)%nat -> (r < n)%nat ->
  set_hash (hashes_at c r) (n * r + c) (leaf_hash (cell r c)) = Ok (hashes_at c (S r)).
Proof.
  intros Hc Hr. unfold set_hash. rewrite hashes_length, (proj2 (Nat.ltb_lt _ _)) by nia.
  cbn [assert mbind outcome_bind]. f_equal. apply list_eq. intros i.
  destruct (decide (i = n * r + c)%nat) as [->|Hne].
  - rewrite list_lookup_insert_eq by (rewrite hashes_length; nia).
    unfold hashes_at. rewrite list_lookup_fmap, lookup_seq_lt by nia. cbn [fmap option_fmap option_map Nat.add].
    rewrite <- (Nat.div_unique (n * r + c) n r c), <- (Nat.mod_unique (n * r + c) n r c) by lia.
    rewrite Nat.eqb_refl, (proj2 (Nat.ltb_lt r (S r))) by lia. by rewrite orb_true_r.
  - rewrite list_lookup_insert_ne by done. unfold hashes_at. rewrite !list_lookup_fmap.
    destruct (seq 0 (n * n) !! i) as [j|] eqn:Hj; [|done]. apply lookup_seq in Hj as [-> Hi].
    cbn [fmap option_fmap option_map Nat.add]. f_equal.
    pose proof (Nat.div_mod_eq i n).
    destruct (Nat.eqb_spec (i mod n) c), (Nat.ltb_spec (i / n) r), (Nat.ltb_spec (i / n) (S r)); try (done || lia).
    assert (i / n = r)%nat as Hd by lia. rewrite Hd in *. lia.
Qed.
Lemma store_column_ok c : (c < n)%nat ->
  store_column encoder c (hashes_at c 0) ((fun r => cell r c) <$> seq 0 n) = Ok (hashes_at (S c) 0).
Proof.
  intros Hc. unfold store_column. cbn [be_config encoder config rs_n_shards]. rewrite Nat2Z.id.
  rewrite (ofold_enum (hashes_at c)).
  - by rewrite length_fmap, length_seq, hashes_next.
  - intros r x Hr. rewrite list_lookup_fmap in Hr. destruct (seq 0 n !! r) as [j|] eqn:Hj; [|done].
    apply lookup_seq in Hj as [-> Hlt]. injection Hr as <-. by apply set_hash_ok.
Qed.

Lemma encoded_column c : (c < n)%nat ->
  encode_all (codec k1) (concat (column c)) = Ok (sym_list s ((fun r => cell r c) <$> seq 0 n)).
Proof.
  intros Hc. destruct (column_sized c Hc). rewrite codec_encode_all by (done || destruct HS; lia).
  by rewrite full_column.
Qed.
Lemma column_symbols_sized c : (c < n)%nat -> sized s ((fun r => cell r c) <$> seq 0 n).
Proof.
  intros Hc. apply Forall_fmap, Forall_forall. intros r [_ Hr]%elem_of_seq. by apply cell_symbol.
Qed.
Lemma hash_column_ok c : (c < n)%nat ->
  hash_column encoder (codec k1) c (concat (column c)) (hashes_at c 0) = Ok (hashes_at (S c) 0).
Proof.
  intros Hc. unfold hash_column. rewrite encoded_column by done. cbn [unwrap mbind outcome_bind].
  rewrite to_symbols_list by (apply s_pos || by apply column_symbols_sized). by apply store_column_ok.
Qed.
Lemma matrix_hashes_length : length matrix_hashes = (n * n)%nat.
Proof. unfold matrix_hashes. by rewrite length_fmap, length_seq. Qed.
Lemma metadata_from_hashes :
  compute_metadata_from_symbol_hashes encoder matrix_hashes (zlen blob) = Ok committed_metadata.
Proof.
  unfold compute_metadata_from_symbol_hashes. cbn [be_config encoder config rs_n_shards]. rewrite Nat2Z.id.
  by rewrite matrix_hashes_length, Nat.eqb_refl.
Qed.
Lemma row_data_ok buffer r : length buffer = (k2 * s)%nat -> (r < k1)%nat ->
  exists buffer', row_data encoder buffer (take (k2 * s) (drop (r * (k2 * s)) blob))
    = Ok (buffer', concat (source_row r)) /\ length buffer' = (k2 * s)%nat.
Proof.
  intros Hb Hr. rewrite row_bytes, <- pad_to_take. set (row := take _ _).
  assert (length row <= k2 * s)%nat as Hl by (unfold row; rewrite length_take; lia).
  unfold row_data. cbn [be_symbol_size be_n_columns encoder].
  destruct (Z.ltb_spec (zlen row) (ms * m2)) as [Hlt|Hge].
  - set (cleared := splice buffer (zlen row) (zeros (ms * m2 - zlen row))).
    assert (length cleared = (k2 * s)%nat) as Hcl.
    { unfold cleared. rewrite splice_length; [done|lia|]. rewrite zeros_length. lia. }
    assert (overwrite cleared row = Ok (pad_to (k2 * s) row)) as ->; [|eexists; split; [reflexivity|apply pad_to_length]].
    unfold overwrite. rewrite (proj2 (get_range_Some cleared 0 (zlen row) (take (length row) cleared)))
      by (split_and!; [lia..|by rewrite Nat2Z.id]).
    cbn [expect mbind outcome_bind]. f_equal. unfold splice at 1. change (Z.to_nat 0) with 0%nat.
    rewrite take_0, app_nil_l. unfold pad_to. rewrite take_app_ge by done. f_equal.
    unfold cleared, splice. rewrite Nat2Z.id, Nat.add_0_l, drop_app_ge by (rewrite length_take; lia).
    rewrite length_take, Nat.min_l, Nat.sub_diag, drop_0 by lia. rewrite (drop_ge buffer) by (rewrite zeros_length; lia).
    rewrite app_nil_r. unfold zeros. rewrite take_replicate. f_equal. lia.
  - eexists. split; [|exact Hb]. by rewrite pad_to_eq by lia.
Qed.

Lemma rows_all_lookup r row : imap pair (rows_all encoder) !! r = Some row ->
  (r < k1)%nat /\ row = (r, take (k2 * s) (drop (r * (k2 * s)) blob)).
Proof.
  rewrite list_lookup_imap. unfold rows_all. cbn [be_n_rows encoder]. rewrite Nat2Z.id, list_lookup_fmap.
  destruct (seq 0 k1 !! r) as [j|] eqn:Hj; [|done]. apply lookup_seq in Hj as [-> Hlt].
  cbn [fmap option_fmap option_map Nat.add be_symbol_size be_n_columns encoder]. intros [= <-]. split; [done|].
  f_equal. rewrite <- blob_slice_eq. f_equal; lia.
Qed.
Lemma encode_rows_all_ok buffer : length buffer = (k2 * s)%nat ->
  exists buffer', encode_rows_all encoder (codec k2) (buffer, rec_slivers (fun _ => 0) 0)
    = Ok (buffer', rec_slivers (fun _ => 0) k1).
Proof.
  intros Hb. unfold encode_rows_all. loop_with (fun r (st : bytes * list SliverData) =>
    length st.1 = (k2 * s)%nat /\ st.2 = rec_slivers (fun _ => 0) r) as ([buffer' secs] & -> & _ & Hsecs).
  { by split. }
  - intros r row [b secs] [Hr ->]%rows_all_lookup [Hlen Hsec]. cbn [fst snd] in Hlen, Hsec. subst secs.
    destruct (row_data_ok b r Hlen Hr) as (b' & -> & Hb'). cbn [mbind outcome_bind].
    pose proof (encode_row_ok (fun _ => 0) [] r Hr) as Hrow. cbn [length app] in Hrow. rewrite Hrow.
    cbn [mbind outcome_bind]. eexists. split; [reflexivity|]. by split.
  - cbn [snd] in Hsecs. rewrite length_imap in Hsecs. unfold rows_all in Hsecs. cbn [be_n_rows encoder] in Hsecs.
    rewrite length_fmap, length_seq, Nat2Z.id in Hsecs. exists buffer'. by rewrite Hsecs.
Qed.
Lemma column_symbols_lookup c column' : imap pair (column_symbols encoder) !! c = Some column' ->
  (c < k2)%nat /\ column' = (c, (fun r => symbol_at encoder r c) <$> seq 0 k1).
Proof.
  rewrite list_lookup_imap. unfold column_symbols. cbn [be_n_rows be_n_columns encoder].
  rewrite !Nat2Z.id, list_lookup_fmap. destruct (seq 0 k2 !! c) as [j|] eqn:Hj; [|done].
  apply lookup_seq in Hj as [-> Hlt]. by intros [= <-].
Qed.
Lemma hash_systematic_ok buffer : sy_symbol_size buffer = ms -> length (sy_data buffer) = (k1 * s)%nat ->
  exists buffer', hash_systematic encoder (codec k1) (buffer, hashes_at 0 0) = Ok (buffer', hashes_at k2 0).
Proof.
  intros Hs0 Hb. unfold hash_systematic. loop_with (fun c (st : Symbols * list Node) => sy_symbol_size st.1 = ms /\
    length (sy_data st.1) = (k1 * s)%nat /\ st.2 = hashes_at c 0) as ([buffer' hs] & -> & _ & _ & Hhs).
  { by split_and!. }
  - intros c col [b hs] [Hc ->]%column_symbols_lookup (Hsz & Hlen & Hh). cbn [fst snd] in Hsz, Hlen, Hh. subst hs.
    unfold column_buffer. rewrite Hsz, Hlen.
    replace {| sy_data := zeros (Z.of_nat (k1 * s)); sy_symbol_size := ms |}
      with (sym_list s (replicate k1 (zero_symbol s)))
      by (unfold sym_list, zeros; rewrite concat_zeros; do 2 f_equal; lia).
    rewrite write_column by done. cbn [mbind outcome_bind sy_data sym_list].
    assert (c < n)%nat as Hcn by (destruct HS; lia). rewrite hash_column_ok by done. cbn [mbind outcome_bind].
    eexists. split; [reflexivity|]. split_and!; [done| |done]. cbn [fst sy_data sym_list].
    destruct (column_sized c Hcn) as [Hl Hf]. by rewrite (concat_length s), Hl.
  - cbn [snd] in Hhs. rewrite length_imap in Hhs. unfold column_symbols in Hhs. cbn [be_n_columns encoder] in Hhs.
    rewrite length_fmap, length_seq, Nat2Z.id in Hhs. exists buffer'. by rewrite Hhs.
Qed.
Lemma rec_slivers_lookup idx c x : rec_slivers idx k1 !! c = Some x ->
  (k2 + c < n)%nat /\ x = {| sd_symbols := sym_list s (column (k2 + c)); sd_index := idx (k2 + c)%nat |}.
Proof.
  unfold rec_slivers. rewrite list_lookup_fmap. destruct (seq k2 (n - k2) !! c) as [j|] eqn:Hj; [|done].
  apply lookup_seq in Hj as [-> Hlt]. cbn [fmap option_fmap option_map]. rewrite rec_sliver_full.
  intros [= <-]. split; [lia|done].
Qed.
Lemma hash_non_systematic_ok idx :
  hash_non_systematic encoder (codec k1) (rec_slivers idx k1) (hashes_at k2 0) = Ok matrix_hashes.
Proof.
  unfold hash_non_systematic. rewrite <- hashes_all. cbn [be_n_columns encoder]. rewrite Nat2Z.id.
  replace (hashes_at k2 0) with (hashes_at (k2 + 0) 0) by (f_equal; lia).
  rewrite (ofold_enum (fun c => hashes_at (k2 + c) 0)).
  - unfold rec_slivers. rewrite length_fmap, length_seq. do 2 f_equal. destruct HS. lia.
  - intros c x [Hc ->]%rec_slivers_lookup. cbn [sd_symbols sy_data sym_list].
    rewrite Nat.add_comm, hash_column_ok by done. do 2 f_equal. lia.
Qed.
Lemma compute_metadata_ok : compute_metadata_with_symbol_hashes encoder = Ok (committed_metadata, matrix_hashes).
Proof.
  pose proof HS as [Hk1 Hk2 _ _ _ _ _]. unfold compute_metadata_with_symbol_hashes.
  rewrite !encoder_codec. cbn [be_config be_n_columns be_n_rows be_blob be_symbol_size rs_n_shards config encoder mbind outcome_bind].
  rewrite !Nat2Z.id.
  assert (replicate (n - k2) (empty_sliver encoder Secondary 0) = rec_slivers (fun _ => 0) 0) as ->.
  { apply list_eq. intros i. unfold rec_slivers. rewrite list_lookup_fmap. destruct (decide (i < n - k2)%nat).
    - rewrite lookup_replicate_2, lookup_seq_lt by done. cbn. f_equal. apply empty_secondary.
    - by rewrite !lookup_ge_None_2; rewrite ?length_seq, ?length_replicate; try lia. }
  destruct (encode_rows_all_ok (sy_data (symbols_zeros m2 ms))) as [b1 ->];
    [rewrite zero_data; apply length_replicate|]. cbn [mbind outcome_bind].
  rewrite <- hashes_none. destruct (hash_systematic_ok (symbols_zeros m1 ms)) as [b2 ->];
    [done|rewrite zero_data; apply length_replicate|]. cbn [mbind outcome_bind].
  rewrite hash_non_systematic_ok. cbn [mbind outcome_bind]. by rewrite metadata_from_hashes.
Qed.

(** ** [encode_with_metadata] *)

Lemma seq_split_rows : seq 0 n = seq 0 k1 ++ seq k1 (n - k1).
Proof. destruct HS. transitivity (seq 0 (k1 + (n - k1))); [f_equal; lia|apply seq_app]. Qed.
Lemma primary_rows_lookup r x : imap pair (primary_sliver <$> seq 0 k1) !! r = Some x ->
  (r < k1)%nat /\ x = (r, {| sd_symbols := sym_list s (source_row r); sd_index := Z.of_nat r |}).
Proof.
  rewrite list_lookup_imap, list_lookup_fmap. destruct (seq 0 k1 !! r) as [j|] eqn:Hj; [|done].
  apply lookup_seq in Hj as [-> Hlt]. intros [= <-]. split; [done|]. unfold primary_sliver.
  by rewrite row_systematic.
Qed.
Lemma encode_rows_ok :
  encode_rows encoder (codec k2) (primary_sliver <$> seq 0 k1)
    ((secondary_sliver <$> seq 0 k2) ++ rec_slivers Z.of_nat 0)
  = Ok (secondary_sliver <$> seq 0 n).
Proof.
  unfold encode_rows. cbn [be_n_rows be_n_columns encoder]. rewrite !Nat2Z.id.
  rewrite take_ge by (by rewrite length_fmap, length_seq).
  set (sys := secondary_sliver <$> seq 0 k2). assert (length sys = k2) as Hsys
    by (unfold sys; by rewrite length_fmap, length_seq).
  loop_with (fun r st => st = sys ++ rec_slivers Z.of_nat r) as (b & -> & ->); [done| |].
  - intros r x b [Hr ->]%primary_rows_lookup ->. cbn [sd_symbols sy_data sym_list].
    pose proof (encode_row_ok Z.of_nat sys r Hr) as Hrow. rewrite Hsys in Hrow. rewrite Hrow. by eexists.
  - rewrite length_imap, length_fmap, length_seq, seq_split, fmap_app. do 2 f_equal.
    apply list_fmap_ext. intros i c [-> Hc]%lookup_seq. by rewrite rec_sliver_full.
Qed.

(** The rows after the message matrix when [c] columns have been encoded. *)
Definition rec_rows (c : nat) : list SliverData :=
  (fun r => {| sd_symbols := sym_list s (upto s (cell r) c k2); sd_index := Z.of_nat r |})
  <$> seq k1 (n - k1).
Lemma empty_rec_rows : empty_slivers_range encoder Primary k1 n = rec_rows 0.
Proof.
  apply list_fmap_ext. intros i r _. unfold empty_sliver, sliver_new_empty.
  cbn [n_source_symbols OrthogonalAxis be_config config source_symbols_secondary encoder be_symbol_size].
  by rewrite (symbols_zeros_list s k2), upto_0.
Qed.
Lemma rec_rows_full c : (k2 <= c)%nat -> rec_rows c = primary_sliver <$> seq k1 (n - k1).
Proof. intros Hc. apply list_fmap_ext. intros i r _. by rewrite upto_full. Qed.
Lemma encode_column_ok c : (c < n)%nat ->
  encode_column encoder (codec k1) c (secondary_sliver c) (hashes_at c 0) ((primary_sliver <$> seq 0 k1) ++ rec_rows c)
  = Ok (hashes_at (S c) 0, (primary_sliver <$> seq 0 k1) ++ rec_rows (S c)).
Proof.
  intros Hc. pose proof s_pos. unfold encode_column. cbn [secondary_sliver sd_symbols sy_data sym_list].
  rewrite encoded_column by done. cbn [unwrap mbind outcome_bind].
  rewrite to_symbols_list by (done || by apply column_symbols_sized).
  rewrite store_column_ok by done. cbn [mbind outcome_bind be_n_columns be_n_rows encoder]. rewrite !Nat2Z.id.
  destruct (Nat.ltb_spec c k2).
  - assert (drop k1 ((fun r => cell r c) <$> seq 0 n) = (fun r => cell r c) <$> seq k1 (n - k1)) as ->.
    { rewrite seq_split_rows, fmap_app. apply drop_app_length'. by rewrite length_fmap, length_seq. }
    assert (length (primary_sliver <$> seq 0 k1) = k1) as Hl by (by rewrite length_fmap, length_seq).
    enough (zip_update_skip (length (primary_sliver <$> seq 0 k1))
      (fun sliver symbol => copy_symbol_to sliver (Z.of_nat c) symbol) ((fun r => cell r c) <$> seq k1 (n - k1))
      ((primary_sliver <$> seq 0 k1) ++ rec_rows c) = Ok ((primary_sliver <$> seq 0 k1) ++ rec_rows (S c))) as Hz
      by (rewrite Hl in Hz; by rewrite Hz).
    apply zip_update_skip_fmap.
    intros r [Hr Hrn]%elem_of_seq.
    assert (forall i, (i < n)%nat -> length (cell r i) = s) by (intros i Hi; apply cell_symbol; lia).
    assert (k2 <= n)%nat by (destruct HS; lia).
    rewrite copy_symbol_list, upto_S; try done; [|by rewrite upto_length|auto].
    apply upto_sized. intros i _ Hi. apply H1. lia.
  - cbn [mbind outcome_bind]. by rewrite !rec_rows_full by lia.
Qed.
Lemma encode_columns_ok :
  encode_columns encoder (codec k1) (secondary_sliver <$> seq 0 n)
    (hashes_at 0 0, (primary_sliver <$> seq 0 k1) ++ rec_rows 0)
  = Ok (matrix_hashes, primary_sliver <$> seq 0 n).
Proof.
  unfold encode_columns.
  rewrite (ofold_enum (fun c => (hashes_at c 0, (primary_sliver <$> seq 0 k1) ++ rec_rows c))).
  - rewrite length_fmap, length_seq, hashes_all, rec_rows_full by (destruct HS; lia).
    by rewrite seq_split_rows, fmap_app.
  - intros c x Hx. rewrite list_lookup_fmap in Hx. destruct (seq 0 n !! c) as [j|] eqn:Hj; [|done].
    apply lookup_seq in Hj as [-> Hlt]. injection Hx as <-. by apply encode_column_ok.
Qed.
Lemma pairs_ok : zip_with Build_SliverPair (primary_sliver <$> seq 0 n) (rev (secondary_sliver <$> seq 0 n))
  = matrix_pairs.
Proof.
  apply list_eq. intros i. unfold matrix_pairs. rewrite lookup_zip_with, !list_lookup_fmap.
  rewrite rev_alt. fold (reverse (secondary_sliver <$> seq 0 n)). destruct (decide (i < n)%nat).
  - rewrite reverse_lookup by (by rewrite length_fmap, length_seq).
    rewrite length_fmap, length_seq, list_lookup_fmap, !lookup_seq_lt by lia. cbn. do 3 f_equal. lia.
  - by rewrite (lookup_ge_None_2 (seq 0 n)) by (rewrite length_seq; lia).
Qed.
Lemma encode_with_metadata_ok : encode_with_metadata encoder = Ok (matrix_pairs, committed_metadata).
Proof.
  unfold encode_with_metadata. rewrite !encoder_codec.
  cbn [be_config be_n_columns be_n_rows be_blob rs_n_shards config encoder mbind outcome_bind].
  rewrite !Nat2Z.id, fill_rows_ok. cbn [mbind outcome_bind].
  rewrite fill_columns_ok. cbn [mbind outcome_bind]. rewrite encode_rows_ok. cbn [mbind outcome_bind].
  rewrite <- hashes_none, empty_rec_rows, encode_columns_ok. cbn [mbind outcome_bind].
  rewrite metadata_from_hashes. cbn [mbind outcome_bind]. by rewrite pairs_ok.
Qed.

(** ** [encode_with_metadata_legacy] *)

Definition row_at (c r : nat) : Symbols := sym_list s (upto s (fun c' => full_row r !!! c') c n).
(** The first [k1] rows are full; in the others [c] columns are, and one more in
    the first [j] of them. *)
Definition matrix_at (c j : nat) : list Symbols :=
  (fun r => sym_list s (upto s (cell r)
     (if (r <? k1)%nat then n else if (r <? k1 + j)%nat then S c else c) n)) <$> seq 0 n.

Lemma upto_systematic r : upto s (fun c => full_row r !!! c) k2 n
  = source_row r ++ replicate (n - k2) (zero_symbol s).
Proof.
  destruct HS. unfold upto. rewrite seq_split, fmap_app. f_equal.
  - apply list_fmap_ext. intros i c [-> Hc]%lookup_seq. rewrite (proj2 (Nat.ltb_lt _ _)) by lia.
    apply list_lookup_total_correct. unfold full_row, codeword.
    rewrite lookup_app_l by (rewrite (proj1 (source_row_sized r)); lia).
    unfold source_row. by rewrite list_lookup_fmap, lookup_seq_lt by lia.
  - apply list_eq. intros i. rewrite list_lookup_fmap. destruct (decide (i < n - k2)%nat).
    + rewrite lookup_seq_lt, lookup_replicate_2 by done. cbn [fmap option_fmap option_map].
      by rewrite (proj2 (Nat.ltb_ge _ _)) by lia.
    + by rewrite !lookup_ge_None_2; rewrite ?length_seq, ?length_replicate; try lia.
Qed.
Lemma pad_to_more a b d : (a <= b)%nat -> (length d <= a)%nat ->
  pad_to b d = pad_to a d ++ replicate (b - a) 0.
Proof.
  intros Hab Hd. unfold pad_to. rewrite !take_app_ge, !take_replicate by lia. rewrite <- app_assoc. f_equal.
  rewrite <- replicate_add. f_equal. lia.
Qed.
Lemma filled_row r : match blob_rows encoder !! r with
  | Some row => overwrite (replicate (n * s) 0) row = Ok (sy_data (row_at k2 r))
  | None => sy_data (row_at k2 r) = replicate (n * s) 0 end.
Proof.
  unfold row_at. cbn [sym_list sy_data]. rewrite upto_systematic, concat_app, concat_zeros.
  pose proof (blob_rows_lookup r) as Hrow. assert (k2 <= n)%nat by (destruct HS; lia).
  rewrite Nat.mul_sub_distr_r.
  assert (k2 * s <= n * s)%nat by nia.
  destruct (blob_rows encoder !! r) as [row|].
  - destruct Hrow as [Hl <-]. rewrite overwrite_zeros by lia. by rewrite <- pad_to_more.
  - rewrite Hrow, <- replicate_add. f_equal. lia.
Qed.
Lemma zero_row : symbols_zeros mn ms = sym_list s (upto s (fun _ => zero_symbol s) 0 n).
Proof. by rewrite upto_0, (symbols_zeros_list s n). Qed.
Lemma row_at_0 r : row_at 0 r = symbols_zeros mn ms.
Proof. rewrite zero_row. unfold row_at. by rewrite !upto_0. Qed.

Lemma fill_systematic_ok : fill_systematic_with_rows encoder (replicate n (symbols_zeros mn ms))
  = Ok ((row_at k2 <$> seq 0 k1) ++ replicate (n - k1) (symbols_zeros mn ms)).
Proof.
  destruct HS as [Hk1 Hk2 _ _ _ _ Hb]. pose proof s_pos. unfold fill_systematic_with_rows.
  apply zip_update_spec.
  { rewrite length_app, length_fmap, length_seq, !length_replicate. lia. }
  intros r y z [-> Hr]%lookup_replicate Hz. pose proof (filled_row r) as Hrow.
  destruct (decide (r < k1)%nat).
  - rewrite lookup_app_l, list_lookup_fmap, lookup_seq_lt in Hz by (by rewrite ?length_fmap, ?length_seq).
    injection Hz as <-. rewrite zero_data. cbn [symbols_zeros sy_symbol_size Nat.add].
    destruct (blob_rows encoder !! r) as [row|].
    + rewrite Hrow. by cbn [mbind outcome_bind].
    + unfold symbols_zeros, zeros. replace (Z.to_nat (mn * ms)) with (n * s)%nat by lia. by rewrite <- Hrow.
  - rewrite lookup_app_r in Hz by (rewrite length_fmap, length_seq; lia).
    apply lookup_replicate in Hz as [-> _]. destruct (blob_rows encoder !! r) as [row|] eqn:He; [|done].
    exfalso. unfold blob_rows in He. cbn [be_n_columns be_symbol_size be_blob encoder] in He.
    replace (Z.to_nat (m2 * ms)) with (k2 * s)%nat in He by lia.
    apply chunks_lookup in He as [_ Hlt]; [|nia]. nia.
Qed.
Lemma full_row_upto_sized r c : sized s (upto s (fun c' => full_row r !!! c') c n).
Proof. apply upto_sized. intros i _ Hi. by apply full_row_symbol. Qed.
Lemma full_row_fmap r : (r < k1)%nat -> (fun c => full_row r !!! c) <$> seq 0 n = cell r <$> seq 0 n.
Proof. intros Hr. apply list_fmap_ext. intros i c [-> Hc]%lookup_seq. symmetry. by apply cell_row. Qed.
Lemma expand_row_ok r : (r < k1)%nat -> expand_row encoder (row_at k2 r) = Ok (sym_list s (cell r <$> seq 0 n)).
Proof.
  intros Hr. destruct HS as [Hk1 Hk2 Hn [Hs Heven] _ H2 _]. pose proof s_pos.
  unfold expand_row. cbn [be_n_columns be_config encoder]. destruct (source_row_sized r) as [Hl Hsz].
  assert (get_range (sy_data (row_at k2 r)) 0 (sy_symbol_size (row_at k2 r) * m2) = Some (concat (source_row r))) as ->.
  { cbn [row_at sym_list sy_data sy_symbol_size]. apply get_range_Some.
    rewrite (concat_length s) by apply full_row_upto_sized. rewrite upto_length. split_and!; [lia|lia|nia|].
    rewrite drop_0. replace (Z.to_nat (ms * m2)) with (k2 * s)%nat by lia.
    rewrite concat_take by apply full_row_upto_sized. rewrite upto_systematic.
    by rewrite take_app_length'. }
  cbn [expect mbind outcome_bind].
  rewrite (config_encode_all_repair_symbols_ok config Secondary ms (concat (source_row r)))
    by (cbn [n_source_symbols config source_symbols_secondary rs_n_shards]; try (done || lia);
        rewrite (concat_length s) by done; lia).
  cbn [n_source_symbols config source_symbols_secondary rs_n_shards unwrap mbind outcome_bind].
  rewrite Nat2Z.id, chunks_concat, recovery_row by done.
  fold (sym_list s ((fun c => full_row r !!! c) <$> seq k2 (n - k2))).
  rewrite to_symbols_list; [|done|].
  2: { apply Forall_fmap, Forall_forall. intros c [_ Hc]%elem_of_seq. apply full_row_symbol. lia. }
  replace (row_at k2 r) with (row_at (k2 + 0) r) by (f_equal; lia).
  rewrite (ofold_enum (fun i => row_at (k2 + i) r)).
  - rewrite length_fmap, length_seq. replace (k2 + (n - k2))%nat with n by lia. unfold row_at.
    by rewrite upto_full, full_row_fmap by lia.
  - intros i x Hx. rewrite list_lookup_fmap in Hx. destruct (seq k2 (n - k2) !! i) as [j|] eqn:Hj; [|done].
    apply lookup_seq in Hj as [-> Hlt]. injection Hx as <-. unfold row_at.
    rewrite <- Nat2Z.inj_add, symbols_write_list.
    + rewrite (upto_S s (fun c' => full_row r !!! c')) by lia. by rewrite Nat.add_succ_r.
    + apply full_row_upto_sized.
    + rewrite upto_length. lia.
    + apply full_row_symbol. lia.
Qed.
Lemma expand_rows_ok :
  expand_rows_for_secondary encoder ((row_at k2 <$> seq 0 k1) ++ replicate (n - k1) (symbols_zeros mn ms))
  = Ok (matrix_at 0 0).
Proof.
  unfold expand_rows_for_secondary. cbn [be_n_rows encoder]. rewrite Nat2Z.id.
  assert (length (row_at k2 <$> seq 0 k1) = k1) as Hl by (by rewrite length_fmap, length_seq).
  rewrite take_app_length', drop_app_length' by done.
  rewrite (omapM_over _ _ (fun r => sym_list s (cell r <$> seq 0 n)))
    by (intros r [_ Hr]%elem_of_seq; by apply expand_row_ok).
  cbn [mbind outcome_bind]. f_equal. unfold matrix_at. rewrite seq_split_rows, fmap_app. f_equal.
  - apply list_fmap_ext. intros i r [-> Hr]%lookup_seq. rewrite (proj2 (Nat.ltb_lt _ _)) by lia.
    rewrite <- seq_split_rows. by rewrite upto_full by lia.
  - apply list_eq. intros i. rewrite list_lookup_fmap. destruct (decide (i < n - k1)%nat).
    + rewrite lookup_seq_lt, lookup_replicate_2 by done. cbn [fmap option_fmap option_map].
      rewrite !(proj2 (Nat.ltb_ge _ _)) by lia. rewrite zero_row. by rewrite !upto_0.
    + by rewrite !lookup_ge_None_2; rewrite ?length_seq, ?length_replicate; try lia.
Qed.

Lemma cells_sized r c : (r < n)%nat -> sized s (upto s (cell r) c n).
Proof. intros Hr. apply upto_sized. intros i _ Hi. by apply cell_symbol. Qed.
Lemma matrix_at_length c j : length (matrix_at c j) = n.
Proof. unfold matrix_at. by rewrite length_fmap, length_seq. Qed.
Lemma matrix_at_lookup c j r : (r < n)%nat -> matrix_at c j !! r
  = Some (sym_list s (upto s (cell r) (if (r <? k1)%nat then n else if (r <? k1 + j)%nat then S c else c) n)).
Proof. intros Hr. unfold matrix_at. by rewrite list_lookup_fmap, lookup_seq_lt. Qed.
Lemma matrix_next c : matrix_at c (n - k1) = matrix_at (S c) 0.
Proof.
  apply list_fmap_ext. intros i r [-> Hr]%lookup_seq. cbn [Nat.add].
  destruct HS. destruct (Nat.ltb_spec i k1); [done|].
  by rewrite (proj2 (Nat.ltb_lt _ _)), (proj2 (Nat.ltb_ge i (k1 + 0))) by lia.
Qed.
Lemma write_cell_ok c j : (c < n)%nat -> (j < n - k1)%nat ->
  write_cell (matrix_at c j) (k1 + j) c (cell (k1 + j) c) = Ok (matrix_at c (S j)).
Proof.
  intros Hc Hj. unfold write_cell. rewrite matrix_at_lookup by lia. cbn [expect mbind outcome_bind].
  rewrite (proj2 (Nat.ltb_ge (k1 + j) k1)), (proj2 (Nat.ltb_ge (k1 + j) (k1 + j))) by lia.
  rewrite symbols_write_list; [|apply cells_sized; lia|by rewrite upto_length|apply cell_symbol; lia].
  cbn [mbind outcome_bind]. rewrite upto_S by done. f_equal. apply list_eq. intros i.
  destruct (decide (i = k1 + j)%nat) as [->|Hne].
  - rewrite list_lookup_insert_eq by (rewrite matrix_at_length; lia). rewrite matrix_at_lookup by lia.
    by rewrite (proj2 (Nat.ltb_ge (k1 + j) k1)), (proj2 (Nat.ltb_lt (k1 + j) (k1 + S j))) by lia.
  - rewrite list_lookup_insert_ne by done. destruct (decide (i < n)%nat).
    + rewrite !matrix_at_lookup by done. do 3 f_equal.
      destruct (Nat.ltb_spec i k1), (Nat.ltb_spec i (k1 + j)), (Nat.ltb_spec i (k1 + S j)); (done || lia).
    + by rewrite !lookup_ge_None_2 by (rewrite matrix_at_length; lia).
Qed.
Lemma gather_column c j : (c < n)%nat ->
  ofold (fun column row =>
      symbol ← symbols_at row (Z.of_nat c);
      match symbols_extend column symbol with Ok column => Ok column | _ => Ok column end)
    (symbols_empty ms) (take k1 (matrix_at c j)) = Ok (E := Empty_set) (sym_list s (column c)).
Proof.
  intros Hc. pose proof HS as [Hk1 _ _ _ _ _ _]. pose proof s_pos.
  assert (length (take k1 (matrix_at c j)) = k1) as Hl by (rewrite length_take, matrix_at_length; lia).
  destruct (column_sized c Hc) as [Hcl Hcs].
  loop_with (fun i st => st = sym_list s (take i (column c))) as (b & -> & ->); [done| |].
  - intros r x b Hr ->. assert (r < k1)%nat as Hrk by (rewrite <- Hl; by eapply lookup_lt_Some).
    rewrite lookup_take_lt, matrix_at_lookup in Hr by lia. rewrite (proj2 (Nat.ltb_lt _ _)) in Hr by done.
    injection Hr as <-. rewrite upto_full by lia.
    assert (column c !! r = Some (cell r c)) as Hcr.
    { unfold column. rewrite list_lookup_fmap, lookup_seq_lt by done. cbn. f_equal. symmetry. apply cell_row; lia. }
    rewrite (symbols_at_list s _ c (cell r c)); cycle 1.
    { apply Forall_fmap, Forall_forall. intros i [_ Hi]%elem_of_seq. apply cell_symbol; lia. }
    { by rewrite list_lookup_fmap, lookup_seq_lt. }
    cbn [mbind outcome_bind]. unfold symbols_extend. cbn [sym_list sy_symbol_size sy_data].
    rewrite (cell_symbol r c), Z_mod_same_full by lia. cbn [Z.eqb ensure mbind outcome_bind].
    eexists. split; [reflexivity|]. unfold sym_list. f_equal. rewrite (take_S_r _ _ _ Hcr), concat_app.
    cbn [concat]. by rewrite app_nil_r.
  - by rewrite Hl, take_ge by lia.
Qed.
Lemma expand_column_ok c : (c < n)%nat -> expand_column encoder (matrix_at c 0) c = Ok (matrix_at (S c) 0).
Proof.
  intros Hc. destruct HS as [Hk1 Hk2 Hn [Hs Heven] H1 _ _]. pose proof s_pos.
  destruct (column_sized c Hc) as [Hcl Hcs].
  unfold expand_column. cbn [be_n_rows be_symbol_size be_config encoder]. rewrite Nat2Z.id.
  rewrite gather_column by done. cbn [mbind outcome_bind sy_data sym_list].
  rewrite (config_encode_all_repair_symbols_ok config Primary ms (concat (column c)))
    by (cbn [n_source_symbols config source_symbols_primary rs_n_shards]; try (done || lia);
        rewrite (concat_length s) by done; lia).
  cbn [n_source_symbols config source_symbols_primary rs_n_shards unwrap mbind outcome_bind].
  rewrite Nat2Z.id, chunks_concat by done.
  assert (rs_encode (mn - m1) (column c) = (fun r => cell r c) <$> seq k1 (n - k1)) as ->.
  { pose proof (full_column c Hc) as Hf. unfold codeword in Hf. rewrite seq_split_rows, fmap_app in Hf.
    by apply app_inj_1 in Hf as [_ Hf]; [|rewrite Hcl, length_fmap, length_seq]. }
  fold (sym_list s ((fun r => cell r c) <$> seq k1 (n - k1))). rewrite to_symbols_list; [|done|].
  2: { apply Forall_fmap, Forall_forall. intros r [_ Hr]%elem_of_seq. apply cell_symbol; lia. }
  rewrite (ofold_enum (matrix_at c)).
  - by rewrite length_fmap, length_seq, matrix_next.
  - intros j x Hx. rewrite list_lookup_fmap in Hx. destruct (seq k1 (n - k1) !! j) as [i|] eqn:Hi; [|done].
    apply lookup_seq in Hi as [-> Hlt]. injection Hx as <-. by apply write_cell_ok.
Qed.
Lemma expanded_matrix_ok : expanded_matrix encoder = Ok ((fun r => sym_list s (cell r <$> seq 0 n)) <$> seq 0 n).
Proof.
  unfold expanded_matrix. cbn [be_config be_symbol_size encoder config rs_n_shards]. rewrite Nat2Z.id.
  rewrite fill_systematic_ok. cbn [mbind outcome_bind]. rewrite expand_rows_ok. cbn [mbind outcome_bind].
  rewrite (ofold_seq (fun c => matrix_at c 0)) by (intros; by apply expand_column_ok).
  f_equal. apply list_fmap_ext. intros i r [-> Hr]%lookup_seq. cbn [Nat.add].
  destruct (Nat.ltb_spec i k1); [by rewrite upto_full by lia|].
  by rewrite (proj2 (Nat.ltb_ge _ _)), upto_full by lia.
Qed.

Definition full_matrix : list Symbols := (fun r => sym_list s (cell r <$> seq 0 n)) <$> seq 0 n.
Lemma row_cells_sized r m : (r < n)%nat -> (m <= n)%nat -> sized s (cell r <$> seq 0 m).
Proof. intros Hr Hm. apply Forall_fmap, Forall_forall. intros c [_ Hc]%elem_of_seq. apply cell_symbol; lia. Qed.
Lemma matrix_metadata_ok : BlobEncoding.matrix_metadata encoder full_matrix = Ok committed_metadata.
Proof.
  unfold BlobEncoding.matrix_metadata. cbn [be_config be_blob encoder config rs_n_shards]. rewrite Nat2Z.id.
  unfold full_matrix. rewrite (omapM_over _ _ (fun r => (fun c => leaf_hash (cell r c)) <$> seq 0 n)).
  - cbn [mbind outcome_bind]. rewrite concat_rows. apply metadata_from_hashes.
  - intros r [_ Hr]%elem_of_seq. apply omapM_fmap. intros c [_ Hc]%elem_of_seq.
    rewrite (symbols_at_list s _ c (cell r c)); [done|by apply row_cells_sized|].
    by rewrite list_lookup_fmap, lookup_seq_lt.
Qed.
Lemma truncated_row r : (r < n)%nat ->
  symbols_truncate (sym_list s (cell r <$> seq 0 n)) m2 = sym_list s (cell r <$> seq 0 k2).
Proof.
  intros Hr. unfold symbols_truncate, sym_list. cbn [sy_symbol_size sy_data]. f_equal.
  replace (Z.to_nat (m2 * ms)) with (k2 * s)%nat by lia. rewrite concat_take by (by apply row_cells_sized).
  f_equal. rewrite seq_split, fmap_app. apply take_app_length'. by rewrite length_fmap, length_seq.
Qed.
Lemma truncated_twice r : (r < n)%nat ->
  symbols_truncate (sym_list s (cell r <$> seq 0 k2)) m2 = sym_list s (cell r <$> seq 0 k2).
Proof.
  intros Hr. unfold symbols_truncate, sym_list. cbn [sy_symbol_size sy_data]. f_equal. apply take_ge.
  rewrite (concat_length s) by (apply row_cells_sized; destruct HS; lia). rewrite length_fmap, length_seq. lia.
Qed.
Lemma dropped_matrix : drop_recovery_symbols encoder full_matrix
  = ((fun r => sym_list s (cell r <$> seq 0 n)) <$> seq 0 k1)
    ++ ((fun r => sym_list s (cell r <$> seq 0 k2)) <$> seq k1 (n - k1)).
Proof.
  unfold drop_recovery_symbols. cbn [be_n_rows be_n_columns encoder]. rewrite Nat2Z.id.
  assert (full_matrix = ((fun r => sym_list s (cell r <$> seq 0 n)) <$> seq 0 k1)
    ++ ((fun r => sym_list s (cell r <$> seq 0 n)) <$> seq k1 (n - k1))) as ->
    by (rewrite <- fmap_app, <- seq_split_rows; done).
  rewrite take_app_length', drop_app_length' by (by rewrite length_fmap, length_seq). f_equal.
  rewrite <- list_fmap_compose. apply list_fmap_ext. intros i r [-> Hr]%lookup_seq. apply truncated_row. lia.
Qed.
Lemma write_secondary_ok i : (i < n)%nat ->
  write_secondary_sliver encoder (drop_recovery_symbols encoder full_matrix) i
    (pr_secondary (empty_sliver_pair encoder (Z.of_nat i))) = Ok (secondary_sliver (n - 1 - i)).
Proof.
  intros Hi. pose proof s_pos. pose proof HS as [Hk1 _ Hn _ _ _ _].
  assert (to_sliver_index false (Z.of_nat i) mn = Z.of_nat (n - 1 - i)) as Hidx.
  { unfold to_sliver_index. rewrite !wrap_small by (rewrite ?wrap_small; lia). lia. }
  destruct (column_sized (n - 1 - i) ltac:(lia)) as [Hcl Hcs].
  unfold write_secondary_sliver. cbn [empty_sliver_pair pr_secondary sliver_new_empty sd_symbols sd_index
    be_config be_symbol_size encoder config rs_n_shards source_symbols_primary].
  rewrite Hidx, (symbols_zeros_list s k1) by done.
  rewrite to_symbols_list, length_replicate, dropped_matrix by (done || apply sized_zeros).
  rewrite take_app_length' by (by rewrite length_fmap, length_seq).
  rewrite (omapM_over _ _ (fun r => full_row r !!! (n - 1 - i)%nat)).
  - fold (column (n - 1 - i)). cbn [mbind outcome_bind].
    rewrite (zip_update_spec copy_from_slice _ _ (column (n - 1 - i))); [done|by rewrite length_replicate|].
    intros j y z [-> Hj]%lookup_replicate Hz. rewrite Hz. unfold zero_symbol, copy_from_slice, zlen.
    by rewrite length_replicate, (sized_lookup _ _ _ _ Hcs Hz), Z.eqb_refl.
  - intros r [_ Hr]%elem_of_seq. rewrite <- cell_row by lia. apply symbols_at_list; [apply row_cells_sized; lia|].
    by rewrite list_lookup_fmap, lookup_seq_lt by lia.
Qed.
Lemma encode_with_metadata_legacy_ok : encode_with_metadata_legacy encoder = Ok (matrix_pairs, committed_metadata).
Proof.
  unfold encode_with_metadata_legacy. rewrite expanded_matrix_ok. cbn [mbind outcome_bind].
  fold full_matrix. rewrite matrix_metadata_ok. cbn [mbind outcome_bind be_config encoder config rs_n_shards].
  rewrite Nat2Z.id, imap_pair_seq.
  rewrite (omapM_over _ _ (fun i => {| pr_primary := pr_primary (empty_sliver_pair encoder (Z.of_nat i));
      pr_secondary := secondary_sliver (n - 1 - i) |}))
    by (intros i [_ Hi]%elem_of_seq; by rewrite write_secondary_ok).
  cbn [mbind outcome_bind]. do 2 f_equal. rewrite dropped_matrix. unfold matrix_pairs.
  apply list_eq. intros i. rewrite lookup_zip_with, !list_lookup_fmap.
  destruct (decide (i < n)%nat) as [Hi|Hi]; [|by rewrite (lookup_ge_None_2 (seq 0 n)) by (rewrite length_seq; lia)].
  rewrite lookup_seq_lt by done. cbn [fmap option_fmap option_map mbind option_bind Nat.add pr_primary pr_secondary
    empty_sliver_pair sliver_new_empty sd_index n_source_symbols config source_symbols_secondary].
  destruct (decide (i < k1)%nat).
  - rewrite lookup_app_l, list_lookup_fmap, lookup_seq_lt by (by rewrite ?length_fmap, ?length_seq).
    cbn [fmap option_fmap option_map mbind option_bind Nat.add]. by rewrite truncated_row.
  - rewrite lookup_app_r, list_lookup_fmap, length_fmap, length_seq, lookup_seq_lt
      by (rewrite ?length_fmap, ?length_seq; lia).
    cbn [fmap option_fmap option_map mbind option_bind]. replace (k1 + (i - k1))%nat with i by lia.
    by rewrite truncated_twice.
Qed.

(** The systematic primary slivers hold the blob. *)
Lemma rows_data : take (length blob) (concat ((fun r => concat (source_row r)) <$> seq 0 k1)) = blob.
Proof.
  rewrite (list_fmap_ext _ (fun r => pad_to (k2 * s) (drop (r * (k2 * s)) blob))) by (intros; apply row_bytes).
  rewrite concat_pad_to. unfold pad_to. destruct HS as [_ _ _ _ _ _ Hb].
  rewrite take_take, Nat.min_l by lia. apply take_app_length.
Qed.
Lemma primary_data :
  take (length blob) (concat ((fun p => sy_data (sd_symbols (pr_primary p))) <$> take k1 matrix_pairs)) = blob.
Proof.
  rewrite <- rows_data at 2. do 2 f_equal. unfold matrix_pairs. rewrite seq_split_rows, fmap_app.
  rewrite take_app_length' by (by rewrite length_fmap, length_seq). rewrite <- list_fmap_compose.
  apply list_fmap_ext. intros i r [-> Hr]%lookup_seq. unfold compose.
  cbn [pr_primary primary_sliver sd_symbols sy_data sym_list]. by rewrite row_systematic.
Qed.

(** ** The trees of the matrix *)

Lemma hash_at r c : (r < n)%nat -> (c < n)%nat -> matrix_hashes !! (r * n + c)%nat = Some (leaf_hash (cell r c)).
Proof.
  intros Hr Hc. unfold matrix_hashes. rewrite list_lookup_fmap, lookup_seq_lt by nia.
  cbn [fmap option_fmap option_map Nat.add].
  by rewrite <- (Nat.div_unique (r * n + c) n r c), <- (Nat.mod_unique (r * n + c) n r c) by lia.
Qed.
Lemma row_hashes r : (r < n)%nat -> matrix_row n matrix_hashes r = leaf_hash <$> (cell r <$> seq 0 n).
Proof.
  intros Hr. unfold matrix_row. apply list_eq. intros c. rewrite !list_lookup_fmap.
  destruct (decide (c < n)%nat).
  - rewrite lookup_take_lt, lookup_drop, hash_at, lookup_seq_lt by done. done.
  - by rewrite lookup_take_ge, lookup_ge_None_2 by (rewrite ?length_seq; lia).
Qed.
Lemma column_hashes c : (c < n)%nat ->
  matrix_column n matrix_hashes c = leaf_hash <$> ((fun r => cell r (n - 1 - c)) <$> seq 0 n).
Proof.
  intros Hc. unfold matrix_column. rewrite <- list_fmap_compose. apply list_fmap_ext.
  intros i r [-> Hr]%lookup_seq. unfold compose. cbn [Nat.add].
  replace (i * n + n - 1 - c)%nat with (i * n + (n - 1 - c))%nat by lia.
  apply list_lookup_total_correct, hash_at; lia.
Qed.
(** The roots of sliver pair [i]. *)
Definition pair_roots (i : nat) : SliverPairMetadata :=
  {| primary_hash := root (build (cell i <$> seq 0 n));
     secondary_hash := root (build ((fun r => cell r (n - 1 - i)) <$> seq 0 n)) |}.
Lemma committed_hashes : hashes (metadata committed_metadata) = pair_roots <$> seq 0 n.
Proof.
  cbn [committed_metadata new_verified_from_metadata metadata hashes]. apply list_fmap_ext.
  intros i r [-> Hr]%lookup_seq. unfold sliver_pair_metadata, primary_tree, secondary_tree.
  by rewrite row_hashes, column_hashes.
Qed.
End Matrix.
