(* ===== verification/Decoder.v ===== *)
(** Decoding in [walrus-core]: the decoder of [encoding/basic_encoding.rs], the
    blob decoder of [encoding/blob_encoding.rs] and the decoding functions of
    [encoding/config.rs].

    The decoder wraps the one of the crate [reed_solomon_simd]: the class
    [ReedSolomonDecode] holds its calls, with their documented facts in
    [ReedSolomonDecodeLaws] (as many distinct shards of a codeword as it has
    source symbols restore the missing ones, fewer are refused).  A decoder
    keeps the shards it was given until a decoding succeeds; the state is
    threaded through the calls. *)
From S2P Require Import Prelude Crypto WalrusMerkle WalrusConfig Rslh WalrusOpen ReedSolomon BlobEncoding BlobMatrix.

Class ReedSolomonDecode := {
  (** [ReedSolomonDecoder::new(original_count, recovery_count, shard_bytes)] *)
  rs_decoder_new : Z -> Z -> Z -> outcome string unit;
  (** [add_original_shard] and [add_recovery_shard] for each of the indexed
      shards, whose errors the program ignores, then [decode]: an error, or the
      restored original shards. *)
  rs_decode : Z -> Z -> Z -> list (Z * bytes) -> list (Z * bytes) -> string + list (Z * bytes);
}.
(** The indices of the shards that the crate keeps, original ones first. *)
Definition provided (k m : Z) (originals recoveries : list (Z * bytes)) : gset Z :=
  list_to_set (filter (fun i => 0 <= i < k) originals.*1)
  ∪ list_to_set ((fun j => k + j) <$> filter (fun j => 0 <= j < m) recoveries.*1).
Class ReedSolomonDecodeLaws (R : ReedSolomon) (D : ReedSolomonDecode) : Prop := {
  rs_decoder_new_ok k m s : rs_new k m s = Ok tt -> rs_decoder_new k m s = Ok tt;
  rs_decode_ok k m s os originals recoveries :
    rs_new k m (Z.of_nat s) = Ok tt -> zlen os = k -> Forall (fun o => length o = s) os ->
    Forall (fun '(i, x) => 0 <= i /\ os !! Z.to_nat i = Some x) originals ->
    Forall (fun '(j, x) => 0 <= j /\ (j < m -> rs_encode m os !! Z.to_nat j = Some x)) recoveries ->
    k <= Z.of_nat (size (provided k m originals recoveries)) ->
    exists restored, rs_decode k m (Z.of_nat s) originals recoveries = inr restored /\
      (forall i x, (i, x) ∈ restored <-> 0 <= i /\ os !! Z.to_nat i = Some x /\ i ∉ originals.*1);
  rs_decode_few k m s originals recoveries :
    Z.of_nat (size (provided k m originals recoveries)) < k ->
    exists e, rs_decode k m s originals recoveries = inl e;
}.

Inductive DecodeError :=
  | DecodeDataTooLarge
  | DecodeIncompatibleParameters (message : string)
  | DecoderError (message : string)
  | DecodingUnsuccessful
  | DecodeVerificationError.

(** A symbol and the index of the sliver it comes from; the axis is an argument
    of the functions. *)
Record DecodingSymbol := {
  ds_index : Z;
  ds_data : bytes;
}.

(** ** The decoder of one line *)

(** The last two fields are the shards given to the crate's decoder since its
    last [reset]. *)
Record ReedSolomonDecoder := {
  dc_n_source_symbols : Z;
  dc_n_shards : Z;
  dc_source_symbols : Symbols;
  dc_originals : list (Z * bytes);
  dc_recoveries : list (Z * bytes);
}.

Section Decoder.
Context `{D : ReedSolomonDecode}.

Definition decoder_new (n_source_symbols n_shards symbol_size : Z) : outcome DecodeError ReedSolomonDecoder :=
  map_err (rs_decoder_new n_source_symbols (n_shards - n_source_symbols) symbol_size) DecodeIncompatibleParameters ;;
  Ok {| dc_n_source_symbols := n_source_symbols; dc_n_shards := n_shards;
        dc_source_symbols := symbols_zeros n_source_symbols symbol_size;
        dc_originals := []; dc_recoveries := [] |}.

Definition add_symbol (self : ReedSolomonDecoder) (symbol : DecodingSymbol) : guest ReedSolomonDecoder :=
  if negb (zlen (ds_data symbol) =? sy_symbol_size (dc_source_symbols self)) then Ok self
  else if ds_index symbol <? dc_n_source_symbols self then
    symbols ← symbols_write (dc_source_symbols self) (ds_index symbol) (ds_data symbol);
    Ok {| dc_n_source_symbols := dc_n_source_symbols self; dc_n_shards := dc_n_shards self;
          dc_source_symbols := symbols;
          dc_originals := dc_originals self ++ [(ds_index symbol, ds_data symbol)];
          dc_recoveries := dc_recoveries self |}
  else
    Ok {| dc_n_source_symbols := dc_n_source_symbols self; dc_n_shards := dc_n_shards self;
          dc_source_symbols := dc_source_symbols self; dc_originals := dc_originals self;
          dc_recoveries := dc_recoveries self ++ [(ds_index symbol - dc_n_source_symbols self, ds_data symbol)] |}.
(** A failed decoding keeps the shards; a successful one resets the decoder. *)
Definition decode (self : ReedSolomonDecoder) (symbols : list DecodingSymbol)
    : guest (ReedSolomonDecoder * (DecodeError + bytes)) :=
  self ← ofold add_symbol self symbols;
  let size := sy_symbol_size (dc_source_symbols self) in
  match rs_decode (dc_n_source_symbols self) (dc_n_shards self - dc_n_source_symbols self) size
          (dc_originals self) (dc_recoveries self) with
  | inl e => Ok (self, inl (DecoderError e))
  | inr restored =>
      source_symbols ← ofold (fun symbols '(index, symbol) => symbols_write symbols index symbol)
        (dc_source_symbols self) restored;
      Ok ({| dc_n_source_symbols := dc_n_source_symbols self; dc_n_shards := dc_n_shards self;
             dc_source_symbols := symbols_zeros (dc_n_source_symbols self) size;
             dc_originals := []; dc_recoveries := [] |}, inr (sy_data source_symbols))
  end.
(** [self.decoder.decode(symbols)?] *)
Definition decode_or_fail (self : ReedSolomonDecoder) (symbols : list DecodingSymbol)
    : outcome DecodeError (ReedSolomonDecoder * bytes) :=
  '(self, result) ← no_error (decode self symbols);
  match result with
  | inl e => Err e
  | inr data => Ok (self, data)
  end.

Definition get_decoder (c : ReedSolomonEncodingConfig) (e : EncodingAxis) (symbol_size : Z)
    : outcome DecodeError ReedSolomonDecoder :=
  decoder_new (n_source_symbols c e) (rs_n_shards c) symbol_size.
(** The symbols recover a sliver of axis [e]. *)
Definition decode_from_decoding_symbols (c : ReedSolomonEncodingConfig) (e : EncodingAxis) (symbol_size : Z)
    (symbols : list DecodingSymbol) : outcome DecodeError bytes :=
  decoder ← get_decoder c (OrthogonalAxis e) symbol_size;
  '(_, data) ← decode_or_fail decoder symbols;
  Ok data.
End Decoder.

(** ** The decoder of blobs *)

Record BlobDecoder := {
  bd_decoder : ReedSolomonDecoder;
  bd_blob_size : Z;
  bd_symbol_size : Z;
  bd_sliver_count : Z;
  bd_sliver_length : Z;
  bd_n_columns : Z;
  bd_workspace : Symbols;
  bd_sliver_indices : list Z;
}.
Definition set_workspace (self : BlobDecoder) (workspace : Symbols) : BlobDecoder :=
  {| bd_decoder := bd_decoder self; bd_blob_size := bd_blob_size self; bd_symbol_size := bd_symbol_size self;
     bd_sliver_count := bd_sliver_count self; bd_sliver_length := bd_sliver_length self;
     bd_n_columns := bd_n_columns self; bd_workspace := workspace; bd_sliver_indices := bd_sliver_indices self |}.
Definition set_decoder (self : BlobDecoder) (decoder : ReedSolomonDecoder) : BlobDecoder :=
  {| bd_decoder := decoder; bd_blob_size := bd_blob_size self; bd_symbol_size := bd_symbol_size self;
     bd_sliver_count := bd_sliver_count self; bd_sliver_length := bd_sliver_length self;
     bd_n_columns := bd_n_columns self; bd_workspace := bd_workspace self; bd_sliver_indices := bd_sliver_indices self |}.
Definition push_index (self : BlobDecoder) (index : Z) : BlobDecoder :=
  {| bd_decoder := bd_decoder self; bd_blob_size := bd_blob_size self; bd_symbol_size := bd_symbol_size self;
     bd_sliver_count := bd_sliver_count self; bd_sliver_length := bd_sliver_length self;
     bd_n_columns := bd_n_columns self; bd_workspace := bd_workspace self;
     bd_sliver_indices := bd_sliver_indices self ++ [index] |}.
(** [symbols[lo..hi].copy_from_slice(data)] for a range of symbols. *)
Definition symbols_write_range (s : Symbols) (lo hi : Z) (data : bytes) : guest Symbols :=
  dest ← expect (get_range (sy_data s) (sy_symbol_size s * lo) (sy_symbol_size s * hi - sy_symbol_size s * lo))
    "range end index out of range";
  data ← copy_from_slice dest data;
  Ok {| sy_data := splice (sy_data s) (sy_symbol_size s * lo) data; sy_symbol_size := sy_symbol_size s |}.

Section BlobDecoder.
Context `{D : ReedSolomonDecode}.

Definition blob_decoder_new (c : ReedSolomonEncodingConfig) (e : EncodingAxis) (blob_size : Z)
    : outcome DecodeError BlobDecoder :=
  symbol_size ← map_err (symbol_size_for_blob c blob_size) (fun _ => DecodeDataTooLarge);
  decoder ← decoder_new (n_source_symbols c e) (rs_n_shards c) symbol_size;
  let sliver_length := n_source_symbols c (OrthogonalAxis e) in
  let sliver_count := n_source_symbols c e in
  let n_symbols_in_workspace := sliver_length * sliver_count in
  let '(n_columns, workspace) :=
    match e with
    | Primary => (sliver_length, symbols_empty symbol_size)
    | Secondary => (sliver_count, symbols_zeros n_symbols_in_workspace symbol_size)
    end in
  Ok {| bd_decoder := decoder; bd_blob_size := blob_size; bd_symbol_size := symbol_size;
        bd_sliver_count := sliver_count; bd_sliver_length := sliver_length; bd_n_columns := n_columns;
        bd_workspace := workspace; bd_sliver_indices := [] |}.

Definition write_primary_sliver_to_workspace (self : BlobDecoder) (sliver : Symbols) : guest BlobDecoder :=
  workspace ← unwrap (symbols_extend (bd_workspace self) (sy_data sliver))
    "we checked above that the symbol size is correct";
  Ok (set_workspace self workspace).
Definition write_secondary_sliver_to_workspace (self : BlobDecoder) (sliver : Symbols) (column : Z)
    : guest BlobDecoder :=
  workspace ← ofold (fun w '(row, symbol) => symbols_write w (Z.of_nat row * bd_n_columns self + column) symbol)
    (bd_workspace self) (imap pair (to_symbols sliver));
  Ok (set_workspace self workspace).
(** The loop over the slivers ends early at [break]; the last argument is the
    number of slivers written.  The last result is the number of slivers that
    were taken from the iterator. *)
Fixpoint write_slivers (e : EncodingAxis) (slivers : list SliverData) (self : BlobDecoder)
    (sliver_indices_set : gset Z) (slivers_count : Z) : guest (BlobDecoder * Z * nat) :=
  match slivers with
  | [] => Ok (self, slivers_count, 0%nat)
  | sliver :: slivers =>
      let next self set count :=
        '(self, slivers_count, pulled) ← write_slivers e slivers self set count;
        Ok (self, slivers_count, S pulled) in
      if slivers_count =? bd_sliver_count self then Ok (self, slivers_count, 1%nat)
      else if bool_decide (sd_index sliver ∈ sliver_indices_set) then
        next self sliver_indices_set slivers_count
      else if negb (symbols_len (sd_symbols sliver) =? bd_sliver_length self)
              || negb (sy_symbol_size (sd_symbols sliver) =? bd_symbol_size self) then
        next self sliver_indices_set slivers_count
      else
        self ← match e with
               | Primary => write_primary_sliver_to_workspace self (sd_symbols sliver)
               | Secondary => write_secondary_sliver_to_workspace self (sd_symbols sliver) slivers_count
               end;
        next (push_index self (sd_index sliver)) ({[sd_index sliver]} ∪ sliver_indices_set) (slivers_count + 1)
  end.
Definition check_and_write_slivers_to_workspace (e : EncodingAxis) (self : BlobDecoder) (slivers : list SliverData)
    : outcome DecodeError (BlobDecoder * nat) :=
  '(self, slivers_count, pulled) ← no_error (write_slivers e slivers self ∅ 0);
  ensure (slivers_count =? bd_sliver_count self) DecodingUnsuccessful ;;
  Ok (self, pulled).

(** The symbols of one line of the workspace. *)
Definition workspace_index (e : EncodingAxis) (self : BlobDecoder) (decoder_index sliver_index : Z) : Z :=
  match e with
  | Primary => sliver_index * bd_n_columns self + decoder_index
  | Secondary => decoder_index * bd_n_columns self + sliver_index
  end.
Definition line_symbols (e : EncodingAxis) (self : BlobDecoder) (decoder_index : Z)
    : outcome DecodeError (list DecodingSymbol) :=
  omapM (fun '(i, sliver_index) =>
      data ← symbols_at (bd_workspace self) (workspace_index e self decoder_index (Z.of_nat i));
      Ok {| ds_index := sliver_index; ds_data := data |}) (imap pair (bd_sliver_indices self)).
Definition write_line (e : EncodingAxis) (self : BlobDecoder) (decoder_index : Z) (decoded_data : bytes)
    : guest BlobDecoder :=
  workspace ← match e with
    | Primary =>
        ofold (fun w '(row_index, symbol) =>
            symbols_write w (bd_n_columns self * Z.of_nat row_index + decoder_index) symbol)
          (bd_workspace self) (imap pair (chunks (Z.to_nat (bd_symbol_size self)) decoded_data))
    | Secondary =>
        symbols_write_range (bd_workspace self) (bd_n_columns self * decoder_index)
          (bd_n_columns self * (decoder_index + 1)) decoded_data
    end;
  Ok (set_workspace self workspace).
Definition decode_line (e : EncodingAxis) (self : BlobDecoder) (decoder_index : nat) : outcome DecodeError BlobDecoder :=
  symbols ← line_symbols e self (Z.of_nat decoder_index);
  '(decoder, decoded_data) ← decode_or_fail (bd_decoder self) symbols;
  no_error (write_line e (set_decoder self decoder) (Z.of_nat decoder_index) decoded_data).
Definition perform_decoding (e : EncodingAxis) (self : BlobDecoder) : outcome DecodeError BlobDecoder :=
  ofold (decode_line e) self (seq 0 (Z.to_nat (bd_sliver_length self))).
(** The blob, and the number of slivers that were taken from the iterator. *)
Definition blob_decoder_decode (e : EncodingAxis) (self : BlobDecoder) (slivers : list SliverData)
    : outcome DecodeError (bytes * nat) :=
  '(self, pulled) ← check_and_write_slivers_to_workspace e self slivers;
  self ← perform_decoding e self;
  Ok (take (Z.to_nat (bd_blob_size self)) (sy_data (bd_workspace self)), pulled).

(** [ReedSolomonEncodingConfig::decode], over an iterator. *)
Definition config_decode_iter (c : ReedSolomonEncodingConfig) (e : EncodingAxis) (blob_size : Z)
    (slivers : list SliverData) : outcome DecodeError (bytes * nat) :=
  decoder ← blob_decoder_new c e blob_size;
  blob_decoder_decode e decoder slivers.
Definition config_decode (c : ReedSolomonEncodingConfig) (e : EncodingAxis) (blob_size : Z)
    (slivers : list SliverData) : outcome DecodeError bytes :=
  '(blob, _) ← config_decode_iter c e blob_size slivers; Ok blob.
End BlobDecoder.

(** ** Decoding one line *)

Section Line.
Context `{R : ReedSolomon} `{D : ReedSolomonDecode} {RL : ReedSolomonLaws R} {DL : ReedSolomonDecodeLaws R D}.
(** The source symbols of the line; [n] shards. *)
Context (k n s : nat) (os : list bytes).
Context (Hkn : (1 <= k <= n)%nat) (Hs : (0 < s)%nat) (Hl : length os = k) (Hf : sized s os).
Context (Hnew : rs_new (Z.of_nat k) (Z.of_nat n - Z.of_nat k) (Z.of_nat s) = Ok tt).
Local Notation line := (codeword (Z.of_nat k) (Z.of_nat n) os).

(** The buffer of a decoder that has the source symbols of the indices [K]. *)
Definition filled (K : list Z) : Symbols :=
  sym_list s ((fun i => if bool_decide (Z.of_nat i ∈ K) then os !!! i else zero_symbol s) <$> seq 0 k).
(** A decoder between two calls: every shard it keeps is one of the line. *)
Record Keeps (d : ReedSolomonDecoder) : Prop := {
  kp_k : dc_n_source_symbols d = Z.of_nat k;
  kp_n : dc_n_shards d = Z.of_nat n;
  kp_symbols : dc_source_symbols d = filled (dc_originals d).*1;
  kp_originals : Forall (fun '(i, x) => 0 <= i /\ os !! Z.to_nat i = Some x) (dc_originals d);
  kp_recoveries : Forall (fun '(j, x) =>
    0 <= j /\ (j < Z.of_nat n - Z.of_nat k -> rs_encode (Z.of_nat n - Z.of_nat k) os !! Z.to_nat j = Some x)) (dc_recoveries d);
}.
Definition fresh_decoder : ReedSolomonDecoder :=
  {| dc_n_source_symbols := Z.of_nat k; dc_n_shards := Z.of_nat n;
     dc_source_symbols := symbols_zeros (Z.of_nat k) (Z.of_nat s); dc_originals := []; dc_recoveries := [] |}.
Definition known (d : ReedSolomonDecoder) : gset Z :=
  provided (Z.of_nat k) (Z.of_nat n - Z.of_nat k) (dc_originals d) (dc_recoveries d).
(** A symbol that the decoder drops, or one of the line. *)
Definition line_symbol (x : DecodingSymbol) : Prop :=
  0 <= ds_index x /\
  (length (ds_data x) = s -> ds_index x < Z.of_nat n -> line !! Z.to_nat (ds_index x) = Some (ds_data x)).
Definition symbol_indices (symbols : list DecodingSymbol) : gset Z :=
  list_to_set (filter (fun i => 0 <= i < Z.of_nat n)
    (ds_index <$> filter (fun x => length (ds_data x) = s) symbols)).

Lemma filled_sized (K : list Z) : length ((fun i => if bool_decide (Z.of_nat i ∈ K) then os !!! i else zero_symbol s) <$> seq 0 k) = k /\
  sized s ((fun i => if bool_decide (Z.of_nat i ∈ K) then os !!! i else zero_symbol s) <$> seq 0 k).
Proof using All.
  rewrite length_fmap, length_seq. split; [done|]. apply Forall_fmap, Forall_forall. intros i [_ Hi]%elem_of_seq. cbn.
  case_bool_decide; [|apply length_replicate]. apply (sized_lookup s os i); [done|]. apply list_lookup_lookup_total_lt. lia.
Qed.
Lemma filled_write (K : list Z) i x : 0 <= i -> os !! Z.to_nat i = Some x ->
  symbols_write (filled K) i x = Ok (filled (K ++ [i])).
Proof using All.
  intros Hi Hx. pose proof (lookup_lt_Some _ _ _ Hx). destruct (filled_sized K) as [Hfl Hfs].
  unfold filled. rewrite <- (Z2Nat.id i) at 1 by done. rewrite symbols_write_list;
    [|done|lia|exact (sized_lookup s os _ x Hf Hx)].
  do 2 f_equal. apply list_eq. intros j. destruct (decide (j = Z.to_nat i)) as [->|Hne].
  - rewrite list_lookup_insert_eq, list_lookup_fmap, lookup_seq_lt by lia. cbn.
    rewrite bool_decide_eq_true_2 by (apply elem_of_app; right; apply list_elem_of_singleton; lia).
    by rewrite (list_lookup_total_correct _ _ _ Hx).
  - rewrite list_lookup_insert_ne, !list_lookup_fmap by done. destruct (seq 0 k !! j) as [j'|] eqn:Hj; [|done].
    apply lookup_seq in Hj as [-> _]. cbn [fmap option_fmap option_map Nat.add]. f_equal.
    rewrite (bool_decide_ext (Z.of_nat j ∈ K) (Z.of_nat j ∈ K ++ [i])); [done|].
    rewrite elem_of_app, list_elem_of_singleton. naive_solver lia.
Qed.
Lemma filled_all (K : list Z) : (forall i, (i < k)%nat -> Z.of_nat i ∈ K) -> filled K = sym_list s os.
Proof using All.
  intros HK. unfold filled. f_equal. apply list_eq. intros i. rewrite list_lookup_fmap.
  destruct (decide (i < k)%nat) as [Hi|Hi].
  - rewrite lookup_seq_lt by done. cbn. rewrite bool_decide_eq_true_2 by (by apply HK).
    symmetry. apply list_lookup_lookup_total_lt. lia.
  - rewrite !lookup_ge_None_2; rewrite ?length_seq; (done || lia).
Qed.
Lemma filled_nil : filled [] = symbols_zeros (Z.of_nat k) (Z.of_nat s).
Proof using All.
  rewrite (symbols_zeros_list s k) by done. unfold filled. f_equal. apply list_eq. intros i.
  rewrite list_lookup_fmap. destruct (decide (i < k)%nat) as [Hi|Hi].
  - by rewrite lookup_seq_lt, lookup_replicate_2 by done.
  - rewrite !lookup_ge_None_2; rewrite ?length_seq, ?length_replicate; (done || lia).
Qed.
Lemma fresh_keeps : Keeps fresh_decoder.
Proof using All. by split; cbn; rewrite ?filled_nil. Qed.

Lemma provided_original o r i x : 0 <= i < Z.of_nat k ->
  provided (Z.of_nat k) (Z.of_nat n - Z.of_nat k) (o ++ [(i, x)]) r
  = {[i]} ∪ provided (Z.of_nat k) (Z.of_nat n - Z.of_nat k) o r.
Proof using All.
  intros Hi. unfold provided. rewrite fmap_app, filter_app. cbn [fmap list_fmap fst].
  rewrite filter_cons_True by done. set_solver.
Qed.
Lemma provided_recovery o r j x : 0 <= j ->
  provided (Z.of_nat k) (Z.of_nat n - Z.of_nat k) o (r ++ [(j, x)])
  = (if decide (Z.of_nat k + j < Z.of_nat n) then {[Z.of_nat k + j]} else ∅)
    ∪ provided (Z.of_nat k) (Z.of_nat n - Z.of_nat k) o r.
Proof using All.
  intros Hj. unfold provided. rewrite fmap_app, filter_app. cbn [fmap list_fmap fst].
  destruct (decide (Z.of_nat k + j < Z.of_nat n)).
  - rewrite filter_cons_True by lia. set_solver.
  - rewrite filter_cons_False by lia. set_solver.
Qed.

Lemma symbol_indices_cons x xs : symbol_indices (x :: xs) = symbol_indices [x] ∪ symbol_indices xs.
Proof using All.
  unfold symbol_indices. change (x :: xs) with ([x] ++ xs) at 1.
  by rewrite filter_app, fmap_app, filter_app, list_to_set_app_L.
Qed.
Lemma symbol_indices_one x : 0 <= ds_index x -> symbol_indices [x] =
  if decide (length (ds_data x) = s /\ ds_index x < Z.of_nat n) then {[ds_index x]} else ∅.
Proof using All.
  intros Hx. unfold symbol_indices. destruct (decide (length (ds_data x) = s)) as [Hd|Hd].
  - rewrite filter_cons_True, filter_nil by done. cbn [fmap list_fmap].
    destruct (decide (ds_index x < Z.of_nat n)).
    + rewrite filter_cons_True, filter_nil, decide_True by (done || lia). cbn [list_to_set]. set_solver.
    + rewrite filter_cons_False, decide_False by (tauto || lia). done.
  - rewrite filter_cons_False by done. rewrite decide_False by tauto. done.
Qed.
Lemma line_originals i x : 0 <= i < Z.of_nat k -> line !! Z.to_nat i = Some x -> os !! Z.to_nat i = Some x.
Proof using All. intros Hi Hx. unfold codeword in Hx. by rewrite lookup_app_l in Hx by lia. Qed.
Lemma line_recoveries i x : Z.of_nat k <= i -> line !! Z.to_nat i = Some x ->
  rs_encode (Z.of_nat n - Z.of_nat k) os !! Z.to_nat (i - Z.of_nat k) = Some x.
Proof using All.
  intros Hi Hx. unfold codeword in Hx. rewrite lookup_app_r, Hl in Hx by lia. rewrite <- Hx. f_equal. lia.
Qed.

Lemma add_symbol_ok d x : Keeps d -> line_symbol x ->
  exists d', add_symbol d x = Ok d' /\ Keeps d' /\ known d' = symbol_indices [x] ∪ known d.
Proof using All.
  intros [Hdk Hdn Hds Ho Hr] [Hi Hx]. rewrite symbol_indices_one by done. unfold add_symbol.
  rewrite Hds. cbn [filled sym_list sy_symbol_size]. fold (filled (dc_originals d).*1).
  destruct (Z.eqb_spec (zlen (ds_data x)) (Z.of_nat s)) as [Hsz|Hsz]; cbn [negb]; cycle 1.
  { rewrite decide_False by lia. exists d. split; [done|]. split; [by split|set_solver]. }
  specialize (Hx ltac:(lia)). rewrite Hdk. destruct (Z.ltb_spec (ds_index x) (Z.of_nat k)) as [Hk|Hk].
  - assert (os !! Z.to_nat (ds_index x) = Some (ds_data x)) as Hox by (apply line_originals; [lia|apply Hx; lia]).
    rewrite (filled_write _ _ _ Hi Hox). cbn [mbind outcome_bind]. eexists. split; [reflexivity|]. split.
    + split; cbn; [done..|by rewrite fmap_app| |done]. apply Forall_app. split; [done|]. by apply Forall_singleton.
    + unfold known. cbn. rewrite provided_original by lia. rewrite decide_True by lia. done.
  - eexists. split; [reflexivity|]. split.
    + split; cbn; [done..|]. apply Forall_app. split; [done|]. apply Forall_singleton. split; [lia|].
      intros Hj. apply line_recoveries; [done|]. apply Hx. lia.
    + unfold known. cbn. rewrite provided_recovery by lia.
      replace (Z.of_nat k + (ds_index x - Z.of_nat k)) with (ds_index x) by lia.
      f_equal. apply decide_ext. lia.
Qed.
Lemma add_symbols_ok d xs : Keeps d -> Forall line_symbol xs ->
  exists d', ofold add_symbol d xs = Ok d' /\ Keeps d' /\ known d' = symbol_indices xs ∪ known d.
Proof using All.
  intros Hd Hxs. revert d Hd. induction Hxs as [|x xs Hx _ IH]; intros d Hd.
  { exists d. split; [done|]. split; [done|]. unfold symbol_indices. set_solver. }
  destruct (add_symbol_ok d x Hd Hx) as (d1 & H1 & Hd1 & Hk1). destruct (IH d1 Hd1) as (d2 & H2 & Hd2 & Hk2).
  exists d2. cbn [ofold]. rewrite H1. cbn [mbind outcome_bind]. split; [done|]. split; [done|].
  rewrite Hk2, Hk1, (symbol_indices_cons x xs). set_solver.
Qed.
Lemma restore_ok d restored :
  (forall i x, (i, x) ∈ restored <-> 0 <= i /\ os !! Z.to_nat i = Some x /\ i ∉ (dc_originals d).*1) -> Keeps d ->
  ofold (fun symbols '(index, symbol) => symbols_write symbols index symbol) (dc_source_symbols d) restored
  = Ok (sym_list s os).
Proof using All.
  intros Hr [_ _ Hds _ _]. rewrite Hds.
  assert (forall l K, (forall i x, (i, x) ∈ l -> 0 <= i /\ os !! Z.to_nat i = Some x) ->
    ofold (fun symbols '(index, symbol) => symbols_write symbols index symbol) (filled K) l = Ok (filled (K ++ l.*1))) as Hloop.
  { induction l as [|[i x] l IH]; intros K Hin; cbn [ofold]; [by rewrite app_nil_r|].
    destruct (Hin i x) as [Hi Hx]; [by left|]. rewrite (filled_write K i x Hi Hx). cbn [mbind outcome_bind].
    rewrite IH by (intros; apply Hin; by right). by rewrite <- app_assoc. }
  rewrite Hloop by (intros i x Hin; apply Hr in Hin; tauto). f_equal. apply filled_all. intros i Hi.
  destruct (decide (Z.of_nat i ∈ (dc_originals d).*1)) as [Hin|Hin]; apply elem_of_app; [by left|right].
  destruct (lookup_lt_is_Some_2 os i) as [x Hx]; [lia|]. apply list_elem_of_fmap. exists (Z.of_nat i, x). split; [done|].
  apply Hr. rewrite Nat2Z.id. split; [lia|done].
Qed.

(** a decoder that keeps symbols of one line and is given more answers the
    source of the line as soon as it has as many of its symbols as there are
    source symbols, whichever they are and however the calls split them, and
    is then as new; before that it answers an error and keeps them. *)
Theorem decode_line_symbols d symbols : Keeps d -> Forall line_symbol symbols ->
  if Z.of_nat k <=? Z.of_nat (size (symbol_indices symbols ∪ known d))
  then decode d symbols = Ok (fresh_decoder, inr (concat os))
  else exists d' e, decode d symbols = Ok (d', inl e) /\ Keeps d' /\ known d' = symbol_indices symbols ∪ known d.
Proof using All.
  intros Hd Hxs. destruct (add_symbols_ok d symbols Hd Hxs) as (d' & H & Hd' & <-).
  unfold decode. rewrite H. cbn [mbind outcome_bind]. assert (Hd'' := Hd'). destruct Hd'' as [Hk Hn Hsy Ho Hr].
  rewrite Hsy. cbn [filled sym_list sy_symbol_size]. fold (filled (dc_originals d').*1). rewrite Hk, Hn.
  destruct (Z.leb_spec (Z.of_nat k) (Z.of_nat (size (known d')))) as [Hle|Hlt].
  - destruct (rs_decode_ok _ (Z.of_nat n - Z.of_nat k) s os (dc_originals d') (dc_recoveries d') Hnew) as (restored & -> & Hin);
      [lia|exact Hf|exact Ho|exact Hr|exact Hle|].
    rewrite <- Hsy, (restore_ok d' restored Hin Hd'). reflexivity.
  - destruct (rs_decode_few _ (Z.of_nat n - Z.of_nat k) (Z.of_nat s) (dc_originals d') (dc_recoveries d') Hlt) as [e ->].
    exists d', (DecoderError e). done.
Qed.
End Line.

(** ** Workspaces *)

Section Workspace.
Context (s m k : nat) (Hk : (0 < k)%nat).
(** A workspace of [m] rows and [k] columns. *)
Definition table (g : nat -> bytes) : Symbols := sym_list s (g <$> seq 0 (m * k)).
Definition table_sized (g : nat -> bytes) : Prop := forall p, (p < m * k)%nat -> length (g p) = s.

Lemma table_ext g h : (forall p, (p < m * k)%nat -> g p = h p) -> table g = table h.
Proof. intros H. unfold table. f_equal. apply list_fmap_ext. intros i p [-> Hp]%lookup_seq. by apply H. Qed.
Lemma table_list_sized g : table_sized g -> sized s (g <$> seq 0 (m * k)).
Proof. intros H. apply Forall_fmap, Forall_forall. intros p [_ Hp]%elem_of_seq. by apply H. Qed.
Lemma table_at {E} g p : table_sized g -> (p < m * k)%nat -> symbols_at (E := E) (table g) (Z.of_nat p) = Ok (g p).
Proof.
  intros H Hp. apply symbols_at_list; [by apply table_list_sized|]. by rewrite list_lookup_fmap, lookup_seq_lt.
Qed.
Lemma table_write g p x : table_sized g -> (p < m * k)%nat -> length x = s ->
  symbols_write (table g) (Z.of_nat p) x = Ok (table (fun q => if (q =? p)%nat then x else g q)).
Proof.
  intros H Hp Hx. unfold table. rewrite symbols_write_list;
    [|by apply table_list_sized|by rewrite length_fmap, length_seq|done].
  do 2 f_equal. apply list_eq. intros q. rewrite list_lookup_fmap. destruct (decide (q = p)) as [->|Hne].
  - rewrite list_lookup_insert_eq, lookup_seq_lt by (rewrite ?length_fmap, ?length_seq; done).
    cbn. by rewrite Nat.eqb_refl.
  - rewrite list_lookup_insert_ne, list_lookup_fmap by done. destruct (seq 0 (m * k) !! q) as [q'|] eqn:Hq; [|done].
    apply lookup_seq in Hq as [-> _]. cbn. by rewrite (proj2 (Nat.eqb_neq q p)).
Qed.
Lemma position r c : (c < k)%nat -> ((k * r + c) / k = r /\ (k * r + c) mod k = c)%nat.
Proof.
  intros Hc. split; [symmetry; by apply (Nat.div_unique _ k r c)|symmetry; by apply (Nat.mod_unique _ k r c)].
Qed.
Lemma position_split p : (p < m * k)%nat -> (p = k * (p / k) + p mod k /\ p / k < m /\ p mod k < k)%nat.
Proof.
  intros Hp. pose proof (Nat.div_mod_eq p k). pose proof (Nat.mod_upper_bound p k ltac:(lia)).
  split; [done|]. split; [|done]. apply Nat.Div0.div_lt_upper_bound. lia.
Qed.

(** Writing a column, one symbol after the other. *)
Lemma write_column_ok g xs c (index : nat -> Z) : table_sized g -> (c < k)%nat -> length xs = m -> sized s xs ->
  (forall r, index r = Z.of_nat (k * r + c)) ->
  ofold (fun w '(row, symbol) => symbols_write w (index row) symbol) (table g) (imap pair xs)
  = Ok (table (fun p => if (p mod k =? c)%nat then xs !!! (p / k)%nat else g p)).
Proof.
  intros Hg Hc Hl Hx Hi.
  pose (state t := fun p => if ((p mod k =? c) && (p / k <? t))%nat then xs !!! (p / k)%nat else g p).
  assert (forall t, table_sized (state t)) as Hsz.
  { intros t p Hp. unfold state. destruct (_ && _)%nat; [|by apply Hg].
    apply (sized_lookup s xs (p / k)); [done|]. apply list_lookup_lookup_total_lt. rewrite Hl. by apply position_split. }
  rewrite (table_ext g (state 0%nat)) by (intros p _; unfold state; by rewrite andb_false_r).
  rewrite (ofold_enum (fun t => table (state t))).
  - apply (f_equal Ok), table_ext. intros p Hp. unfold state. destruct (position_split p Hp) as (_ & Hlt & _).
    rewrite Hl, (proj2 (Nat.ltb_lt (p / k) m)) by done. by rewrite andb_true_r.
  - intros t x Hx'. pose proof (lookup_lt_Some _ _ _ Hx') as Ht. rewrite Hl in Ht.
    assert (k * t + c < m * k)%nat as Hp by nia. rewrite Hi, table_write; [|apply Hsz|done|exact (sized_lookup s xs t x Hx Hx')].
    apply (f_equal Ok), table_ext. intros q Hq. unfold state. destruct (position t c Hc) as [Hdiv Hmod].
    destruct (position_split q Hq) as (Hqs & _ & _). destruct (Nat.eqb_spec q (k * t + c)) as [->|Hne].
    + rewrite Hdiv, Hmod, Nat.eqb_refl, (proj2 (Nat.ltb_lt t (S t))) by lia. cbn. symmetry.
      by apply list_lookup_total_correct.
    + destruct (Nat.eqb_spec (q mod k) c) as [Hqc|]; [|done]. cbn [andb].
      destruct (Nat.ltb_spec (q / k) t), (Nat.ltb_spec (q / k) (S t)); [done|lia| |done].
      exfalso. apply Hne. rewrite Hqs, Hqc. f_equal. f_equal. lia.
Qed.
(** Writing a row at once. *)
Lemma write_row_ok g xs r : table_sized g -> (r < m)%nat -> length xs = k -> sized s xs ->
  symbols_write_range (table g) (Z.of_nat k * Z.of_nat r) (Z.of_nat k * (Z.of_nat r + 1)) (concat xs)
  = Ok (table (fun p => if (p / k =? r)%nat then xs !!! (p mod k)%nat else g p)).
Proof.
  intros Hg Hr Hl Hx. pose proof (table_list_sized g Hg) as Hsz.
  assert (length (concat (g <$> seq 0 (m * k))) = m * k * s)%nat as Hcl
    by (rewrite (concat_length s) by done; by rewrite length_fmap, length_seq).
  assert (length (concat xs) = k * s)%nat as Hxl by (rewrite (concat_length s) by done; by rewrite Hl).
  unfold symbols_write_range. cbn [table sym_list sy_data sy_symbol_size].
  destruct (get_range_is_Some (concat (g <$> seq 0 (m * k))) (Z.of_nat s * (Z.of_nat k * Z.of_nat r))
    (Z.of_nat s * (Z.of_nat k * (Z.of_nat r + 1)) - Z.of_nat s * (Z.of_nat k * Z.of_nat r))) as [dest Hd]; [nia|nia|rewrite Hcl; nia|].
  rewrite Hd. pose proof (get_range_length _ _ _ _ Hd) as Hdl. cbn [expect mbind outcome_bind]. unfold copy_from_slice.
  rewrite (proj2 (Z.eqb_eq (zlen dest) (zlen (concat xs)))) by nia. cbn [assert mbind outcome_bind].
  unfold table, sym_list. do 2 f_equal. unfold splice.
  replace (Z.to_nat (Z.of_nat s * (Z.of_nat k * Z.of_nat r))) with (k * r * s)%nat by nia. rewrite Hxl.
  replace (k * r * s + k * s)%nat with (k * (r + 1) * s)%nat by lia.
  rewrite (concat_take s), (concat_drop s), <- !concat_app by done. f_equal.
  apply list_eq. intros q. rewrite list_lookup_fmap.
  destruct (decide (q < m * k)%nat) as [Hq|Hq]; cycle 1.
  { rewrite !lookup_ge_None_2; [done|rewrite length_seq; lia|].
    rewrite !length_app, length_take, length_drop, length_fmap, length_seq, Hl. nia. }
  rewrite lookup_seq_lt by done. cbn [fmap option_fmap option_map Nat.add].
  destruct (position_split q Hq) as (Hqs & Hqr & Hqc).
  assert (length (take (k * r) (g <$> seq 0 (m * k))) = k * r)%nat as Htl
    by (rewrite length_take, length_fmap, length_seq; nia).
  destruct (Nat.eqb_spec (q / k) r) as [Hqe|Hqe].
  - rewrite lookup_app_r, Htl, lookup_app_l by nia. rewrite <- list_lookup_lookup_total_lt by lia. f_equal. nia.
  - destruct (decide (q / k < r)%nat).
    + rewrite lookup_app_l, lookup_take_lt, list_lookup_fmap, lookup_seq_lt by nia. done.
    + rewrite lookup_app_r, Htl, lookup_app_r, Hl, lookup_drop, list_lookup_fmap by nia.
      rewrite lookup_seq_lt by nia. cbn. do 2 f_equal. nia.
Qed.
End Workspace.

(** ** Decoding a blob *)

Section BlobDecode.
Context `{R : ReedSolomon} `{D : ReedSolomonDecode} {RL : ReedSolomonLaws R} {DL : ReedSolomonDecodeLaws R D}.
Context (k1 k2 n s : nat) (blob : bytes) (HS : Supported k1 k2 n s blob).
Local Notation cell := (cell k1 k2 n s blob).
Implicit Types e : EncodingAxis.

Definition count_of (e : EncodingAxis) : nat := match e with Primary => k1 | Secondary => k2 end.
Definition length_of (e : EncodingAxis) : nat := match e with Primary => k2 | Secondary => k1 end.
(** The slivers of the encoder, and their symbols: symbol [j] of sliver [i]. *)
Definition blob_sliver (e : EncodingAxis) (i : nat) : SliverData :=
  match e with
  | Primary => primary_sliver k1 k2 n s blob i
  | Secondary => secondary_sliver k1 k2 n s blob i
  end.
Definition sliver_symbol (e : EncodingAxis) (j i : nat) : bytes :=
  match e with Primary => cell i j | Secondary => cell j i end.
(** The line [j] across the slivers: its source symbols. *)
Definition line_source (e : EncodingAxis) (j : nat) : list bytes := sliver_symbol e j <$> seq 0 (count_of e).

Lemma blob_sliver_symbols e i : (i < n)%nat ->
  blob_sliver e i = {| sd_symbols := sym_list s ((fun j => sliver_symbol e j i) <$> seq 0 (length_of e)); sd_index := Z.of_nat i |}.
Proof using All.
  intros Hi. destruct e; [done|]. cbn [blob_sliver length_of sliver_symbol]. unfold secondary_sliver. do 2 f_equal.
  unfold column. apply list_fmap_ext. intros r r' [-> Hr]%lookup_seq. symmetry. by apply (cell_row k1 k2 n s blob HS).
Qed.
Lemma sliver_symbol_length e j i : (i < n)%nat -> (j < length_of e)%nat -> length (sliver_symbol e j i) = s.
Proof using All.
  intros Hi Hj. destruct HS. destruct e; cbn in *; apply (cell_symbol k1 k2 n s blob HS); lia.
Qed.
Lemma count_range e : (1 <= count_of e <= n)%nat /\ (1 <= length_of e <= n)%nat.
Proof using All. destruct HS, e; cbn; lia. Qed.
Lemma line_source_sized e j : (j < length_of e)%nat -> length (line_source e j) = count_of e /\ sized s (line_source e j).
Proof using All.
  intros Hj. unfold line_source. rewrite length_fmap, length_seq. split; [done|].
  apply Forall_fmap, Forall_forall. intros i [_ Hi]%elem_of_seq. pose proof (count_range e).
  apply sliver_symbol_length; [lia|done].
Qed.
Lemma line_codeword e j i : (j < length_of e)%nat -> (i < n)%nat ->
  codeword (Z.of_nat (count_of e)) (Z.of_nat n) (line_source e j) !! i = Some (sliver_symbol e j i).
Proof using All.
  intros Hj Hi. assert (HS' := HS). destruct HS' as [Hk1 Hk2 _ _ _ _ _]. destruct e; cbn [count_of length_of] in *.
  - assert (line_source Primary j = column k1 k2 n s blob j) as ->.
    { unfold line_source, column. apply list_fmap_ext. intros r r' [-> Hr]%lookup_seq. cbn in *.
      apply (cell_row k1 k2 n s blob HS); lia. }
    rewrite (full_column k1 k2 n s blob HS) by lia. by rewrite list_lookup_fmap, lookup_seq_lt.
  - assert (line_source Secondary j = source_row k2 s blob j) as ->.
    { unfold line_source, source_row. apply list_fmap_ext. intros c c' [-> Hc]%lookup_seq. cbn in *.
      apply (cell_source k1 k2 n s blob HS); lia. }
    cbn [sliver_symbol]. rewrite (cell_row k1 k2 n s blob HS) by lia. by apply (full_row_lookup k1 k2 n s blob HS).
Qed.
Lemma line_code_supported e :
  rs_new (Z.of_nat (count_of e)) (Z.of_nat n - Z.of_nat (count_of e)) (Z.of_nat s) = Ok tt.
Proof using All. destruct HS, e; done. Qed.

(** *** The workspace *)

(** The position of symbol [j] of the [i]th sliver. *)
Definition sliver_at (e : EncodingAxis) (p : nat) : nat := match e with Primary => p / k2 | Secondary => p mod k2 end.
Definition line_at (e : EncodingAxis) (p : nat) : nat := match e with Primary => p mod k2 | Secondary => p / k2 end.
Definition loaded_workspace (e : EncodingAxis) (l : list nat) : Symbols :=
  match e with
  | Primary => sym_list s (concat ((fun i => (fun j => sliver_symbol Primary j i) <$> seq 0 k2) <$> l))
  | Secondary => table s k1 k2 (fun p =>
      if (p mod k2 <? length l)%nat then sliver_symbol Secondary (p / k2) (l !!! (p mod k2)%nat) else zero_symbol s)
  end.
Definition loaded (e : EncodingAxis) (l : list nat) : BlobDecoder :=
  {| bd_decoder := fresh_decoder (count_of e) n s; bd_blob_size := zlen blob; bd_symbol_size := Z.of_nat s;
     bd_sliver_count := Z.of_nat (count_of e); bd_sliver_length := Z.of_nat (length_of e); bd_n_columns := Z.of_nat k2;
     bd_workspace := loaded_workspace e l; bd_sliver_indices := Z.of_nat <$> l |}.

Lemma blob_decoder_new_ok e : symbol_size_for_blob (config k1 k2 n) (zlen blob) = Ok (Z.of_nat s) ->
  blob_decoder_new (config k1 k2 n) e (zlen blob) = Ok (loaded e []).
Proof using All.
  intros Hsize. unfold blob_decoder_new. rewrite Hsize. cbn [map_err mbind outcome_bind]. unfold decoder_new.
  assert (n_source_symbols (config k1 k2 n) e = Z.of_nat (count_of e)) as -> by (by destruct e).
  assert (n_source_symbols (config k1 k2 n) (OrthogonalAxis e) = Z.of_nat (length_of e)) as -> by (by destruct e).
  cbn [rs_n_shards config]. rewrite (rs_decoder_new_ok _ _ _ (line_code_supported e)). cbn [map_err mbind outcome_bind].
  unfold loaded, fresh_decoder. destruct e; cbn [count_of length_of loaded_workspace fmap list_fmap concat]; [done|].
  do 2 f_equal. rewrite (symbols_zeros_list s (k1 * k2)) by lia. unfold table. f_equal. apply list_eq. intros p.
  rewrite list_lookup_fmap. destruct (decide (p < k1 * k2)%nat).
  - rewrite lookup_seq_lt, lookup_replicate_2 by done. reflexivity.
  - rewrite !lookup_ge_None_2; rewrite ?length_seq, ?length_replicate; (done || lia).
Qed.

Lemma loaded_sized e l : Forall (fun i => (i < n)%nat) l -> (length l <= count_of e)%nat -> e = Secondary ->
  table_sized s k1 k2 (fun p =>
    if (p mod k2 <? length l)%nat then sliver_symbol Secondary (p / k2) (l !!! (p mod k2)%nat) else zero_symbol s).
Proof using All.
  intros Hl Hle -> p Hp. pose proof (count_range Secondary) as [Hk _]. cbn in Hk.
  destruct (position_split k1 k2 ltac:(lia) p Hp) as (_ & Hr & Hc).
  destruct (Nat.ltb_spec (p mod k2) (length l)); [|apply length_replicate].
  apply sliver_symbol_length; [|done]. rewrite Forall_lookup in Hl. by apply (Hl (p mod k2)%nat), list_lookup_lookup_total_lt.
Qed.

Lemma write_blob_sliver e l i : Forall (fun i => (i < n)%nat) l -> (length l < count_of e)%nat -> (i < n)%nat ->
  match e with
  | Primary => write_primary_sliver_to_workspace (loaded e l) (sd_symbols (blob_sliver e i))
  | Secondary => write_secondary_sliver_to_workspace (loaded e l) (sd_symbols (blob_sliver e i)) (Z.of_nat (length l))
  end = Ok (set_workspace (loaded e l) (loaded_workspace e (l ++ [i]))).
Proof using All.
  intros Hl Hlt Hi. pose proof (s_pos k1 k2 n s blob HS) as Hs. rewrite (blob_sliver_symbols e i Hi). cbn [sd_symbols].
  pose proof (count_range e) as [Hc Hle].
  assert (sized s ((fun j => sliver_symbol e j i) <$> seq 0 (length_of e))) as Hsz
    by (apply Forall_fmap, Forall_forall; intros j [_ Hj]%elem_of_seq; by apply sliver_symbol_length).
  destruct e; cbn [count_of length_of] in *.
  - unfold write_primary_sliver_to_workspace, symbols_extend. cbn [loaded bd_workspace loaded_workspace sym_list sy_data sy_symbol_size].
    rewrite (concat_length s), length_fmap, length_seq by done.
    replace (Z.of_nat (k2 * s)) with (Z.of_nat k2 * Z.of_nat s) by lia. rewrite Z_mod_mult.
    cbn [Z.eqb ensure mbind outcome_bind unwrap]. unfold loaded_workspace. rewrite fmap_app, concat_app. cbn [fmap list_fmap concat].
    rewrite app_nil_r. unfold sym_list. by rewrite (concat_app (concat _)).
  - unfold write_secondary_sliver_to_workspace. rewrite to_symbols_list by done.
    cbn [loaded bd_workspace loaded_workspace bd_n_columns].
    rewrite (write_column_ok s k1 k2 ltac:(lia) _ _ (length l)); [|by apply (loaded_sized Secondary); [|cbn; lia|]|lia|by rewrite length_fmap, length_seq|done|lia].
    cbn [mbind outcome_bind]. apply (f_equal Ok), (f_equal (set_workspace _)), table_ext. intros p Hp.
    destruct (position_split k1 k2 ltac:(lia) p Hp) as (_ & Hr & Hcol). rewrite length_app. cbn [length].
    destruct (Nat.eqb_spec (p mod k2) (length l)) as [->|Hne].
    + rewrite (proj2 (Nat.ltb_lt _ _)) by lia. rewrite (list_lookup_total_correct _ _ (sliver_symbol Secondary (p / k2) i)) by (by rewrite list_lookup_fmap, lookup_seq_lt).
      rewrite (list_lookup_total_correct _ _ i); [done|]. by apply list_lookup_middle.
    + destruct (Nat.ltb_spec (p mod k2) (length l)), (Nat.ltb_spec (p mod k2) (length l + 1)); try lia; [|done].
      by rewrite lookup_total_app_l by done.
Qed.

(** The slivers that are not dropped, and a list of slivers in which all of
    those are the encoder's. *)
Definition fits (e : EncodingAxis) (x : SliverData) : bool :=
  (symbols_len (sd_symbols x) =? Z.of_nat (length_of e)) && (sy_symbol_size (sd_symbols x) =? Z.of_nat s).
Definition authentic (e : EncodingAxis) (x : SliverData) : Prop :=
  fits e x = true -> exists i, (i < n)%nat /\ x = blob_sliver e i.
Definition fitting (e : EncodingAxis) (slivers : list SliverData) : gset Z :=
  list_to_set (sd_index <$> filter (fun x => fits e x = true) slivers).

Lemma write_slivers_ok e slivers l :
  Forall (authentic e) slivers -> NoDup l -> Forall (fun i => (i < n)%nat) l -> (length l <= count_of e)%nat ->
  exists l' pulled, write_slivers e slivers (loaded e l) (list_to_set (Z.of_nat <$> l)) (zlen l) = Ok (loaded e l', zlen l', pulled) /\
    NoDup l' /\ Forall (fun i => (i < n)%nat) l' /\ (length l' <= count_of e)%nat /\
    (list_to_set (Z.of_nat <$> l') : gset Z) ⊆ fitting e slivers ∪ list_to_set (Z.of_nat <$> l) /\
    ((length l' < count_of e)%nat -> fitting e slivers ∪ list_to_set (Z.of_nat <$> l) ⊆ (list_to_set (Z.of_nat <$> l') : gset Z)).
Proof using All.
  intros Ha. revert l. induction Ha as [|x slivers Hx _ IH]; intros l Hnd Hl Hle.
  { exists l, 0%nat. unfold fitting. cbn. split; [done|]. do 3 (split; [done|]). set_solver. }
  cbn [write_slivers]. cbn [loaded bd_sliver_count bd_sliver_length bd_symbol_size]. fold (loaded e l).
  assert (fitting e (x :: slivers) = (if fits e x then {[sd_index x]} else ∅) ∪ fitting e slivers) as Hfit.
  { unfold fitting. destruct (fits e x) eqn:Hf; [rewrite filter_cons_True by done|rewrite filter_cons_False by congruence]; set_solver. }
  rewrite Hfit. destruct (Z.eqb_spec (zlen l) (Z.of_nat (count_of e))) as [Hfull|Hfull].
  { exists l, 1%nat. split; [done|]. do 3 (split; [done|]). split; [set_solver|lia]. }
  case_bool_decide as Hin.
  { destruct (IH l Hnd Hl Hle) as (l' & pulled & H & ? & ? & ? & Hsub & Hsup). exists l', (S pulled).
    split; [by rewrite H|]. do 3 (split; [done|]).
    split; [set_solver|]. intros Hlt. specialize (Hsup Hlt). destruct (fits e x); set_solver. }
  rewrite <- negb_andb. change (_ && _) with (fits e x). destruct (fits e x) eqn:Hf; cbn [negb]; cycle 1.
  { destruct (IH l Hnd Hl Hle) as (l' & pulled & H & ? & ? & ? & Hsub & Hsup). exists l', (S pulled).
    split; [by rewrite H|]. do 3 (split; [done|]).
    split; [set_solver|]. intros Hlt. specialize (Hsup Hlt). set_solver. }
  destruct (Hx Hf) as (i & Hi & ->).
  assert (sd_index (blob_sliver e i) = Z.of_nat i) as Hix by (by destruct e). rewrite Hix in *.
  rewrite (write_blob_sliver e l i Hl ltac:(lia) Hi). cbn [mbind outcome_bind].
  assert (i ∉ l) as Hni by (intros Hil; apply Hin; apply elem_of_list_to_set, list_elem_of_fmap; eauto).
  destruct (IH (l ++ [i])) as (l' & pulled & H & ? & ? & ? & Hsub & Hsup).
  { apply NoDup_app. split; [done|]. split; [set_solver|apply NoDup_singleton]. }
  { apply Forall_app. split; [done|]. by apply Forall_singleton. }
  { rewrite length_app. cbn. lia. }
  exists l', (S pulled). assert (push_index (set_workspace (loaded e l) (loaded_workspace e (l ++ [i]))) (Z.of_nat i) = loaded e (l ++ [i])) as ->
    by (unfold loaded, push_index, set_workspace; cbn; by rewrite fmap_app).
  replace ({[Z.of_nat i]} ∪ list_to_set (Z.of_nat <$> l)) with (list_to_set (Z.of_nat <$> (l ++ [i])) : gset Z)
    by (apply set_eq; intros z; rewrite fmap_app; set_solver).
  replace (zlen l + 1) with (zlen (l ++ [i])) by (rewrite length_app; cbn; lia).
  split; [by rewrite H|]. do 3 (split; [done|]). rewrite fmap_app in Hsub, Hsup.
  split; [set_solver|]. intros Hlt. specialize (Hsup Hlt). set_solver.
Qed.

(** The workspace after [j] lines. *)
Definition stage (e : EncodingAxis) (l : list nat) (j : nat) : nat -> bytes := fun p =>
  sliver_symbol e (line_at e p) (if (line_at e p <? j)%nat then sliver_at e p else l !!! sliver_at e p).
Definition decoding (e : EncodingAxis) (l : list nat) (j : nat) : BlobDecoder :=
  set_workspace (loaded e l) (table s k1 k2 (stage e l j)).

Lemma at_bounds e p : (p < k1 * k2)%nat -> (sliver_at e p < count_of e)%nat /\ (line_at e p < length_of e)%nat.
Proof using All.
  intros Hp. destruct HS. destruct (position_split k1 k2 ltac:(lia) p Hp) as (_ & ? & ?). by destruct e.
Qed.
Lemma list_by_index (l : list nat) : l = (fun t => l !!! t) <$> seq 0 (length l).
Proof using.
  apply list_eq. intros t. rewrite list_lookup_fmap. destruct (decide (t < length l)%nat) as [Ht|Ht].
  - rewrite lookup_seq_lt by done. by apply list_lookup_lookup_total_lt.
  - rewrite !lookup_ge_None_2; rewrite ?length_seq; (done || lia).
Qed.
Lemma chosen_lt e (l : list nat) i : Forall (fun i => (i < n)%nat) l -> length l = count_of e -> (i < count_of e)%nat ->
  (l !!! i < n)%nat.
Proof using.
  intros Hl Hle Hi. rewrite Forall_lookup in Hl. apply (Hl i). apply list_lookup_lookup_total_lt. lia.
Qed.
Lemma stage_sized e l j : Forall (fun i => (i < n)%nat) l -> length l = count_of e -> table_sized s k1 k2 (stage e l j).
Proof using All.
  intros Hl Hle p Hp. destruct (at_bounds e p Hp) as [Hsl Hli]. pose proof (count_range e) as [Hc _].
  apply sliver_symbol_length; [|done]. case_match; [lia|by apply (chosen_lt e)].
Qed.
Lemma loaded_stage e l : length l = count_of e -> loaded e l = decoding e l 0.
Proof using All.
  intros Hle. unfold decoding, loaded, set_workspace. cbn. f_equal. destruct e; cbn [loaded_workspace].
  - rewrite (list_by_index l) at 1. rewrite Hle. cbn [count_of]. rewrite <- list_fmap_compose.
    rewrite (list_fmap_ext _ (fun r => (fun j => sliver_symbol Primary j (l !!! r)) <$> seq 0 k2)) by done.
    rewrite (concat_rows (fun r j => sliver_symbol Primary j (l !!! r))). reflexivity.
  - apply table_ext. intros p Hp. destruct (at_bounds Secondary p Hp) as [Hsl _]. cbn [sliver_at count_of] in *.
    rewrite (proj2 (Nat.ltb_lt _ _)) by lia. reflexivity.
Qed.

(** The position of symbol [j] of the [i]th sliver. *)
Definition position_of (e : EncodingAxis) (j i : nat) : nat := match e with Primary => k2 * i + j | Secondary => k2 * j + i end.
Lemma position_of_at e j i : (j < length_of e)%nat -> (i < count_of e)%nat ->
  (position_of e j i < k1 * k2)%nat /\ sliver_at e (position_of e j i) = i /\ line_at e (position_of e j i) = j.
Proof using All.
  intros Hj Hi. destruct e; cbn in *.
  - destruct (position k2 i j Hj) as [-> ->]. split; [nia|done].
  - destruct (position k2 j i Hi) as [-> ->]. split; [nia|done].
Qed.
Lemma line_symbols_ok e l j : Forall (fun i => (i < n)%nat) l -> length l = count_of e -> (j < length_of e)%nat ->
  line_symbols e (decoding e l j) (Z.of_nat j)
  = Ok ((fun i => {| ds_index := Z.of_nat i; ds_data := sliver_symbol e j i |}) <$> l).
Proof using All.
  intros Hl Hle Hj. unfold line_symbols. cbn [decoding set_workspace bd_sliver_indices bd_workspace loaded].
  assert (imap pair (Z.of_nat <$> l) = (fun t => (t, Z.of_nat (l !!! t))) <$> seq 0 (count_of e)) as ->
    by (rewrite (list_by_index l) at 1; by rewrite <- list_fmap_compose, imap_pair_seq, Hle).
  assert (forall f : nat -> DecodingSymbol, f <$> l = (fun t => f (l !!! t)) <$> seq 0 (count_of e)) as ->
    by (intros f; rewrite (list_by_index l) at 1; by rewrite <- list_fmap_compose, Hle).
  apply omapM_over. intros i Hi%elem_of_seq. destruct (position_of_at e j i Hj ltac:(lia)) as (Hp & Hsl & Hli).
  assert (workspace_index e (decoding e l j) (Z.of_nat j) (Z.of_nat i) = Z.of_nat (position_of e j i)) as ->
    by (destruct e; cbn; lia).
  rewrite table_at by (by try apply stage_sized). cbn [mbind outcome_bind]. unfold stage. rewrite Hli, Hsl.
  by rewrite (proj2 (Nat.ltb_ge j j)) by lia.
Qed.
Lemma write_line_ok e l j : Forall (fun i => (i < n)%nat) l -> length l = count_of e -> (j < length_of e)%nat ->
  write_line e (set_decoder (decoding e l j) (fresh_decoder (count_of e) n s)) (Z.of_nat j) (concat (line_source e j))
  = Ok (decoding e l (S j)).
Proof using All.
  intros Hl Hle Hj. destruct (line_source_sized e j Hj) as [Hsl Hsz]. pose proof (s_pos k1 k2 n s blob HS) as Hs.
  pose proof (stage_sized e l j Hl Hle) as Hst. assert (0 < k2)%nat as Hk2 by (destruct HS; lia).
  assert (forall p, (p < k1 * k2)%nat ->
    (if (line_at e p =? j)%nat then line_source e j !!! sliver_at e p else stage e l j p) = stage e l (S j) p) as Hnext.
  { intros p Hp. destruct (at_bounds e p Hp) as [Hsp Hlp]. unfold stage.
    destruct (Nat.eqb_spec (line_at e p) j) as [->|Hne].
    - rewrite (proj2 (Nat.ltb_lt j (S j))) by lia. apply list_lookup_total_correct. unfold line_source.
      by rewrite list_lookup_fmap, lookup_seq_lt.
    - destruct (Nat.ltb_spec (line_at e p) j), (Nat.ltb_spec (line_at e p) (S j)); (done || lia). }
  unfold write_line. cbn [set_decoder decoding set_workspace bd_workspace bd_n_columns bd_symbol_size loaded].
  rewrite Nat2Z.id. destruct e; cbn [count_of length_of line_at sliver_at] in *.
  - rewrite chunks_concat by done.
    rewrite (write_column_ok s k1 k2 Hk2 _ _ j (fun r => Z.of_nat k2 * Z.of_nat r + Z.of_nat j)) by (done || lia).
    exact (f_equal (fun w => Ok (set_workspace (loaded Primary l) w)) (table_ext _ _ _ _ _ Hnext)).
  - rewrite (write_row_ok s k1 k2 Hk2) by done.
    exact (f_equal (fun w => Ok (set_workspace (loaded Secondary l) w)) (table_ext _ _ _ _ _ Hnext)).
Qed.
Lemma decode_line_ok e l j : NoDup l -> Forall (fun i => (i < n)%nat) l -> length l = count_of e -> (j < length_of e)%nat ->
  decode_line e (decoding e l j) j = Ok (decoding e l (S j)).
Proof using All.
  intros Hnd Hl Hle Hj. unfold decode_line. rewrite line_symbols_ok by done. cbn [mbind outcome_bind].
  change (bd_decoder (decoding e l j)) with (fresh_decoder (count_of e) n s).
  pose proof (s_pos k1 k2 n s blob HS) as Hs. destruct (line_source_sized e j Hj) as [Hsl Hsz].
  pose proof (decode_line_symbols (count_of e) n s (line_source e j) (proj1 (count_range e)) Hs Hsl Hsz
    (line_code_supported e) (fresh_decoder (count_of e) n s)
    ((fun i => {| ds_index := Z.of_nat i; ds_data := sliver_symbol e j i |}) <$> l) (fresh_keeps _ n s _ (proj1 (count_range e)) Hs Hsl Hsz (line_code_supported e))) as Hdec.
  assert (symbol_indices n s ((fun i => {| ds_index := Z.of_nat i; ds_data := sliver_symbol e j i |}) <$> l)
    ∪ known (count_of e) n (fresh_decoder (count_of e) n s) = list_to_set (Z.of_nat <$> l)) as Hset.
  { unfold known, fresh_decoder, provided. cbn. unfold symbol_indices.
    rewrite (list_filter_all (fun x => length (ds_data x) = s)), <- list_fmap_compose.
    - rewrite list_filter_all; [set_solver|]. apply Forall_fmap. eapply Forall_impl; [exact Hl|]. cbn. lia.
    - apply Forall_fmap. eapply Forall_impl; [exact Hl|]. intros i Hi. cbn. by apply sliver_symbol_length. }
  rewrite Hset, size_list_to_set, length_fmap, Hle in Hdec by (by apply (NoDup_fmap_2 Z.of_nat)).
  rewrite Z.leb_refl in Hdec. unfold decode_or_fail. rewrite Hdec.
  - cbn [no_error map_err mbind outcome_bind]. rewrite write_line_ok by done. reflexivity.
  - apply Forall_fmap. eapply Forall_impl; [exact Hl|]. intros i Hi. split; [cbn; lia|]. intros _ _. cbn.
    rewrite Nat2Z.id. by apply line_codeword.
Qed.
Lemma concat_nested {A} (l : list (list (list A))) : concat ((fun x => concat x) <$> l) = concat (concat l).
Proof using. induction l as [|x l IH]; cbn [fmap list_fmap concat]; [done|]. by rewrite concat_app, IH. Qed.
Lemma decoded_workspace e l : length l = count_of e ->
  take (length blob) (sy_data (table s k1 k2 (stage e l (length_of e)))) = blob.
Proof using All.
  intros Hle. transitivity (take (length blob) (concat ((fun r => concat (source_row k2 s blob r)) <$> seq 0 k1)));
    [|exact (rows_data k1 k2 n s blob HS)].
  f_equal. cbn [table sym_list sy_data].
  rewrite (list_fmap_compose (source_row k2 s blob) (fun xs => concat xs)), concat_nested.
  unfold source_row. rewrite (concat_rows (sym k2 s blob)). f_equal. apply list_fmap_ext. intros i p [-> Hp]%lookup_seq.
  destruct (at_bounds e i Hp) as [Hsl Hli]. unfold stage. rewrite (proj2 (Nat.ltb_lt _ _)) by done.
  destruct e; cbn [sliver_symbol sliver_at line_at count_of length_of] in *; by apply (cell_source k1 k2 n s blob HS).
Qed.

Lemma config_decode_iter_ok e slivers :
  symbol_size_for_blob (config k1 k2 n) (zlen blob) = Ok (Z.of_nat s) -> Forall (authentic e) slivers ->
  exists pulled, config_decode_iter (config k1 k2 n) e (zlen blob) slivers
  = if Z.of_nat (count_of e) <=? Z.of_nat (size (fitting e slivers)) then Ok (blob, pulled) else Err DecodingUnsuccessful.
Proof using All.
  intros Hsize Ha. unfold config_decode_iter. rewrite blob_decoder_new_ok by done. cbn [mbind outcome_bind].
  unfold blob_decoder_decode, check_and_write_slivers_to_workspace.
  destruct (write_slivers_ok e slivers [] Ha) as (l & pulled & Hw & Hnd & Hl & Hle & Hsub & Hsup);
    [constructor|constructor|cbn; lia|]. exists pulled.
  change (list_to_set (Z.of_nat <$> [])) with (∅ : gset Z) in *. change (zlen []) with 0 in Hw. rewrite Hw.
  cbn [no_error map_err mbind outcome_bind bd_sliver_count loaded].
  rewrite (right_id_L ∅ (∪)) in Hsub, Hsup.
  assert (size (list_to_set (Z.of_nat <$> l) : gset Z) = length l) as Hsz
    by (rewrite size_list_to_set, length_fmap; [done|by apply (NoDup_fmap_2 Z.of_nat)]).
  pose proof (subseteq_size _ _ Hsub) as Hge. rewrite Hsz in Hge.
  destruct (decide (length l = count_of e)) as [Hfull|Hfew].
  - rewrite Hfull, Z.eqb_refl. cbn [ensure mbind outcome_bind]. rewrite (proj2 (Z.leb_le _ _)) by lia.
    unfold perform_decoding. cbn [bd_sliver_length loaded]. fold (loaded e l). rewrite Nat2Z.id, loaded_stage by done.
    rewrite (ofold_seq (decoding e l)) by (intros; by apply decode_line_ok).
    cbn [mbind outcome_bind]. do 2 f_equal. change (bd_blob_size (decoding e l (length_of e))) with (zlen blob).
    rewrite Nat2Z.id. by apply decoded_workspace.
  - assert (length l < count_of e)%nat as Hlen by lia. pose proof (subseteq_size _ _ (Hsup Hlen)) as Hlt. rewrite Hsz in Hlt.
    rewrite (proj2 (Z.eqb_neq _ _)) by lia. rewrite (proj2 (Z.leb_gt _ _)) by lia. reflexivity.
Qed.

(** the blob comes back from its slivers, of either axis: from a list that holds
    as many distinct slivers of the encoder as there are source symbols, in any
    order, with repetitions and with slivers of the wrong size among them,
    [decode] returns the blob; from fewer it returns [DecodingUnsuccessful]. *)
Theorem blob_decode_roundtrip e slivers :
  symbol_size_for_blob (config k1 k2 n) (zlen blob) = Ok (Z.of_nat s) -> Forall (authentic e) slivers ->
  config_decode (config k1 k2 n) e (zlen blob) slivers
  = if Z.of_nat (count_of e) <=? Z.of_nat (size (fitting e slivers)) then Ok blob else Err DecodingUnsuccessful.
Proof using All.
  intros Hsize Ha. unfold config_decode. destruct (config_decode_iter_ok e slivers Hsize Ha) as [pulled ->].
  by destruct (_ <=? _).
Qed.
End BlobDecode.

(** ** A concrete codec

    Every recovery symbol is the sum of the source symbols: any [k] of the
    symbols restore the others when there is one source symbol or one recovery
    symbol. *)
Definition xor_symbols (s : nat) (l : list bytes) : bytes := fold_right (zip_with Z.lxor) (replicate s 0) l.
Definition missing_indices (k : Z) (originals : list (Z * bytes)) : list Z :=
  filter (fun i => i ∉ originals.*1) (seqZ 0 k).
Definition parity_restore (k m s : Z) (originals recoveries : list (Z * bytes)) : list (Z * bytes) :=
  match filter (fun p => p.1 < m) recoveries with
  | [] => []
  | (_, r) :: _ =>
      let others := omap (fun i => snd <$> find (fun p => p.1 =? i) originals) (seqZ 0 k) in
      (fun i => (i, xor_symbols (Z.to_nat s) (r :: others))) <$> missing_indices k originals
  end.
Definition parity_rs : ReedSolomon := {|
  rs_new k m s := if ((k =? 1) || (m =? 1)) && (0 <? k) && (0 <? m) then Ok tt else Err "unsupported shard count"%string;
  rs_encode m os := replicate (Z.to_nat m) (xor_symbols (length (hd [] os)) os) |}.
Definition parity_decode : ReedSolomonDecode := {|
  rs_decoder_new k m s := if ((k =? 1) || (m =? 1)) && (0 <? k) && (0 <? m) then Ok tt else Err "unsupported shard count"%string;
  rs_decode k m s originals recoveries :=
    if Z.of_nat (size (provided k m originals recoveries)) <? k then inl "too few shards"%string
    else inr (parity_restore k m s originals recoveries) |}.

Lemma zip_lxor_length (a b : bytes) : length a = length b -> length (zip_with Z.lxor a b) = length a.
Proof. intros H. rewrite length_zip_with. lia. Qed.
Lemma zip_lxor_assoc (a b c : bytes) : zip_with Z.lxor a (zip_with Z.lxor b c) = zip_with Z.lxor (zip_with Z.lxor a b) c.
Proof. revert b c. induction a as [|x a IH]; intros [|y b] [|z c]; cbn; [done..|]. by rewrite Z.lxor_assoc, IH. Qed.
Lemma zip_lxor_comm (a b : bytes) : zip_with Z.lxor a b = zip_with Z.lxor b a.
Proof. revert b. induction a as [|x a IH]; intros [|y b]; cbn; [done..|]. by rewrite Z.lxor_comm, IH. Qed.
Lemma zip_lxor_cancel (a b : bytes) : length a = length b -> zip_with Z.lxor (zip_with Z.lxor a b) b = a.
Proof.
  revert b. induction a as [|x a IH]; intros [|y b] H; try discriminate H; cbn; [done|].
  rewrite lxor_cancel_r, IH by (by injection H). done.
Qed.
Lemma xor_symbols_length s l : sized s l -> length (xor_symbols s l) = s.
Proof.
  unfold xor_symbols. induction 1 as [|x l Hx _ IH]; cbn; [apply length_replicate|].
  by rewrite zip_lxor_length by (rewrite IH; done).
Qed.
Lemma xor_symbols_middle s l1 x l2 : xor_symbols s (l1 ++ x :: l2) = zip_with Z.lxor x (xor_symbols s (l1 ++ l2)).
Proof.
  induction l1 as [|y l1 IH]; cbn; [done|]. unfold xor_symbols in IH. rewrite IH.
  rewrite !zip_lxor_assoc. f_equal. apply zip_lxor_comm.
Qed.
(** The sum and all but one of the symbols give the last one. *)
Lemma xor_symbols_restore s l1 x l2 : sized s (l1 ++ x :: l2) ->
  xor_symbols s (xor_symbols s (l1 ++ x :: l2) :: (l1 ++ l2)) = x.
Proof.
  intros H. rewrite xor_symbols_middle. cbn. apply Forall_app in H as [H1 [Hx H2]%Forall_cons].
  apply zip_lxor_cancel. symmetry. rewrite Hx. apply xor_symbols_length. by apply Forall_app.
Qed.

Lemma parity_encode_sum m s os r j : os <> [] -> sized s os -> rs_encode (ReedSolomon := parity_rs) m os !! j = Some r ->
  r = xor_symbols s os.
Proof.
  intros Hne Hf. cbn. intros [-> _]%lookup_replicate. f_equal. destruct os as [|o os]; [done|].
  by apply Forall_cons in Hf as [Hf _].
Qed.
Lemma parity_rs_laws : ReedSolomonLaws parity_rs.
Proof.
  split.
  - intros m os _. apply length_replicate.
  - intros m os s Hne Hf. apply Forall_replicate. rewrite xor_symbols_length; (destruct os as [|o os]; [done|]);
      apply Forall_cons in Hf as [Ho Hf]; cbn [hd]; [done|]. rewrite Ho. by apply Forall_cons.
Qed.

Lemma omap_seqZ {A} (f : Z -> option A) a l :
  (forall j x, l !! j = Some x -> f (a + Z.of_nat j) = Some x) -> omap f (seqZ a (zlen l)) = l.
Proof.
  revert a. induction l as [|x l IH]; intros a H; [done|]. cbn [length]. rewrite Nat2Z.inj_succ, seqZ_cons by lia.
  replace (Z.pred (Z.succ (zlen l))) with (zlen l) by lia. cbn [omap list_omap].
  pose proof (H 0%nat x eq_refl) as H0. rewrite Z.add_0_r in H0. rewrite H0, IH; [done|].
  intros j y Hj. rewrite <- (H (S j) y Hj). f_equal. lia.
Qed.
Lemma find_original (os : list bytes) originals z :
  Forall (fun '(i, x) => 0 <= i /\ os !! Z.to_nat i = Some x) originals -> z ∈ originals.*1 ->
  snd <$> find (fun p => p.1 =? z) originals = os !! Z.to_nat z.
Proof.
  induction 1 as [|[i x] l [Hi Hx] _ IH]; cbn; [set_solver|]. intros Hz. destruct (Z.eqb_spec i z) as [->|Hne].
  - by rewrite Hx.
  - apply IH. set_solver.
Qed.
Lemma find_missing (originals : list (Z * bytes)) z : z ∉ originals.*1 -> find (fun p => p.1 =? z) originals = None.
Proof.
  induction originals as [|[i x] l IH]; cbn; [done|]. intros Hz. rewrite (proj2 (Z.eqb_neq i z)) by set_solver. apply IH. set_solver.
Qed.
Lemma missing_spec k originals i : i ∈ missing_indices k originals <-> 0 <= i < k /\ i ∉ originals.*1.
Proof. unfold missing_indices. rewrite list_elem_of_filter, elem_of_seqZ. naive_solver lia. Qed.

Lemma elem_of_provided k m o r z : z ∈ provided k m o r <->
  (0 <= z < k /\ z ∈ o.*1) \/ (exists j, z = k + j /\ 0 <= j < m /\ j ∈ r.*1).
Proof.
  unfold provided. rewrite elem_of_union, !elem_of_list_to_set, list_elem_of_filter, (list_elem_of_fmap (fun j => k + j)).
  assert (forall j, j ∈ filter (fun j => 0 <= j < m) r.*1 <-> 0 <= j < m /\ j ∈ r.*1) as Hj by (intros j; by rewrite list_elem_of_filter).
  split; (intros [?|(j & -> & Hx)]; [by left|right; exists j; split; [done|by apply Hj]]).
Qed.
Section ParityDecode.
Context (k m : Z) (s : nat) (os : list bytes) (originals recoveries : list (Z * bytes)).
Context (Hcode : k = 1 \/ m = 1) (Hk : 0 < k) (Hl : zlen os = k) (Hf : sized s os).
Context (Ho : Forall (fun '(i, x) => 0 <= i /\ os !! Z.to_nat i = Some x) originals).
Context (Hr : Forall (fun '(j, x) => 0 <= j /\ (j < m -> rs_encode (ReedSolomon := parity_rs) m os !! Z.to_nat j = Some x)) recoveries).
Context (Hp : k <= Z.of_nat (size (provided k m originals recoveries))).

Lemma one_missing i i' : i ∈ missing_indices k originals -> i' ∈ missing_indices k originals -> i = i'.
Proof using All.
  intros [Hi Hni]%missing_spec [Hi' Hni']%missing_spec. destruct (decide (i = i')) as [|Hne]; [done|]. exfalso.
  destruct Hcode as [->| ->]; [lia|].
  assert (forall z, 0 <= z < k -> z ∈ provided k 1 originals recoveries -> z ∈ originals.*1) as Hin.
  { intros z Hz [[_ H]|(j & -> & Hj & _)]%elem_of_provided; [done|lia]. }
  assert (provided k 1 originals recoveries ∪ {[i; i']} ⊆ list_to_set (seqZ 0 (k + 1))) as Hsub.
  { intros z Hz. apply elem_of_list_to_set, elem_of_seqZ. apply elem_of_union in Hz as [Hz|Hz].
    - apply elem_of_provided in Hz as [[Hz _]|(j & -> & Hj & _)]; lia.
    - apply elem_of_union in Hz as [->%elem_of_singleton| ->%elem_of_singleton]; lia. }
  apply subseteq_size in Hsub. rewrite size_list_to_set, length_seqZ in Hsub by apply NoDup_seqZ.
  rewrite size_union in Hsub by (intros z Hz [->%elem_of_singleton| ->%elem_of_singleton]%elem_of_union; [by apply Hni, Hin|by apply Hni', Hin]).
  rewrite size_union, !size_singleton in Hsub by set_solver. lia.
Qed.
Lemma no_recovery_none_missing i : filter (fun p => p.1 < m) recoveries = [] -> i ∉ missing_indices k originals.
Proof using All.
  intros Hnone [Hi Hni]%missing_spec.
  assert (provided k m originals recoveries ∪ {[i]} ⊆ list_to_set (seqZ 0 k)) as Hsub.
  { intros z Hz. apply elem_of_list_to_set, elem_of_seqZ. apply elem_of_union in Hz as [Hz|Hz]; [|apply elem_of_singleton in Hz as ->; lia].
    apply elem_of_provided in Hz as [[Hz _]|(j & -> & Hj & ([j' x] & Hjx & Hin)%list_elem_of_fmap)]; [lia|].
    cbn in Hjx. subst j'. exfalso. eapply (not_elem_of_nil (j, x)). rewrite <- Hnone. apply list_elem_of_filter. cbn. split; [lia|done]. }
  apply subseteq_size in Hsub. rewrite size_list_to_set, length_seqZ in Hsub by apply NoDup_seqZ.
  rewrite size_union, size_singleton in Hsub; [lia|]. intros z Hz ->%elem_of_singleton.
  apply elem_of_provided in Hz as [[_ Hz]|(j & -> & Hj & _)]; [done|lia].
Qed.
Lemma restored_symbol i x : i ∈ missing_indices k originals -> os !! Z.to_nat i = Some x ->
  xor_symbols s (xor_symbols s os :: omap (fun i => snd <$> find (fun p => p.1 =? i) originals) (seqZ 0 k)) = x.
Proof using All.
  intros Hi Hx. assert (Hi' := Hi). apply missing_spec in Hi' as [Hik Hni].
  assert (omap (fun i => snd <$> find (fun p => p.1 =? i) originals) (seqZ 0 k)
    = take (Z.to_nat i) os ++ drop (S (Z.to_nat i)) os) as ->.
  { assert (forall z, 0 <= z < k -> z <> i -> snd <$> find (fun p => p.1 =? z) originals = os !! Z.to_nat z) as Hother.
    { intros z Hz Hne. apply find_original; [exact Ho|]. destruct (decide (z ∈ originals.*1)); [done|].
      exfalso. apply Hne, one_missing; [|done]. by apply missing_spec. }
    replace (seqZ 0 k) with (seqZ 0 (zlen (take (Z.to_nat i) os)) ++ i :: seqZ (i + 1) (zlen (drop (S (Z.to_nat i)) os))).
    - rewrite omap_app. f_equal; [|cbn [omap list_omap]; rewrite find_missing by done; cbn]; apply omap_seqZ; intros j y Hj.
      + rewrite Hother. { rewrite lookup_take_Some in Hj. rewrite <- (proj1 Hj). f_equal. lia. }
        { apply lookup_take_Some in Hj. apply lookup_lt_Some in Hx. lia. } { apply lookup_take_Some in Hj. lia. }
      + pose proof (lookup_lt_Some _ _ _ Hj) as Hlt. rewrite length_drop in Hlt. rewrite lookup_drop in Hj.
        rewrite Hother by lia. rewrite <- Hj. f_equal. lia.
    - rewrite length_take, length_drop. replace (Z.of_nat (Z.to_nat i `min` length os)) with i by lia.
      replace (Z.of_nat (length os - S (Z.to_nat i))) with (k - i - 1) by lia.
      transitivity (seqZ 0 (i + (k - i))); [|f_equal; lia]. rewrite seqZ_app by lia. f_equal.
      rewrite (seqZ_cons (0 + i)) by lia. do 2 f_equal; lia. }
  rewrite <- (take_drop_middle os (Z.to_nat i) x Hx) at 1. apply xor_symbols_restore.
  by rewrite take_drop_middle.
Qed.
End ParityDecode.

Lemma parity_decode_laws : ReedSolomonDecodeLaws parity_rs parity_decode.
Proof.
  split.
  - done.
  - intros k m s os originals recoveries Hnew Hl Hf Ho Hr Hp. cbn in Hnew.
    destruct (((k =? 1) || (m =? 1)) && (0 <? k) && (0 <? m)) eqn:Hsup; [|discriminate]. bool_hyps.
    assert (k = 1 \/ m = 1) as Hcode by (apply orb_true_iff in H; lia).
    cbn [rs_decode parity_decode]. rewrite (proj2 (Z.ltb_ge _ _)) by lia. eexists. split; [reflexivity|].
    intros i x. unfold parity_restore. rewrite Nat2Z.id.
    assert (i ∈ missing_indices k originals <-> 0 <= i < k /\ i ∉ originals.*1) as Hmiss by apply missing_spec.
    assert (forall y, os !! Z.to_nat i = Some y -> 0 <= i -> 0 <= i < k) as Hrange
      by (intros y Hy%lookup_lt_Some Hi; lia).
    destruct (filter (fun p => p.1 < m) recoveries) as [|[j r] rest] eqn:Hrec.
    + split; [set_solver|]. intros (Hi & Hx & Hni). exfalso.
      apply (no_recovery_none_missing k m s os originals recoveries) with i; [lia|lia|done..|]. apply Hmiss. eauto.
    + assert ((j, r) ∈ filter (fun p => p.1 < m) recoveries) as Hin by (rewrite Hrec; left).
      apply list_elem_of_filter in Hin as [Hjm Hin]. cbn in Hjm.
      destruct (proj1 (Forall_forall _ _) Hr _ Hin) as [_ Hj]. specialize (Hj Hjm). apply (parity_encode_sum _ s) in Hj as ->; [|by intros ->; cbn in Hl; lia|done].
      rewrite list_elem_of_fmap. split.
      * intros (i' & [= -> ->] & Hi'). assert (Hi := Hi'). apply missing_spec in Hi as [Hi Hni]. split; [lia|]. split; [|done].
        destruct (lookup_lt_is_Some_2 os (Z.to_nat i')) as [y Hy]; [lia|]. rewrite Hy. f_equal. symmetry.
        by apply (restored_symbol k m s os originals recoveries) with i'; [lia|lia|..].
      * intros (Hi & Hx & Hni). exists i. assert (i ∈ missing_indices k originals) as Hmi by (apply Hmiss; eauto).
        split; [|done]. f_equal. symmetry. by apply (restored_symbol k m s os originals recoveries) with i; [lia|lia|..].
  - intros k m s originals recoveries Hlt. cbn. rewrite (proj2 (Z.ltb_lt _ _)) by lia. by eexists.
Qed.

(** Three shards, one row and two columns of symbols of two bytes. *)
Section ParityBlob.
Local Existing Instance parity_rs.
Local Existing Instance parity_rs_laws.
Local Existing Instance parity_decode.
Local Existing Instance parity_decode_laws.
Definition three_bytes : bytes := [1; 2; 3].
Definition three_shards : ReedSolomonEncodingConfig := config 1 2 3.
Lemma three_supported : Supported 1 2 3 2 three_bytes.
Proof. split; cbn; first [lia|done|split; [lia|done]]. Qed.
(** The recovery column twice, a sliver of the wrong size and a source column. *)
Definition received_slivers : list SliverData :=
  [blob_sliver 1 2 3 2 three_bytes Secondary 2;
   {| sd_symbols := {| sy_data := [7]; sy_symbol_size := 1 |}; sd_index := 0 |};
   blob_sliver 1 2 3 2 three_bytes Secondary 2;
   blob_sliver 1 2 3 2 three_bytes Secondary 1].
Lemma blob_decode_roundtrip_witness : config_decode three_shards Secondary 3 received_slivers = Ok three_bytes.
Proof.
  rewrite (blob_decode_roundtrip 1 2 3 2 three_bytes three_supported Secondary received_slivers); [reflexivity..|].
  unfold received_slivers. rewrite !Forall_cons. split_and!; [|intros [=]|..|apply Forall_nil_2]; intros _; eexists;
    (split; [|reflexivity]; lia).
Defined.
Lemma decode_line_symbols_witness : exists d e,
  decode (fresh_decoder 2 3 1) [{| ds_index := 2; ds_data := [9] |}; {| ds_index := 2; ds_data := [9] |}] = Ok (d, inl e) /\
  decode d [{| ds_index := 0; ds_data := [5] |}] = Ok (fresh_decoder 2 3 1, inr [5; 12]).
Proof.
  pose proof (fresh_keeps 2 3 1 [[5]; [12]] ltac:(lia) ltac:(lia) eq_refl ltac:(repeat constructor) eq_refl) as H0.
  pose proof (decode_line_symbols 2 3 1 [[5]; [12]] ltac:(lia) ltac:(lia) eq_refl ltac:(repeat constructor) eq_refl) as Hdec.
  destruct (Hdec (fresh_decoder 2 3 1) [{| ds_index := 2; ds_data := [9] |}; {| ds_index := 2; ds_data := [9] |}] H0)
    as (d & e & H1 & H2 & H3); [repeat constructor; cbn; lia|].
  exists d, e. split; [exact H1|].
  specialize (Hdec d [{| ds_index := 0; ds_data := [5] |}] H2 ltac:(repeat constructor; cbn; lia)).
  rewrite H3 in Hdec. exact Hdec.
Defined.
End ParityBlob.
