(* ===== verification/Slivers.v ===== *)
(** Slivers: their verification against the metadata of a blob, the recovery
    symbols they give to each other, the recovery of a sliver, and proofs that a
    blob is encoded inconsistently ([encoding/slivers.rs],
    [encoding/symbols.rs] and [inconsistency.rs] in [walrus-core]).

    Types of one axis have the axis as an argument of their functions.  The
    two-dimensional code relies on rows and columns being encoded independently
    of each other: [ReedSolomonCommutes] states this documented property of the
    codec, which is linear. *)
From S2P Require Import Prelude Crypto WalrusMerkle WalrusConfig Rslh WalrusOpen ReedSolomon BlobEncoding BlobMatrix Decoder.

(** The recovery symbols of the columns of recovery symbols of the rows are those
    of the rows of those of the columns. *)
Class ReedSolomonCommutes (R : ReedSolomon) : Prop := rs_encode_commutes :
  forall a b k1 k2 s (f : nat -> nat -> bytes) i j,
    (0 < k1)%nat -> (0 < k2)%nat -> (forall r c, length (f r c) = s) -> (i < Z.to_nat a)%nat -> (j < Z.to_nat b)%nat ->
    rs_encode b ((fun c => rs_encode a ((fun r => f r c) <$> seq 0 k1) !!! i) <$> seq 0 k2) !!! j
    = rs_encode a ((fun r => rs_encode b (f r <$> seq 0 k2) !!! j) <$> seq 0 k1) !!! i.

Inductive RecoverySymbolError :=
  | RecoveryIndexTooLarge
  | RecoveryEncodeError (e : EncodeError).
Inductive SliverVerificationError :=
  | IndexTooLarge
  | SliverSizeMismatch
  | SymbolSizeMismatch
  | MerkleRootMismatch.
#[export] Instance SliverVerificationError_eq_dec : EqDecision SliverVerificationError.
Proof. solve_decision. Defined.
Inductive SliverRecoveryError := BlobSizeTooLarge | DecodingFailure.
Inductive SliverRecoveryOrVerificationError :=
  | RecoveryError (e : SliverRecoveryError)
  | SliverVerificationFailed (e : SliverVerificationError).
Inductive SymbolVerificationError :=
  | SymbolIndexTooLarge
  | SymbolWrongSize
  | InvalidProof (e : MerkleProofError)
  | InvalidMetadata
  | SymbolNotUsable.
Inductive InconsistencyVerificationError :=
  | IncorrectSymbolCount (expected actual : Z)
  | InvalidRecoverySymbols
  | RecoveryFailure
  | InconsistencySliverError (e : SliverVerificationError)
  | SliverNotInconsistent.

#[export] Instance Symbols_eq_dec : EqDecision Symbols.
Proof. solve_decision. Defined.
#[export] Instance SliverData_eq_dec : EqDecision SliverData.
Proof. solve_decision. Defined.

Record RecoverySymbol := {
  rc_symbol : DecodingSymbol;
  rc_proof : list Node;
}.
Record InconsistencyProof := {
  target_sliver_index : Z;
  recovery_symbols_of : list RecoverySymbol;
}.
Inductive SliverOrInconsistencyProof := Sliver (sliver : SliverData) | Inconsistent (proof : InconsistencyProof).

Definition is_primary (e : EncodingAxis) : bool := match e with Primary => true | Secondary => false end.
(** The result of a call as a value: [Ok(..)] or [Err(..)]. *)
Definition attempt {E F A} (m : outcome E A) : outcome F (E + A) :=
  match m with
  | Ok a => Ok (inr a)
  | Err e => Ok (inl e)
  | Panic s => Panic s
  | OutOfFuel => OutOfFuel
  end.

(** ** Metadata *)

Definition pair_hash (h : SliverPairMetadata) (e : EncodingAxis) : Node :=
  if is_primary e then primary_hash h else secondary_hash h.
Definition get_sliver_hash (md : BlobMetadata) (pair_index : Z) (e : EncodingAxis) : option Node :=
  (fun h => pair_hash h e) <$> get_at (hashes md) pair_index.
Definition metadata_symbol_size (md : BlobMetadata) (c : ReedSolomonEncodingConfig) : outcome DataTooLargeError Z :=
  c' ← get_for_type c (encoding_type md);
  symbol_size_for_blob c' (unencoded_length md).
(** [checked_mul] on [u32] *)
Definition sliver_size_for_blob (c : ReedSolomonEncodingConfig) (e : EncodingAxis) (blob_size : Z)
    : outcome DataTooLargeError Z :=
  symbol_size ← symbol_size_for_blob c blob_size;
  let size := n_source_symbols c (OrthogonalAxis e) * symbol_size in
  if size <? 2 ^ 32 then Ok size else Err data_too_large_error.
Definition n_symbols_for_recovery (c : ReedSolomonEncodingConfig) (e : EncodingAxis) : Z :=
  n_source_symbols c (OrthogonalAxis e).

Section Slivers.
Context `{HC : Crypto} `{R : ReedSolomon} `{D : ReedSolomonDecode}.

(** ** Slivers and their recovery symbols *)

Definition sliver_new (data : bytes) (symbol_size index : Z) : guest SliverData :=
  symbols ← symbols_new data symbol_size;
  Ok {| sd_symbols := symbols; sd_index := index |}.
Definition recovery_symbols (c : ReedSolomonEncodingConfig) (e : EncodingAxis) (self : SliverData)
    : outcome RecoverySymbolError Symbols :=
  symbols ← map_err (config_encode_all_symbols c (OrthogonalAxis e) (sy_data (sd_symbols self))) RecoveryEncodeError;
  assert (negb (bool_decide (sy_data symbols = []))) "must be at least 1 symbol" ;;
  first ← symbols_at symbols 0;
  assert (negb (bool_decide (first = []))) "symbols must have data" ;;
  Ok symbols.
Definition get_merkle_root (c : ReedSolomonEncodingConfig) (e : EncodingAxis) (self : SliverData)
    : outcome RecoverySymbolError Node :=
  symbols ← recovery_symbols c e self;
  Ok (root (build (to_symbols symbols))).
Definition check_index (index n_shards : Z) : outcome RecoverySymbolError unit :=
  ensure (index <? n_shards) RecoveryIndexTooLarge.
Definition decoding_symbol_at {E} (s : Symbols) (data_index symbol_index : Z) : outcome E (option DecodingSymbol) :=
  data ← symbols_at s data_index;
  Ok (Some {| ds_index := symbol_index; ds_data := data |}).
Definition recovery_symbol_for_sliver (c : ReedSolomonEncodingConfig) (e : EncodingAxis) (self : SliverData)
    (target_pair_index : Z) : outcome RecoverySymbolError RecoverySymbol :=
  check_index target_pair_index (rs_n_shards c) ;;
  symbols ← recovery_symbols c e self;
  let target_sliver_index := to_sliver_index (is_primary (OrthogonalAxis e)) target_pair_index (rs_n_shards c) in
  symbol ← decoding_symbol_at symbols target_sliver_index (sd_index self);
  symbol ← expect symbol "we have exactly `n_shards` symbols and the bound was checked";
  proof ← unwrap (get_proof (build (to_symbols symbols)) (Z.to_nat target_sliver_index)) "bound already checked above";
  Ok {| rc_symbol := symbol; rc_proof := proof |}.
Definition decoding_symbol_for_sliver (c : ReedSolomonEncodingConfig) (e : EncodingAxis) (self : SliverData)
    (target_pair_index : Z) : outcome RecoverySymbolError DecodingSymbol :=
  check_index target_pair_index (rs_n_shards c) ;;
  let target_sliver_index := to_sliver_index (is_primary (OrthogonalAxis e)) target_pair_index (rs_n_shards c) in
  data ← map_err (config_encode_symbol c (OrthogonalAxis e) (sy_data (sd_symbols self)) target_sliver_index) RecoveryEncodeError;
  Ok {| ds_index := sd_index self; ds_data := data |}.
(** The pair of recovery symbols: of the secondary and of the primary sliver. *)
Definition recovery_symbol_pair_for_sliver (c : ReedSolomonEncodingConfig) (self : SliverPair) (target_pair_index : Z)
    : outcome RecoverySymbolError (RecoverySymbol * RecoverySymbol) :=
  primary ← recovery_symbol_for_sliver c Secondary (pr_secondary self) target_pair_index;
  secondary ← recovery_symbol_for_sliver c Primary (pr_primary self) target_pair_index;
  Ok (primary, secondary).
Definition pair_leaf_input_of (c : ReedSolomonEncodingConfig) (self : SliverPair) : outcome RecoverySymbolError bytes :=
  primary ← get_merkle_root c Primary (pr_primary self);
  secondary ← get_merkle_root c Secondary (pr_secondary self);
  Ok (pair_leaf_input {| primary_hash := primary; secondary_hash := secondary |}).

(** ** Verification *)

Definition has_correct_length (c : ReedSolomonEncodingConfig) (e : EncodingAxis) (self : SliverData) (blob_size : Z)
    : guest bool :=
  size ← attempt (sliver_size_for_blob c e blob_size);
  Ok (match size with inr l => zlen (sy_data (sd_symbols self)) =? l | inl _ => false end).
Definition check_hash (c : ReedSolomonEncodingConfig) (e : EncodingAxis) (self : SliverData) (md : BlobMetadata)
    : outcome SliverVerificationError unit :=
  pair_metadata ← expect (get_at (hashes md) (to_pair_index (is_primary e) (sd_index self) (rs_n_shards c)))
    "hash must exist if all size checks have been performed";
  merkle_root ← unwrap (get_merkle_root c e self) "encoding must work if all size checks have been performed";
  ensure (bool_decide (merkle_root = pair_hash pair_metadata e)) MerkleRootMismatch.
Definition sliver_verify (c : ReedSolomonEncodingConfig) (e : EncodingAxis) (self : SliverData) (md : BlobMetadata)
    : outcome SliverVerificationError unit :=
  c' ← get_for_type c (encoding_type md);
  ensure (sd_index self <? zlen (hashes md)) IndexTooLarge ;;
  correct ← no_error (has_correct_length c' e self (unencoded_length md));
  ensure correct SliverSizeMismatch ;;
  size ← attempt (metadata_symbol_size md c);
  ensure (match size with inr size => sy_symbol_size (sd_symbols self) =? size | inl _ => false end) SymbolSizeMismatch ;;
  check_hash c' e self md.

(** [RecoverySymbol::verify] *)
Definition recovery_symbol_verify (e : EncodingAxis) (self : RecoverySymbol) (n_shards expected_symbol_size : Z)
    (md : BlobMetadata) (target_index : Z) : outcome SymbolVerificationError unit :=
  let symbol := rc_symbol self in
  ensure (ds_index symbol <? n_shards) SymbolIndexTooLarge ;;
  ensure (zlen (ds_data symbol) =? expected_symbol_size) SymbolWrongSize ;;
  expected_root ← ok_or (get_sliver_hash md
    (to_pair_index (is_primary (OrthogonalAxis e)) (ds_index symbol) n_shards) (OrthogonalAxis e)) InvalidMetadata;
  map_err (verify_proof (rc_proof self) expected_root (Z.to_nat n_shards) (ds_data symbol) (Z.to_nat target_index))
    InvalidProof.

(** ** Recovery *)

Definition recover_sliver_from_decoding_symbols (c : ReedSolomonEncodingConfig) (e : EncodingAxis)
    (symbols : list DecodingSymbol) (target_index symbol_size : Z) : outcome DecodeError SliverData :=
  ensure (n_symbols_for_recovery c e <=? zlen symbols) DecodingUnsuccessful ;;
  data ← decode_from_decoding_symbols c e symbol_size symbols;
  no_error (sliver_new data symbol_size target_index).
Definition recover_sliver_without_verification (c : ReedSolomonEncodingConfig) (e : EncodingAxis)
    (symbols : list RecoverySymbol) (target_index symbol_size : Z) : outcome DecodeError SliverData :=
  recover_sliver_from_decoding_symbols c e (rc_symbol <$> symbols) target_index symbol_size.
Definition recover_sliver_or_generate_inconsistency_proof (c : ReedSolomonEncodingConfig) (e : EncodingAxis)
    (verified_recovery_symbols : list RecoverySymbol) (target_index : Z) (md : BlobMetadata)
    : outcome SliverRecoveryOrVerificationError SliverOrInconsistencyProof :=
  symbol_size ← map_err (metadata_symbol_size md c) (fun _ => RecoveryError BlobSizeTooLarge);
  c' ← get_for_type c (encoding_type md);
  let symbols := take (Z.to_nat (n_symbols_for_recovery c' e)) verified_recovery_symbols in
  sliver ← map_err (recover_sliver_without_verification c' e symbols target_index symbol_size)
    (fun _ => RecoveryError DecodingFailure);
  verified ← attempt (sliver_verify c e sliver md);
  match verified with
  | inr _ => Ok (Sliver sliver)
  | inl MerkleRootMismatch => Ok (Inconsistent {| target_sliver_index := target_index; recovery_symbols_of := symbols |})
  | inl error => Err (SliverVerificationFailed error)
  end.

(** ** Inconsistency proofs ([inconsistency.rs]) *)

Definition check_recovery_symbols (c : ReedSolomonEncodingConfig) (e : EncodingAxis) (self : InconsistencyProof)
    (md : BlobMetadata) (symbol_size : Z) : outcome InconsistencyVerificationError unit :=
  c' ← get_for_type c (encoding_type md);
  let expected_symbol_count := n_symbols_for_recovery c' e in
  ensure (zlen (recovery_symbols_of self) =? expected_symbol_count)
    (IncorrectSymbolCount expected_symbol_count (zlen (recovery_symbols_of self))) ;;
  ensure (forallb (fun symbol => is_ok (recovery_symbol_verify e symbol (rs_n_shards c) symbol_size md
      (target_sliver_index self))) (recovery_symbols_of self)) InvalidRecoverySymbols.
Definition inconsistency_verify (c : ReedSolomonEncodingConfig) (e : EncodingAxis) (self : InconsistencyProof)
    (md : BlobMetadata) : outcome InconsistencyVerificationError unit :=
  symbol_size ← map_err (metadata_symbol_size md c) (fun _ => RecoveryFailure);
  check_recovery_symbols c e self md symbol_size ;;
  c' ← get_for_type c (encoding_type md);
  sliver ← map_err (recover_sliver_without_verification c' e (recovery_symbols_of self) (target_sliver_index self) symbol_size)
    (fun _ => RecoveryFailure);
  verified ← attempt (sliver_verify c e sliver md);
  match verified with
  | inr _ => Err SliverNotInconsistent
  | inl MerkleRootMismatch => Ok tt
  | inl error => Err (InconsistencySliverError error)
  end.
End Slivers.

(** ** The slivers of an encoded blob *)

Lemma size_list_to_set_le (l : list Z) : (size (list_to_set l : gset Z) <= length l)%nat.
Proof.
  induction l as [|z l IH]; cbn [list_to_set length]; [by rewrite size_empty|].
  pose proof (size_union_alt ({[z]} : gset Z) (list_to_set l)) as ->. rewrite size_singleton.
  pose proof (subseteq_size (list_to_set l ∖ {[z]}) (list_to_set l : gset Z) ltac:(set_solver)). lia.
Qed.
Section Encoded.
Context `{HC : Crypto} {HL : CryptoLaws HC}.
Context `{R : ReedSolomon} `{D : ReedSolomonDecode}
  {RL : ReedSolomonLaws R} {DL : ReedSolomonDecodeLaws R D} {RC : ReedSolomonCommutes R}.
Context (k1 k2 n s : nat) (blob : bytes) (HS : Supported k1 k2 n s blob).
Context (Hsize : symbol_size_for_blob (config k1 k2 n) (zlen blob) = Ok (Z.of_nat s)).
Local Notation mn := (Z.of_nat n).
Local Notation conf := (config k1 k2 n).
Local Notation md := (metadata (committed_metadata k1 k2 n s blob)).
Local Notation sliver := (blob_sliver k1 k2 n s blob).
Local Notation symbol := (sliver_symbol k1 k2 n s blob).
Local Notation count_of := (count_of k1 k2).
Local Notation length_of := (length_of k1 k2).

(** The symbols of sliver [i], and all [n] that it expands to. *)
Definition sliver_source (e : EncodingAxis) (i : nat) : list bytes := (fun j => symbol e j i) <$> seq 0 (length_of e).
Definition expanded (e : EncodingAxis) (i : nat) : list bytes := (fun j => symbol e j i) <$> seq 0 n.
Definition pair_of (e : EncodingAxis) (i : nat) : nat := match e with Primary => i | Secondary => n - 1 - i end.

Lemma sliver_source_sized e i : (i < n)%nat -> length (sliver_source e i) = length_of e /\ sized s (sliver_source e i).
Proof using All.
  intros Hi. unfold sliver_source. rewrite length_fmap, length_seq. split; [done|].
  apply Forall_fmap, Forall_forall. intros j [_ Hj]%elem_of_seq. by apply (sliver_symbol_length k1 k2 n s blob HS).
Qed.
Lemma expanded_length e i : length (expanded e i) = n.
Proof using. unfold expanded. by rewrite length_fmap, length_seq. Qed.
Lemma recovery_lookup k os j x : length os = k -> codeword (Z.of_nat k) mn os !! j = Some x -> (k <= j)%nat ->
  rs_encode (mn - Z.of_nat k) os !!! (j - k)%nat = x.
Proof using.
  intros Hl Hj Hk. apply list_lookup_total_correct. unfold codeword in Hj. rewrite lookup_app_r, Hl in Hj by lia. exact Hj.
Qed.
(** A recovery row is a codeword too: this is where the codec must commute. *)
Lemma recovery_row_codeword i : (k1 <= i < n)%nat ->
  codeword (Z.of_nat k2) mn (sliver_source Primary i) = expanded Primary i.
Proof using All.
  intros Hi. assert (HS' := HS). destruct HS' as [Hk1 Hk2 Hn _ _ _ _].
  destruct (sliver_source_sized Primary i ltac:(lia)) as [Hl Hsz]. cbn [length_of] in Hl.
  destruct (codeword_sized n s k2 (sliver_source Primary i) ltac:(lia) Hl Hsz) as [Hcl _].
  apply list_eq. intros j. destruct (decide (j < n)%nat) as [Hj|Hj]; cycle 1.
  { rewrite !lookup_ge_None_2; [done|rewrite expanded_length; lia|lia]. }
  unfold expanded. rewrite list_lookup_fmap, lookup_seq_lt by done. cbn [fmap option_fmap option_map Nat.add].
  destruct (decide (j < k2)%nat) as [Hjk|Hjk].
  { unfold codeword. rewrite lookup_app_l by lia. unfold sliver_source. cbn [length_of].
    by rewrite list_lookup_fmap, lookup_seq_lt. }
  destruct (lookup_lt_is_Some_2 (codeword (Z.of_nat k2) mn (sliver_source Primary i)) j) as [x Hx]; [lia|].
  rewrite Hx. f_equal. rewrite <- (recovery_lookup k2 _ j x Hl Hx) by lia. cbn [sliver_symbol].
  assert (forall c, (c < n)%nat -> cell k1 k2 n s blob i c = rs_encode (mn - Z.of_nat k1) (column k1 k2 n s blob c) !!! (i - k1)%nat) as Hcell.
  { intros c Hc. destruct (column_sized k1 k2 n s blob HS c Hc) as [Hcol _]. symmetry.
    apply (recovery_lookup k1); [done| |lia]. rewrite (full_column k1 k2 n s blob HS) by done.
    by rewrite list_lookup_fmap, lookup_seq_lt by lia. }
  rewrite (Hcell j) by done. unfold sliver_source. cbn [length_of sliver_symbol].
  pose proof (rs_encode_commutes (mn - Z.of_nat k1) (mn - Z.of_nat k2) k1 k2 s (fun r c => sym k2 s blob r c) (i - k1) (j - k2)
    ltac:(lia) ltac:(lia) ltac:(intros; apply sym_length) ltac:(lia) ltac:(lia)) as Hcom.
  transitivity (rs_encode (mn - Z.of_nat k2) ((fun c => rs_encode (mn - Z.of_nat k1) ((fun r => sym k2 s blob r c) <$> seq 0 k1) !!! (i - k1)%nat)
    <$> seq 0 k2) !!! (j - k2)%nat); [|rewrite Hcom].
  - do 2 f_equal. apply list_fmap_ext. intros c c' [-> Hc]%lookup_seq. cbn. rewrite Hcell by lia.
    by rewrite (column_systematic k1 k2 n s blob HS).
  - do 2 f_equal. unfold column. apply list_fmap_ext. intros r r' [-> Hr]%lookup_seq. cbn.
    destruct (full_row_sized k1 k2 n s blob HS r) as [Hfl _]. destruct (source_row_sized k2 s blob r) as [Hrl _].
    apply (recovery_lookup k2); [done| |lia]. by apply (full_row_lookup k1 k2 n s blob HS).
Qed.
Lemma sliver_expanded e i : (i < n)%nat -> codeword (Z.of_nat (length_of e)) mn (sliver_source e i) = expanded e i.
Proof using All.
  intros Hi. assert (HS' := HS). destruct HS' as [Hk1 Hk2 Hn _ _ _ _]. destruct e; cbn [length_of].
  - destruct (decide (i < k1)%nat) as [Hik|]; [|apply recovery_row_codeword; lia].
    assert (sliver_source Primary i = source_row k2 s blob i) as -> by (by apply (row_systematic k1 k2 n s blob HS)).
    apply list_eq. intros j. unfold expanded. rewrite list_lookup_fmap. destruct (decide (j < n)%nat).
    + rewrite lookup_seq_lt by done. cbn. rewrite (cell_row k1 k2 n s blob HS) by done.
      by apply (full_row_lookup k1 k2 n s blob HS).
    + destruct (full_row_sized k1 k2 n s blob HS i) as [Hfl _]. unfold full_row in Hfl.
      rewrite !lookup_ge_None_2; rewrite ?length_seq; [done|lia..].
  - assert (sliver_source Secondary i = column k1 k2 n s blob i) as ->; [|by apply (full_column k1 k2 n s blob HS)].
    unfold sliver_source, column. apply list_fmap_ext. intros r r' [-> Hr]%lookup_seq. by apply (cell_row k1 k2 n s blob HS).
Qed.

(** *** Hashes *)

Lemma pair_index e i : (i < n)%nat -> to_pair_index (is_primary e) (Z.of_nat i) mn = Z.of_nat (pair_of e i).
Proof using All.
  intros Hi. assert (HS' := HS). destruct HS' as [_ _ Hn _ _ _ _]. destruct e; cbn; [done|].
  unfold to_pair_index. rewrite !wrap_small by (rewrite ?wrap_small; lia). lia.
Qed.
Lemma sliver_index e i : (i < n)%nat -> to_sliver_index (is_primary e) (Z.of_nat i) mn = Z.of_nat (pair_of e i).
Proof using All. exact (pair_index e i). Qed.
Lemma pair_of_lt e i : (i < n)%nat -> (pair_of e i < n)%nat.
Proof using. destruct e; cbn; lia. Qed.
Lemma sliver_hash_at e i : (i < n)%nat ->
  get_sliver_hash md (to_pair_index (is_primary e) (Z.of_nat i) mn) e = Some (root (build (expanded e i))).
Proof using All.
  intros Hi. rewrite pair_index by done. pose proof (pair_of_lt e i Hi). unfold get_sliver_hash.
  assert (get_at (hashes md) (Z.of_nat (pair_of e i)) = Some (pair_roots k1 k2 n s blob (pair_of e i))) as ->.
  { apply get_at_Some. rewrite committed_hashes, length_fmap, length_seq, Nat2Z.id. split; [lia|].
    by rewrite list_lookup_fmap, lookup_seq_lt. }
  cbn [fmap option_fmap option_map]. f_equal. destruct e; [done|]. unfold pair_hash, pair_roots, expanded. cbn.
  do 2 f_equal. apply list_fmap_ext. intros r r' _. f_equal. lia.
Qed.
Lemma n_source_eq e : n_source_symbols conf (OrthogonalAxis e) = Z.of_nat (length_of e).
Proof using. by destruct e. Qed.
Lemma length_range e : (1 <= length_of e <= n)%nat.
Proof using All. exact (proj2 (count_range k1 k2 n s blob HS e)). Qed.
Lemma orthogonal_code e : rs_new (Z.of_nat (length_of e)) (mn - Z.of_nat (length_of e)) (Z.of_nat s) = Ok tt.
Proof using All. pose proof (line_code_supported k1 k2 n s blob HS (OrthogonalAxis e)) as H. by destruct e. Qed.
Lemma recovery_symbols_ok e self : length (sy_data (sd_symbols self)) = (length_of e * s)%nat ->
  recovery_symbols conf e self
  = Ok (sym_list s (codeword (Z.of_nat (length_of e)) mn (chunks s (sy_data (sd_symbols self))))).
Proof using All.
  intros Hl. assert (HS' := HS). destruct HS' as [_ _ Hn [Hs He] _ _ _]. pose proof (length_range e) as Hle.
  set (data := sy_data (sd_symbols self)) in *.
  destruct (chunks_exact_full s (length_of e) data ltac:(lia) Hl) as [_ Hf].
  pose proof (chunks_length s (length_of e) data ltac:(lia) Hl) as Hc.
  destruct (codeword_sized n s (length_of e) (chunks s data) Hle Hc Hf) as [Hwl Hwf].
  unfold recovery_symbols. fold data.
  rewrite (config_encode_all_symbols_ok conf (OrthogonalAxis e) (Z.of_nat s) data)
    by (rewrite ?n_source_eq; cbn [rs_n_shards config]; first [done|apply orthogonal_code|nia]).
  rewrite n_source_eq, Nat2Z.id. cbn [map_err mbind outcome_bind rs_n_shards config sy_data].
  fold (sym_list s (codeword (Z.of_nat (length_of e)) mn (chunks s data))).
  destruct (lookup_lt_is_Some_2 (codeword (Z.of_nat (length_of e)) mn (chunks s data)) 0) as [x Hx]; [lia|].
  pose proof (sized_lookup s _ _ _ Hwf Hx) as Hxl.
  rewrite bool_decide_eq_false_2 by (intros Hnil; apply (f_equal length) in Hnil; rewrite (concat_length s) in Hnil by done; cbn in Hnil; nia).
  cbn [negb assert mbind outcome_bind]. change 0 with (Z.of_nat 0). rewrite (symbols_at_list s _ 0 x Hwf Hx).
  cbn [mbind outcome_bind]. rewrite bool_decide_eq_false_2 by (intros ->; cbn in Hxl; lia). done.
Qed.
Lemma blob_sliver_eq e i : (i < n)%nat ->
  sliver e i = {| sd_symbols := sym_list s (sliver_source e i); sd_index := Z.of_nat i |}.
Proof using All. exact (blob_sliver_symbols k1 k2 n s blob HS e i). Qed.
Lemma blob_sliver_expands e i : (i < n)%nat -> recovery_symbols conf e (sliver e i) = Ok (sym_list s (expanded e i)).
Proof using All.
  intros Hi. destruct (sliver_source_sized e i Hi) as [Hl Hsz]. assert (0 < s)%nat by (exact (s_pos k1 k2 n s blob HS)).
  rewrite recovery_symbols_ok; rewrite blob_sliver_eq by done; cbn [sd_symbols sy_data sym_list].
  - by rewrite chunks_concat, sliver_expanded.
  - rewrite (concat_length s) by done. by rewrite Hl.
Qed.
Lemma expanded_sized e i : (i < n)%nat -> sized s (expanded e i).
Proof using All.
  intros Hi. destruct (sliver_source_sized e i Hi) as [Hl Hsz]. rewrite <- sliver_expanded by done.
  apply (codeword_sized n s); [apply length_range|done|done].
Qed.

(** *** Verification *)

(** The messages hashed for the trees of a sliver and of the encoder's. *)
Definition sliver_msgs (e : EncodingAxis) (x : SliverData) : list bytes :=
  build_msgs (codeword (Z.of_nat (length_of e)) mn (chunks s (sy_data (sd_symbols x))))
    ++ build_msgs (expanded e (Z.to_nat (sd_index x))).

Lemma metadata_symbol_size_ok : metadata_symbol_size md conf = Ok (Z.of_nat s).
Proof using Hsize. exact Hsize. Qed.
Lemma sliver_size_ok e : sliver_size_for_blob conf e (zlen blob) = Ok (Z.of_nat (length_of e * s)).
Proof using All.
  assert (HS' := HS). destruct HS' as [_ _ Hn [Hs _] _ _ _]. pose proof (length_range e).
  unfold sliver_size_for_blob. rewrite Hsize, n_source_eq. cbn [mbind outcome_bind].
  rewrite (proj2 (Z.ltb_lt _ _)) by nia. f_equal. lia.
Qed.
Lemma sliver_root e x : length (sy_data (sd_symbols x)) = (length_of e * s)%nat ->
  get_merkle_root conf e x = Ok (root (build (codeword (Z.of_nat (length_of e)) mn (chunks s (sy_data (sd_symbols x)))))).
Proof using All.
  intros Hl. assert (HS' := HS). destruct HS' as [_ _ _ [Hs _] _ _ _]. unfold get_merkle_root. rewrite recovery_symbols_ok by done. cbn [mbind outcome_bind].
  destruct (chunks_exact_full s (length_of e) _ ltac:(lia) Hl) as [_ Hf].
  pose proof (chunks_length s (length_of e) _ ltac:(lia) Hl) as Hc.
  rewrite to_symbols_list; [done|lia|]. exact (proj2 (codeword_sized n s _ _ (length_range e) Hc Hf)).
Qed.
Lemma same_codeword e x i : (i < n)%nat -> length (sy_data (sd_symbols x)) = (length_of e * s)%nat ->
  sy_symbol_size (sd_symbols x) = Z.of_nat s -> sd_index x = Z.of_nat i ->
  codeword (Z.of_nat (length_of e)) mn (chunks s (sy_data (sd_symbols x))) = expanded e i <-> x = sliver e i.
Proof using All.
  intros Hi Hl Hss Hx. destruct (sliver_source_sized e i Hi) as [Hsl Hsz]. pose proof (s_pos k1 k2 n s blob HS) as Hs.
  pose proof (chunks_length s (length_of e) _ Hs Hl) as Hc. rewrite <- sliver_expanded, blob_sliver_eq by done. split.
  - intros [Heq _]%app_inj_1; [|by rewrite Hc, Hsl]. rewrite <- Heq. destruct x as [[data size] idx]. cbn [sd_symbols sd_index sy_data sy_symbol_size] in *.
    unfold sym_list. by rewrite concat_chunks, Hss, Hx.
  - intros ->. cbn [sd_symbols sy_data sym_list]. by rewrite chunks_concat.
Qed.
(** C20: the verification of a sliver answers an error for each check in turn, and
    accepts the sliver of the encoder and no other, whatever its data, length
    and symbol size, if the messages of its tree and of the encoder's do not
    collide. *)
Theorem sliver_verify_spec e x : 0 <= sd_index x -> collision_free (fun m => m ∈ sliver_msgs e x) ->
  sliver_verify conf e x md
  = if mn <=? sd_index x then Err IndexTooLarge
    else if negb (zlen (sy_data (sd_symbols x)) =? Z.of_nat (length_of e * s)) then Err SliverSizeMismatch
    else if negb (sy_symbol_size (sd_symbols x) =? Z.of_nat s) then Err SymbolSizeMismatch
    else if bool_decide (x = sliver e (Z.to_nat (sd_index x))) then Ok tt else Err MerkleRootMismatch.
Proof using All.
  intros Hx0 HQ. unfold sliver_verify. change (get_for_type conf (encoding_type md)) with (Ok (E := SliverVerificationError) conf).
  cbn [mbind outcome_bind]. rewrite committed_hashes, length_fmap, length_seq. change (unencoded_length md) with (zlen blob).
  destruct (Z.leb_spec mn (sd_index x)) as [Hge|Hlt]; [by rewrite (proj2 (Z.ltb_ge _ _)) by lia|].
  rewrite (proj2 (Z.ltb_lt _ _)) by lia. unfold has_correct_length. rewrite sliver_size_ok, metadata_symbol_size_ok.
  cbn [ensure attempt mbind outcome_bind no_error map_err].
  destruct (Z.eqb_spec (zlen (sy_data (sd_symbols x))) (Z.of_nat (length_of e * s))) as [Hl|]; [|done]. cbn [negb ensure mbind outcome_bind].
  destruct (Z.eqb_spec (sy_symbol_size (sd_symbols x)) (Z.of_nat s)) as [Hss|]; [|done]. cbn [negb ensure mbind outcome_bind].
  apply Nat2Z.inj in Hl. set (i := Z.to_nat (sd_index x)) in *. assert (i < n)%nat as Hi by lia.
  assert (sd_index x = Z.of_nat i) as Hix by lia. pose proof (sliver_hash_at e i Hi) as Hh. unfold get_sliver_hash in Hh.
  apply fmap_Some in Hh as (h & Hget & Hh). unfold check_hash. rewrite Hix. cbn [rs_n_shards config]. rewrite Hget, sliver_root by done.
  cbn [expect unwrap mbind outcome_bind]. rewrite <- Hh.
  rewrite (bool_decide_ext _ (x = sliver e i)).
  { by case_bool_decide. }
  rewrite <- same_codeword by done. split; [|by intros ->]. intros Hr.
  assert (HS' := HS). destruct HS' as [_ _ _ [Hs _] _ _ _].
  destruct (chunks_exact_full s (length_of e) _ ltac:(lia) Hl) as [_ Hf].
  pose proof (chunks_length s (length_of e) _ ltac:(lia) Hl) as Hc.
  refine (build_inj _ _ _ HQ _ _ (f_equal node_bytes Hr)).
  - intros m Hm. unfold sliver_msgs. fold i. exact Hm.
  - rewrite expanded_length. exact (proj1 (codeword_sized n s _ _ (length_range e) Hc Hf)).
Qed.

(** *** Recovery *)

Lemma symbol_transposed e j i : symbol (OrthogonalAxis e) j i = symbol e i j.
Proof using. by destruct e. Qed.
Lemma orthogonal_twice e : OrthogonalAxis (OrthogonalAxis e) = e.
Proof using. by destruct e. Qed.
(** A symbol for sliver [i], unless the decoder drops it. *)
Definition target_symbol (e : EncodingAxis) (i : nat) (x : DecodingSymbol) : Prop :=
  0 <= ds_index x /\
  (length (ds_data x) = s -> ds_index x < mn -> ds_data x = symbol e (Z.to_nat (ds_index x)) i).
Lemma size_symbol_indices symbols : (size (symbol_indices n s symbols) <= length symbols)%nat.
Proof using.
  unfold symbol_indices. etransitivity; [apply size_list_to_set_le|]. etransitivity; [apply length_filter|].
  rewrite length_fmap. apply length_filter.
Qed.
Lemma recover_ok e i symbols : (i < n)%nat -> Forall (target_symbol e i) symbols ->
  if Z.of_nat (length_of e) <=? Z.of_nat (size (symbol_indices n s symbols))
  then recover_sliver_from_decoding_symbols conf e symbols (Z.of_nat i) (Z.of_nat s) = Ok (sliver e i)
  else exists err, recover_sliver_from_decoding_symbols conf e symbols (Z.of_nat i) (Z.of_nat s) = Err err.
Proof using All.
  intros Hi Hsy. pose proof (s_pos k1 k2 n s blob HS) as Hs. destruct (sliver_source_sized e i Hi) as [Hl Hf].
  pose proof (length_range e) as Hle. pose proof (orthogonal_code e) as Hnew.
  pose proof (decode_line_symbols (length_of e) n s (sliver_source e i) Hle Hs Hl Hf Hnew (fresh_decoder (length_of e) n s) symbols
    (fresh_keeps _ n s _ Hle Hs Hl Hf Hnew)) as Hdec.
  assert (known (length_of e) n (fresh_decoder (length_of e) n s) = ∅) as Hk by (unfold known, fresh_decoder, provided; cbn; set_solver).
  rewrite Hk, (right_id_L ∅ (∪)) in Hdec.
  assert (Forall (line_symbol (length_of e) n s (sliver_source e i)) symbols) as Hline.
  { eapply Forall_impl; [exact Hsy|]. intros x [Hx Hxd]. split; [done|]. intros Hxl Hxn. rewrite sliver_expanded by done.
    unfold expanded. rewrite list_lookup_fmap, lookup_seq_lt by lia. cbn. by rewrite <- Hxd. }
  specialize (Hdec Hline). unfold recover_sliver_from_decoding_symbols, n_symbols_for_recovery, decode_from_decoding_symbols, get_decoder.
  rewrite n_source_eq. unfold decoder_new. cbn [rs_n_shards config]. rewrite (rs_decoder_new_ok _ _ _ Hnew). cbn [map_err mbind outcome_bind].
  fold (fresh_decoder (length_of e) n s). pose proof (size_symbol_indices symbols) as Hsz.
  destruct (Z.leb_spec (Z.of_nat (length_of e)) (Z.of_nat (size (symbol_indices n s symbols)))) as [Hge|Hlt].
  - rewrite (proj2 (Z.leb_le _ _)) by lia. cbn [ensure mbind outcome_bind]. unfold decode_or_fail. rewrite Hdec.
    cbn [no_error map_err mbind outcome_bind]. unfold sliver_new, symbols_new. rewrite (concat_length s), Hl by done.
    rewrite (proj2 (Z.eqb_eq _ 0)) by (rewrite Nat2Z.inj_mul; apply Z_mod_mult).
    cbn [assert mbind outcome_bind map_err]. by rewrite blob_sliver_eq.
  - destruct (Z.leb_spec (Z.of_nat (length_of e)) (zlen symbols)); cbn [ensure mbind outcome_bind]; [|by eexists].
    destruct Hdec as (d' & err & Hdec & _). exists err. unfold decode_or_fail. rewrite Hdec. done.
Qed.
Lemma verify_encoder_sliver e i : (i < n)%nat -> sliver_verify conf e (sliver e i) md = Ok tt.
Proof using All.
  intros Hi. destruct (sliver_source_sized e i Hi) as [Hl Hf]. unfold sliver_verify.
  change (get_for_type conf (encoding_type md)) with (Ok (E := SliverVerificationError) conf).
  cbn [mbind outcome_bind]. rewrite committed_hashes, length_fmap, length_seq. change (unencoded_length md) with (zlen blob).
  unfold has_correct_length, check_hash. rewrite sliver_size_ok, metadata_symbol_size_ok.
  cbn [ensure attempt mbind outcome_bind no_error map_err]. pose proof (sliver_hash_at e i Hi) as Hh. unfold get_sliver_hash in Hh.
  apply fmap_Some in Hh as (h & Hget & Hh). rewrite blob_sliver_eq by done.
  cbn [sd_index sd_symbols sy_data sy_symbol_size sym_list]. rewrite (concat_length s), Hl by done.
  rewrite (proj2 (Z.ltb_lt _ _)), !Z.eqb_refl by lia. cbn [ensure mbind outcome_bind rs_n_shards config]. rewrite Hget.
  rewrite sliver_root by (cbn [sd_symbols sy_data sym_list]; by rewrite (concat_length s), Hl).
  cbn [sd_symbols sy_data sym_list unwrap expect mbind outcome_bind]. pose proof (s_pos k1 k2 n s blob HS).
  rewrite chunks_concat, sliver_expanded, <- Hh by done. by rewrite bool_decide_eq_true_2.
Qed.

(** The recovery symbol that sliver [i] of the other axis gives to sliver [t]. *)
Lemma recovery_symbol_ok e i t : (i < n)%nat -> (t < n)%nat -> exists proof,
  recovery_symbol_for_sliver conf (OrthogonalAxis e) (sliver (OrthogonalAxis e) i) (Z.of_nat (pair_of e t))
  = Ok {| rc_symbol := {| ds_index := Z.of_nat i; ds_data := symbol e i t |}; rc_proof := proof |} /\
  recovery_symbol_verify e {| rc_symbol := {| ds_index := Z.of_nat i; ds_data := symbol e i t |}; rc_proof := proof |}
    mn (Z.of_nat s) md (Z.of_nat t) = Ok tt.
Proof using All.
  intros Hi Ht. pose proof (pair_of_lt e t Ht) as Hp. pose proof (expanded_sized (OrthogonalAxis e) i Hi) as Hsz.
  assert (expanded (OrthogonalAxis e) i !! t = Some (symbol e i t)) as Hx
    by (unfold expanded; rewrite list_lookup_fmap, lookup_seq_lt by done; cbn; by rewrite symbol_transposed).
  destruct (get_proof_complete (leaf_hash <$> expanded (OrthogonalAxis e) i) t (symbol e i t)) as (path & Hget & _ & Hver);
    [by rewrite list_lookup_fmap, Hx|].
  exists path. split.
  - unfold recovery_symbol_for_sliver, check_index, decoding_symbol_at. rewrite blob_sliver_expands by done.
    cbn [rs_n_shards config]. rewrite (proj2 (Z.ltb_lt _ _)) by lia. cbn [ensure mbind outcome_bind].
    rewrite orthogonal_twice, sliver_index by done.
    assert (pair_of e (pair_of e t) = t) as -> by (destruct e; cbn; lia). rewrite (symbols_at_list s _ t _ Hsz Hx).
    cbn [mbind outcome_bind expect]. rewrite to_symbols_list by (done || exact (s_pos k1 k2 n s blob HS)).
    rewrite Nat2Z.id. unfold build. rewrite Hget. cbn [unwrap mbind outcome_bind]. by rewrite blob_sliver_eq.
  - unfold recovery_symbol_verify. cbn [rc_symbol ds_index ds_data rc_proof]. rewrite (proj2 (Z.ltb_lt _ _)) by lia.
    rewrite (sized_lookup s _ _ _ Hsz Hx), Z.eqb_refl, sliver_hash_at by done. cbn [ensure ok_or mbind outcome_bind].
    rewrite !Nat2Z.id. rewrite length_fmap, expanded_length in Hver. unfold build. by rewrite Hver.
Qed.

Lemma symbol_indices_sized symbols : Forall (fun x => 0 <= ds_index x < mn /\ length (ds_data x) = s) symbols ->
  symbol_indices n s symbols = list_to_set (ds_index <$> symbols).
Proof using.
  intros H. unfold symbol_indices. rewrite (list_filter_all (fun x => length (ds_data x) = s)), list_filter_all; [done|..].
  - apply Forall_fmap. eapply Forall_impl; [exact H|]. intros x [Hx _]. exact Hx.
  - eapply Forall_impl; [exact H|]. by intros x [_ Hx].
Qed.
(** C18: what the slivers [l] of the other axis give recovers a sliver: each symbol
    passes its verification, and from the first of them, as many as a sliver has
    symbols, comes the sliver of the encoder if they are of distinct slivers; if
    not, even if other symbols follow, the result is [DecodingFailure].  There is
    never an inconsistency proof. *)
Theorem sliver_recovery_roundtrip e t l : (t < n)%nat -> Forall (fun i => (i < n)%nat) l -> exists symbols,
  omapM (fun i => recovery_symbol_for_sliver conf (OrthogonalAxis e) (sliver (OrthogonalAxis e) i) (Z.of_nat (pair_of e t))) l
    = Ok symbols /\
  Forall (fun x => recovery_symbol_verify e x mn (Z.of_nat s) md (Z.of_nat t) = Ok tt) symbols /\
  recover_sliver_or_generate_inconsistency_proof conf e symbols (Z.of_nat t) md
  = if (length_of e <=? size (list_to_set (Z.of_nat <$> take (length_of e) l) : gset Z))%nat
    then Ok (Sliver (sliver e t)) else Err (RecoveryError DecodingFailure).
Proof using All.
  intros Ht Hl.
  assert (exists symbols, Forall2 (fun i x => recovery_symbol_for_sliver conf (OrthogonalAxis e) (sliver (OrthogonalAxis e) i) (Z.of_nat (pair_of e t)) = Ok x /\
    (rc_symbol x = {| ds_index := Z.of_nat i; ds_data := symbol e i t |} /\
     recovery_symbol_verify e x mn (Z.of_nat s) md (Z.of_nat t) = Ok tt)) l symbols) as [symbols Hsy].
  { induction Hl as [|i l Hi _ [symbols IH]]; [by exists []|]. destruct (recovery_symbol_ok e i t Hi Ht) as (proof & H1 & H2).
    eexists (_ :: symbols). constructor; [|done]. split; [exact H1|done]. }
  exists symbols. split; [apply omapM_Ok; eapply Forall2_impl; [exact Hsy|]; by intros i x [? _]|].
  split; [eapply Forall2_Forall_r; [exact Hsy|]; by apply Forall_true; intros i x (_ & _ & ?)|].
  assert (rc_symbol <$> symbols = (fun i => {| ds_index := Z.of_nat i; ds_data := symbol e i t |}) <$> l) as Hsym.
  { clear - Hsy. induction Hsy as [|i x l symbols (_ & Hx & _) _ IH]; [done|]. by rewrite !fmap_cons, Hx, IH. }
  unfold recover_sliver_or_generate_inconsistency_proof. rewrite metadata_symbol_size_ok. cbn [map_err mbind outcome_bind].
  change (get_for_type conf (encoding_type md)) with (Ok (E := SliverRecoveryOrVerificationError) conf). cbn [mbind outcome_bind].
  unfold recover_sliver_without_verification, n_symbols_for_recovery. rewrite n_source_eq, Nat2Z.id, fmap_take, Hsym, <- fmap_take.
  assert (Forall (fun i => (i < n)%nat) (take (length_of e) l)) as Hl' by by apply Forall_take.
  set (picked := (fun i => {| ds_index := Z.of_nat i; ds_data := symbol e i t |}) <$> take (length_of e) l).
  assert (Forall (fun i => length (symbol e i t) = s) (take (length_of e) l)) as Hlen.
  { eapply Forall_impl; [exact Hl'|]. intros i Hi. rewrite <- symbol_transposed.
    eapply (sized_lookup s (expanded (OrthogonalAxis e) i) t); [by apply expanded_sized|].
    unfold expanded. by rewrite list_lookup_fmap, lookup_seq_lt. }
  pose proof (recover_ok e t picked Ht) as Hrec. rewrite symbol_indices_sized in Hrec; cycle 1.
  { apply Forall_fmap. rewrite Forall_forall in *. intros i Hi. specialize (Hlen i Hi). specialize (Hl' i Hi). cbn. lia. }
  unfold picked in Hrec at 1 2. rewrite <- list_fmap_compose in Hrec.
  specialize (Hrec ltac:(apply Forall_fmap; eapply Forall_impl; [exact Hl'|]; intros i Hi; split; [cbn; lia|];
    intros _ _; cbn; by rewrite Nat2Z.id)).
  change ((ds_index ∘ _) <$> _) with (Z.of_nat <$> take (length_of e) l) in Hrec.
  destruct (Z.leb_spec (Z.of_nat (length_of e)) (Z.of_nat (size (list_to_set (C := gset Z) (Z.of_nat <$> take (length_of e) l))))).
  - rewrite (proj2 (Nat.leb_le _ _)), Hrec by lia. cbn [map_err mbind outcome_bind]. by rewrite verify_encoder_sliver.
  - rewrite (proj2 (Nat.leb_gt _ _)) by lia. by destruct Hrec as [err ->].
Qed.

(** *** Inconsistency proofs *)

(** The messages hashed to check a recovery symbol for sliver [t], and for the
    tree it is checked against. *)
Definition symbol_msgs (e : EncodingAxis) (t : Z) (x : RecoverySymbol) : list bytes :=
  build_msgs (expanded (OrthogonalAxis e) (Z.to_nat (ds_index (rc_symbol x))))
    ++ verify_msgs (rc_proof x) (ds_data (rc_symbol x)) (Z.to_nat t).
Definition proof_msgs (e : EncodingAxis) (p : InconsistencyProof) : list bytes :=
  concat (symbol_msgs e (target_sliver_index p) <$> recovery_symbols_of p).
(** Indices are not negative and nodes are digests of 32 bytes. *)
Definition well_typed (x : RecoverySymbol) : Prop := 0 <= ds_index (rc_symbol x) /\ Forall node_ok (rc_proof x).

Lemma verified_symbol Q e x t : collision_free Q -> (forall m, m ∈ symbol_msgs e t x -> Q m) -> well_typed x ->
  recovery_symbol_verify e x mn (Z.of_nat s) md t = Ok tt ->
  0 <= ds_index (rc_symbol x) < mn /\ length (ds_data (rc_symbol x)) = s /\ (Z.to_nat t < n)%nat /\
  ds_data (rc_symbol x) = symbol e (Z.to_nat (ds_index (rc_symbol x))) (Z.to_nat t).
Proof using All.
  intros HQ Hin [Hi Hp] Hv. unfold recovery_symbol_verify in Hv. unfold symbol_msgs in Hin.
  set (i := Z.to_nat (ds_index (rc_symbol x))) in *.
  destruct (Z.ltb_spec (ds_index (rc_symbol x)) mn) as [Hlt|]; [|done]. cbn [ensure mbind outcome_bind] in Hv.
  destruct (Z.eqb_spec (zlen (ds_data (rc_symbol x))) (Z.of_nat s)) as [Hsz|]; [|done]. cbn [ensure mbind outcome_bind] in Hv.
  assert (ds_index (rc_symbol x) = Z.of_nat i) as Hix by lia. assert (i < n)%nat as Hin' by lia.
  rewrite Hix, sliver_hash_at in Hv by done. cbn [ok_or mbind outcome_bind] in Hv. apply map_err_Ok in Hv.
  rewrite Nat2Z.id in Hv. pose proof (verify_proof_leaf Q (expanded (OrthogonalAxis e) i) (rc_proof x)
    (ds_data (rc_symbol x)) (Z.to_nat t) HQ Hin) as Hleaf. rewrite expanded_length in Hleaf.
  specialize (Hleaf ltac:(intros Hnil; apply (f_equal length) in Hnil; rewrite expanded_length in Hnil; cbn in Hnil; lia) Hp Hv).
  unfold expanded in Hleaf. rewrite list_lookup_fmap in Hleaf. destruct (seq 0 n !! Z.to_nat t) as [j|] eqn:Hj; [|done].
  apply lookup_seq in Hj as [-> Ht]. cbn in Hleaf. injection Hleaf as Hleaf. rewrite symbol_transposed in Hleaf.
  split; [lia|]. split; [lia|]. split; [done|]. by rewrite <- Hleaf.
Qed.
(** C19: no inconsistency proof is accepted for the metadata of an encoded blob,
    whatever symbols it holds: the verification never panics, and answers which
    of its conditions fails; symbols that are all valid and distinct decode to
    the encoder's sliver, which is consistent. *)
Theorem no_false_inconsistency e p :
  Forall well_typed (recovery_symbols_of p) -> 0 <= target_sliver_index p ->
  collision_free (fun m => m ∈ proof_msgs e p) ->
  inconsistency_verify conf e p md = Err (
    if negb (zlen (recovery_symbols_of p) =? Z.of_nat (length_of e))
    then IncorrectSymbolCount (Z.of_nat (length_of e)) (zlen (recovery_symbols_of p))
    else if negb (forallb (fun x => is_ok (recovery_symbol_verify e x mn (Z.of_nat s) md (target_sliver_index p))) (recovery_symbols_of p))
    then InvalidRecoverySymbols
    else if negb (size (list_to_set (ds_index <$> (rc_symbol <$> recovery_symbols_of p)) : gset Z) =? length_of e)%nat
    then RecoveryFailure
    else SliverNotInconsistent).
Proof using All.
  intros Hw Ht HQ. unfold inconsistency_verify. rewrite metadata_symbol_size_ok. cbn [map_err mbind outcome_bind].
  unfold check_recovery_symbols, n_symbols_for_recovery.
  change (get_for_type (E := ?E) conf (encoding_type md)) with (Ok (E := E) conf). cbn [mbind outcome_bind rs_n_shards config].
  rewrite n_source_eq.
  destruct (Z.eqb_spec (zlen (recovery_symbols_of p)) (Z.of_nat (length_of e))) as [Hc|]; [|done]. cbn [negb ensure mbind outcome_bind].
  destruct (forallb _ (recovery_symbols_of p)) eqn:Hall; [|done]. cbn [negb ensure mbind outcome_bind].
  assert (Forall (fun x => (Z.to_nat (target_sliver_index p) < n)%nat /\ (0 <= ds_index x < mn /\ length (ds_data x) = s) /\
    target_symbol e (Z.to_nat (target_sliver_index p)) x) (rc_symbol <$> recovery_symbols_of p)) as Hsy.
  { apply Forall_fmap. apply (forallb_Forall _ (fun x => recovery_symbol_verify e x mn (Z.of_nat s) md (target_sliver_index p) = Ok tt)) in Hall;
      [|intros x Hx; by destruct (recovery_symbol_verify _ _ _ _ _ _) as [[]|?|?|]].
    rewrite Forall_forall in *. intros x Hx.
    destruct (verified_symbol _ e x (target_sliver_index p) HQ) as (H1 & H2 & H3 & H4); [|by apply Hw|by apply Hall|].
    - intros m Hm. unfold proof_msgs. apply list_elem_of_In, in_concat. exists (symbol_msgs e (target_sliver_index p) x).
      split; [|by apply list_elem_of_In]. apply list_elem_of_In, list_elem_of_fmap. eauto.
    - split; [done|]. split; [done|]. split; [lia|]. intros _ _. exact H4. }
  assert (Z.to_nat (target_sliver_index p) < n)%nat as Htn.
  { pose proof (length_range e). destruct (recovery_symbols_of p) as [|x l]; [cbn in Hc; lia|].
    by apply Forall_cons in Hsy as [[? _] _]. }
  pose proof (recover_ok e (Z.to_nat (target_sliver_index p)) (rc_symbol <$> recovery_symbols_of p) Htn) as Hrec.
  specialize (Hrec ltac:(eapply Forall_impl; [exact Hsy|]; by intros x (_ & _ & ?))).
  rewrite symbol_indices_sized in Hrec by (eapply Forall_impl; [exact Hsy|]; by intros x (_ & ? & _)).
  rewrite Z2Nat.id in Hrec by done. unfold recover_sliver_without_verification.
  pose proof (size_list_to_set_le (ds_index <$> (rc_symbol <$> recovery_symbols_of p))) as Hle. rewrite !length_fmap in Hle.
  destruct (Z.leb_spec (Z.of_nat (length_of e)) (Z.of_nat (size (list_to_set (C := gset Z) (ds_index <$> (rc_symbol <$> recovery_symbols_of p)))))).
  - rewrite (proj2 (Nat.eqb_eq _ _)), Hrec by lia. cbn [negb map_err mbind outcome_bind]. by rewrite verify_encoder_sliver.
  - rewrite (proj2 (Nat.eqb_neq _ _)) by lia. by destruct Hrec as [err ->].
Qed.
End Encoded.

(** ** Generated inconsistency proofs *)

(** for any metadata and any symbols that pass their verification, the
    inconsistency proof that a failed recovery generates is accepted. *)
Theorem generated_proof_verifies `{HC : Crypto} `{R : ReedSolomon} `{D : ReedSolomonDecode} c e symbols target_index md symbol_size p :
  0 <= n_symbols_for_recovery c e -> metadata_symbol_size md c = Ok symbol_size ->
  Forall (fun x => recovery_symbol_verify e x (rs_n_shards c) symbol_size md target_index = Ok tt) symbols ->
  recover_sliver_or_generate_inconsistency_proof c e symbols target_index md = Ok (Inconsistent p) ->
  inconsistency_verify c e p md = Ok tt.
Proof.
  intros Hk0 Hsize Hv Hg. unfold recover_sliver_or_generate_inconsistency_proof in Hg. unfold inconsistency_verify, check_recovery_symbols.
  rewrite Hsize in *. cbn [map_err mbind outcome_bind] in *.
  destruct (encoding_type md); cbn [get_for_type mbind outcome_bind] in *; [done|].
  set (k := n_symbols_for_recovery c e) in *. set (picked := take (Z.to_nat k) symbols) in *.
  destruct (recover_sliver_without_verification c e picked target_index symbol_size) as [x| | |] eqn:Hrec; try done.
  cbn [map_err mbind outcome_bind] in Hg.
  assert (k <= zlen picked) as Hk.
  { unfold recover_sliver_without_verification, recover_sliver_from_decoding_symbols in Hrec. fold k in Hrec.
    rewrite length_fmap in Hrec. destruct (Z.leb_spec k (zlen picked)); done. }
  destruct (sliver_verify c e x md) as [[]|err| |] eqn:Hver; try done. cbn [attempt mbind outcome_bind] in Hg.
  destruct err; try done. injection Hg as <-. cbn [recovery_symbols_of target_sliver_index].
  assert (zlen picked = k) as -> by (unfold picked in *; rewrite length_take in *; lia).
  rewrite Z.eqb_refl. cbn [ensure mbind outcome_bind].
  assert (forallb (fun x => is_ok (recovery_symbol_verify e x (rs_n_shards c) symbol_size md target_index)) picked = true) as ->.
  { apply forallb_forall. intros y Hy%list_elem_of_In%elem_of_take. destruct Hy as (i & Hy & _).
    rewrite Forall_lookup in Hv. by rewrite (Hv i y Hy). }
  cbn [ensure mbind outcome_bind]. rewrite Hrec. cbn [map_err mbind outcome_bind]. by rewrite Hver.
Qed.

(** ** A concrete codec *)

Lemma xor_symbols_zip {A} s (g h : A -> bytes) l :
  xor_symbols s ((fun c => zip_with Z.lxor (g c) (h c)) <$> l)
  = zip_with Z.lxor (xor_symbols s (g <$> l)) (xor_symbols s (h <$> l)).
Proof.
  unfold xor_symbols. induction l as [|c l IH]; cbn; [by rewrite zip_with_replicate|].
  rewrite IH. set (G := fold_right _ _ _). set (H := fold_right _ _ _).
  by rewrite <- !zip_lxor_assoc, (zip_lxor_assoc (h c)), (zip_lxor_comm (h c)), <- zip_lxor_assoc.
Qed.
Lemma xor_symbols_swap {A B} s (f : A -> B -> bytes) l m :
  xor_symbols s ((fun c => xor_symbols s ((fun r => f r c) <$> l)) <$> m)
  = xor_symbols s ((fun r => xor_symbols s (f r <$> m)) <$> l).
Proof.
  induction l as [|r l IH]; cbn [fmap list_fmap].
  - unfold xor_symbols. induction m as [|c m IH]; cbn in *; [done|]. rewrite IH. by rewrite zip_with_replicate.
  - change (xor_symbols s (xor_symbols s (f r <$> m) :: ((fun r => xor_symbols s (f r <$> m)) <$> l)))
      with (zip_with Z.lxor (xor_symbols s (f r <$> m)) (xor_symbols s ((fun r => xor_symbols s (f r <$> m)) <$> l))).
    rewrite <- IH. apply xor_symbols_zip.
Qed.
Lemma parity_rs_commutes : ReedSolomonCommutes parity_rs.
Proof.
  intros a b k1 k2 s f i j Hk1 Hk2 Hf Hi Hj. cbn [rs_encode parity_rs].
  assert (forall {A} (g : nat -> list A) k, (0 < k)%nat -> hd [] (g <$> seq 0 k) = g 0%nat) as Hhd by (by intros A g [|k]; [lia|]).
  assert (forall c, length (hd [] ((fun r => f r c) <$> seq 0 k1)) = s) as H1 by (intros c; by rewrite Hhd).
  assert (forall r, length (hd [] (f r <$> seq 0 k2)) = s) as H2 by (intros r; by rewrite Hhd).
  assert (forall (g : nat -> bytes) l, (forall x, length (g x) = s) -> sized s (g <$> l)) as Hsz
    by (intros g l Hg; by apply Forall_fmap, Forall_true).
  rewrite (list_fmap_ext _ (fun c => xor_symbols s ((fun r => f r c) <$> seq 0 k1)))
    by (intros; rewrite lookup_total_replicate_2 by done; by rewrite H1).
  rewrite (list_fmap_ext (fun r => _ !!! j) (fun r => xor_symbols s (f r <$> seq 0 k2)))
    by (intros; rewrite lookup_total_replicate_2 by done; by rewrite H2).
  rewrite !lookup_total_replicate_2, !Hhd, !xor_symbols_length by (done || by apply Hsz). apply xor_symbols_swap.
Qed.

Section ParitySlivers.
Local Existing Instance parity_rs.
Local Existing Instance parity_rs_laws.
Local Existing Instance parity_decode.
Local Existing Instance parity_decode_laws.
Local Existing Instance parity_rs_commutes.
Local Notation three_metadata := (metadata (committed_metadata 1 2 3 2 three_bytes)).
(** A secondary sliver with a wrong byte. *)
Definition wrong_sliver : SliverData := {| sd_symbols := {| sy_data := [1; 3]; sy_symbol_size := 2 |}; sd_index := 0 |}.
Lemma sliver_verify_spec_witness : sliver_verify three_shards Secondary wrong_sliver three_metadata = Err MerkleRootMismatch.
Proof.
  rewrite (sliver_verify_spec 1 2 3 2 three_bytes three_supported eq_refl Secondary wrong_sliver).
  - reflexivity.
  - cbn. lia.
  - apply collision_free_list_ok. vm_compute. reflexivity.
Defined.
Lemma sliver_recovery_roundtrip_witness : exists symbols,
  recover_sliver_or_generate_inconsistency_proof three_shards Primary symbols 2 three_metadata
  = Ok (Sliver (blob_sliver 1 2 3 2 three_bytes Primary 2)).
Proof.
  destruct (sliver_recovery_roundtrip 1 2 3 2 three_bytes three_supported eq_refl Primary 2 [2; 0]%nat) as (symbols & _ & _ & H);
    [lia|repeat constructor|]. exists symbols. exact H.
Defined.
(** A proof that repeats one valid symbol. *)
Definition repeated_proof : InconsistencyProof :=
  match recovery_symbol_for_sliver three_shards Secondary (blob_sliver 1 2 3 2 three_bytes Secondary 2) 0 with
  | Ok x => {| target_sliver_index := 0; recovery_symbols_of := [x; x] |}
  | _ => {| target_sliver_index := 0; recovery_symbols_of := [] |}
  end.
Lemma no_false_inconsistency_witness :
  inconsistency_verify three_shards Primary repeated_proof three_metadata = Err RecoveryFailure.
Proof.
  rewrite (no_false_inconsistency 1 2 3 2 three_bytes three_supported eq_refl Primary repeated_proof).
  - vm_compute. reflexivity.
  - vm_compute. repeat first [discriminate|constructor].
  - vm_compute. discriminate.
  - apply collision_free_list_ok. vm_compute. reflexivity.
Defined.
(** Metadata that commits to the recovery sliver of another blob. *)
Definition inconsistent_metadata : BlobMetadata :=
  {| encoding_type := RS2; unencoded_length := 3;
     hashes := (fun '(i, h) => if decide (i = 2)%nat then {| primary_hash := Empty; secondary_hash := secondary_hash h |} else h)
       <$> imap pair (hashes three_metadata) |}.
Definition valid_symbols : list RecoverySymbol :=
  match omapM (fun i => recovery_symbol_for_sliver three_shards Secondary (blob_sliver 1 2 3 2 three_bytes Secondary i) 2) [1; 2]%nat with
  | Ok l => l
  | _ => []
  end.
Definition true_inconsistency : InconsistencyProof := {| target_sliver_index := 2; recovery_symbols_of := valid_symbols |}.
Lemma generated_proof_verifies_witness :
  inconsistency_verify three_shards Primary true_inconsistency inconsistent_metadata = Ok tt.
Proof.
  apply (generated_proof_verifies three_shards Primary valid_symbols 2 inconsistent_metadata 2).
  - vm_compute. discriminate.
  - reflexivity.
  - repeat constructor; vm_compute; reflexivity.
  - vm_compute. reflexivity.
Defined.
End ParitySlivers.
