(* ===== verification/GeneralSymbols.v ===== *)
(** Recovery symbols of either axis ([GeneralRecoverySymbol] in
    [encoding/symbols.rs] of [walrus-core]).

    A symbol lies on a primary and on a secondary sliver and can be used to
    recover both; its proof is against the root of one of them, the source.  A
    [SliverType] is an axis. *)
From S2P Require Import Prelude Crypto WalrusMerkle WalrusConfig Rslh WalrusOpen ReedSolomon BlobEncoding BlobMatrix Decoder Slivers.

Inductive EitherDecodingSymbol :=
  | PrimaryDecodingSymbol (symbol : DecodingSymbol)
  | SecondaryDecodingSymbol (symbol : DecodingSymbol).
Record SymbolId := {
  id_primary : Z;
  id_secondary : Z;
}.
Record GeneralRecoverySymbol := {
  gs_symbol : EitherDecodingSymbol;
  gs_target_index : Z;
  gs_proof : list Node;
}.

Definition sliver_index_of (id : SymbolId) (sliver_type : EncodingAxis) : Z :=
  match sliver_type with Primary => id_primary id | Secondary => id_secondary id end.
Definition either_symbol (e : EncodingAxis) (symbol : DecodingSymbol) : EitherDecodingSymbol :=
  match e with Primary => PrimaryDecodingSymbol symbol | Secondary => SecondaryDecodingSymbol symbol end.
Definition either_inner (s : EitherDecodingSymbol) : DecodingSymbol :=
  match s with PrimaryDecodingSymbol symbol | SecondaryDecodingSymbol symbol => symbol end.
Definition source_type (s : EitherDecodingSymbol) : EncodingAxis :=
  match s with PrimaryDecodingSymbol _ => Secondary | SecondaryDecodingSymbol _ => Primary end.
Definition source_index (s : EitherDecodingSymbol) : Z := ds_index (either_inner s).

Definition general_id (g : GeneralRecoverySymbol) : SymbolId :=
  match gs_symbol g with
  | PrimaryDecodingSymbol symbol => {| id_primary := gs_target_index g; id_secondary := ds_index symbol |}
  | SecondaryDecodingSymbol symbol => {| id_primary := ds_index symbol; id_secondary := gs_target_index g |}
  end.
Definition proof_axis (g : GeneralRecoverySymbol) : EncodingAxis :=
  match gs_symbol g with PrimaryDecodingSymbol _ => Secondary | SecondaryDecodingSymbol _ => Primary end.
Definition from_recovery_symbol (e : EncodingAxis) (symbol : RecoverySymbol) (target_index : Z) : GeneralRecoverySymbol :=
  {| gs_symbol := either_symbol e (rc_symbol symbol); gs_target_index := target_index; gs_proof := rc_proof symbol |}.
(** [From<GeneralRecoverySymbol>] for the decoding symbols of an axis. *)
Definition into_decoding_symbol (e : EncodingAxis) (g : GeneralRecoverySymbol) : DecodingSymbol :=
  match e, gs_symbol g with
  | Primary, PrimaryDecodingSymbol symbol | Secondary, SecondaryDecodingSymbol symbol => symbol
  | Primary, SecondaryDecodingSymbol symbol | Secondary, PrimaryDecodingSymbol symbol =>
      {| ds_index := gs_target_index g; ds_data := ds_data symbol |}
  end.
Definition get_expected_root (g : GeneralRecoverySymbol) (md : BlobMetadata) (n_shards : Z) : option Node :=
  let source_sliver_type := source_type (gs_symbol g) in
  get_sliver_hash md (to_pair_index (is_primary source_sliver_type) (source_index (gs_symbol g)) n_shards) source_sliver_type.
Definition usable (g : GeneralRecoverySymbol) (target_index : Z) (target_type : EncodingAxis) : bool :=
  (bool_decide (source_type (gs_symbol g) <> target_type) && (gs_target_index g =? target_index))
  || (source_index (gs_symbol g) =? target_index).

Section GeneralSymbol.
Context `{HC : Crypto}.
Definition general_verify (g : GeneralRecoverySymbol) (md : BlobMetadata) (c : ReedSolomonEncodingConfig)
    (target_index : Z) (target_type : EncodingAxis) : outcome SymbolVerificationError unit :=
  let n_shards := rs_n_shards c in
  ensure (source_index (gs_symbol g) <? n_shards) SymbolIndexTooLarge ;;
  ensure (gs_target_index g <? n_shards) SymbolIndexTooLarge ;;
  size ← attempt (metadata_symbol_size md c);
  ensure (match size with inr s => zlen (ds_data (either_inner (gs_symbol g))) =? s | inl _ => false end) SymbolWrongSize ;;
  ensure (usable g target_index target_type) SymbolNotUsable ;;
  expected_root ← ok_or (get_expected_root g md n_shards) InvalidMetadata;
  map_err (verify_proof (gs_proof g) expected_root (Z.to_nat n_shards) (ds_data (either_inner (gs_symbol g)))
    (Z.to_nat (gs_target_index g))) InvalidProof.
End GeneralSymbol.

Section Encoded.
Context `{HC : Crypto} {HL : CryptoLaws HC}.
Context `{R : ReedSolomon} `{D : ReedSolomonDecode}
  {RL : ReedSolomonLaws R} {DL : ReedSolomonDecodeLaws R D} {RC : ReedSolomonCommutes R}.
Context (k1 k2 n s : nat) (blob : bytes) (HS : Supported k1 k2 n s blob).
Context (Hsize : symbol_size_for_blob (config k1 k2 n) (zlen blob) = Ok (Z.of_nat s)).
Local Notation mn := (Z.of_nat n).
Local Notation conf := (config k1 k2 n).
Local Notation md := (metadata (committed_metadata k1 k2 n s blob)).

(** The axis of the sliver that the symbol was made to recover. *)
Definition symbol_axis (g : GeneralRecoverySymbol) : EncodingAxis := OrthogonalAxis (source_type (gs_symbol g)).
(** The recovery symbol of that axis. *)
Definition as_recovery_symbol (g : GeneralRecoverySymbol) : RecoverySymbol :=
  {| rc_symbol := either_inner (gs_symbol g); rc_proof := gs_proof g |}.
Lemma general_verify_eq g t T : 
  general_verify g md conf t T
  = (ensure (source_index (gs_symbol g) <? mn) SymbolIndexTooLarge ;;
     ensure (gs_target_index g <? mn) SymbolIndexTooLarge ;;
     ensure (zlen (ds_data (either_inner (gs_symbol g))) =? Z.of_nat s) SymbolWrongSize ;;
     ensure (usable g t T) SymbolNotUsable ;;
     recovery_symbol_verify (symbol_axis g) (as_recovery_symbol g) mn (Z.of_nat s) md (gs_target_index g)).
Proof using All.
  unfold general_verify. rewrite (metadata_symbol_size_ok k1 k2 n s blob Hsize).
  cbn [attempt mbind outcome_bind rs_n_shards config].
  unfold recovery_symbol_verify. cbn [as_recovery_symbol rc_symbol rc_proof].
  change (ds_index (either_inner (gs_symbol g))) with (source_index (gs_symbol g)).
  destruct (source_index (gs_symbol g) <? mn); [|done]. cbn [ensure mbind outcome_bind].
  destruct (gs_target_index g <? mn); [|done]. cbn [ensure mbind outcome_bind].
  destruct (zlen (ds_data (either_inner (gs_symbol g))) =? Z.of_nat s); [|done]. cbn [ensure mbind outcome_bind].
  destruct (usable g t T); [|done]. cbn [ensure mbind outcome_bind].
  unfold get_expected_root, symbol_axis. by rewrite orthogonal_twice.
Qed.
Lemma symbol_of_id g : sliver_symbol k1 k2 n s blob (symbol_axis g) (Z.to_nat (source_index (gs_symbol g))) (Z.to_nat (gs_target_index g))
  = cell k1 k2 n s blob (Z.to_nat (id_primary (general_id g))) (Z.to_nat (id_secondary (general_id g))).
Proof using. unfold symbol_axis, general_id, source_index. by destruct (gs_symbol g). Qed.
(** C23: an accepted symbol is the one of the blob at the two indices of its [id], and
    lies on the target sliver, whose decoder gets its data at its index; except
    when it was made for a sliver of the target's type and the index of its
    source happens to be the target's. *)
Theorem general_verify_sound g t T :
  0 <= source_index (gs_symbol g) -> 0 <= gs_target_index g -> Forall node_ok (gs_proof g) ->
  collision_free (fun m => m ∈ symbol_msgs k1 k2 n s blob (symbol_axis g) (gs_target_index g) (as_recovery_symbol g)) ->
  general_verify g md conf t T = Ok tt ->
  ds_data (either_inner (gs_symbol g))
    = cell k1 k2 n s blob (Z.to_nat (id_primary (general_id g))) (Z.to_nat (id_secondary (general_id g))) /\
  (symbol_axis g = T -> source_index (gs_symbol g) <> t \/ gs_target_index g = t ->
     sliver_index_of (general_id g) T = t) /\
  (symbol_axis g <> T -> sliver_index_of (general_id g) T = t) /\
  (sliver_index_of (general_id g) T = t -> target_symbol k1 k2 n s blob T (Z.to_nat t) (into_decoding_symbol T g)).
Proof using All.
  intros Hi Ht Hp HQ H. rewrite general_verify_eq in H.
  apply bind_Ok_inv in H as (u1 & H1%ensure_Ok & H). apply bind_Ok_inv in H as (u2 & H2%ensure_Ok & H).
  apply bind_Ok_inv in H as (u3 & H3%ensure_Ok & H). apply bind_Ok_inv in H as (u4 & H4%ensure_Ok & H). bool_hyps.
  destruct (verified_symbol k1 k2 n s blob HS Hsize _ (symbol_axis g) (as_recovery_symbol g) (gs_target_index g) HQ ltac:(done)
    ltac:(by split) H) as (_ & Hsz & Htn & Hd).
  cbn [as_recovery_symbol rc_symbol] in Hd, Hsz. change (ds_index (either_inner (gs_symbol g))) with (source_index (gs_symbol g)) in Hd.
  assert (Hcell := Hd). rewrite symbol_of_id in Hcell. split; [exact Hcell|].
  assert ((source_type (gs_symbol g) <> T /\ gs_target_index g = t) \/ source_index (gs_symbol g) = t) as Hu.
  { unfold usable in H4. apply orb_true_iff in H4 as [H4|H4]; bool_hyps; [by left|by right]. }
  clear H4. unfold symbol_axis, source_index, general_id, into_decoding_symbol, target_symbol in *.
  destruct (gs_symbol g) as [x|x], T; cbn in *; repeat split; intros; try congruence; try lia; try (subst; cbn; done).
  all: by destruct Hu as [[? ?]|?].
Qed.

(** the symbol that a sliver gives for a sliver of the other type is accepted for
    either of the two, and gives the decoder of each the same data, at the index
    of the other. *)
Theorem general_symbol_recovers_both e i t : (i < n)%nat -> (t < n)%nat -> exists x,
  recovery_symbol_for_sliver conf (OrthogonalAxis e) (blob_sliver k1 k2 n s blob (OrthogonalAxis e) i)
    (Z.of_nat (pair_of n e t)) = Ok x /\
  let g := from_recovery_symbol e x (Z.of_nat t) in
  general_verify g md conf (Z.of_nat t) e = Ok tt /\
  general_verify g md conf (Z.of_nat i) (OrthogonalAxis e) = Ok tt /\
  into_decoding_symbol e g = {| ds_index := Z.of_nat i; ds_data := sliver_symbol k1 k2 n s blob e i t |} /\
  into_decoding_symbol (OrthogonalAxis e) g = {| ds_index := Z.of_nat t; ds_data := sliver_symbol k1 k2 n s blob e i t |}.
Proof using All.
  intros Hi Ht. destruct (recovery_symbol_ok k1 k2 n s blob HS Hsize e i t Hi Ht) as (proof & Hx & Hv).
  eexists. split; [exact Hx|]. cbv zeta. set (g := from_recovery_symbol _ _ _).
  assert (length (sliver_symbol k1 k2 n s blob e i t) = s) as Hl.
  { destruct e; cbn; by apply (cell_symbol k1 k2 n s blob HS). }
  assert (forall t' T, usable g t' T = true -> general_verify g md conf t' T = Ok tt) as Hver.
  { intros t' T Hu. rewrite general_verify_eq, Hu. unfold g, source_index, symbol_axis, as_recovery_symbol.
    destruct e; cbn [from_recovery_symbol gs_symbol gs_target_index gs_proof either_symbol rc_symbol rc_proof either_inner ds_index ds_data
      source_type OrthogonalAxis] in *; rewrite !(proj2 (Z.ltb_lt _ _)), Hl, Z.eqb_refl by lia; cbn [ensure mbind outcome_bind]; exact Hv. }
  split; [apply Hver|split; [apply Hver|]].
  - unfold usable, g. destruct e; cbn; by rewrite Z.eqb_refl.
  - unfold usable, source_index, g. destruct e; cbn; by rewrite Z.eqb_refl.
  - by destruct e.
Qed.
End Encoded.

(** ** Concrete runs *)

Section ParitySymbols.
Local Existing Instance parity_rs.
Local Existing Instance parity_rs_laws.
Local Existing Instance parity_decode.
Local Existing Instance parity_decode_laws.
Local Existing Instance parity_rs_commutes.
Local Notation three_metadata := (metadata (committed_metadata 1 2 3 2 three_bytes)).
(** The symbol that secondary sliver 1 gives for primary sliver 0. *)
Definition given_symbol : GeneralRecoverySymbol :=
  match recovery_symbol_for_sliver three_shards Secondary (blob_sliver 1 2 3 2 three_bytes Secondary 1) 0 with
  | Ok x => from_recovery_symbol Primary x 0
  | _ => {| gs_symbol := PrimaryDecodingSymbol {| ds_index := 0; ds_data := [] |}; gs_target_index := 0; gs_proof := [] |}
  end.
Lemma general_verify_sound_witness : ds_data (either_inner (gs_symbol given_symbol)) = cell 1 2 3 2 three_bytes 0 1.
Proof.
  destruct (general_verify_sound 1 2 3 2 three_bytes three_supported eq_refl given_symbol 0 Primary) as [H _].
  - vm_compute. discriminate.
  - vm_compute. discriminate.
  - vm_compute. repeat first [discriminate|constructor].
  - apply collision_free_list_ok. vm_compute. reflexivity.
  - vm_compute. reflexivity.
  - exact H.
Defined.
Lemma general_symbol_recovers_both_witness : exists x,
  general_verify (from_recovery_symbol Secondary x 2) three_metadata three_shards 2 Secondary = Ok tt.
Proof.
  destruct (general_symbol_recovers_both 1 2 3 2 three_bytes three_supported eq_refl Secondary 0 2) as (x & _ & H & _);
    [lia|lia|]. exists x. exact H.
Defined.
(** The same with two rows and one column. *)
Definition two_rows : ReedSolomonEncodingConfig := config 2 1 3.
Definition row_symbol : GeneralRecoverySymbol :=
  match recovery_symbol_for_sliver two_rows Secondary (blob_sliver 2 1 3 2 three_bytes Secondary 1) 0 with
  | Ok x => from_recovery_symbol Primary x 0
  | _ => given_symbol
  end.
(** the verification accepts a symbol for a sliver that it does not lie on: the
    symbol of primary sliver 0 and secondary sliver 1 passes for primary sliver 1,
    whose decoder is then given it at index 1 although the sliver has another
    symbol there. *)
Theorem general_verify_unusable :
  general_verify row_symbol (metadata (committed_metadata 2 1 3 2 three_bytes)) two_rows 1 Primary = Ok tt /\
  general_id row_symbol = {| id_primary := 0; id_secondary := 1 |} /\
  ds_index (into_decoding_symbol Primary row_symbol) = 1 /\
  ds_data (into_decoding_symbol Primary row_symbol) <> sliver_symbol 2 1 3 2 three_bytes Primary 1 1.
Proof. vm_compute. split_and!; [done..|]. discriminate. Qed.
End ParitySymbols.
