(* ===== verification/Rejection.v ===== *)
(** Rejection sampling, shared by the three samplers of the repository
    ([unbiased_offset] of the video sampler, [unbiased_index] of the cluster and
    of the flow-graph sampler): candidate values are drawn for consecutive
    counters until one falls below the zone, the largest multiple of the range
    in 64 bits.

    The loop has no bound in the code; here it has fuel, and the lemmas say that
    any fuel that reaches an accepted candidate gives the code's answer. *)
From S2P Require Import Prelude.

(** [(1u128 << 64) - ((1u128 << 64) % range)] *)
Definition zone_of (range : Z) : Z := 2 ^ 64 - (2 ^ 64) `mod` range.

Fixpoint reject_loop {E} (fuel : nat) (value : Z -> Z) (counter range : Z) : outcome E Z :=
  match fuel with
  | O => OutOfFuel
  | S fuel =>
      if value counter <? zone_of range then Ok (value counter `mod` range)
      else reject_loop fuel value (wrap 64 (counter + 1)) range
  end.

(** Counter [j] rounds after [counter]. *)
Definition counter_at (counter : Z) (j : nat) : Z := wrap 64 (counter + Z.of_nat j).
(** The rounds reach an accepted candidate within the fuel. *)
Definition accepts (fuel : nat) (value : Z -> Z) (counter range : Z) : Prop :=
  exists j, (j < fuel)%nat /\ value (counter_at counter j) < zone_of range.

Lemma zone_spec range : 0 < range <= 2 ^ 64 ->
  2 ^ 64 - range < zone_of range <= 2 ^ 64 /\ zone_of range = range * (zone_of range `div` range) /\
  range <= zone_of range.
Proof.
  intros Hr. unfold zone_of. pose proof (Z.div_mod (2 ^ 64) range). pose proof (Z.mod_pos_bound (2 ^ 64) range).
  replace (2 ^ 64 - (2 ^ 64) `mod` range) with ((2 ^ 64) `div` range * range) by lia.
  rewrite Z.div_mul by lia. assert (1 <= (2 ^ 64) `div` range) by (apply Z.div_le_lower_bound; lia).
  split; [lia|]. split; [lia|]. nia.
Qed.
(** Each residue is hit by exactly [zone / range] of the accepted values. *)
Lemma zone_residues range r v : 0 < range <= 2 ^ 64 -> 0 <= r < range ->
  (0 <= v < zone_of range /\ v `mod` range = r <->
   exists k, 0 <= k < zone_of range `div` range /\ v = r + k * range).
Proof.
  intros Hr Hrr. destruct (zone_spec range Hr) as (_ & Hz & _). set (q := zone_of range `div` range) in *. split.
  - intros [Hv Hm]. exists (v `div` range). pose proof (Z.div_mod v range).
    assert (v `div` range < q) by (apply Z.div_lt_upper_bound; lia).
    assert (0 <= v `div` range) by (apply Z.div_pos; lia). lia.
  - intros (k & Hk & ->). rewrite Z.mod_add, Z.mod_small by lia. split; [nia|done].
Qed.

Lemma counter_at_0 c : 0 <= c < 2 ^ 64 -> counter_at c 0 = c.
Proof. intros Hc. unfold counter_at. by rewrite Z.add_0_r, wrap_small. Qed.
Lemma counter_at_S c j : counter_at (wrap 64 (c + 1)) j = counter_at c (S j).
Proof. unfold counter_at, wrap. rewrite Z.add_mod_idemp_l by lia. f_equal. lia. Qed.

Lemma reject_loop_Ok {E} fuel value counter range o : 0 <= counter < 2 ^ 64 ->
  @reject_loop E fuel value counter range = Ok o <->
  exists j, (j < fuel)%nat /\
    (forall i, (i < j)%nat -> zone_of range <= value (counter_at counter i)) /\
    value (counter_at counter j) < zone_of range /\ o = value (counter_at counter j) `mod` range.
Proof.
  revert counter. induction fuel as [|fuel IH]; intros counter Hc; cbn [reject_loop].
  { split; [done|]. intros (j & Hj & _). lia. }
  destruct (Z.ltb_spec (value counter) (zone_of range)) as [Hlt|Hge].
  - split.
    + intros [= <-]. exists 0%nat. rewrite counter_at_0 by done. split_and!; [lia|lia|done|done].
    + intros (j & _ & Hbefore & _ & ->). destruct j as [|j]; [by rewrite counter_at_0|].
      specialize (Hbefore 0%nat ltac:(lia)). rewrite counter_at_0 in Hbefore by done. lia.
  - rewrite IH by (apply wrap_range; lia). split.
    + intros (j & Hj & Hb & Hlt & ->). exists (S j). rewrite counter_at_S in Hlt. split; [lia|].
      split; [|by rewrite counter_at_S]. intros [|i] Hi; [by rewrite counter_at_0|].
      rewrite <- counter_at_S. apply Hb. lia.
    + intros (j & Hj & Hb & Hlt & ->). destruct j as [|j]; [rewrite counter_at_0 in Hlt by done; lia|].
      exists j. split; [lia|]. rewrite counter_at_S. split; [|done].
      intros i Hi. rewrite counter_at_S. apply Hb. lia.
Qed.
Lemma reject_loop_range {E} fuel value counter range o :
  0 < range -> @reject_loop E fuel value counter range = Ok o -> 0 <= o < range.
Proof.
  intros Hr. revert counter. induction fuel as [|fuel IH]; intros counter; cbn [reject_loop]; [done|].
  destruct (_ <? _); [intros [= <-]; by apply Z.mod_pos_bound|apply IH].
Qed.
Lemma reject_loop_total {E} fuel value counter range :
  accepts fuel value counter range -> 0 <= counter < 2 ^ 64 ->
  exists o, @reject_loop E fuel value counter range = Ok o.
Proof.
  revert counter. induction fuel as [|f IH]; intros c (j & Hj & Hv) Hc; [lia|]. cbn [reject_loop].
  destruct (Z.ltb_spec (value c) (zone_of range)) as [|Hge]; [eauto|].
  destruct j as [|j]; [rewrite counter_at_0 in Hv by done; lia|].
  apply IH; [|apply wrap_range; lia]. exists j. split; [lia|]. by rewrite counter_at_S.
Qed.
(** More fuel does not change the answer. *)
Lemma reject_loop_mono {E} f1 f2 value counter range o : (f1 <= f2)%nat ->
  @reject_loop E f1 value counter range = Ok o -> @reject_loop E f2 value counter range = Ok o.
Proof.
  revert f2 counter. induction f1 as [|f1 IH]; intros [|f2] counter Hf; cbn [reject_loop]; try done; [lia|].
  destruct (_ <? _); [done|]. apply IH. lia.
Qed.
Lemma reject_loop_not_Err {E} fuel value counter range e : @reject_loop E fuel value counter range <> Err e.
Proof. revert counter. induction fuel as [|fuel IH]; intros counter; cbn [reject_loop]; [done|]. by destruct (_ <? _). Qed.
Lemma reject_loop_not_Panic {E} fuel value counter range m :
  @reject_loop E fuel value counter range <> Panic m.
Proof. revert counter. induction fuel as [|fuel IH]; intros counter; cbn [reject_loop]; [done|]. by destruct (_ <? _). Qed.
