(* ===== verification/Mp4.v ===== *)
(** The MP4 index parser of [drop-lib/src/video_sampling/mp4.rs]: the iterator
    over ISO boxes, the sample tables of the video track, and the track they
    describe.

    The parser never panics and its box loop terminates on every input; a
    parsed track is well formed (consecutive indices, cumulative decode times,
    byte ranges inside the file); the sample offsets are those of a reference
    definition that sums sizes within each chunk.  [usize] is 64 bits wide;
    offsets computed from a 32-bit count stay below [2^64]. *)
From S2P Require Import Prelude.

Inductive Mp4Error :=
  | Truncated | InvalidBoxSize | IntegerOverflow | MissingMoov | DuplicateMoov
  | FragmentedMp4 | MissingVideoTrack | MultipleVideoTracks | MultipleAudioTracks
  | UnsupportedTrack | UnsupportedEditList | ExternalDataReference | MissingMediaHeader
  | MissingSampleTable | MissingTable (name : string) | UnsupportedCodec (codec : bytes)
  | InvalidTable (name : string) | SampleCountMismatch.

Record VideoSample := {
  index : Z;
  decode_time : Z;
  presentation_time : Z;
  duration : Z;
  byte_offset : Z;
  byte_size : Z;
  is_sync : bool;
}.
Record VideoTrack := {
  timescale : Z;
  media_duration : Z;
  presentation_start : Z;
  presentation_end : Z;
  codec : bytes;
  samples : list VideoSample;
}.
Record IsoBox := {
  kind : bytes;
  payload : bytes;
}.
Inductive Handler := Video | Audio.
Record TrackTables := {
  tt_timescale : Z;
  tt_media_duration : Z;
  edit_media_time : Z;
  stsd : bytes;
  stts : bytes;
  ctts : option bytes;
  stss : option bytes;
  stsz : bytes;
  stsc : bytes;
  chunk_offsets : bytes;
  chunk_offsets_are_64_bit : bool;
}.
Record StscEntry := {
  first_chunk : Z;
  samples_per_chunk : Z;
}.

Abbreviation result A := (outcome Mp4Error A).

Definition read_u32 (data : bytes) (offset : Z) : option Z :=
  be_val <$> get_range data offset 4.
Definition read_u64 (data : bytes) (offset : Z) : option Z :=
  be_val <$> get_range data offset 8.
Definition read_i16 (data : bytes) (offset : Z) : option Z :=
  (fun b => swrap 16 (be_val b)) <$> get_range data offset 2.
Definition read_fourcc (data : bytes) (offset : Z) : option bytes := get_range data offset 4.

(** ** Boxes *)

(** The end of [BoxIter::next], once the two sizes are known. *)
Definition box_item (data : bytes) (position : Z) (remaining kind : bytes)
    (header_size box_size : Z) : option (result IsoBox) * Z :=
  if (box_size <? header_size) || (zlen remaining <? box_size)
  then (Some (Err InvalidBoxSize), zlen data)
  else
    match to_u64 (position + box_size) with
    | None => (Some (Err IntegerOverflow), zlen data)
    | Some position =>
        (Some (payload ← expect (get_range remaining header_size (box_size - header_size))
                 "range out of bounds";
               Ok {| kind := kind; payload := payload |}), position)
    end.

(** [BoxIter::next]: the item, if any, and the new position. *)
Definition box_next (data : bytes) (position : Z) : option (result IsoBox) * Z :=
  if position =? zlen data then (None, position)
  else
    let remaining := drop (Z.to_nat position) data in
    if zlen remaining <? 8 then (Some (Err Truncated), zlen data)
    else
      match read_u32 remaining 0 with
      | None => (Some (Panic "checked 8-byte box header"), position)
      | Some size32 =>
          let kind := take 4 (drop 4 remaining) in
          let finish := box_item data position remaining kind in
          if size32 =? 1 then
            if zlen remaining <? 16 then (Some (Err Truncated), zlen data)
            else
              match read_u64 remaining 8 with
              | None => (Some (Panic "checked extended box header"), position)
              | Some size64 =>
                  match to_u64 size64 with
                  | Some size => finish 16 size
                  | None => (Some (Err IntegerOverflow), zlen data)
                  end
              end
          else if size32 =? 0 then finish 8 (zlen remaining)
          else finish 8 size32
      end.

(** [for item in BoxIter::new(data) { let item = item?; acc = f(acc, item)?; }] *)
Fixpoint for_boxes_from {A} (fuel : nat) (data : bytes) (position : Z)
    (f : A -> IsoBox -> result A) (acc : A) : result A :=
  match fuel with
  | O => OutOfFuel
  | S fuel =>
      match box_next data position with
      | (None, _) => Ok acc
      | (Some item, position) =>
          item ← item;
          acc ← f acc item;
          for_boxes_from fuel data position f acc
      end
  end.
Definition for_boxes {A} (data : bytes) (f : A -> IsoBox -> result A) (acc : A) : result A :=
  for_boxes_from (S (length data)) data 0 f acc.

Definition find_child (data : bytes) (k : bytes) : result (option bytes) :=
  for_boxes data (fun found item =>
    if bool_decide (kind item = k) then
      match found with
      | Some _ => Err (InvalidTable "duplicate box")
      | None => Ok (Some (payload item))
      end
    else Ok found) None.

Definition required_child (data : bytes) (k : bytes) (name : string) : result bytes :=
  o ← find_child data k; ok_or o (MissingTable name).

(** ** Headers *)

Definition parse_edit_media_time (track : bytes) : result Z :=
  edts ← find_child track (ascii_bytes "edts");
  match edts with
  | None => Ok 0
  | Some edts =>
      elst ← find_child edts (ascii_bytes "elst");
      elst ← ok_or elst UnsupportedEditList;
      version ← ok_or (head elst) Truncated;
      entry_count ← ok_or (read_u32 elst 4) Truncated;
      ensure (entry_count =? 1) UnsupportedEditList ;;
      '(segment_duration, media_time, rate_offset) ←
        (if version =? 0 then
           d ← ok_or (read_u32 elst 8) Truncated;
           t ← ok_or (read_u32 elst 12) Truncated;
           Ok (d, swrap 32 t, 16)
         else if version =? 1 then
           d ← ok_or (read_u64 elst 8) Truncated;
           t ← ok_or (read_u64 elst 16) Truncated;
           Ok (d, swrap 64 t, 24)
         else Err UnsupportedEditList);
      rate_integer ← ok_or (read_i16 elst rate_offset) Truncated;
      rate_fraction ← ok_or (read_i16 elst (rate_offset + 2)) Truncated;
      ensure (negb ((segment_duration =? 0) || (media_time <? 0) || negb (rate_integer =? 1)
                    || negb (rate_fraction =? 0))) UnsupportedEditList ;;
      Ok media_time
  end.

Definition parse_handler (data : bytes) : result Handler :=
  handler ← ok_or (read_fourcc data 8) Truncated;
  if bool_decide (handler = ascii_bytes "vide") then Ok Video
  else if bool_decide (handler = ascii_bytes "soun") then Ok Audio
  else Err UnsupportedTrack.

Definition parse_mdhd (data : bytes) : result (Z * Z) :=
  version ← ok_or (head data) Truncated;
  '(timescale, duration) ←
    (if version =? 0 then
       t ← ok_or (read_u32 data 12) Truncated;
       d ← ok_or (read_u32 data 16) Truncated;
       Ok (t, d)
     else if version =? 1 then
       t ← ok_or (read_u32 data 20) Truncated;
       d ← ok_or (read_u64 data 24) Truncated;
       Ok (t, d)
     else Err (InvalidTable "mdhd version"));
  ensure (negb (timescale =? 0)) (InvalidTable "zero timescale") ;;
  Ok (timescale, duration).

Definition dref_entry (seen : Z) (item : IsoBox) : result Z :=
  let seen := seen + 1 in
  ensure (bool_decide (kind item = ascii_bytes "url ") && negb (zlen (payload item) <? 4))
    ExternalDataReference ;;
  b1 ← expect (get_at (payload item) 1) "index out of bounds";
  b2 ← expect (get_at (payload item) 2) "index out of bounds";
  b3 ← expect (get_at (payload item) 3) "index out of bounds";
  let flags := Z.lor (Z.lor (Z.shiftl b1 16) (Z.shiftl b2 8)) b3 in
  ensure (negb (Z.land flags 1 =? 0)) ExternalDataReference ;;
  Ok seen.

Definition verify_self_contained (minf : bytes) : result unit :=
  dinf ← find_child minf (ascii_bytes "dinf");
  match dinf with
  | None => Ok tt
  | Some dinf =>
      dref ← find_child dinf (ascii_bytes "dref");
      match dref with
      | None => Err ExternalDataReference
      | Some dref =>
          entry_count ← ok_or (read_u32 dref 4) Truncated;
          entries ← ok_or (get_from dref 8) Truncated;
          seen ← for_boxes entries dref_entry 0;
          ensure (seen =? entry_count) (InvalidTable "dref entry count")
      end
  end.

(** ** Sample tables *)

Definition i32_max : Z := 2 ^ 31 - 1.

Definition parse_video_codec (stsd : bytes) : result bytes :=
  entry_count ← ok_or (read_u32 stsd 4) Truncated;
  ensure (entry_count =? 1) (InvalidTable "stsd entry count") ;;
  entry ← ok_or (get_from stsd 8) Truncated;
  ensure (negb (zlen entry <? 8)) Truncated ;;
  size ← ok_or (read_u32 entry 0) Truncated;
  ensure (negb ((size <? 8) || (zlen entry <? size))) (InvalidTable "stsd entry size") ;;
  codec ← ok_or (read_fourcc entry 4) Truncated;
  ensure (bool_decide (codec = ascii_bytes "avc1") || bool_decide (codec = ascii_bytes "avc3"))
    (UnsupportedCodec codec) ;;
  Ok codec.

(** The code allocates [sample_count] entries first; allocations succeed here. *)
Definition parse_stsz (data : bytes) : result (list Z) :=
  fixed_size ← ok_or (read_u32 data 4) Truncated;
  sample_count ← ok_or (read_u32 data 8) Truncated;
  if negb (fixed_size =? 0) then Ok (replicate (Z.to_nat sample_count) fixed_size)
  else
    ofold (fun sizes index =>
      size ← ok_or (read_u32 data (12 + index * 4)) Truncated;
      Ok (sizes ++ [size])) [] (seqZ 0 sample_count).

Definition stts_entry (data : bytes) (sample_count : Z) (durations : list Z) (index : Z)
    : result (list Z) :=
  let base := 8 + index * 8 in
  count ← ok_or (read_u32 data base) Truncated;
  delta ← ok_or (read_u32 data (base + 4)) Truncated;
  ensure (negb ((count =? 0) || (delta =? 0) || (sample_count <? zlen durations + count)))
    (InvalidTable "stts") ;;
  Ok (durations ++ replicate (Z.to_nat count) delta).
Definition parse_stts (data : bytes) (sample_count : Z) : result (list Z) :=
  entry_count ← ok_or (read_u32 data 4) Truncated;
  durations ← ofold (stts_entry data sample_count) [] (seqZ 0 entry_count);
  ensure (zlen durations =? sample_count) SampleCountMismatch ;;
  Ok durations.

Definition ctts_entry (data : bytes) (sample_count : Z) (signed_offsets : bool)
    (offsets : list Z) (index : Z) : result (list Z) :=
  let base := 8 + index * 8 in
  count ← ok_or (read_u32 data base) Truncated;
  raw ← ok_or (read_u32 data (base + 4)) Truncated;
  let offset := if signed_offsets then swrap 32 raw else raw in
  ensure (negb ((count =? 0) || (sample_count <? zlen offsets + count))) (InvalidTable "ctts") ;;
  Ok (offsets ++ replicate (Z.to_nat count) offset).
Definition parse_ctts (data : option bytes) (sample_count : Z) : result (list Z) :=
  match data with
  | None => Ok (replicate (Z.to_nat sample_count) 0)
  | Some data =>
      version ← ok_or (head data) Truncated;
      ensure (negb (1 <? version)) (InvalidTable "ctts version") ;;
      entry_count ← ok_or (read_u32 data 4) Truncated;
      signed_offsets ← ofold (fun signed_offsets index =>
          raw ← ok_or (read_u32 data (8 + index * 8 + 4)) Truncated;
          Ok (signed_offsets || (i32_max <? raw))) (version =? 1) (seqZ 0 entry_count);
      offsets ← ofold (ctts_entry data sample_count signed_offsets) [] (seqZ 0 entry_count);
      ensure (zlen offsets =? sample_count) SampleCountMismatch ;;
      Ok offsets
  end.

Definition stss_entry (data : bytes) (sample_count : Z) (st : list bool * Z) (index : Z)
    : result (list bool * Z) :=
  let '(sync, previous) := st in
  sample_number ← ok_or (read_u32 data (8 + index * 4)) Truncated;
  ensure (negb ((sample_number =? 0) || (sample_number <=? previous)
                || (sample_count <? sample_number))) (InvalidTable "stss") ;;
  _ ← expect (get_at sync (sample_number - 1)) "index out of bounds";
  Ok (<[Z.to_nat (sample_number - 1) := true]> sync, sample_number).
Definition parse_stss (data : option bytes) (sample_count : Z) : result (list bool) :=
  match data with
  | None => Ok (replicate (Z.to_nat sample_count) true)
  | Some data =>
      entry_count ← ok_or (read_u32 data 4) Truncated;
      st ← ofold (stss_entry data sample_count)
        (replicate (Z.to_nat sample_count) false, 0) (seqZ 0 entry_count);
      Ok st.1
  end.

Definition stsc_entry (data : bytes) (st : list StscEntry * Z) (index : Z)
    : result (list StscEntry * Z) :=
  let '(entries, previous) := st in
  let base := 8 + index * 12 in
  first_chunk ← ok_or (read_u32 data base) Truncated;
  samples_per_chunk ← ok_or (read_u32 data (base + 4)) Truncated;
  sample_description ← ok_or (read_u32 data (base + 8)) Truncated;
  ensure (negb ((first_chunk =? 0) || (first_chunk <=? previous) || (samples_per_chunk =? 0)
                || negb (sample_description =? 1))) (InvalidTable "stsc") ;;
  Ok (entries ++ [{| first_chunk := first_chunk; samples_per_chunk := samples_per_chunk |}],
      first_chunk).
Definition parse_stsc (data : bytes) : result (list StscEntry) :=
  entry_count ← ok_or (read_u32 data 4) Truncated;
  st ← ofold (stsc_entry data) ([], 0) (seqZ 0 entry_count);
  ensure (bool_decide (first_chunk <$> head st.1 = Some 1)) (InvalidTable "stsc first chunk") ;;
  Ok st.1.

Definition parse_chunk_offsets (data : bytes) (are_64_bit : bool) : result (list Z) :=
  entry_count ← ok_or (read_u32 data 4) Truncated;
  let width := if are_64_bit then 8 else 4 in
  ofold (fun offsets index =>
    let position := 8 + index * width in
    offset ← (if are_64_bit then ok_or (read_u64 data position) Truncated
              else ok_or (read_u32 data position) Truncated);
    Ok (offsets ++ [offset])) [] (seqZ 0 entry_count).

(** ** Sample offsets *)

(** [while stsc_index + 1 < stsc.len() && stsc[stsc_index + 1].first_chunk <=
    chunk_number]: the index only grows and stays below the length, so as many
    rounds as there are entries are enough. *)
Fixpoint advance_stsc (fuel : nat) (stsc : list StscEntry) (chunk_number : Z)
    (stsc_index : nat) : result nat :=
  match fuel with
  | O => OutOfFuel
  | S fuel =>
      match stsc !! S stsc_index with
      | Some e =>
          if first_chunk e <=? chunk_number
          then advance_stsc fuel stsc chunk_number (S stsc_index)
          else Ok stsc_index
      | None => Ok stsc_index
      end
  end.

(** One round of the loop over the samples of a chunk. *)
Definition chunk_sample (sample_sizes : list Z) (st : list Z * Z * Z) (_ : Z)
    : result (list Z * Z * Z) :=
  let '(offsets, offset, sample_index) := st in
  size ← ok_or (get_at sample_sizes sample_index) SampleCountMismatch;
  let offsets := offsets ++ [offset] in
  offset ← ok_or (to_u64 (offset + size)) IntegerOverflow;
  Ok (offsets, offset, sample_index + 1).

(** One round of the loop over the chunks. *)
Definition expand_chunk (sample_sizes : list Z) (stsc : list StscEntry)
    (st : list Z * Z * nat) (chunk : nat * Z) : result (list Z * Z * nat) :=
  let '(offsets, sample_index, stsc_index) := st in
  let '(chunk_zero_index, chunk_start) := chunk in
  let chunk_number := wrap 32 (wrap 32 (Z.of_nat chunk_zero_index) + 1) in
  stsc_index ← advance_stsc (S (length stsc)) stsc chunk_number stsc_index;
  entry ← expect (stsc !! stsc_index) "index out of bounds";
  '(offsets, _, sample_index) ← ofold (chunk_sample sample_sizes)
    (offsets, chunk_start, sample_index) (seqZ 0 (samples_per_chunk entry));
  Ok (offsets, sample_index, stsc_index).

Definition expand_sample_offsets (sample_sizes chunk_offsets : list Z)
    (stsc : list StscEntry) : result (list Z) :=
  '(offsets, sample_index, _) ← ofold (expand_chunk sample_sizes stsc) ([], 0, 0%nat)
    (imap pair chunk_offsets);
  ensure (sample_index =? zlen sample_sizes) SampleCountMismatch ;;
  Ok offsets.

(** ** The track *)

Definition add_sample (tables : TrackTables) (timings composition_offsets : list Z)
    (sync : list bool) (byte_offsets sample_sizes : list Z)
    (st : list VideoSample * Z * Z * Z) (index : Z) : result (list VideoSample * Z * Z * Z) :=
  let '(samples, decode_time, presentation_start, presentation_end) := st in
  duration ← expect (get_at timings index) "index out of bounds";
  decode_i64 ← ok_or (to_i64 decode_time) IntegerOverflow;
  offset ← expect (get_at composition_offsets index) "index out of bounds";
  presentation_time ← ok_or (t ← to_i64 (decode_i64 + offset);
                             to_i64 (t - edit_media_time tables)) IntegerOverflow;
  end_ ← ok_or (to_i64 (presentation_time + duration)) IntegerOverflow;
  byte_offset ← expect (get_at byte_offsets index) "index out of bounds";
  byte_size ← expect (get_at sample_sizes index) "index out of bounds";
  is_sync ← expect (get_at sync index) "index out of bounds";
  let sample := {| index := wrap 32 index; decode_time := decode_time;
                   presentation_time := presentation_time; duration := duration;
                   byte_offset := byte_offset; byte_size := byte_size; is_sync := is_sync |} in
  decode_time ← ok_or (to_u64 (decode_time + duration)) IntegerOverflow;
  Ok (samples ++ [sample], decode_time, Z.min presentation_start presentation_time,
      Z.max presentation_end end_).

Definition build_video_track (tables : TrackTables) : result VideoTrack :=
  codec ← parse_video_codec (stsd tables);
  sample_sizes ← parse_stsz (stsz tables);
  let sample_count := zlen sample_sizes in
  timings ← parse_stts (stts tables) sample_count;
  composition_offsets ← parse_ctts (ctts tables) sample_count;
  sync ← parse_stss (stss tables) sample_count;
  chunk_offsets ← parse_chunk_offsets (chunk_offsets tables) (chunk_offsets_are_64_bit tables);
  stsc ← parse_stsc (stsc tables);
  byte_offsets ← expand_sample_offsets sample_sizes chunk_offsets stsc;
  '(samples, _, presentation_start, presentation_end) ←
    ofold (add_sample tables timings composition_offsets sync byte_offsets sample_sizes)
      ([], 0, i64_max, i64_min) (seqZ 0 sample_count);
  ensure (negb (bool_decide (samples = []))) (InvalidTable "empty video track") ;;
  Ok {| timescale := tt_timescale tables; media_duration := tt_media_duration tables;
        presentation_start := presentation_start; presentation_end := presentation_end;
        codec := codec; samples := samples |}.

Definition parse_track (track : bytes) : result (Handler * TrackTables) :=
  edit_media_time ← parse_edit_media_time track;
  mdia ← find_child track (ascii_bytes "mdia");
  mdia ← ok_or mdia MissingMediaHeader;
  hdlr ← find_child mdia (ascii_bytes "hdlr");
  hdlr ← ok_or hdlr MissingMediaHeader;
  handler ← parse_handler hdlr;
  mdhd ← find_child mdia (ascii_bytes "mdhd");
  mdhd ← ok_or mdhd MissingMediaHeader;
  '(timescale, media_duration) ← parse_mdhd mdhd;
  minf ← find_child mdia (ascii_bytes "minf");
  minf ← ok_or minf MissingSampleTable;
  verify_self_contained minf ;;
  stbl ← find_child minf (ascii_bytes "stbl");
  stbl ← ok_or stbl MissingSampleTable;
  stsd ← required_child stbl (ascii_bytes "stsd") "stsd";
  stts ← required_child stbl (ascii_bytes "stts") "stts";
  ctts ← find_child stbl (ascii_bytes "ctts");
  stss ← find_child stbl (ascii_bytes "stss");
  stsz ← required_child stbl (ascii_bytes "stsz") "stsz";
  stsc ← required_child stbl (ascii_bytes "stsc") "stsc";
  stco ← find_child stbl (ascii_bytes "stco");
  chunk_offsets ← (match stco with
    | Some stco => Ok stco
    | None => required_child stbl (ascii_bytes "co64") "stco/co64"
    end);
  stco ← find_child stbl (ascii_bytes "stco");
  Ok (handler,
      {| tt_timescale := timescale; tt_media_duration := media_duration;
         edit_media_time := edit_media_time; stsd := stsd; stts := stts; ctts := ctts;
         stss := stss; stsz := stsz; stsc := stsc; chunk_offsets := chunk_offsets;
         chunk_offsets_are_64_bit := match stco with None => true | _ => false end |}).

(** One box of the loop of [parse_mp4_video_track_from_moov]. *)
Definition moov_box (st : option VideoTrack * Z) (item : IsoBox)
    : result (option VideoTrack * Z) :=
  let '(video, audio_tracks) := st in
  if negb (bool_decide (kind item = ascii_bytes "trak")) then Ok (video, audio_tracks)
  else
    '(handler, tables) ← parse_track (payload item);
    match handler with
    | Video =>
        match video with
        | Some _ => Err MultipleVideoTracks
        | None => track ← build_video_track tables; Ok (Some track, audio_tracks)
        end
    | Audio =>
        let audio_tracks := audio_tracks + 1 in
        if 1 <? audio_tracks then Err MultipleAudioTracks else Ok (video, audio_tracks)
    end.

Definition check_sample_range (file_len : Z) (sample : VideoSample) : result unit :=
  end_ ← ok_or (to_u64 (byte_offset sample + byte_size sample)) IntegerOverflow;
  ensure (negb (file_len <? end_)) (InvalidTable "sample byte range").

Definition parse_mp4_video_track_from_moov (moov : bytes) (file_len : Z) : result VideoTrack :=
  '(video, _) ← for_boxes moov moov_box (None, 0);
  video ← ok_or video MissingVideoTrack;
  oforall (check_sample_range file_len) (samples video) ;;
  Ok video.

Definition top_box (moov : option bytes) (item : IsoBox) : result (option bytes) :=
  if bool_decide (kind item = ascii_bytes "moov") then
    match moov with
    | Some _ => Err DuplicateMoov
    | None => Ok (Some (payload item))
    end
  else if bool_decide (kind item = ascii_bytes "moof") then Err FragmentedMp4
  else Ok moov.

Definition parse_mp4_video_track (data : bytes) : result VideoTrack :=
  moov ← for_boxes data top_box None;
  moov ← ok_or moov MissingMoov;
  parse_mp4_video_track_from_moov moov (zlen data).

(** ** A concrete file (the one of the unit tests of the code) *)

Definition mp4_box (k : string) (payload : bytes) : bytes :=
  be_bytes 4 (zlen payload + 8) ++ ascii_bytes k ++ payload.
Definition full_box (version : Z) (body : bytes) : bytes := [version; 0; 0; 0] ++ body.
Definition u32s (l : list Z) : bytes := concat (be_bytes 4 <$> l).
Definition synthetic_moov (codec : string) : bytes :=
  let mdhd := mp4_box "mdhd" (full_box 0 (replicate 8 0 ++ u32s [1000; 3000; 0])) in
  let hdlr := mp4_box "hdlr" (full_box 0 (replicate 4 0 ++ ascii_bytes "vide" ++ replicate 12 0)) in
  let stsd := mp4_box "stsd" (full_box 0 (u32s [1; 8] ++ ascii_bytes codec)) in
  let stts := mp4_box "stts" (full_box 0 (u32s [1; 3; 1000])) in
  let stss := mp4_box "stss" (full_box 0 (u32s [2; 1; 3])) in
  let stsz := mp4_box "stsz" (full_box 0 (u32s [0; 3; 10; 20; 30])) in
  let stsc := mp4_box "stsc" (full_box 0 (u32s [1; 1; 3; 1])) in
  let stco := mp4_box "stco" (full_box 0 (u32s [1; 100])) in
  let url := mp4_box "url " [0; 0; 0; 1] in
  let dinf := mp4_box "dinf" (mp4_box "dref" (full_box 0 (u32s [1] ++ url))) in
  let stbl := mp4_box "stbl" (stsd ++ stts ++ stss ++ stsz ++ stsc ++ stco) in
  let minf := mp4_box "minf" (dinf ++ stbl) in
  mp4_box "trak" (mp4_box "mdia" (mdhd ++ hdlr ++ minf)).
Definition synthetic_mp4 (codec : string) : bytes := mp4_box "moov" (synthetic_moov codec).
Example synthetic_track :
  (fun t => (timescale t, presentation_start t, presentation_end t,
             byte_offset <$> samples t, is_sync <$> samples t)) <$>
    (match parse_mp4_video_track (synthetic_mp4 "avc1") with Ok t => Some t | _ => None end)
  = Some (1000, 0, 3000, [100; 110; 130], [true; false; true]).
Proof. vm_compute. reflexivity. Qed.
Example vp09_rejected :
  parse_mp4_video_track (synthetic_mp4 "vp09") = Err (UnsupportedCodec (ascii_bytes "vp09")).
Proof. vm_compute. reflexivity. Qed.

(** ** The box loop *)

(** [raw] is an encoded box: a header of 8 or 16 bytes that holds the kind,
    then the payload. *)
Definition box_at (raw : bytes) (b : IsoBox) : Prop :=
  exists h, raw = h ++ payload b /\ (length h = 8 \/ length h = 16)%nat /\
    kind b = take 4 (drop 4 h).

Lemma read_u32_range data off v : is_bytes data -> read_u32 data off = Some v -> 0 <= v < 2 ^ 32.
Proof.
  intros Hd H. apply fmap_Some in H as (b & Hb & ->).
  pose proof (get_range_length _ _ _ _ Hb) as Hl. eapply get_range_Forall in Hb; [|exact Hd].
  apply be_val_range in Hb. rewrite Hl in Hb. done.
Qed.
Lemma read_u64_range data off v : is_bytes data -> read_u64 data off = Some v -> 0 <= v < 2 ^ 64.
Proof.
  intros Hd H. apply fmap_Some in H as (b & Hb & ->).
  pose proof (get_range_length _ _ _ _ Hb) as Hl. eapply get_range_Forall in Hb; [|exact Hd].
  apply be_val_range in Hb. rewrite Hl in Hb. done.
Qed.
Lemma read_u32_is_Some data off : 0 <= off -> off + 4 <= zlen data -> is_Some (read_u32 data off).
Proof.
  intros H1 H2. unfold read_u32. destruct (get_range_is_Some data off 4) as [r ->]; [lia..|]. eauto.
Qed.
Lemma read_u64_is_Some data off : 0 <= off -> off + 8 <= zlen data -> is_Some (read_u64 data off).
Proof.
  intros H1 H2. unfold read_u64. destruct (get_range_is_Some data off 8) as [r ->]; [lia..|]. eauto.
Qed.

(** The two answers of a step that finds data: an error at the end, or a box
    and the position behind it. *)
Definition box_step (data : bytes) (position : Z) (r : option (result IsoBox) * Z) : Prop :=
  (position < zlen data /\ exists e, r = (Some (Err e), zlen data)) \/
  (exists raw b, r = (Some (Ok b), position + zlen raw) /\
     8 <= zlen raw /\ position + zlen raw <= zlen data /\ box_at raw b /\
     drop (Z.to_nat position) data = raw ++ drop (Z.to_nat (position + zlen raw)) data).

Lemma box_item_step data position remaining hs size :
  remaining = drop (Z.to_nat position) data -> 0 <= position < zlen data -> zlen data < 2 ^ 64 ->
  (hs = 8 \/ hs = 16) -> 8 <= zlen remaining ->
  box_step data position (box_item data position remaining (take 4 (drop 4 remaining)) hs size).
Proof.
  intros Hr Hp Hd Hhs H8. unfold box_item.
  assert (zlen remaining = zlen data - position) as Hl by (rewrite Hr, length_drop; lia).
  destruct (Z.ltb_spec size hs), (Z.ltb_spec (zlen remaining) size);
    [left; split; [lia|by eexists]..|]. right. cbn [orb].
  rewrite (proj2 (to_u64_Some (position + size) (position + size))) by lia.
  destruct (get_range_is_Some remaining hs (size - hs)) as [p Hg]; [lia..|]. rewrite Hg.
  apply get_range_Some in Hg as (_ & _ & _ & Hpe).
  assert (zlen (take (Z.to_nat size) remaining) = size) as Hraw by (rewrite length_take; lia).
  eexists (take (Z.to_nat size) remaining), _. rewrite Hraw. split; [done|].
  split; [lia|]. split; [lia|]. rewrite <- Hr. split.
  - exists (take (Z.to_nat hs) remaining). cbn. rewrite Hpe. split_and!.
    + rewrite <- (take_drop (Z.to_nat hs) (take (Z.to_nat size) remaining)).
      rewrite take_take, Nat.min_l by lia. f_equal. rewrite take_drop_commute. do 2 f_equal. lia.
    + rewrite length_take. lia.
    + rewrite !take_drop_commute. f_equal. rewrite take_take. f_equal. lia.
  - rewrite <- (take_drop (Z.to_nat size) remaining) at 1. f_equal.
    rewrite Hr, drop_drop. f_equal. lia.
Qed.

Lemma box_next_spec data position :
  is_bytes data -> 0 <= position <= zlen data -> zlen data < 2 ^ 64 ->
  (position = zlen data /\ box_next data position = (None, position)) \/
  box_step data position (box_next data position).
Proof.
  intros Hb Hp Hd. unfold box_next. destruct (Z.eqb_spec position (zlen data)) as [|Hne]; [by left|].
  right. remember (drop (Z.to_nat position) data) as remaining eqn:Hr.
  assert (zlen remaining = zlen data - position) as Hl by (rewrite Hr, length_drop; lia).
  assert (is_bytes remaining) as Hrb by (subst; by apply Forall_drop).
  destruct (Z.ltb_spec (zlen remaining) 8) as [|H8]; [left; split; [lia|by eexists]|].
  destruct (read_u32_is_Some remaining 0) as [size32 Hs32]; [lia..|]. rewrite Hs32. cbv zeta.
  destruct (size32 =? 1).
  - destruct (Z.ltb_spec (zlen remaining) 16); [left; split; [lia|by eexists]|].
    destruct (read_u64_is_Some remaining 8) as [size64 Hs64]; [lia..|]. rewrite Hs64.
    pose proof (read_u64_range _ _ _ Hrb Hs64). rewrite (proj2 (to_u64_Some size64 size64)) by done.
    apply box_item_step; (done || lia || by right).
  - destruct (size32 =? 0); apply box_item_step; (done || lia || by left).
Qed.

(** The boxes found from [position] on, whatever the loop does with them. *)
Lemma for_boxes_from_spec data fuel position :
  is_bytes data -> 0 <= position <= zlen data -> zlen data < 2 ^ 64 ->
  zlen data - position < Z.of_nat fuel ->
  exists raws bs rest err,
    drop (Z.to_nat position) data = concat raws ++ rest /\ Forall2 box_at raws bs /\
    (err = None <-> rest = []) /\
    forall A (f : A -> IsoBox -> result A) acc,
      for_boxes_from fuel data position f acc
      = (acc' ← ofold f acc bs; match err with None => Ok acc' | Some e => Err e end).
Proof.
  intros Hb Hp Hd. revert position Hp. induction fuel as [|fuel IH]; intros position Hp Hf; [lia|].
  destruct (box_next_spec data position Hb Hp Hd)
    as [[Hend Hn]|[(Hlt & e & Hn)|(raw & b & Hn & H8 & Hle & Hbox & Hdrop)]].
  - exists [], [], [], None. rewrite Hend, drop_ge by lia. split; [done|].
    split; [constructor|]. split; [done|]. intros A f acc. cbn. rewrite <- Hend. by rewrite Hn.
  - exists [], [], (drop (Z.to_nat position) data), (Some e). split; [done|].
    split; [constructor|]. split.
    + split; [done|]. intros Hnil. apply (f_equal length) in Hnil. rewrite length_drop in Hnil.
      cbn in Hnil. lia.
    + intros A f acc. cbn [for_boxes_from]. by rewrite Hn.
  - destruct (IH (position + zlen raw)) as (raws & bs & rest & err & Hd' & HF & He & Hr); [lia..|].
    exists (raw :: raws), (b :: bs), rest, err. split_and!.
    + rewrite Hdrop, Hd'. cbn. by rewrite app_assoc.
    + by constructor.
    + done.
    + intros A f acc. cbn [for_boxes_from ofold]. rewrite Hn. cbn [mbind outcome_bind].
      destruct (f acc b); cbn; [apply Hr|done..].
Qed.

(** The box loop: every byte string is cut, before the loop body is looked at,
    into encoded boxes one after the other and a rest; the loop runs its body
    on the boxes in order and then fails exactly when the rest is not empty.
    In particular it terminates. *)
Theorem for_boxes_tiles data : is_bytes data -> zlen data < 2 ^ 64 ->
  exists raws bs rest err,
    data = concat raws ++ rest /\ Forall2 box_at raws bs /\ (err = None <-> rest = []) /\
    forall A (f : A -> IsoBox -> result A) acc,
      for_boxes data f acc
      = (acc' ← ofold f acc bs; match err with None => Ok acc' | Some e => Err e end).
Proof.
  intros Hb Hd. apply (for_boxes_from_spec data (S (length data)) 0); [done|lia|done|lia].
Qed.
Lemma for_boxes_tiles_witness :
  exists raws bs rest err, synthetic_mp4 "avc1" = concat raws ++ rest /\ Forall2 box_at raws bs /\
    (err = None <-> rest = []) /\
    for_boxes (synthetic_mp4 "avc1") top_box None
    = (acc' ← ofold top_box None bs; match err with None => Ok acc' | Some e => Err e end).
Proof.
  destruct (for_boxes_tiles (synthetic_mp4 "avc1")) as (raws & bs & rest & err & H1 & H2 & H3 & H4).
  - apply is_bytes_check. vm_compute. reflexivity.
  - vm_compute. reflexivity.
  - exists raws, bs, rest, err. split; [exact H1|]. split; [exact H2|]. split; [exact H3|]. apply H4.
Defined.

(** Payloads are sub-strings of the data. *)
Definition sub_bytes (data p : bytes) : Prop := is_bytes p /\ zlen p + 8 <= zlen data.
Lemma box_payloads data raws bs rest :
  is_bytes data -> data = concat raws ++ rest -> Forall2 box_at raws bs ->
  Forall (fun b => sub_bytes data (payload b)) bs.
Proof.
  intros Hb -> HF. apply Forall_app in Hb as [Hb _]. unfold sub_bytes. rewrite length_app.
  revert Hb. generalize (length rest). induction HF as [|raw b raws bs Hbox HF IH]; intros k Hb; [constructor|].
  cbn in Hb. apply Forall_app in Hb as [Hraw Hb]. destruct Hbox as (h & -> & Hh & _).
  apply Forall_app in Hraw as [_ Hraw]. cbn. rewrite !length_app. constructor; [split; [done|lia]|].
  eapply Forall_impl; [by apply (IH k)|]. cbn. intros b' [? ?]. split; [done|]. lia.
Qed.

Section Loop.
Context (data : bytes) (Hb : is_bytes data) (Hd : zlen data < 2 ^ 64).

Lemma for_boxes_inv {A} (P : A -> Prop) f acc r :
  P acc -> (forall acc b acc', sub_bytes data (payload b) -> P acc -> f acc b = Ok acc' -> P acc') ->
  for_boxes data f acc = Ok r -> P r.
Proof.
  intros H0 Hs Hr. destruct (for_boxes_from_spec data (S (length data)) 0)
    as (raws & bs & rest & err & Hdata & HF & _ & Hf); [done|lia|done|lia|].
  unfold for_boxes in Hr. rewrite Hf in Hr. apply bind_Ok_inv in Hr as (a & Ha & Hr).
  pose proof (box_payloads data raws bs rest Hb Hdata HF) as Hps.
  assert (P a) as HPa; [|by destruct err; inv_ok; subst].
  clear Hf HF Hr. revert acc H0 Ha. induction Hps as [|b bs Hp _ IH]; intros acc H0 Ha; cbn in Ha.
  - by injection Ha as <-.
  - apply bind_Ok_inv in Ha as (a' & Ha' & Ha). by eapply IH, Ha; eapply Hs.
Qed.
Lemma no_panic_for_boxes {A} (f : A -> IsoBox -> result A) acc :
  (forall acc b, sub_bytes data (payload b) -> no_panic (f acc b)) -> no_panic (for_boxes data f acc).
Proof.
  intros Hs. destruct (for_boxes_from_spec data (S (length data)) 0)
    as (raws & bs & rest & err & Hdata & HF & _ & Hf); [done|lia|done|lia|].
  unfold for_boxes. rewrite Hf. pose proof (box_payloads data raws bs rest Hb Hdata HF) as Hps.
  apply no_panic_bind; [|by destruct err].
  apply no_panic_ofold_simple. intros a b Hin. apply Hs. rewrite Forall_forall in Hps. by apply Hps.
Qed.
Lemma find_child_sub k p : find_child data k = Ok (Some p) -> sub_bytes data p.
Proof.
  intros H. unfold find_child in H.
  refine (for_boxes_inv (fun o => forall p, o = Some p -> sub_bytes data p) _ None _ _ _ H p eq_refl);
    [done|].
  intros acc b acc' Hsub Hacc Hf. destruct (bool_decide _); [|injection Hf as <-; eauto].
  destruct acc; [done|]. injection Hf as <-. intros q [= <-]. done.
Qed.
Lemma no_panic_find_child k : no_panic (find_child data k).
Proof. apply no_panic_for_boxes. intros acc b _. np. Qed.
Lemma no_panic_required_child k name : no_panic (required_child data k name).
Proof. unfold required_child. apply no_panic_bind; [apply no_panic_find_child|]. intros a _. np. Qed.
End Loop.

(** ** The tables *)

Definition stsc_ok (l : list StscEntry) : Prop :=
  first_chunk <$> head l = Some 1 /\
  (forall i j e e', (i < j)%nat -> l !! i = Some e -> l !! j = Some e' -> first_chunk e < first_chunk e') /\
  Forall (fun e => 1 <= first_chunk e < 2 ^ 32 /\ 1 <= samples_per_chunk e < 2 ^ 32) l.

Section Tables.
Context (data : bytes) (Hb : is_bytes data).

Lemma parse_stsz_Ok sizes : parse_stsz data = Ok sizes ->
  Forall (fun s => 0 <= s < 2 ^ 32) sizes /\ zlen sizes < 2 ^ 32.
Proof.
  unfold parse_stsz. intros H.
  apply bind_Ok_inv in H as (fixed & Hf%ok_or_Ok & H). apply bind_Ok_inv in H as (count & Hc%ok_or_Ok & H).
  pose proof (read_u32_range _ _ _ Hb Hf). pose proof (read_u32_range _ _ _ Hb Hc).
  destruct (negb _).
  - injection H as <-. rewrite length_replicate. split; [by apply Forall_replicate|lia].
  - apply (ofold_inv (fun done sizes => Forall (fun s => 0 <= s < 2 ^ 32) sizes /\
      length sizes = length done)) in H as [HF1 HF2]; [rewrite length_seqZ in HF2; split; [done|lia]|done|].
    intros done x todo b b' _ [HF Hl] Hx. apply bind_Ok_inv in Hx as (s & Hs%ok_or_Ok & [= <-]).
    split; [apply Forall_app; split; [done|constructor; [by eapply read_u32_range|done]]|].
    rewrite !length_app, Hl. done.
Qed.

Lemma parse_stts_Ok count l : parse_stts data count = Ok l ->
  zlen l = count /\ Forall (fun d => 0 < d < 2 ^ 32) l.
Proof.
  unfold parse_stts. intros H. apply bind_Ok_inv in H as (n & _ & H).
  apply bind_Ok_inv in H as (ds & Hds & H). apply bind_Ok_inv in H as (_ & Hl%ensure_Ok & [= ->]).
  bool_hyps. split; [done|].
  apply (ofold_inv (fun _ ds => Forall (fun d => 0 < d < 2 ^ 32) ds)) in Hds; [done|constructor|].
  intros done x todo b b' _ HF Hx. unfold stts_entry in Hx.
  apply bind_Ok_inv in Hx as (c & Hc%ok_or_Ok & Hx). apply bind_Ok_inv in Hx as (d & Hd%ok_or_Ok & Hx).
  apply bind_Ok_inv in Hx as (_ & He%ensure_Ok & [= <-]). bool_hyps.
  pose proof (read_u32_range _ _ _ Hb Hd). apply Forall_app. split; [done|]. apply Forall_replicate. lia.
Qed.

Lemma parse_stss_Ok count l : 0 <= count -> parse_stss (Some data) count = Ok l -> zlen l = count.
Proof.
  intros Hcount. unfold parse_stss. intros H. apply bind_Ok_inv in H as (n & _ & H).
  apply bind_Ok_inv in H as (st & Hst & [= <-]).
  apply (ofold_inv (fun _ st => zlen st.1 = count)) in Hst; [done|cbn; rewrite length_replicate; lia|].
  intros done x todo [sync prev] b' _ HF Hx. unfold stss_entry in Hx.
  apply bind_Ok_inv in Hx as (c & _ & Hx). apply bind_Ok_inv in Hx as (_ & _ & Hx).
  apply bind_Ok_inv in Hx as (_ & _ & [= <-]). cbn in *. by rewrite length_insert.
Qed.

Lemma parse_stsc_Ok l : parse_stsc data = Ok l -> stsc_ok l.
Proof.
  unfold parse_stsc. intros H. apply bind_Ok_inv in H as (n & _ & H).
  apply bind_Ok_inv in H as (st & Hst & H). apply bind_Ok_inv in H as (_ & Hh%ensure_Ok & [= <-]).
  bool_hyps. split; [done|].
  apply (ofold_inv (fun _ st =>
    (forall i j e e', (i < j)%nat -> st.1 !! i = Some e -> st.1 !! j = Some e' -> first_chunk e < first_chunk e') /\
    Forall (fun e => 1 <= first_chunk e < 2 ^ 32 /\ 1 <= samples_per_chunk e < 2 ^ 32) st.1 /\
    Forall (fun e => first_chunk e <= st.2) st.1 /\ 0 <= st.2)) in Hst; [naive_solver|cbn; split_and!; by try constructor|].
  intros done x todo [es prev] b' _ (Hs & HF & Hp & Hp0) Hx. unfold stsc_entry in Hx. cbn [fst snd] in *.
  apply bind_Ok_inv in Hx as (fc & Hfc%ok_or_Ok & Hx). apply bind_Ok_inv in Hx as (spc & Hspc%ok_or_Ok & Hx).
  apply bind_Ok_inv in Hx as (sd & _ & Hx). apply bind_Ok_inv in Hx as (_ & He%ensure_Ok & [= <-]). bool_hyps.
  pose proof (read_u32_range _ _ _ Hb Hfc). pose proof (read_u32_range _ _ _ Hb Hspc). cbn [fst snd].
  split_and!.
  - intros i j e e' Hij Hi Hj. apply lookup_app_Some in Hj as [Hj|[Hle Hj]].
    + rewrite lookup_app_l in Hi by (apply lookup_lt_Some in Hj; lia). by eapply Hs.
    + apply list_lookup_singleton_Some in Hj as [Hjl <-]. rewrite lookup_app_l in Hi by lia.
      rewrite Forall_lookup in Hp. apply Hp in Hi. cbn. lia.
  - apply Forall_app. split; [done|]. constructor; [cbn; lia|constructor].
  - apply Forall_app. split; [|constructor; [cbn; lia|constructor]].
    eapply Forall_impl; [exact Hp|]. cbn. lia.
  - lia.
Qed.

Lemma parse_chunk_offsets_Ok b l : parse_chunk_offsets data b = Ok l ->
  Forall (fun o => 0 <= o < 2 ^ 64) l /\ zlen l < 2 ^ 32.
Proof.
  unfold parse_chunk_offsets. intros H. apply bind_Ok_inv in H as (n & Hn%ok_or_Ok & H).
  pose proof (read_u32_range _ _ _ Hb Hn).
  apply (ofold_inv (fun done l => Forall (fun o => 0 <= o < 2 ^ 64) l /\ length l = length done))
    in H as [HF1 HF2]; [rewrite length_seqZ in HF2; split; [done|lia]|done|].
  intros done x todo acc acc' _ [HF Hl] Hx. apply bind_Ok_inv in Hx as (o & Ho & [= <-]).
  split; [|by rewrite !length_app, Hl]. apply Forall_app. split; [done|]. constructor; [|done].
  destruct b; apply ok_or_Ok in Ho; [by eapply read_u64_range|].
  pose proof (read_u32_range _ _ _ Hb Ho). lia.
Qed.
End Tables.

Lemma parse_ctts_Ok data count l : 0 <= count -> parse_ctts data count = Ok l -> zlen l = count.
Proof.
  intros Hc. unfold parse_ctts. destruct data as [data|]; intros H.
  - apply bind_Ok_inv in H as (v & _ & H). apply bind_Ok_inv in H as (_ & _ & H).
    apply bind_Ok_inv in H as (n & _ & H). apply bind_Ok_inv in H as (s & _ & H).
    apply bind_Ok_inv in H as (os & _ & H). apply bind_Ok_inv in H as (_ & Hl%ensure_Ok & [= ->]).
    by bool_hyps.
  - injection H as <-. rewrite length_replicate. lia.
Qed.

(** ** Sample offsets against a reference *)

(** The entry that governs chunk [k]: the last one that starts at or before
    it. *)
Definition stsc_for (stsc : list StscEntry) (k : Z) : option StscEntry :=
  last (filter (fun e => first_chunk e <= k) stsc).
Fixpoint scan_offsets (start : Z) (sizes : list Z) : list Z :=
  match sizes with [] => [] | s :: sizes => start :: scan_offsets (start + s) sizes end.
(** The samples are laid out chunk by chunk, without gaps in a chunk. *)
Fixpoint reference_offsets (stsc : list StscEntry) (k : Z) (chunks sizes : list Z)
    : option (list Z) :=
  match chunks with
  | [] => match sizes with [] => Some [] | _ => None end
  | c :: chunks =>
      e ← stsc_for stsc k;
      let n := Z.to_nat (samples_per_chunk e) in
      if (n <=? length sizes)%nat
      then rest ← reference_offsets stsc (k + 1) chunks (drop n sizes);
           Some (scan_offsets c (take n sizes) ++ rest)
      else None
  end.

Lemma scan_offsets_length start sizes : length (scan_offsets start sizes) = length sizes.
Proof. revert start. induction sizes as [|s sizes IH]; intros start; cbn; [done|]. by rewrite IH. Qed.

Lemma scan_offsets_nonneg start sizes : 0 <= start -> Forall (fun s => 0 <= s) sizes ->
  Forall (fun o => 0 <= o) (scan_offsets start sizes).
Proof.
  intros H0 Hs. revert start H0. induction Hs as [|s sizes Hs _ IH]; intros start H0; cbn; constructor; [done|].
  apply IH. lia.
Qed.
Lemma reference_offsets_nonneg stsc k chunks sizes r : Forall (fun c => 0 <= c) chunks ->
  Forall (fun s => 0 <= s) sizes -> reference_offsets stsc k chunks sizes = Some r -> Forall (fun o => 0 <= o) r.
Proof.
  intros Hc. revert k sizes r. induction Hc as [|c chunks Hc _ IH]; intros k sizes r Hs H; cbn in H.
  - destruct sizes; [|done]. injection H as <-. constructor.
  - apply bind_Some in H as (e & _ & H). destruct (_ <=? _)%nat; [|done].
    apply bind_Some in H as (rest & Hrest & [= <-]). apply Forall_app. split.
    + apply scan_offsets_nonneg; [done|]. by apply Forall_take.
    + eapply IH; [|exact Hrest]. by apply Forall_drop.
Qed.

Lemma chunk_sample_eq sizes offsets off si x :
  chunk_sample sizes (offsets, off, si) x
  = (size ← ok_or (get_at sizes si) SampleCountMismatch;
     off' ← ok_or (to_u64 (off + size)) IntegerOverflow;
     Ok (offsets ++ [off], off', si + 1)).
Proof. done. Qed.
(** The loop over the samples of a chunk. *)
Lemma chunk_samples_spec sizes l offsets off si st :
  0 <= si -> 0 <= off -> Forall (fun s => 0 <= s) sizes ->
  let part := take (length l) (drop (Z.to_nat si) sizes) in
  ofold (chunk_sample sizes) (offsets, off, si) l = Ok st <->
  (length l <= length (drop (Z.to_nat si) sizes))%nat /\
  Forall2 (fun o s => o + s < 2 ^ 64) (scan_offsets off part) part /\
  st = (offsets ++ scan_offsets off part, off + foldr Z.add 0 part, si + zlen l).
Proof.
  intros Hsi Hoff Hs. revert offsets off si Hsi Hoff.
  induction l as [|x l IH]; intros offsets off si Hsi Hoff; cbn zeta.
  - cbn [ofold length take scan_offsets foldr]. rewrite app_nil_r, !Z.add_0_r.
    split; [intros [= <-]; repeat split; [lia|constructor]|by intros (_ & _ & ->)].
  - cbn [ofold length]. rewrite chunk_sample_eq.
    destruct (get_at sizes si) as [s|] eqn:Hg; cbn [ok_or mbind outcome_bind].
    + apply get_at_Some in Hg as [Hlt Hg]. rewrite (drop_S _ _ _ Hg).
      replace (S (Z.to_nat si)) with (Z.to_nat (si + 1)) by lia.
      assert (0 <= s) by (by eapply Forall_lookup in Hs).
      unfold to_u64. rewrite (proj2 (Z.leb_le 0 (off + s))) by lia. cbn [andb].
      cbn [take scan_offsets foldr length].
      destruct (Z.ltb_spec (off + s) (2 ^ 64)); cbn [ok_or mbind outcome_bind].
      * rewrite IH by lia. rewrite <- app_assoc, Z.add_assoc. cbn [app].
        replace (si + 1 + zlen l) with (si + Z.of_nat (S (length l))) by lia.
        split; [intros (? & ? & ?); split_and!; [lia|by constructor|done]|].
        intros (? & HF & ?). inversion HF. split_and!; [lia|done|done].
      * split; [done|]. intros (_ & HF & _). inversion HF. lia.
    + split; [done|]. intros (Hle & _ & _). rewrite length_drop in Hle.
      unfold get_at in Hg. rewrite (proj2 (Z.leb_le 0 si)), (proj2 (Z.ltb_lt _ _)) in Hg by lia. cbn in Hg.
      apply lookup_ge_None in Hg. lia.
Qed.

Section Expand.
Context (stsc : list StscEntry) (Hstsc : stsc_ok stsc).

(** [i] is the index of the entry that governs chunk [k]. *)
Definition governs (k : Z) (i : nat) : Prop :=
  exists e, stsc !! i = Some e /\ first_chunk e <= k /\
    forall e', stsc !! S i = Some e' -> k < first_chunk e'.

Lemma governs_stsc_for k i : governs k i -> stsc_for stsc k = stsc !! i.
Proof.
  intros (e & Hi & Hle & Hnext). destruct Hstsc as (_ & Hsort & _). unfold stsc_for.
  rewrite <- (take_drop (S i) stsc) at 1. rewrite filter_app.
  rewrite (list_filter_all _ (take (S i) stsc)), (list_filter_none _ (drop (S i) stsc)), app_nil_r.
  - rewrite (take_S_r _ _ _ Hi), last_snoc. done.
  - apply Forall_lookup. intros j e' He'. rewrite lookup_drop in He'.
    destruct (stsc !! S i) as [en|] eqn:Hn; [|apply lookup_ge_None in Hn; apply lookup_lt_Some in He'; lia].
    specialize (Hnext _ eq_refl). destruct j as [|j].
    + rewrite Nat.add_0_r, Hn in He'. injection He' as <-. lia.
    + assert (first_chunk en < first_chunk e') by (eapply (Hsort (S i) (S i + S j)%nat); [lia|done|done]). lia.
  - apply Forall_lookup. intros j e' He'. apply lookup_take_Some in He' as [He' Hj].
    destruct (decide (j = i)) as [->|]; [congruence|].
    assert (first_chunk e' < first_chunk e) by (eapply (Hsort j i); [lia|done|done]). lia.
Qed.

Lemma advance_stsc_spec fuel k i : (length stsc < i + fuel)%nat ->
  (exists e, stsc !! i = Some e /\ first_chunk e <= k) ->
  exists i', advance_stsc fuel stsc k i = Ok i' /\ governs k i'.
Proof.
  revert i. induction fuel as [|fuel IH]; intros i Hf (e & Hi & Hle).
  { apply lookup_lt_Some in Hi. lia. }
  cbn [advance_stsc]. destruct (stsc !! S i) as [e'|] eqn:Hn.
  - destruct (Z.leb_spec (first_chunk e') k).
    + apply IH; [lia|eauto].
    + exists i. split; [done|]. exists e. split_and!; [done..|]. intros e'' [= <-]%(eq_trans (eq_sym Hn)). lia.
  - exists i. split; [done|]. exists e. split_and!; [done..|]. rewrite Hn. done.
Qed.

Lemma expand_chunk_eq sizes offsets si idx n c :
  expand_chunk sizes stsc (offsets, si, idx) (n, c)
  = (stsc_index ← advance_stsc (S (length stsc)) stsc (wrap 32 (wrap 32 (Z.of_nat n) + 1)) idx;
     entry ← expect (stsc !! stsc_index) "index out of bounds";
     '(offsets, _, sample_index) ← ofold (chunk_sample sizes) (offsets, c, si)
       (seqZ 0 (samples_per_chunk entry));
     Ok (offsets, sample_index, stsc_index)).
Proof. done. Qed.

Definition ends_ok (o s : Z) : Prop := o + s < 2 ^ 64.
Context (sizes : list Z) (Hsizes : Forall (fun s => 0 <= s) sizes).

Lemma expand_chunks_spec chunks n offsets si idx offs' :
  Z.of_nat n + zlen chunks < 2 ^ 32 -> Forall (fun c => 0 <= c) chunks -> 0 <= si <= zlen sizes ->
  (exists e, stsc !! idx = Some e /\ first_chunk e <= Z.of_nat n + 1) ->
  (exists idx', ofold (expand_chunk sizes stsc) (offsets, si, idx)
      (imap (fun i c => ((n + i)%nat, c)) chunks) = Ok (offs', zlen sizes, idx')) <->
  (exists r, reference_offsets stsc (Z.of_nat n + 1) chunks (drop (Z.to_nat si) sizes) = Some r /\
     Forall2 ends_ok r (drop (Z.to_nat si) sizes) /\ offs' = offsets ++ r).
Proof.
  revert n offsets si idx. induction chunks as [|c chunks IH]; intros n offsets si idx Hn Hc Hsi Hidx.
  { cbn [imap ofold reference_offsets]. split.
    - intros (idx' & [= <- Hsi' _]). rewrite drop_ge by lia. exists []. rewrite app_nil_r. by repeat constructor.
    - intros (r & Hr & _ & ->). destruct (drop (Z.to_nat si) sizes) as [|] eqn:Hd; [|done].
      apply (f_equal length) in Hd. rewrite length_drop in Hd. cbn in Hd.
      injection Hr as <-. exists idx. rewrite app_nil_r. do 3 f_equal. lia. }
  cbn [length] in Hn. apply Forall_cons in Hc as [Hc0 Hc]. cbn [imap ofold].
  rewrite Nat.add_0_r, expand_chunk_eq.
  rewrite (wrap_small 32 (Z.of_nat n)), (wrap_small 32) by lia.
  destruct (advance_stsc_spec (S (length stsc)) (Z.of_nat n + 1) idx) as (idx1 & Hadv & Hgov); [lia|done|].
  rewrite Hadv. cbn [mbind outcome_bind]. cbn [reference_offsets].
  rewrite (governs_stsc_for _ _ Hgov). destruct Hgov as (e & He & Hle & Hnext). rewrite He.
  cbn [expect mbind outcome_bind option_bind].
  assert (1 <= samples_per_chunk e) as Hspc
    by (destruct Hstsc as (_ & _ & HF); eapply Forall_lookup in HF; [|exact He]; lia).
  set (m := Z.to_nat (samples_per_chunk e)). set (rest := drop (Z.to_nat si) sizes) in *.
  pose proof (fun st => chunk_samples_spec sizes (seqZ 0 (samples_per_chunk e)) offsets c si st
    ltac:(lia) Hc0 Hsizes) as Hloop. cbv zeta in Hloop. rewrite length_seqZ in Hloop. fold m rest in Hloop.
  assert (length rest = length sizes - Z.to_nat si)%nat as Hrl by apply length_drop.
  assert (drop m rest = drop (Z.to_nat (si + Z.of_nat m)) sizes) as Hdr
    by (unfold rest; rewrite drop_drop; f_equal; lia).
  destruct (Nat.leb_spec m (length rest)) as [Hml|Hml]; last first.
  { split; [|by intros (? & ? & _)]. intros (idx' & H).
    apply bind_Ok_inv in H as (st' & H & _). apply bind_Ok_inv in H as (st & Hst%Hloop & _). lia. }
  rewrite Hdr in *.
  match goal with |- context [imap ?f chunks] =>
    assert (imap f chunks = imap (fun i c0 => ((S n + i)%nat, c0)) chunks) as ->
      by (apply imap_ext; intros i x _; unfold compose; f_equal; lia) end.
  split.
  - intros (idx' & H). apply bind_Ok_inv in H as (st' & H & Hrec).
    apply bind_Ok_inv in H as (st & Hst%Hloop & H). destruct Hst as (_ & Hends & ->). cbn in H.
    injection H as <-.
    assert (exists r, reference_offsets stsc (Z.of_nat (S n) + 1) chunks (drop (Z.to_nat (si + Z.of_nat m)) sizes) = Some r /\
      Forall2 ends_ok r (drop (Z.to_nat (si + Z.of_nat m)) sizes) /\
      offs' = (offsets ++ scan_offsets c (take m rest)) ++ r) as (r & Hr & HF & ->).
    { apply (IH (S n) _ _ idx1); [lia|done|lia|exists e; split; [done|lia]|by exists idx']. }
    exists (scan_offsets c (take m rest) ++ r). replace (Z.of_nat n + 1 + 1) with (Z.of_nat (S n) + 1) by lia.
    rewrite Hr. cbn. split; [done|]. split; [|by rewrite app_assoc].
    assert (Forall2 ends_ok (scan_offsets c (take m rest) ++ r) (take m rest ++ drop m rest)) as Hx
      by (rewrite Hdr; by apply Forall2_app). by rewrite take_drop in Hx.
  - intros (r & Hr & HF & ->). apply bind_Some in Hr as (r' & Hr & [= <-]).
    assert (Forall2 ends_ok (scan_offsets c (take m rest) ++ r') (take m rest ++ drop m rest)) as HF'
      by by rewrite take_drop. rewrite Hdr in HF'.
    apply Forall2_app_inv in HF' as [HF1 HF2]; [|by rewrite scan_offsets_length].
    rewrite (proj2 (Hloop (offsets ++ scan_offsets c (take m rest), c + foldr Z.add 0 (take m rest),
      si + Z.of_nat m))) by done. cbn [mbind outcome_bind].
    apply (IH (S n) _ _ idx1); [lia|done|lia|exists e; split; [done|lia]|].
    exists r'. replace (Z.of_nat (S n) + 1) with (Z.of_nat n + 1 + 1) by lia.
    split; [done|]. split; [done|]. by rewrite app_assoc.
Qed.

(** [expand_sample_offsets] computes the reference layout: chunk by chunk, the
    number of samples given by the governing [stsc] entry, each sample right
    behind the one before; it succeeds exactly when the chunks account for all
    samples and no sample ends beyond [2^64]. *)
Theorem expand_sample_offsets_spec chunks offs :
  zlen chunks < 2 ^ 32 -> Forall (fun c => 0 <= c) chunks ->
  expand_sample_offsets sizes chunks stsc = Ok offs <->
  reference_offsets stsc 1 chunks sizes = Some offs /\ Forall2 ends_ok offs sizes.
Proof.
  intros Hn Hc.
  pose proof (expand_chunks_spec chunks 0 [] 0 0%nat offs) as H. rewrite drop_0 in H.
  assert (imap pair chunks = imap (fun i c => ((0 + i)%nat, c)) chunks) as Him by done.
  assert (expand_sample_offsets sizes chunks stsc = Ok offs <->
    exists idx', ofold (expand_chunk sizes stsc) ([], 0, 0%nat) (imap pair chunks) = Ok (offs, zlen sizes, idx'))
    as ->.
  { unfold expand_sample_offsets. split.
    - intros Hx. apply bind_Ok_inv in Hx as ([[o si] idx] & Ho & Hx).
      apply bind_Ok_inv in Hx as (_ & Hl%ensure_Ok & [= <-]). bool_hyps. subst si. by exists idx.
    - intros (idx & ->). cbn. by rewrite Z.eqb_refl. }
  rewrite Him, H; [|lia|done|lia|].
  - split; [by intros (r & ? & ? & ->)|]. intros [? ?]. by exists offs.
  - destruct Hstsc as (Hh & _ & _). destruct stsc as [|e l]; [done|]. exists e. split; [done|].
    injection Hh as ->. done.
Qed.
End Expand.

(** ** The parsed track *)

Definition total_duration (l : list VideoSample) : Z := foldr (fun s t => duration s + t) 0 l.
Lemma total_duration_snoc l s : total_duration (l ++ [s]) = total_duration l + duration s.
Proof.
  unfold total_duration. induction l as [|x l IH]; cbn; [lia|]. rewrite IH. lia.
Qed.

(** What [build_video_track] establishes of the samples so far. *)
Record samples_ok (sizes offs : list Z) (l : list VideoSample) (dt ps pe : Z) : Prop := {
  so_at : forall i s, l !! i = Some s ->
    index s = Z.of_nat i /\ decode_time s = total_duration (take i l) /\ 0 < duration s /\
    sizes !! i = Some (byte_size s) /\ offs !! i = Some (byte_offset s) /\
    ps <= presentation_time s /\ presentation_time s + duration s <= pe;
  so_time : dt = total_duration l;
  so_first : l = [] \/ exists s, s ∈ l /\ presentation_time s = ps;
  so_last : l = [] \/ exists s, s ∈ l /\ presentation_time s + duration s = pe;
  so_empty : l = [] -> ps = i64_max /\ pe = i64_min;
}.

Lemma to_i64_range z r : to_i64 z = Some r -> r = z /\ i64_min <= z <= i64_max.
Proof. rewrite to_i64_Some. unfold i64_min, i64_max. lia. Qed.

Lemma add_sample_ok tables timings cos sync offs sizes l dt ps pe st :
  Forall (fun d => 0 < d < 2 ^ 32) timings -> Z.of_nat (length l) < 2 ^ 32 ->
  samples_ok sizes offs l dt ps pe ->
  add_sample tables timings cos sync offs sizes (l, dt, ps, pe) (Z.of_nat (length l)) = Ok st ->
  exists s, st = (l ++ [s], dt + duration s, Z.min ps (presentation_time s),
                  Z.max pe (presentation_time s + duration s)) /\
    samples_ok sizes offs (l ++ [s]) (dt + duration s) (Z.min ps (presentation_time s))
      (Z.max pe (presentation_time s + duration s)).
Proof.
  intros Ht Hlen Hok H. unfold add_sample in H.
  apply bind_Ok_inv in H as (d & Hd%expect_Ok & H). apply bind_Ok_inv in H as (di & Hdi%ok_or_Ok & H).
  apply bind_Ok_inv in H as (co & _ & H). apply bind_Ok_inv in H as (pt & Hpt%ok_or_Ok & H).
  apply bind_Ok_inv in H as (en & Hen%ok_or_Ok & H). apply bind_Ok_inv in H as (bo & Hbo%expect_Ok & H).
  apply bind_Ok_inv in H as (bs & Hbs%expect_Ok & H). apply bind_Ok_inv in H as (sy & _ & H).
  apply bind_Ok_inv in H as (dt' & Hdt'%ok_or_Ok & H). injection H as <-.
  apply get_at_Some in Hd as [_ Hd], Hbo as [_ Hbo], Hbs as [_ Hbs]. rewrite Nat2Z.id in *.
  apply to_i64_range in Hen as [-> Hen]. apply to_u64_Some in Hdt' as [-> _].
  apply bind_Some in Hpt as (t & _ & Hpt%to_i64_range). destruct Hpt as [Hpt Hptr].
  assert (0 < d) by (eapply Forall_lookup in Ht; [|exact Hd]; lia).
  rewrite wrap_small by lia.
  set (s := {| index := Z.of_nat (length l) |}).
  exists s. split; [done|]. destruct Hok as [Hat Htm Hf Hla He]. split.
  - intros i x Hx. apply lookup_app_Some in Hx as [Hx|[Hge Hx]].
    + rewrite take_app_le by (apply lookup_lt_Some in Hx; lia).
      destruct (Hat i x Hx) as (? & ? & ? & ? & ? & ? & ?). split_and!; try done; lia.
    + apply list_lookup_singleton_Some in Hx as [Hi <-]. assert (i = length l) as -> by lia.
      rewrite take_app_length. cbn. split_and!; try done; try lia.
  - by rewrite total_duration_snoc, Htm.
  - right. destruct Hf as [->|(x & Hx & Hxe)].
    + destruct (He eq_refl) as [-> _]. exists s. split; [set_solver|]. cbn. lia.
    + destruct (Z.le_gt_cases ps pt); [exists x|exists s]; (split; [set_solver|]); cbn; lia.
  - right. destruct Hla as [->|(x & Hx & Hxe)].
    + destruct (He eq_refl) as [_ ->]. exists s. split; [set_solver|]. cbn. lia.
    + destruct (Z.le_gt_cases (pt + d) pe); [exists x|exists s]; (split; [set_solver|]); cbn; lia.
  - by intros [??]%app_eq_nil.
Qed.

Lemma add_samples_ok tables timings cos sync offs sizes n st :
  Forall (fun d => 0 < d < 2 ^ 32) timings -> 0 <= n < 2 ^ 32 ->
  ofold (add_sample tables timings cos sync offs sizes) ([], 0, i64_max, i64_min) (seqZ 0 n) = Ok st ->
  exists l dt ps pe, st = (l, dt, ps, pe) /\ zlen l = n /\ samples_ok sizes offs l dt ps pe.
Proof.
  intros Ht Hn H.
  apply (ofold_inv (fun done st => exists l dt ps pe, st = (l, dt, ps, pe) /\ length l = length done /\
    samples_ok sizes offs l dt ps pe)) in H.
  - destruct H as (l & dt & ps & pe & -> & Hl & Hok). rewrite length_seqZ in Hl.
    exists l, dt, ps, pe. split; [done|]. split; [lia|done].
  - exists [], 0, i64_max, i64_min. split; [done|]. split; [done|]. split; try done; by left.
  - intros done x todo b b' Hseq (l & dt & ps & pe & -> & Hl & Hok) Hx.
    assert (x = Z.of_nat (length l) /\ Z.of_nat (length l) < n) as [-> Hlt].
    { assert (seqZ 0 n !! length done = Some x) as Hx0 by (by rewrite Hseq, list_lookup_middle).
      apply lookup_seqZ in Hx0. lia. }
    apply add_sample_ok in Hx as (s & -> & Hok'); [|done|lia|done].
    eexists _, _, _, _. split; [done|]. rewrite !length_app, Hl. split; [done|]. exact Hok'.
Qed.

Definition tables_ok (t : TrackTables) : Prop :=
  is_bytes (stsd t) /\ is_bytes (stts t) /\ is_bytes (stsz t) /\ is_bytes (stsc t) /\
  is_bytes (chunk_offsets t) /\ (forall d, ctts t = Some d -> is_bytes d) /\
  (forall d, stss t = Some d -> is_bytes d).

Lemma build_video_track_Ok tables t : tables_ok tables -> build_video_track tables = Ok t ->
  exists sizes offs chunks es dt,
    parse_stsz (stsz tables) = Ok sizes /\ parse_stsc (stsc tables) = Ok es /\
    parse_chunk_offsets (chunk_offsets tables) (chunk_offsets_are_64_bit tables) = Ok chunks /\
    reference_offsets es 1 chunks sizes = Some offs /\ Forall2 ends_ok offs sizes /\
    parse_stts (stts tables) (zlen sizes) = Ok (duration <$> samples t) /\
    timescale t = tt_timescale tables /\
    (codec t = ascii_bytes "avc1" \/ codec t = ascii_bytes "avc3") /\
    samples t <> [] /\ zlen (samples t) = zlen sizes /\
    samples_ok sizes offs (samples t) dt (presentation_start t) (presentation_end t).
Proof.
  intros (Hb1 & Hb2 & Hb3 & Hb4 & Hb5 & Hb6 & Hb7) H. unfold build_video_track in H.
  apply bind_Ok_inv in H as (co & Hco & H). apply bind_Ok_inv in H as (sizes & Hsz & H).
  apply bind_Ok_inv in H as (tm & Htm & H). apply bind_Ok_inv in H as (cos & _ & H).
  apply bind_Ok_inv in H as (sy & _ & H). apply bind_Ok_inv in H as (chunks & Hch & H).
  apply bind_Ok_inv in H as (es & Hes & H). apply bind_Ok_inv in H as (offs & Hoffs & H).
  apply bind_Ok_inv in H as (st & Hst & H).
  pose proof (parse_stsz_Ok _ Hb3 _ Hsz) as [Hsr Hsl]. pose proof (parse_stts_Ok _ Hb2 _ _ Htm) as [Htl Htr].
  pose proof (parse_chunk_offsets_Ok _ Hb5 _ _ Hch) as [Hcr Hcl]. pose proof (parse_stsc_Ok _ Hb4 _ Hes) as Heo.
  apply (expand_sample_offsets_spec es Heo) in Hoffs as [Hro Hends];
    [|eapply Forall_impl; [exact Hsr|]; cbn; lia|done|eapply Forall_impl; [exact Hcr|]; cbn; lia].
  apply bind_Ok_inv in Hco as (n1 & _ & Hco). apply bind_Ok_inv in Hco as (_ & _ & Hco).
  apply bind_Ok_inv in Hco as (en & _ & Hco). apply bind_Ok_inv in Hco as (_ & _ & Hco).
  apply bind_Ok_inv in Hco as (sz & _ & Hco). apply bind_Ok_inv in Hco as (_ & _ & Hco).
  apply bind_Ok_inv in Hco as (c & _ & Hco). apply bind_Ok_inv in Hco as (_ & Hc%ensure_Ok & [= <-]).
  pose proof Hst as Hst'.
  apply add_samples_ok in Hst as (l & dt & ps & pe & -> & Hl & Hok); [|done|lia].
  apply bind_Ok_inv in H as (_ & Hne%ensure_Ok & [= <-]). bool_hyps. cbn.
  exists sizes, offs, chunks, es, dt. split_and!; try done.
  - enough (duration <$> l = tm) as -> by done.
    apply (ofold_inv (fun done st => duration <$> st.1.1.1 = take (length done) tm)) in Hst'; [|done|].
    { cbn in Hst'. rewrite length_seqZ in Hst'. rewrite Hst', take_ge by lia. done. }
    intros done x todo [[[l0 dt0] ps0] pe0] b' Hseq Hd Hx. cbn in Hd.
    assert (x = Z.of_nat (length done)) as ->.
    { assert (seqZ 0 (zlen sizes) !! length done = Some x) as Hx0 by (by rewrite Hseq, list_lookup_middle).
      apply lookup_seqZ in Hx0. lia. }
    apply bind_Ok_inv in Hx as (d & Hdd%expect_Ok & Hx). apply get_at_Some in Hdd as [_ Hdd].
    rewrite Nat2Z.id in Hdd. do 7 (apply bind_Ok_inv in Hx as (? & _ & Hx)).
    apply bind_Ok_inv in Hx as (? & _ & [= <-]). cbn.
    rewrite fmap_app, Hd, length_app, Nat.add_comm. cbn. by rewrite (take_S_r _ _ _ Hdd).
  - match goal with H : _ \/ _ |- _ => destruct H; bool_hyps; auto end.
Qed.

Lemma parse_track_Ok track h t : is_bytes track -> zlen track < 2 ^ 64 ->
  parse_track track = Ok (h, t) -> tables_ok t /\ 0 < tt_timescale t.
Proof.
  intros Hb Hlen H. unfold parse_track in H.
  apply bind_Ok_inv in H as (em & _ & H).
  apply bind_Ok_inv in H as (mdia & Hmdia & H). apply bind_Ok_inv in H as (mdia' & Hm%ok_or_Ok & H). subst.
  pose proof (find_child_sub _ Hb Hlen _ _ Hmdia) as [Hbm Hlm].
  apply bind_Ok_inv in H as (hdlr & _ & H). apply bind_Ok_inv in H as (hdlr' & _ & H).
  apply bind_Ok_inv in H as (hh & _ & H).
  apply bind_Ok_inv in H as (mdhd & Hmdhd & H). apply bind_Ok_inv in H as (mdhd' & Hmd%ok_or_Ok & H). subst.
  pose proof (find_child_sub _ Hbm ltac:(lia) _ _ Hmdhd) as [Hbd _].
  apply bind_Ok_inv in H as ([ts du] & Hts & H).
  apply bind_Ok_inv in H as (minf & Hminf & H). apply bind_Ok_inv in H as (minf' & Hmi%ok_or_Ok & H). subst.
  pose proof (find_child_sub _ Hbm ltac:(lia) _ _ Hminf) as [Hbi Hli].
  apply bind_Ok_inv in H as (_ & _ & H).
  apply bind_Ok_inv in H as (stbl & Hstbl & H). apply bind_Ok_inv in H as (stbl' & Hst%ok_or_Ok & H). subst.
  pose proof (find_child_sub _ Hbi ltac:(lia) _ _ Hstbl) as [Hbs Hls].
  assert (forall k p, find_child stbl' k = Ok (Some p) -> is_bytes p) as Hsub.
  { intros k p Hp. by apply (find_child_sub _ Hbs ltac:(lia)) in Hp as [? _]. }
  assert (forall k nm p, required_child stbl' k nm = Ok p -> is_bytes p) as Hreq.
  { intros k nm p Hp. apply bind_Ok_inv in Hp as (o & Ho & Hp%ok_or_Ok). subst. by eapply Hsub. }
  apply bind_Ok_inv in H as (a1 & H1 & H). apply bind_Ok_inv in H as (a2 & H2 & H).
  apply bind_Ok_inv in H as (a3 & H3 & H). apply bind_Ok_inv in H as (a4 & H4 & H).
  apply bind_Ok_inv in H as (a5 & H5 & H). apply bind_Ok_inv in H as (a6 & H6 & H).
  apply bind_Ok_inv in H as (a7 & H7 & H). apply bind_Ok_inv in H as (a8 & H8 & H).
  apply bind_Ok_inv in H as (a9 & H9 & H). injection H as _ <-. cbn. split.
  - split_and!; cbn; try by eapply Hreq.
    + destruct a7; [injection H8 as <-; by eapply Hsub|by eapply Hreq].
    + intros d ->. by eapply Hsub.
    + intros d ->. by eapply Hsub.
  - apply bind_Ok_inv in Hts as (v & _ & Hts). apply bind_Ok_inv in Hts as ([ts' du'] & Hv & Hts).
    apply bind_Ok_inv in Hts as (_ & Hz%ensure_Ok & [= -> ->]). bool_hyps.
    assert (0 <= ts < 2 ^ 32); [|lia].
    destruct (v =? 0); [|destruct (v =? 1); [|done]];
      apply bind_Ok_inv in Hv as (x & Hx%ok_or_Ok & Hv);
      apply bind_Ok_inv in Hv as (y & _ & [= <- <-]); apply (read_u32_range _ _ _ Hbd Hx).
Qed.

(** What a client of the parser may rely on. *)
(** The track comes from tables of the index. *)
Lemma parsed_tables moov file_len t : is_bytes moov -> zlen moov < 2 ^ 64 ->
  parse_mp4_video_track_from_moov moov file_len = Ok t ->
  (exists tables, tables_ok tables /\ 0 < tt_timescale tables /\ build_video_track tables = Ok t) /\
  Forall (fun s => check_sample_range file_len s = Ok tt) (samples t).
Proof.
  intros Hb Hlen H. unfold parse_mp4_video_track_from_moov in H.
  apply bind_Ok_inv in H as ([v n] & Hv & H). apply bind_Ok_inv in H as (t' & Ht%ok_or_Ok & H).
  apply bind_Ok_inv in H as (_ & Hr%oforall_Ok & [= <-]). subst v.
  set (P := fun st : option VideoTrack * Z => forall t, st.1 = Some t ->
    exists tables, tables_ok tables /\ 0 < tt_timescale tables /\ build_video_track tables = Ok t).
  assert (P (Some t', n)) as HP.
  { apply (for_boxes_inv moov Hb Hlen P moov_box (None, 0)); [done| |exact Hv].
    intros [v a] b [v' a'] [Hsb Hsl] HP Hbox. unfold moov_box in Hbox.
    destruct (negb _); [injection Hbox as <- <-; exact HP|].
    apply bind_Ok_inv in Hbox as ([h tables] & Htr & Hbox).
    apply parse_track_Ok in Htr as [Htok Hts]; [|done|lia].
    destruct h; [|destruct (1 <? a + 1); [done|injection Hbox as <- <-; exact HP]].
    destruct v; [done|]. apply bind_Ok_inv in Hbox as (t & Ht & [= <- <-]).
    intros t0 [= <-]. by exists tables. }
  split; [|done]. by apply HP.
Qed.
(** Its samples start and end at offsets that are not negative. *)
Lemma parsed_samples_nonneg moov file_len t : is_bytes moov -> zlen moov < 2 ^ 64 ->
  parse_mp4_video_track_from_moov moov file_len = Ok t ->
  Forall (fun s => 0 <= byte_offset s /\ 0 <= byte_size s) (samples t).
Proof.
  intros Hb Hlen H. destruct (parsed_tables _ _ _ Hb Hlen H) as [(tables & Htok & Hts & Hbuild) _].
  destruct (build_video_track_Ok tables t Htok Hbuild)
    as (sizes & offs & chunks & es & dt & Hsz & _ & Hch & Hro & _ & _ & _ & _ & _ & _ & [Hat _ _ _ _]).
  destruct Htok as (_ & _ & Hb3 & _ & Hb5 & _).
  apply parse_stsz_Ok in Hsz as [Hsz _]; [|done]. apply parse_chunk_offsets_Ok in Hch as [Hch _]; [|done].
  apply reference_offsets_nonneg in Hro; [|eapply Forall_impl; [done|cbn; lia]..].
  apply Forall_lookup. intros i s Hs. destruct (Hat i s Hs) as (_ & _ & _ & H1 & H2 & _).
  rewrite Forall_lookup in Hsz, Hro. apply Hsz in H1. apply Hro in H2. lia.
Qed.

(** The payload of the box [moov], and the samples it describes. *)
Lemma top_moov_sub data m : is_bytes data -> zlen data < 2 ^ 64 ->
  for_boxes data top_box None = Ok (Some m) -> sub_bytes data m.
Proof.
  intros Hb Hlen Hmoov.
  refine (for_boxes_inv data Hb Hlen (fun o => forall p, o = Some p -> sub_bytes data p) _ None _ _ _ Hmoov m eq_refl);
    [done|]. intros acc b acc' Hsub Hacc Hf. unfold top_box in Hf.
  destruct (bool_decide _); [|destruct (bool_decide _); [done|injection Hf as <-; exact Hacc]].
  destruct acc; [done|]. injection Hf as <-. intros q [= <-]. done.
Qed.
Lemma parsed_file_nonneg data t : is_bytes data -> zlen data < 2 ^ 64 -> parse_mp4_video_track data = Ok t ->
  Forall (fun s => 0 <= byte_offset s /\ 0 <= byte_size s) (samples t).
Proof.
  intros Hb Hlen H. apply bind_Ok_inv in H as (m & Hm & H). apply bind_Ok_inv in H as (m' & ->%ok_or_Ok & H).
  destruct (top_moov_sub data m' Hb Hlen Hm) as [Hmb Hml].
  apply parsed_samples_nonneg in H; [done|done|lia].
Qed.

Definition track_ok (t : VideoTrack) (file_len : Z) : Prop :=
  samples t <> [] /\ 0 < timescale t /\
  (codec t = ascii_bytes "avc1" \/ codec t = ascii_bytes "avc3") /\
  (forall i s, samples t !! i = Some s ->
     index s = Z.of_nat i /\ decode_time s = total_duration (take i (samples t)) /\ 0 < duration s /\
     byte_offset s + byte_size s <= file_len /\
     presentation_start t <= presentation_time s /\
     presentation_time s + duration s <= presentation_end t) /\
  (exists s, s ∈ samples t /\ presentation_time s = presentation_start t) /\
  (exists s, s ∈ samples t /\ presentation_time s + duration s = presentation_end t).

(** C36: Every track that the parser returns is well formed: it is H.264 with at
    least one sample, indices count from zero, decode times are the cumulated
    positive durations, every byte range lies in the file, and the
    presentation interval is the exact hull of the samples' intervals. *)
Theorem parsed_track_ok moov file_len t :
  is_bytes moov -> zlen moov < 2 ^ 64 ->
  parse_mp4_video_track_from_moov moov file_len = Ok t -> track_ok t file_len.
Proof.
  intros Hb Hlen H. destruct (parsed_tables _ _ _ Hb Hlen H) as [(tables & Htok & Hts & Hbuild) Hr].
  destruct (build_video_track_Ok tables t Htok Hbuild)
    as (sizes & offs & chunks & es & dt & _ & _ & _ & _ & _ & _ & Htime & Hcodec & Hne & _ & Hok).
  destruct Hok as [Hat _ Hf Hla _]. split; [done|]. split; [lia|]. split; [done|]. split; [|split].
  - intros i s Hs. destruct (Hat i s Hs) as (? & ? & ? & _ & _ & ? & ?). split_and!; try done.
    rewrite Forall_lookup in Hr. specialize (Hr i s Hs). unfold check_sample_range in Hr.
    apply bind_Ok_inv in Hr as (e & He%ok_or_Ok & Hle%ensure_Ok).
    apply to_u64_Some in He as [-> _]. by bool_hyps.
  - destruct Hf as [Hnil|]; [by destruct (Hne Hnil)|done].
  - destruct Hla as [Hnil|]; [by destruct (Hne Hnil)|done].
Qed.

(** ** The parser never panics *)

Lemma advance_stsc_total fuel stsc k i : (i < length stsc)%nat -> (length stsc < i + fuel)%nat ->
  exists i', advance_stsc fuel stsc k i = Ok i' /\ (i' < length stsc)%nat.
Proof.
  revert i. induction fuel as [|fuel IH]; intros i Hi Hf; [lia|]. cbn [advance_stsc].
  destruct (stsc !! S i) eqn:Hn; [|eauto]. apply lookup_lt_Some in Hn.
  destruct (_ <=? k); [apply IH; lia|eauto].
Qed.
Lemma no_panic_expand sizes chunks stsc : stsc <> [] -> no_panic (expand_sample_offsets sizes chunks stsc).
Proof.
  intros Hne. unfold expand_sample_offsets.
  apply no_panic_bind; [|intros [[? ?] ?] _; np].
  apply (no_panic_ofold (fun st => (st.2 < length stsc)%nat)); [cbn; destruct stsc; [done|cbn; lia]|].
  intros [[offs si] idx] [n c] _ Hidx. cbn in Hidx. rewrite expand_chunk_eq.
  destruct (advance_stsc_total (S (length stsc)) stsc (wrap 32 (wrap 32 (Z.of_nat n) + 1)) idx)
    as (idx' & -> & Hidx'); [done|lia|]. cbn [mbind outcome_bind].
  destruct (lookup_lt_is_Some_2 stsc idx' Hidx') as [e He]. rewrite He. cbn [expect mbind outcome_bind].
  split.
  - apply no_panic_bind; [|intros [[? ?] ?] _; np].
    apply no_panic_ofold_simple. intros [[? ?] ?] x _. rewrite chunk_sample_eq. np.
  - intros b' H. apply bind_Ok_inv in H as ([[? ?] ?] & _ & [= <-]). done.
Qed.

Lemma no_panic_parse_stss data count : 0 <= count -> (forall d, data = Some d -> is_bytes d) ->
  no_panic (parse_stss data count).
Proof.
  intros Hc Hb. unfold parse_stss. destruct data as [d|]; [|exact I]. specialize (Hb d eq_refl). np.
  apply (no_panic_ofold (fun st => zlen st.1 = count)); [cbn; rewrite length_replicate; lia|].
  intros [sync prev] x _ Hl. unfold stss_entry. cbn in Hl. split.
  - apply no_panic_bind; [np|intros sn Hsn%ok_or_Ok]. pose proof (read_u32_range _ _ _ Hb Hsn).
    apply no_panic_bind; [np|intros _ Hok%ensure_Ok]. bool_hyps.
    apply no_panic_bind; [|intros ? _; np]. apply no_panic_expect. unfold get_at.
    rewrite (proj2 (Z.leb_le _ _)), (proj2 (Z.ltb_lt _ _)) by lia. cbn.
    apply lookup_lt_is_Some_2. lia.
  - intros b' Hst. inv_ok. subst. cbn. by rewrite length_insert.
Qed.

(** The tables of a track have one entry per sample. *)
Lemma no_panic_add_sample tables tm cos sync offs sizes st i :
  zlen tm = zlen sizes -> zlen cos = zlen sizes -> zlen sync = zlen sizes -> zlen offs = zlen sizes ->
  0 <= i < zlen sizes -> no_panic (add_sample tables tm cos sync offs sizes st i).
Proof.
  intros H1 H2 H3 H4 Hi. destruct st as [[[l dt] ps] pe]. unfold add_sample.
  assert (forall A (l : list A), zlen l = zlen sizes -> is_Some (get_at l i)) as Hat.
  { intros A l0 Hl. unfold get_at. rewrite (proj2 (Z.leb_le _ _)), (proj2 (Z.ltb_lt _ _)) by lia.
    apply lookup_lt_is_Some_2. lia. }
  repeat (apply no_panic_bind; [first [by apply no_panic_expect, Hat|apply no_panic_ok_or]|intros ? _]).
  exact I.
Qed.

Lemma no_panic_build_video_track tables : tables_ok tables -> no_panic (build_video_track tables).
Proof.
  intros (Hb1 & Hb2 & Hb3 & Hb4 & Hb5 & Hb6 & Hb7). unfold build_video_track.
  apply no_panic_bind; [unfold parse_video_codec; np|intros co _].
  apply no_panic_bind; [unfold parse_stsz; np; apply no_panic_ofold_simple; intros; np|intros sizes Hsz].
  apply no_panic_bind; [unfold parse_stts; np; apply no_panic_ofold_simple; intros; unfold stts_entry; np|intros tm Htm].
  apply no_panic_bind; [unfold parse_ctts; np; apply no_panic_ofold_simple; intros; unfold ctts_entry; np|intros cos Hcos].
  apply no_panic_bind; [apply no_panic_parse_stss; [lia|done]|intros sync Hsync].
  apply no_panic_bind; [unfold parse_chunk_offsets; np; apply no_panic_ofold_simple; intros; np|intros chunks Hch].
  apply no_panic_bind; [unfold parse_stsc; np; apply no_panic_ofold_simple; intros [? ?] ? ?; unfold stsc_entry; np|intros es Hes].
  pose proof (parse_stsc_Ok _ Hb4 _ Hes) as Heo.
  apply no_panic_bind; [apply no_panic_expand; by destruct Heo as (? & _), es|intros offs Hoffs].
  pose proof (parse_stsz_Ok _ Hb3 _ Hsz) as [Hsr _]. pose proof (parse_stts_Ok _ Hb2 _ _ Htm) as [Htl _].
  pose proof (parse_chunk_offsets_Ok _ Hb5 _ _ Hch) as [Hcr Hcl].
  apply parse_ctts_Ok in Hcos; [|lia].
  assert (zlen sync = zlen sizes) as Hsl.
  { destruct (stss tables) as [d|] eqn:Hd.
    - apply parse_stss_Ok in Hsync; [done|lia].
    - injection Hsync as <-. rewrite length_replicate. lia. }
  apply (expand_sample_offsets_spec es Heo) in Hoffs as [_ Hends%Forall2_length];
    [|eapply Forall_impl; [exact Hsr|]; cbn; lia|done|eapply Forall_impl; [exact Hcr|]; cbn; lia].
  apply no_panic_bind; [|intros [[[? ?] ?] ?] _; np].
  apply no_panic_ofold_simple. intros st i Hi%elem_of_seqZ.
  apply no_panic_add_sample; lia.
Qed.

Lemma no_panic_dref_entry seen b : no_panic (dref_entry seen b).
Proof.
  unfold dref_entry. apply no_panic_bind; [np|intros _ H%ensure_Ok]. bool_hyps.
  assert (forall i, 0 <= i < 4 -> is_Some (get_at (payload b) i)) as Hat.
  { intros i Hi. unfold get_at. rewrite (proj2 (Z.leb_le _ _)), (proj2 (Z.ltb_lt _ _)) by lia.
    apply lookup_lt_is_Some_2. lia. }
  do 3 (apply no_panic_bind; [apply no_panic_expect, Hat; lia|intros ? _]). np.
Qed.

Lemma no_panic_parse_track track : is_bytes track -> zlen track < 2 ^ 64 -> no_panic (parse_track track).
Proof.
  intros Hb Hlen. unfold parse_track.
  assert (forall d p k, is_bytes d -> zlen d < 2 ^ 64 -> find_child d k = Ok (Some p) ->
    is_bytes p /\ zlen p < 2 ^ 64) as Hsub.
  { intros d p k Hd Hdl Hp. apply (find_child_sub _ Hd Hdl) in Hp as [? ?]. split; [done|lia]. }
  apply no_panic_bind.
  { unfold parse_edit_media_time. apply no_panic_bind; [by apply no_panic_find_child|].
    intros [edts|] He; [|exact I]. apply Hsub in He as [Heb Hel]; [|done..].
    apply no_panic_bind; [by apply no_panic_find_child|intros; np]. }
  intros em _. apply no_panic_bind; [by apply no_panic_find_child|intros mdia Hmdia].
  apply no_panic_bind; [np|intros m ->%ok_or_Ok]. apply Hsub in Hmdia as [Hmb Hml]; [|done..].
  apply no_panic_bind; [by apply no_panic_find_child|intros hdlr _].
  apply no_panic_bind; [np|intros hd _]. apply no_panic_bind; [unfold parse_handler; np|intros hh _].
  apply no_panic_bind; [by apply no_panic_find_child|intros mdhd _].
  apply no_panic_bind; [np|intros md _]. apply no_panic_bind; [unfold parse_mdhd; np|intros [ts du] _].
  apply no_panic_bind; [by apply no_panic_find_child|intros minf Hminf].
  apply no_panic_bind; [np|intros mi ->%ok_or_Ok]. apply Hsub in Hminf as [Hib Hil]; [|done..].
  apply no_panic_bind.
  { unfold verify_self_contained. apply no_panic_bind; [by apply no_panic_find_child|].
    intros [dinf|] Hd; [|exact I]. apply Hsub in Hd as [Hdb Hdl]; [|done..].
    apply no_panic_bind; [by apply no_panic_find_child|]. intros [dref|] Hr; [|exact I].
    apply Hsub in Hr as [Hrb Hrl]; [|done..]. apply no_panic_bind; [np|intros n _].
    apply no_panic_bind; [np|intros en [Hen1 ->]%ok_or_Ok%get_from_Some].
    apply no_panic_bind; [|intros ? _; np]. apply no_panic_for_boxes; [by apply Forall_drop|rewrite length_drop; lia|].
    intros seen b _. apply no_panic_dref_entry. }
  intros _ _. apply no_panic_bind; [by apply no_panic_find_child|intros stbl Hstbl].
  apply no_panic_bind; [np|intros st ->%ok_or_Ok]. apply Hsub in Hstbl as [Hsb Hsl]; [|done..].
  repeat (apply no_panic_bind; [first [by apply no_panic_required_child|by apply no_panic_find_child]|intros ? _]).
  apply no_panic_bind; [|intros ? _; apply no_panic_bind; [by apply no_panic_find_child|intros ? _; exact I]].
  match goal with |- no_panic (match ?x with _ => _ end) => destruct x end;
    [exact I|by apply no_panic_required_child].
Qed.

(** C37: The parser is total: on every byte string it returns a track or one of its
    errors; no index is out of range, no [expect] fails and the loops end. *)
Theorem parse_mp4_total data : is_bytes data -> zlen data < 2 ^ 64 ->
  no_panic (parse_mp4_video_track data).
Proof.
  intros Hb Hlen. unfold parse_mp4_video_track.
  apply no_panic_bind.
  { apply no_panic_for_boxes; [done..|]. intros acc b _. unfold top_box. np. }
  intros moov Hmoov. apply no_panic_bind; [np|intros m ->%ok_or_Ok].
  pose proof (top_moov_sub data m Hb Hlen Hmoov) as [Hmb Hml].
  unfold parse_mp4_video_track_from_moov. apply no_panic_bind.
  - apply no_panic_for_boxes; [done|lia|]. intros [v a] b [Hpb Hpl]. unfold moov_box.
    destruct (negb _); [exact I|].
    apply no_panic_bind; [apply no_panic_parse_track; [done|lia]|intros [h tables] Ht].
    apply parse_track_Ok in Ht as [Ht _]; [|done|lia].
    destruct h; [destruct v; [exact I|]|np].
    apply no_panic_bind; [by apply no_panic_build_video_track|intros ? _; exact I].
  - intros [v n] _. apply no_panic_bind; [np|intros t _].
    apply no_panic_bind; [|intros; exact I]. apply no_panic_oforall. intros s _.
    unfold check_sample_range. np.
Qed.

Lemma expand_sample_offsets_spec_witness :
  expand_sample_offsets [10; 20; 30; 5] [100; 500]
    [{| first_chunk := 1; samples_per_chunk := 3 |}; {| first_chunk := 2; samples_per_chunk := 1 |}]
  = Ok [100; 110; 130; 500].
Proof.
  apply expand_sample_offsets_spec.
  - split; [reflexivity|]. split; [|repeat constructor; discriminate].
    intros [|[|i]] [|[|j]] e e' Hij Hi Hj; try lia; try discriminate.
    injection Hi as <-. injection Hj as <-. reflexivity.
  - repeat constructor; discriminate.
  - reflexivity.
  - repeat constructor; discriminate.
  - split; [reflexivity|]. repeat constructor; reflexivity.
Defined.
Lemma parsed_track_ok_witness :
  exists t, parse_mp4_video_track_from_moov (synthetic_moov "avc1") 10000 = Ok t /\ track_ok t 10000.
Proof.
  destruct (parse_mp4_video_track_from_moov (synthetic_moov "avc1") 10000) as [t| | |] eqn:Ht;
    try (vm_compute in Ht; discriminate Ht).
  exists t. split; [reflexivity|]. apply (parsed_track_ok (synthetic_moov "avc1") 10000 t).
  - apply is_bytes_check. vm_compute. reflexivity.
  - vm_compute. reflexivity.
  - exact Ht.
Defined.
Lemma parse_mp4_total_witness : no_panic (parse_mp4_video_track [0; 0; 0; 12; 109; 111; 111; 118]).
Proof.
  apply parse_mp4_total.
  - apply is_bytes_check. reflexivity.
  - reflexivity.
Defined.
