(* ===== verification/VideoSampling.v ===== *)
(** The choice of the three video previews
    ([drop-lib/src/video_sampling/{randomness,selection,sampling}.rs]): the
    seed bound to the sale, the rejection sampling of a start time in each
    third of the timeline, and the alignment to a sync sample.

    The rejection loop of [unbiased_offset] is [reject_loop] of [Rejection.v]. *)
From S2P Require Import Prelude Crypto Rejection Mp4.

(** ** Randomness *)

Definition MASTER_DOMAIN : bytes := ascii_bytes "TrustDrop.VideoSampling.v1".
Definition SPEC_DOMAIN : bytes := ascii_bytes "TrustDrop.VideoSampling.spec.v1".
Definition PROFILE : bytes := ascii_bytes "mp4-h264-v1".
Definition CANDIDATE_DOMAIN : bytes := ascii_bytes "TrustDrop.VideoSampling.candidate.v1".

Record SamplingSeedInput := {
  chain_id : Z;
  sale_contract : bytes;
  sale_id : bytes;
  origin_blob_id : bytes;
  spec_hash : bytes;
  external_randomness : bytes;
}.
Inductive SeedError := seed_InvalidPreviewDuration.

Record SamplePlan := {
  bucket_index : Z;
  target_time : Z;
  decode_start_sample : Z;
  decode_start_time : Z;
  presentation_end_time : Z;
}.
Inductive SamplingError :=
  | InvalidTimeline
  | InvalidPreviewDuration
  | BucketTooShort (bucket : Z)
  | NoSyncSample (bucket : Z)
  | DuplicateAlignedSample (bucket : Z)
  | SamplingIntegerOverflow.

Definition BUCKET_COUNT : Z := 3.
Definition MAX_ATTEMPTS_PER_BUCKET : Z := 128.

(** [iter.max_by_key(f)]: the last of the elements with the greatest key. *)
Definition max_by_key {A} (f : A -> Z) (l : list A) : option A :=
  fold_left (fun best x =>
    match best with
    | None => Some x
    | Some b => if f b <=? f x then Some x else Some b
    end) l None.

Section VideoSampling.
Context `{HC : Crypto}.

Definition spec_msg (preview_duration_ms : Z) : bytes :=
  SPEC_DOMAIN ++ be_bytes 4 (zlen PROFILE) ++ PROFILE ++ be_bytes 4 preview_duration_ms.
Definition sampling_spec_hash (preview_duration_ms : Z) : outcome SeedError bytes :=
  if preview_duration_ms =? 0 then Err seed_InvalidPreviewDuration
  else Ok (blake3 (spec_msg preview_duration_ms)).

Definition seed_msg (input : SamplingSeedInput) : bytes :=
  MASTER_DOMAIN ++ be_bytes 8 (chain_id input) ++ sale_contract input ++ sale_id input
    ++ origin_blob_id input ++ spec_hash input ++ external_randomness input.
Definition derive_sampling_seed (input : SamplingSeedInput) : bytes := blake3 (seed_msg input).

(** ** Selection *)

Definition bucket_boundary (start timeline_len bucket bucket_count : Z) : option Z :=
  p ← to_u128 (timeline_len * bucket);
  offset ← to_i64 (p `div` bucket_count);
  to_i64 (start + offset).

Definition candidate_value (seed : bytes) (bucket counter : Z) : Z :=
  be_val (take 8 (blake3 (CANDIDATE_DOMAIN ++ seed ++ be_bytes 4 bucket ++ be_bytes 8 counter))).
Definition unbiased_offset {E} (fuel : nat) (seed : bytes) (bucket counter range : Z)
    : outcome E Z := reject_loop fuel (candidate_value seed bucket) counter range.

(** ** Sampling *)

Definition sync_at (samples : list VideoSample) (target_time : Z) : option VideoSample :=
  max_by_key presentation_time
    (filter (fun s => is_sync s && (presentation_time s <=? target_time) = true) samples).

(** The loop over the attempts for one bucket; [saw_sync] is carried along. *)
Fixpoint attempts (fuel : nat) (seed : bytes) (samples : list VideoSample)
    (plans : list SamplePlan) (bucket bucket_start candidate_count preview_ticks : Z)
    (saw_sync : bool) (counters : list Z) : outcome SamplingError (option SamplePlan * bool) :=
  match counters with
  | [] => Ok (None, saw_sync)
  | counter :: counters =>
      let continue saw_sync :=
        attempts fuel seed samples plans bucket bucket_start candidate_count preview_ticks
          saw_sync counters in
      offset ← unbiased_offset fuel seed bucket counter candidate_count;
      target_time ← ok_or (to_i64 (bucket_start + swrap 64 offset)) SamplingIntegerOverflow;
      match sync_at samples target_time with
      | None => continue saw_sync
      | Some sync =>
          if existsb (fun plan => decode_start_sample plan =? index sync) plans
          then continue true
          else
            end_ ← ok_or (to_i64 (target_time + swrap 64 preview_ticks)) SamplingIntegerOverflow;
            Ok (Some {| bucket_index := wrap 8 bucket; target_time := target_time;
                        decode_start_sample := index sync;
                        decode_start_time := presentation_time sync;
                        presentation_end_time := end_ |}, true)
      end
  end.

(** One round of the loop over the buckets: the window of start times of the
    bucket and the number of candidates in it, then the attempts. *)
Definition bucket_window (track : VideoTrack) (timeline_len preview_ticks bucket : Z)
    : outcome SamplingError (Z * Z) :=
  bucket_start ← ok_or (bucket_boundary (presentation_start track) timeline_len bucket BUCKET_COUNT)
    SamplingIntegerOverflow;
  bucket_end ← ok_or (bucket_boundary (presentation_start track) timeline_len (bucket + 1) BUCKET_COUNT)
    SamplingIntegerOverflow;
  latest_target ← ok_or (to_i64 (bucket_end - swrap 64 preview_ticks)) (BucketTooShort (wrap 8 bucket));
  ensure (negb (latest_target <? bucket_start)) (BucketTooShort (wrap 8 bucket)) ;;
  candidate_count ← ok_or (n ← to_i64 (latest_target - bucket_start); to_i64 (n + 1))
    SamplingIntegerOverflow;
  Ok (bucket_start, wrap 64 candidate_count).
Definition plan_bucket (fuel : nat) (track : VideoTrack) (seed : bytes)
    (timeline_len preview_ticks : Z) (plans : list SamplePlan) (bucket : Z)
    : outcome SamplingError (list SamplePlan) :=
  '(bucket_start, candidate_count) ← bucket_window track timeline_len preview_ticks bucket;
  '(selected, saw_sync) ← attempts fuel seed (samples track) plans bucket bucket_start
    candidate_count preview_ticks false (seqZ 0 MAX_ATTEMPTS_PER_BUCKET);
  plan ← ok_or selected (if (saw_sync : bool) then DuplicateAlignedSample (wrap 8 bucket)
                         else NoSyncSample (wrap 8 bucket));
  Ok (plans ++ [plan]).

Definition plan_three_samples (fuel : nat) (track : VideoTrack) (master_seed : bytes)
    (preview_duration_ms : Z) : outcome SamplingError (list SamplePlan) :=
  ensure (negb ((presentation_end track <=? presentation_start track) || (timescale track =? 0)))
    InvalidTimeline ;;
  ensure (negb (preview_duration_ms =? 0)) InvalidPreviewDuration ;;
  total ← ok_or (v ← to_u64 (preview_duration_ms * timescale track); to_u64 (v + 999))
    SamplingIntegerOverflow;
  let preview_ticks := total `div` 1000 in
  ensure (negb ((preview_ticks =? 0) || (i64_max <? preview_ticks))) InvalidPreviewDuration ;;
  timeline_len ← ok_or (to_i64 (presentation_end track - presentation_start track))
    SamplingIntegerOverflow;
  let timeline_len := wrap 64 timeline_len in
  plans ← ofold (plan_bucket fuel track master_seed timeline_len preview_ticks) []
    (seqZ 0 BUCKET_COUNT);
  ensure (length plans =? 3)%nat InvalidTimeline ;;
  Ok plans.

(** ** The seed is bound to its context *)

Definition seed_input_typed (i : SamplingSeedInput) : Prop :=
  0 <= chain_id i < 2 ^ 64 /\ length (sale_contract i) = 20%nat /\ length (sale_id i) = 32%nat /\
  length (origin_blob_id i) = 32%nat /\ length (spec_hash i) = 32%nat /\
  length (external_randomness i) = 32%nat.

(** The seed pins everything it is derived from: two inputs with one seed are
    equal, and so are two preview durations with one specification hash,
    unless BLAKE3 collides on the messages hashed; the only refused duration
    is zero. *)
Theorem seed_binds_context i1 i2 d1 d2 :
  seed_input_typed i1 -> seed_input_typed i2 -> 0 <= d1 < 2 ^ 32 -> 0 <= d2 < 2 ^ 32 ->
  inj_on blake3 (fun m => m ∈ [seed_msg i1; seed_msg i2; spec_msg d1; spec_msg d2]) ->
  (derive_sampling_seed i1 = derive_sampling_seed i2 -> i1 = i2) /\
  (is_ok (sampling_spec_hash d1) = negb (d1 =? 0)) /\
  (d1 <> 0 -> sampling_spec_hash d1 = sampling_spec_hash d2 -> d1 = d2).
Proof.
  intros (Hc1 & Ha1 & Hb1 & Ho1 & Hs1 & He1) (Hc2 & Ha2 & Hb2 & Ho2 & Hs2 & He2) Hd1 Hd2 HQ.
  split; [|split].
  - intros H. apply HQ in H; [|set_solver..]. unfold seed_msg in H. apply app_inv_head in H.
    apply app_inj_1 in H as [Hc H]; [|by rewrite !be_bytes_length].
    apply app_inj_1 in H as [Ha H]; [|congruence]. apply app_inj_1 in H as [Hb H]; [|congruence].
    apply app_inj_1 in H as [Ho H]; [|congruence]. apply app_inj_1 in H as [Hs He]; [|congruence].
    apply (be_bytes_inj 8) in Hc; [|done..]. destruct i1, i2. cbn in *. by subst.
  - unfold sampling_spec_hash. by destruct (d1 =? 0).
  - intros Hne H. unfold sampling_spec_hash in H.
    rewrite (proj2 (Z.eqb_neq d1 0)) in H by done. destruct (d2 =? 0); [done|].
    injection H as H. apply HQ in H; [|set_solver..]. unfold spec_msg in H.
    do 3 apply app_inv_head in H. by apply (be_bytes_inj 4) in H.
Qed.

(** ** Rejection sampling *)

(** [unbiased_offset] is rejection sampling without bias: it returns the first
    candidate below the zone, from the given counter on, reduced modulo the
    range, as soon as the fuel reaches one; the zone is a multiple of the range
    that leaves out less than one range of the 64-bit values; and each residue
    is hit by exactly [zone / range] of the accepted values. *)
Theorem unbiased_offset_correct {E} fuel seed bucket counter range :
  0 < range <= 2 ^ 64 -> 0 <= counter < 2 ^ 64 ->
  (forall o, @unbiased_offset E fuel seed bucket counter range = Ok o <->
     exists j, (j < fuel)%nat /\
       (forall i, (i < j)%nat -> zone_of range <= candidate_value seed bucket (counter_at counter i)) /\
       candidate_value seed bucket (counter_at counter j) < zone_of range /\
       o = candidate_value seed bucket (counter_at counter j) `mod` range) /\
  (2 ^ 64 - range < zone_of range <= 2 ^ 64) /\
  (forall r v, 0 <= r < range -> (0 <= v < zone_of range /\ v `mod` range = r <->
     exists k, 0 <= k < zone_of range `div` range /\ v = r + k * range)).
Proof.
  intros Hr Hc. split; [intros o; by apply reject_loop_Ok|]. split; [by apply zone_spec|].
  intros r v. by apply zone_residues.
Qed.

(** ** Buckets *)

Lemma swrap64_small z : 0 <= z <= i64_max -> swrap 64 z = z.
Proof. unfold swrap, i64_max. intros Hz. rewrite Z.mod_small by lia. lia. Qed.
Lemma to_i64_ok z : i64_min <= z <= i64_max -> to_i64 z = Some z.
Proof. unfold i64_min, i64_max. intros Hz. apply to_i64_Some. split; [done|lia]. Qed.

Lemma to_i64_case z : (i64_min <= z <= i64_max /\ to_i64 z = Some z) \/
  ((z < i64_min \/ i64_max < z) /\ to_i64 z = None).
Proof.
  destruct (to_i64 z) as [r|] eqn:Hr.
  - left. apply to_i64_range in Hr as [-> ?]. done.
  - right. split; [|done]. destruct (Z.le_gt_cases i64_min z), (Z.le_gt_cases z i64_max); try lia.
    by rewrite to_i64_ok in Hr.
Qed.

(** Where bucket [k] of three starts. *)
Definition bucket_start (start len k : Z) : Z := start + (len * k) `div` 3.

Section Buckets.
Context (start len : Z) (Hs : i64_min <= start) (Hl : 0 < len) (He : start + len <= i64_max)
  (Hlm : len <= i64_max).

Lemma bucket_boundary_eq k : 0 <= k <= 3 ->
  bucket_boundary start len k BUCKET_COUNT = Some (bucket_start start len k).
Proof.
  intros Hk. unfold bucket_boundary, bucket_start, BUCKET_COUNT.
  assert (0 <= len * k <= len * 3) by nia. unfold i64_max in *.
  rewrite (proj2 (to_u128_Some (len * k) (len * k))) by lia. cbn [mbind option_bind].
  assert (0 <= (len * k) `div` 3 <= len).
  { split; [apply Z.div_pos; lia|]. apply Z.div_le_upper_bound; lia. }
  rewrite to_i64_ok by (unfold i64_min, i64_max in *; lia). cbn [mbind option_bind].
  apply to_i64_ok. unfold i64_min, i64_max in *. lia.
Qed.
Lemma bucket_start_range k : 0 <= k <= 3 -> start <= bucket_start start len k <= start + len.
Proof.
  intros Hk. unfold bucket_start. assert (0 <= len * k <= len * 3) by nia.
  assert (0 <= (len * k) `div` 3) by (apply Z.div_pos; lia).
  assert ((len * k) `div` 3 <= len) by (apply Z.div_le_upper_bound; lia). lia.
Qed.
Lemma bucket_start_mono j k : 0 <= j <= k -> bucket_start start len j <= bucket_start start len k.
Proof. intros Hk. unfold bucket_start. apply Z.add_le_mono_l, Z.div_le_mono; nia. Qed.
End Buckets.

(** ** The sync sample *)

Lemma max_by_key_go {A} (f : A -> Z) l best b :
  fold_left (fun best x =>
    match best with None => Some x | Some b => if f b <=? f x then Some x else Some b end) l best = Some b ->
  (best = Some b \/ b ∈ l) /\ (forall x, best = Some x \/ x ∈ l -> f x <= f b).
Proof.
  revert best. induction l as [|y l IH]; intros best; cbn [fold_left].
  - intros ->. split; [by left|]. intros x [[= <-]|Hx]; [lia|by apply elem_of_nil in Hx].
  - intros H. apply IH in H as [Hin Hmax]. destruct best as [b0|].
    + destruct (Z.leb_spec (f b0) (f y)).
      * split; [right; destruct Hin as [[= ->]|]; set_solver|].
        intros x [[= <-]|Hx]; [pose proof (Hmax y ltac:(by left)); lia|].
        apply elem_of_cons in Hx as [->|Hx]; [apply Hmax; by left|apply Hmax; by right].
      * split; [destruct Hin as [|]; [by left|right; set_solver]|].
        intros x [[= <-]|Hx]; [apply Hmax; by left|].
        apply elem_of_cons in Hx as [->|Hx]; [pose proof (Hmax b0 ltac:(by left)); lia|apply Hmax; by right].
    + split; [right; destruct Hin as [[= ->]|]; set_solver|].
      intros x [|Hx]; [done|]. apply elem_of_cons in Hx as [->|Hx]; [apply Hmax; by left|apply Hmax; by right].
Qed.
Lemma sync_at_spec samples t s : sync_at samples t = Some s ->
  s ∈ samples /\ is_sync s = true /\ presentation_time s <= t /\
  forall s', s' ∈ samples -> is_sync s' = true -> presentation_time s' <= t ->
    presentation_time s' <= presentation_time s.
Proof.
  intros H. apply max_by_key_go in H as [[|Hin] Hmax]; [done|].
  apply list_elem_of_filter in Hin as [Hs Hin]. bool_hyps. split_and!; try done.
  intros s' Hs' Hsy Hle. apply Hmax. right. apply list_elem_of_filter. split; [|done].
  rewrite Hsy. by apply Z.leb_le.
Qed.
Lemma sync_at_None samples t : sync_at samples t = None ->
  forall s, s ∈ samples -> is_sync s = true -> t < presentation_time s.
Proof.
  unfold sync_at, max_by_key. intros H s Hs Hsy.
  destruct (Z.le_gt_cases (presentation_time s) t) as [Hle|]; [|lia].
  assert (s ∈ filter (fun s => is_sync s && (presentation_time s <=? t) = true) samples) as Hin.
  { apply list_elem_of_filter. rewrite Hsy. split; [by apply Z.leb_le|done]. }
  destruct (filter _ samples) as [|x l]; [by apply elem_of_nil in Hin|]. exfalso. cbn in H.
  clear -H. assert (forall best, is_Some best -> fold_left (fun best x =>
    match best with None => Some x | Some b => if presentation_time b <=? presentation_time x then Some x else Some b end)
    l best <> None) as Hne; [|by eapply Hne, H].
  clear. induction l as [|y l IH]; intros best [b ->]; cbn; [done|]. apply IH.
  destruct (_ <=? _); eauto.
Qed.

(** What a plan for a bucket is. *)
Record plan_ok (track : VideoTrack) (ticks b0 b1 k : Z) (p : SamplePlan) : Prop := {
  po_bucket : bucket_index p = k;
  po_target : b0 <= target_time p;
  po_end : presentation_end_time p = target_time p + ticks;
  po_inside : presentation_end_time p <= b1;
  po_sync : exists s, s ∈ samples track /\ is_sync s = true /\ index s = decode_start_sample p /\
    presentation_time s = decode_start_time p /\ decode_start_time p <= target_time p /\
    forall s', s' ∈ samples track -> is_sync s' = true -> presentation_time s' <= target_time p ->
      presentation_time s' <= decode_start_time p;
}.

Lemma attempts_ok fuel seed track plans k b0 b1 count ticks saw counters p saw' :
  0 <= k < 256 -> i64_min <= b0 -> b1 <= i64_max -> 0 < ticks <= i64_max ->
  count = b1 - ticks - b0 + 1 -> 0 < count <= i64_max ->
  attempts fuel seed (samples track) plans k b0 count ticks saw counters = Ok (Some p, saw') ->
  plan_ok track ticks b0 b1 k p /\ Forall (fun q => decode_start_sample q <> decode_start_sample p) plans.
Proof.
  intros Hk Hb0 Hb1 Ht Hcount Hc. revert saw. induction counters as [|c counters IH]; intros saw H;
    cbn [attempts] in H; [done|].
  apply bind_Ok_inv in H as (o & Ho & H). apply reject_loop_range in Ho; [|lia].
  rewrite (swrap64_small o) in H by lia.
  apply bind_Ok_inv in H as (t & Htt%ok_or_Ok & H). apply to_i64_range in Htt as [-> Htr].
  destruct (sync_at (samples track) (b0 + o)) as [s|] eqn:Hs; [|by apply IH in H].
  destruct (existsb _ plans) eqn:Hdup; [by apply IH in H|].
  apply bind_Ok_inv in H as (e & Hee%ok_or_Ok & H). injection H as <- <-.
  rewrite swrap64_small in Hee by lia. apply to_i64_range in Hee as [-> Her].
  apply sync_at_spec in Hs as (Hin & Hsy & Hle & Hmax). split.
  - split; cbn; try lia.
    + apply wrap_small. lia.
    + exists s. split_and!; done.
  - cbn. apply Forall_forall. intros q Hq Heq.
    assert (existsb (fun plan => decode_start_sample plan =? index s) plans = true) as Htrue; [|congruence].
    apply existsb_exists. exists q. split; [by apply list_elem_of_In|]. by apply Z.eqb_eq.
Qed.

(** Whatever the track, the plans carry the indices of their buckets. *)
Lemma attempts_index fuel seed ss plans k b0 count ticks saw counters p saw' :
  attempts fuel seed ss plans k b0 count ticks saw counters = Ok (Some p, saw') -> bucket_index p = wrap 8 k.
Proof.
  revert saw. induction counters as [|c counters IH]; intros saw H; cbn [attempts] in H; [done|].
  apply bind_Ok_inv in H as (o & _ & H). apply bind_Ok_inv in H as (t & _ & H).
  destruct (sync_at _ _); [|by apply IH in H]. destruct (existsb _ _); [by apply IH in H|].
  apply bind_Ok_inv in H as (e & _ & H). by injection H as <- _.
Qed.
Lemma plan_indices fuel track seed ms plans :
  plan_three_samples fuel track seed ms = Ok plans -> bucket_index <$> plans = [0; 1; 2].
Proof.
  intros H. unfold plan_three_samples in H.
  apply bind_Ok_inv in H as (_ & _ & H). apply bind_Ok_inv in H as (_ & _ & H).
  apply bind_Ok_inv in H as (total & _ & H). apply bind_Ok_inv in H as (_ & _ & H).
  apply bind_Ok_inv in H as (len & _ & H). apply bind_Ok_inv in H as (ps & Hps & H).
  apply bind_Ok_inv in H as (_ & _ & [= <-]).
  apply (ofold_inv (fun done ps => bucket_index <$> ps = wrap 8 <$> done)) in Hps; [exact Hps|done|].
  intros done k todo b b' _ Hb Hstep. unfold plan_bucket in Hstep.
  apply bind_Ok_inv in Hstep as ([b0 c] & _ & Hstep). apply bind_Ok_inv in Hstep as ([sel saw] & Ha & Hstep).
  apply bind_Ok_inv in Hstep as (p & ->%ok_or_Ok & [= <-]). apply attempts_index in Ha.
  rewrite !fmap_app, Hb. cbn. by rewrite Ha.
Qed.

(** The ticks of a preview: the duration in the track's units, rounded up. *)
Definition preview_ticks (track : VideoTrack) (ms : Z) : Z := (ms * timescale track + 999) `div` 1000.
Definition timeline_typed (track : VideoTrack) : Prop :=
  i64_min <= presentation_start track /\ presentation_end track <= i64_max /\
  0 <= timescale track < 2 ^ 32.
Definition third (track : VideoTrack) (k : Z) : Z :=
  bucket_start (presentation_start track) (presentation_end track - presentation_start track) k.

Section Plan.
Context (fuel : nat) (track : VideoTrack) (seed : bytes).
Context (Ht : timeline_typed track) (Hpos : presentation_start track < presentation_end track).
Let len := presentation_end track - presentation_start track.
Context (Hlen : len <= i64_max) (ticks : Z) (Hticks : 0 < ticks <= i64_max).

Lemma third_range k : 0 <= k <= 3 -> i64_min <= third track k <= i64_max.
Proof.
  intros Hk. destruct Ht as (H1 & H2 & _).
  pose proof (bucket_start_range (presentation_start track) len ltac:(lia) k Hk). unfold third. fold len. lia.
Qed.
Lemma third_boundary k : 0 <= k <= 3 ->
  bucket_boundary (presentation_start track) len k BUCKET_COUNT = Some (third track k).
Proof.
  intros Hk. destruct Ht as (H1 & H2 & _). apply bucket_boundary_eq; lia.
Qed.

(** The candidate targets of bucket [k], and the steps that lead to them. *)
Definition candidates (k : Z) : Z := third track (k + 1) - ticks - third track k + 1.
Lemma checked_succ {E} d (e : E) : 0 <= d ->
  ok_or (n ← to_i64 d; to_i64 (n + 1)) e = if i64_max <? d + 1 then Err e else Ok (d + 1).
Proof.
  intros Hd. assert (i64_min < 0) as Hmin by done.
  destruct (to_i64_case d) as [[Hr ->]|[Hr ->]]; cbn [mbind option_bind].
  - destruct (to_i64_case (d + 1)) as [[Hr2 ->]|[Hr2 ->]], (Z.ltb_spec i64_max (d + 1)); try lia; done.
  - by rewrite (proj2 (Z.ltb_lt _ _)) by lia.
Qed.
Lemma bucket_window_eq k : 0 <= k < 3 ->
  bucket_window track len ticks k =
  if candidates k <=? 0 then Err (BucketTooShort k)
  else if i64_max <? candidates k then Err SamplingIntegerOverflow
  else Ok (third track k, candidates k).
Proof.
  intros Hk. unfold bucket_window. rewrite !third_boundary by lia.
  pose proof (third_range k ltac:(lia)). pose proof (third_range (k + 1) ltac:(lia)).
  cbn [ok_or mbind outcome_bind]. rewrite swrap64_small, !(wrap_small 8) by lia.
  assert (i64_min < 0 < i64_max) as Hi64 by done.
  unfold candidates. set (b1 := third track (k + 1)) in *. set (b0 := third track k) in *.
  destruct (to_i64_case (b1 - ticks)) as [[Hr ->]|[Hr ->]]; cbn [ok_or mbind outcome_bind]; last first.
  { by rewrite (proj2 (Z.leb_le _ _)) by lia. }
  destruct (Z.ltb_spec (b1 - ticks) b0); cbn [negb ensure mbind outcome_bind].
  { by rewrite (proj2 (Z.leb_le _ 0)) by lia. }
  rewrite (proj2 (Z.leb_gt _ 0)), checked_succ by lia.
  destruct (Z.ltb_spec i64_max (b1 - ticks - b0 + 1)); cbn [mbind outcome_bind]; [done|].
  by rewrite wrap_small by (unfold i64_max in *; lia).
Qed.

Lemma plan_bucket_ok plans k r : 0 <= k < 3 ->
  plan_bucket fuel track seed len ticks plans k = Ok r ->
  exists p, r = plans ++ [p] /\ plan_ok track ticks (third track k) (third track (k + 1)) k p /\
    Forall (fun q => decode_start_sample q <> decode_start_sample p) plans.
Proof.
  intros Hk H. unfold plan_bucket in H. apply bind_Ok_inv in H as ([b c] & Hw & H).
  rewrite bucket_window_eq in Hw by done.
  destruct (Z.leb_spec (candidates k) 0); [done|].
  destruct (Z.ltb_spec i64_max (candidates k)); [done|]. injection Hw as <- <-.
  apply bind_Ok_inv in H as ([sel saw] & Ha & H). apply bind_Ok_inv in H as (p & Hp%ok_or_Ok & [= <-]). subst sel.
  pose proof (third_range k ltac:(lia)). pose proof (third_range (k + 1) ltac:(lia)).
  exists p. split; [done|]. eapply attempts_ok; try exact Ha; try done; unfold candidates in *; lia.
Qed.

(** Enough fuel: the rejection loop reaches an accepted candidate from every
    counter that the attempts start from. *)
Definition enough_fuel : Prop := forall k c,
  0 <= k < 3 -> 0 < candidates k -> 0 <= c < MAX_ATTEMPTS_PER_BUCKET ->
  accepts fuel (candidate_value seed k) c (candidates k).
Lemma no_panic_attempts plans k count saw counters :
  count = candidates k -> 0 < candidates k -> (forall c, c ∈ counters -> 0 <= c < MAX_ATTEMPTS_PER_BUCKET) -> 0 <= k < 3 ->
  enough_fuel ->
  no_panic (attempts fuel seed (samples track) plans k (third track k) count ticks saw counters).
Proof.
  intros -> Hpc Hcs Hk Hf. revert saw. induction counters as [|c counters IH]; intros saw; cbn [attempts]; [exact I|].
  assert (0 <= c < MAX_ATTEMPTS_PER_BUCKET) as Hc by (apply Hcs; set_solver).
  apply no_panic_bind.
  { unfold unbiased_offset. edestruct (@reject_loop_total SamplingError) as [o ->]; [by apply Hf| |exact I].
    unfold MAX_ATTEMPTS_PER_BUCKET in Hc. lia. }
  intros o _. apply no_panic_bind; [np|intros t _].
  destruct (sync_at _ _); [|apply IH; intros; apply Hcs; set_solver].
  destruct (existsb _ _); [apply IH; intros; apply Hcs; set_solver|np].
Qed.
End Plan.

Lemma preview_ticks_range track ms total : 0 < ms < 2 ^ 32 -> 0 < timescale track < 2 ^ 32 ->
  (v ← to_u64 (ms * timescale track); to_u64 (v + 999)) = Some total ->
  total `div` 1000 = preview_ticks track ms /\ 0 < preview_ticks track ms <= i64_max.
Proof.
  intros Hm Ht H. apply bind_Some in H as (v & [-> _]%to_u64_Some & [-> Hr]%to_u64_Some).
  split; [done|]. unfold preview_ticks, i64_max. split.
  - apply Z.div_str_pos. nia.
  - apply Z.div_le_upper_bound; lia.
Qed.

(** C38: The plan: [plan_three_samples] returns one preview in each third of the
    timeline; it starts in its third and ends in it (so the three do not
    overlap), it is aligned to the latest sync sample at or before its start,
    and no two previews share their sync sample. *)
Theorem plan_three_samples_ok fuel track seed ms plans :
  timeline_typed track -> 0 <= ms < 2 ^ 32 ->
  plan_three_samples fuel track seed ms = Ok plans ->
  length plans = 3%nat /\ NoDup (decode_start_sample <$> plans) /\
  forall i p, plans !! i = Some p ->
    plan_ok track (preview_ticks track ms) (third track (Z.of_nat i)) (third track (Z.of_nat i + 1))
      (Z.of_nat i) p.
Proof.
  intros Ht Hm H. unfold plan_three_samples in H.
  apply bind_Ok_inv in H as (_ & H1%ensure_Ok & H). apply bind_Ok_inv in H as (_ & H2%ensure_Ok & H).
  bool_hyps. apply bind_Ok_inv in H as (total & Htot%ok_or_Ok & H).
  destruct (preview_ticks_range track ms total) as [Heq Htr]; [lia| |done|]; [destruct Ht; lia|].
  rewrite Heq in H. apply bind_Ok_inv in H as (_ & _ & H).
  apply bind_Ok_inv in H as (len & Hl%ok_or_Ok & H). apply to_i64_range in Hl as [-> Hl].
  rewrite wrap_small in H by (unfold i64_max in *; lia).
  apply bind_Ok_inv in H as (ps & Hps & H). apply bind_Ok_inv in H as (_ & Hl3%ensure_Ok & [= <-]).
  apply Nat.eqb_eq in Hl3. split; [done|].
  apply (ofold_inv (fun done ps => length ps = length done /\ NoDup (decode_start_sample <$> ps) /\
    forall i p, ps !! i = Some p ->
      plan_ok track (preview_ticks track ms) (third track (Z.of_nat i)) (third track (Z.of_nat i + 1))
        (Z.of_nat i) p)) in Hps; [by destruct Hps as (_ & ? & ?)|by repeat constructor|].
  intros done k todo b b' Hseq (Hbl & Hnd & Hat) Hstep.
  assert (seqZ 0 BUCKET_COUNT !! length done = Some k) as Hk by (by rewrite Hseq, list_lookup_middle).
  apply lookup_seqZ in Hk as [-> Hk]. unfold BUCKET_COUNT in Hk. rewrite Z.add_0_l in *.
  apply plan_bucket_ok in Hstep as (p & -> & Hp & Hne); [|done|lia|lia|lia|lia].
  split; [by rewrite !length_app, Hbl|]. split.
  - rewrite fmap_app. apply NoDup_app. split; [done|]. split; [|apply NoDup_singleton].
    intros x Hx Hx'. apply list_elem_of_singleton in Hx' as ->.
    apply list_elem_of_fmap in Hx as (q & Hq & Hin). rewrite Forall_forall in Hne. by apply (Hne q).
  - intros i q Hq. apply lookup_app_Some in Hq as [Hq|[Hge Hq]]; [by apply Hat|].
    apply list_lookup_singleton_Some in Hq as [Hi <-]. assert (i = length done) as -> by lia. done.
Qed.

(** Planning ends without a panic, with a plan or one of the errors of the
    code, as soon as the rejection loop meets an accepted candidate from each
    of the counters it may start from; a preview longer than a third is the
    error [BucketTooShort] of the first bucket. *)
Theorem plan_three_samples_total fuel track seed ms :
  timeline_typed track -> 0 <= ms < 2 ^ 32 ->
  enough_fuel fuel track seed (preview_ticks track ms) ->
  no_panic (plan_three_samples fuel track seed ms) /\
  (0 < ms -> presentation_start track < presentation_end track -> 0 < timescale track ->
   presentation_end track - presentation_start track <= i64_max ->
   ms * timescale track + 999 < 2 ^ 64 ->
   third track 1 - third track 0 < preview_ticks track ms ->
   plan_three_samples fuel track seed ms = Err (BucketTooShort 0)).
Proof.
  intros Ht Hm Hf. split.
  - unfold plan_three_samples. apply no_panic_bind; [np|intros _ H1%ensure_Ok].
    apply no_panic_bind; [np|intros _ H2%ensure_Ok]. bool_hyps.
    apply no_panic_bind; [np|intros total Htot%ok_or_Ok].
    destruct (preview_ticks_range track ms total) as [Heq Htr]; [lia| |done|]; [destruct Ht; lia|].
    rewrite Heq. apply no_panic_bind; [np|intros _ _].
    apply no_panic_bind; [np|intros len Hl%ok_or_Ok]. apply to_i64_range in Hl as [-> Hl].
    rewrite wrap_small by (unfold i64_max in *; lia).
    apply no_panic_bind; [|intros ps _; np]. apply no_panic_ofold_simple.
    intros ps k Hk%elem_of_seqZ. unfold BUCKET_COUNT in Hk.
    unfold plan_bucket. apply no_panic_bind; [unfold bucket_window; np|]. intros [b c] Hw.
    rewrite bucket_window_eq in Hw by (done || lia).
    destruct (Z.leb_spec (candidates track (preview_ticks track ms) k) 0); [done|].
    destruct (_ <? _); [done|]. injection Hw as <- <-.
    apply no_panic_bind; [|intros [sel saw] _; np].
    apply no_panic_attempts; try done; try lia. intros c Hc%elem_of_seqZ. lia.
  - intros Hms Hpos Hts Hlen Hov Hshort. unfold plan_three_samples.
    rewrite (proj2 (Z.leb_gt _ _)), (proj2 (Z.eqb_neq (timescale track) 0)), (proj2 (Z.eqb_neq ms 0)) by lia.
    cbn [orb negb ensure mbind outcome_bind]. assert (0 <= ms * timescale track) by nia.
    assert ((v ← to_u64 (ms * timescale track); to_u64 (v + 999)) =
      Some (ms * timescale track + 999)) as Htot.
    { assert (to_u64 (ms * timescale track) = Some (ms * timescale track)) as -> by (apply to_u64_Some; lia).
      cbn. apply to_u64_Some. lia. }
    destruct (preview_ticks_range track ms _ ltac:(lia) ltac:(destruct Ht; lia) Htot) as [Heq Htr].
    rewrite Htot. cbn [ok_or mbind outcome_bind]. fold (preview_ticks track ms).
    rewrite (proj2 (Z.eqb_neq _ 0)), (proj2 (Z.ltb_ge _ _)) by lia. cbn [orb negb ensure mbind outcome_bind].
    rewrite to_i64_ok by (unfold i64_min; lia). cbn [ok_or mbind outcome_bind].
    rewrite wrap_small by (unfold i64_max in *; lia).
    change (seqZ 0 BUCKET_COUNT) with [0; 1; 2]. cbn [ofold].
    enough (plan_bucket fuel track seed (presentation_end track - presentation_start track)
      (preview_ticks track ms) [] 0 = Err (BucketTooShort 0)) as -> by done.
    unfold plan_bucket. rewrite bucket_window_eq by (done || lia).
    rewrite (proj2 (Z.leb_le _ 0)); [done|]. unfold candidates. change (0 + 1) with 1. lia.
Qed.

End VideoSampling.

(** ** Concrete runs *)

(** Hash functions that answer zeros: every candidate is the first of its range. *)
Definition zero_crypto : Crypto := {|
  sha256 := fun _ => replicate 32 0; blake3 := fun _ => replicate 32 0;
  blake2b256 := fun _ => replicate 32 0; keystream := fun _ _ _ => 0 |}.

(** Thirty samples, one per second, every third a sync sample. *)
Definition thirty_samples : VideoTrack := {|
  timescale := 1000; media_duration := 30000; presentation_start := 0; presentation_end := 30000;
  codec := ascii_bytes "avc1";
  samples := (fun i => {| index := i; decode_time := i * 1000; presentation_time := i * 1000;
    duration := 1000; byte_offset := i * 10; byte_size := 10; is_sync := i mod 3 =? 0 |}) <$> seqZ 0 30;
|}.
Definition sale (c : Z) : SamplingSeedInput := {|
  chain_id := c; sale_contract := replicate 20 7; sale_id := replicate 32 c;
  origin_blob_id := replicate 32 3; spec_hash := replicate 32 4; external_randomness := replicate 32 5 |}.

Lemma seed_binds_context_witness :
  (derive_sampling_seed (sale 1) = derive_sampling_seed (sale 2) -> sale 1 = sale 2) /\
  is_ok (sampling_spec_hash 5000) = negb (5000 =? 0) /\
  (5000 <> 0 -> sampling_spec_hash 5000 = sampling_spec_hash 6000 -> 5000 = 6000).
Proof.
  apply (seed_binds_context (sale 1) (sale 2) 5000 6000); [by split_and!..|done|done|].
  apply inj_on_list. vm_compute. reflexivity.
Defined.

Lemma unbiased_offset_correct_witness :
  is_ok (@unbiased_offset _ SamplingError 1 (replicate 32 9) 0 0 5001) = true /\
  (2 ^ 64 - 5001 < zone_of 5001 <= 2 ^ 64).
Proof.
  split; [by vm_compute|].
  apply (proj2 (@unbiased_offset_correct _ SamplingError 1 (replicate 32 9) 0 0 5001 ltac:(lia) ltac:(lia))).
Defined.

Definition thirty_plans : list SamplePlan :=
  match @plan_three_samples zero_crypto 1 thirty_samples (replicate 32 9) 5000 with Ok p => p | _ => [] end.
Lemma plan_three_samples_ok_witness :
  (target_time <$> thirty_plans) = [0; 10000; 20000] /\
  (decode_start_sample <$> thirty_plans) = [0; 9; 18] /\
  NoDup (decode_start_sample <$> thirty_plans).
Proof.
  split; [by vm_compute|]. split; [by vm_compute|].
  apply (@plan_three_samples_ok zero_crypto 1 thirty_samples (replicate 32 9) 5000);
    [split_and!; by vm_compute|done|by vm_compute].
Defined.

Lemma thirty_enough_fuel ticks : 0 < ticks -> @enough_fuel zero_crypto 1 thirty_samples (replicate 32 9) ticks.
Proof.
  intros Ht k c Hk Hc _. exists 0%nat. split; [lia|].
  change (candidate_value _ _ _) with 0.
  assert (third thirty_samples (k + 1) - third thirty_samples k <= 30000) as Hlen.
  { assert (k = 0 \/ k = 1 \/ k = 2) as [->|[->| ->]] by lia; by vm_compute. }
  unfold candidates in *. pose proof (zone_spec (third thirty_samples (k + 1) - ticks - third thirty_samples k + 1)). lia.
Qed.
Lemma plan_three_samples_total_witness :
  no_panic (@plan_three_samples zero_crypto 1 thirty_samples (replicate 32 9) 5000) /\
  @plan_three_samples zero_crypto 1 thirty_samples (replicate 32 9) 10001 = Err (BucketTooShort 0).
Proof.
  assert (timeline_typed thirty_samples) as Ht by (split_and!; by vm_compute).
  split.
  - apply (@plan_three_samples_total zero_crypto 1 thirty_samples (replicate 32 9) 5000);
      [done|done|by apply thirty_enough_fuel].
  - apply (@plan_three_samples_total zero_crypto 1 thirty_samples (replicate 32 9) 10001);
      [done|done|by apply thirty_enough_fuel|done..].
Defined.
