(* ===== verification/DatasetSampling.v ===== *)
(** The choice of samples of a dataset
    ([extensions/dataset-sampling/cluster/lib/src/lib.rs] and
    [extensions/dataset-sampling/flow-graph/lib/src/lib.rs]): distinct records
    of a cluster catalogue, and one time bucket of a flow graph.

    Both draw indices by rejection ([Rejection.v]); the search for an unused
    index of the cluster sampler is a second unbounded loop, with the same fuel. *)
From S2P Require Import Prelude Crypto Rejection.
From stdpp Require Import sorting.
#[local] Open Scope Z_scope.

Module Cluster.
Section Cluster.
Context `{HC : Crypto}.

Inductive SamplingError :=
  | EmptyCatalog
  | EmptySelection
  | SelectionExceedsCatalog
  | ScratchLengthMismatch.

Definition INDEX_DOMAIN : bytes := ascii_bytes "TrustDrop.ClusterSampling.index.v1".

Definition index_value (seed : bytes) (ordinal counter : Z) : Z :=
  be_val (take 8 (blake3 (INDEX_DOMAIN ++ seed ++ be_bytes 8 ordinal ++ be_bytes 8 counter))).
Definition unbiased_index {E} (fuel : nat) (seed : bytes) (ordinal counter upper_bound : Z)
    : outcome E Z := reject_loop fuel (index_value seed ordinal) counter upper_bound.

(** The loop that looks for an index that is not selected yet; [rounds] bounds
    it. *)
Fixpoint fresh_index {E} (rounds fuel : nat) (seed : bytes) (ordinal counter cluster_count : Z)
    (taken : list Z) : outcome E Z :=
  match rounds with
  | O => OutOfFuel
  | S rounds =>
      candidate ← unbiased_index fuel seed ordinal counter cluster_count;
      if bool_decide (candidate ∈ taken)
      then fresh_index rounds fuel seed ordinal (wrap 64 (counter + 1)) cluster_count taken
      else Ok candidate
  end.

(** One round of the loop over the ordinals: [selected[ordinal]] is written. *)
Definition select_ordinal {E} (fuel : nat) (seed : bytes) (cluster_count : Z) (selected : list Z)
    (ordinal : nat) : outcome E (list Z) :=
  candidate ← fresh_index fuel fuel seed (Z.of_nat ordinal) 0 cluster_count (take ordinal selected);
  Ok (<[ordinal := candidate]> selected).

(** The slice [selected] after the call, or the error of the call. *)
Definition derive_cluster_indices (fuel : nat) (seed : bytes) (cluster_count : Z)
    (selected : list Z) : outcome SamplingError (list Z) :=
  ensure (negb (cluster_count =? 0)) EmptyCatalog ;;
  ensure (negb (bool_decide (selected = []))) EmptySelection ;;
  ensure (match to_u64 (zlen selected) with
          | Some count => negb (cluster_count <? count)
          | None => false
          end) SelectionExceedsCatalog ;;
  selected ← ofold (select_ordinal fuel seed cluster_count) selected (seq 0 (length selected));
  Ok (merge_sort Z.le selected).

Definition verify_cluster_indices (fuel : nat) (seed : bytes) (cluster_count : Z)
    (claimed scratch : list Z) : outcome SamplingError bool :=
  ensure (negb (bool_decide (claimed = []))) EmptySelection ;;
  ensure (length scratch =? length claimed)%nat ScratchLengthMismatch ;;
  scratch ← derive_cluster_indices fuel seed cluster_count scratch;
  Ok (bool_decide (scratch = claimed)).

(** ** The selection *)

Lemma fresh_index_spec {E} rounds fuel seed ordinal counter count taken c : 0 < count ->
  @fresh_index E rounds fuel seed ordinal counter count taken = Ok c ->
  0 <= c < count /\ c ∉ taken.
Proof.
  intros Hc. revert counter. induction rounds as [|rounds IH]; intros counter; cbn [fresh_index]; [done|].
  intros (x & Hx & H)%bind_Ok_inv. apply reject_loop_range in Hx; [|done].
  destruct (bool_decide_reflect (x ∈ taken)); [by apply IH in H|]. by injection H as <-.
Qed.

Lemma take_S_insert {A} (l : list A) n x : (n < length l)%nat ->
  take (S n) (<[n := x]> l) = take n l ++ [x].
Proof.
  intros Hn. rewrite (take_S_r _ _ x) by by apply list_lookup_insert_eq.
  by rewrite take_insert_ge.
Qed.
(** What the loop leaves in the first [k] places. *)
Lemma select_loop_spec {E} fuel seed count selected r : 0 < count ->
  ofold (@select_ordinal E fuel seed count) selected (seq 0 (length selected)) = Ok r ->
  length r = length selected /\ NoDup r /\ Forall (fun c => 0 <= c < count) r.
Proof.
  intros Hc H.
  apply (ofold_inv (fun done sel => length sel = length selected /\
    NoDup (take (length done) sel) /\ Forall (fun c => 0 <= c < count) (take (length done) sel))) in H.
  - rewrite length_seq in H. destruct H as (Hl & Hn & Hf). rewrite <- Hl, take_ge in Hn by lia.
    rewrite <- Hl, take_ge in Hf by lia. done.
  - by repeat constructor.
  - intros done k todo sel sel' Hseq (Hl & Hn & Hf) Hstep.
    assert (k = length done /\ (k < length selected)%nat) as [-> Hk].
    { assert (seq 0 (length selected) !! length done = Some k) as Hk
        by (by rewrite Hseq, list_lookup_middle).
      apply lookup_seq in Hk. lia. }
    apply bind_Ok_inv in Hstep as (c & Hcand & [= <-]).
    apply fresh_index_spec in Hcand as [Hcr Hfresh]; [|done].
    rewrite length_insert, length_app, Nat.add_1_r. split; [done|].
    rewrite take_S_insert by lia.
    split; [|apply Forall_app; split; [done|by apply Forall_singleton]].
    apply NoDup_app. split; [done|]. split; [|apply NoDup_singleton].
    by intros x Hx ->%list_elem_of_singleton.
Qed.

(** The contents of the caller's slice do not matter. *)
Lemma select_loop_input {E} fuel seed count sel1 sel2 r :
  length sel1 = length sel2 ->
  ofold (@select_ordinal E fuel seed count) sel1 (seq 0 (length sel1)) = Ok r ->
  ofold (@select_ordinal E fuel seed count) sel2 (seq 0 (length sel2)) = Ok r.
Proof.
  intros Hl H. rewrite <- Hl.
  enough (forall todo n s1 s2, length s1 = length s2 -> (n + length todo = length s1)%nat ->
    todo = seq n (length todo) -> take n s1 = take n s2 ->
    ofold (@select_ordinal E fuel seed count) s1 todo = Ok r ->
    ofold (@select_ordinal E fuel seed count) s2 todo = Ok r) as Hg.
  { apply (Hg _ 0%nat sel1); try done; by rewrite length_seq. }
  clear. induction todo as [|k todo IH]; intros n s1 s2 Hl Hn Hseq Ht; cbn [ofold length] in *.
  - intros [= <-]. rewrite !take_ge in Ht by lia. by rewrite Ht.
  - injection Hseq as -> Hseq. intros (s1' & (c & Hcand & [= <-])%bind_Ok_inv & H)%bind_Ok_inv.
    assert (@select_ordinal E fuel seed count s2 n = Ok (<[n := c]> s2)) as ->
      by (unfold select_ordinal; by rewrite <- Ht, Hcand).
    cbn [mbind outcome_bind].
    apply (IH (S n) (<[n := c]> s1)); rewrite ?length_insert; try done; [lia|].
    rewrite !take_S_insert by lia. by rewrite Ht.
Qed.

(** C39: The indices that [derive_cluster_indices] leaves in the slice are as many
    as asked for, strictly increasing and below the catalogue's size, and do
    not depend on what the slice held before; [verify_cluster_indices] accepts
    exactly them. *)
Theorem derive_cluster_indices_spec fuel seed count selected r : 0 <= count ->
  derive_cluster_indices fuel seed count selected = Ok r ->
  length r = length selected /\ StronglySorted Z.lt r /\ Forall (fun c => 0 <= c < count) r /\
  (forall old, length old = length selected -> derive_cluster_indices fuel seed count old = Ok r) /\
  (forall claimed, length claimed = length selected ->
     verify_cluster_indices fuel seed count claimed selected = Ok (bool_decide (claimed = r))).
Proof.
  intros Hcount H. pose proof H as Hder. unfold derive_cluster_indices in H.
  apply bind_Ok_inv in H as (_ & H1%ensure_Ok & H). apply bind_Ok_inv in H as (_ & H2%ensure_Ok & H).
  apply bind_Ok_inv in H as (_ & H3%ensure_Ok & H). apply bind_Ok_inv in H as (sel & Hsel & [= <-]).
  bool_hyps. pose proof Hsel as (Hl & Hnd & Hf)%select_loop_spec; [|lia].
  assert (merge_sort Z.le sel ≡ₚ sel) as Hp by apply merge_sort_Permutation.
  split; [by rewrite (Permutation_length Hp)|].
  split; [|split; [by rewrite Hp|split]].
  - assert (StronglySorted Z.le (merge_sort Z.le sel)) as Hs by apply (StronglySorted_merge_sort _).
    rewrite <- Hp in Hnd. clear -Hs Hnd. induction Hs as [|x l Hs IH Hx]; [constructor|].
    inversion_clear Hnd as [|? ? Hni Hnd']. constructor; [by apply IH|].
    rewrite Forall_forall in Hx |- *. intros y Hy. specialize (Hx y Hy).
    assert (x <> y) by (by intros ->). lia.
  - intros old Hold. unfold derive_cluster_indices.
    rewrite (proj2 (Z.eqb_neq count 0)) by done. cbn [negb ensure mbind outcome_bind].
    rewrite bool_decide_eq_false_2 by (by destruct old, selected). cbn [negb ensure mbind outcome_bind].
    rewrite Hold, H3. cbn [ensure mbind outcome_bind].
    rewrite <- Hold. by rewrite (select_loop_input fuel seed count selected old sel).
  - intros claimed Hcl. unfold verify_cluster_indices.
    rewrite bool_decide_eq_false_2 by (by destruct claimed, selected). cbn [negb ensure mbind outcome_bind].
    rewrite Hcl, Nat.eqb_refl. cbn [ensure mbind outcome_bind]. rewrite Hder.
    cbn [mbind outcome_bind]. f_equal. apply bool_decide_ext. split; congruence.
Qed.

(** ** The selection as a reference, without searches

    The draw for a counter is accepted or not; the value selected for an ordinal
    is that of the first accepted draw that is not selected yet. *)

Definition draw (seed : bytes) (count ordinal : Z) (j : nat) : option Z :=
  let value := index_value seed ordinal (counter_at 0 j) in
  if value <? zone_of count then Some (value `mod` count) else None.
Definition first_fresh (seed : bytes) (count ordinal : Z) (taken : list Z) (a : nat) (c : Z) : Prop :=
  exists j, (a <= j)%nat /\ draw seed count ordinal j = Some c /\ c ∉ taken /\
    forall i x, (a <= i < j)%nat -> draw seed count ordinal i = Some x -> x ∈ taken.
Inductive reference_selection (seed : bytes) (count : Z) : list Z -> Prop :=
  | reference_nil : reference_selection seed count []
  | reference_snoc l c : reference_selection seed count l ->
      first_fresh seed count (zlen l) l 0 c -> reference_selection seed count (l ++ [c]).

Lemma counter_at_add a i : counter_at (counter_at 0 a) i = counter_at 0 (a + i).
Proof. unfold counter_at, wrap. rewrite Z.add_mod_idemp_l by lia. f_equal. lia. Qed.
Lemma counter_at_next a : wrap 64 (counter_at 0 a + 1) = counter_at 0 (S a).
Proof. unfold counter_at, wrap. rewrite Z.add_mod_idemp_l by lia. f_equal. lia. Qed.
Lemma counter_at_range a : 0 <= counter_at 0 a < 2 ^ 64.
Proof. apply wrap_range. lia. Qed.

(** One inner search: the first accepted draw. *)
Lemma unbiased_index_draw {E} fuel seed ordinal a count c :
  @unbiased_index E fuel seed ordinal (counter_at 0 a) count = Ok c <->
  exists j, (a <= j < a + fuel)%nat /\ draw seed count ordinal j = Some c /\
    forall i, (a <= i < j)%nat -> draw seed count ordinal i = None.
Proof.
  unfold unbiased_index. rewrite reject_loop_Ok by apply counter_at_range. unfold draw. split.
  - intros (j & Hj & Hb & Hlt & ->). rewrite counter_at_add in Hlt |- *. exists (a + j)%nat.
    split; [lia|]. rewrite (proj2 (Z.ltb_lt _ _)) by done. split; [done|].
    intros i Hi. specialize (Hb (i - a)%nat ltac:(lia)). rewrite counter_at_add in Hb.
    replace (a + (i - a))%nat with i in Hb by lia. by rewrite (proj2 (Z.ltb_ge _ _)).
  - intros (j & Hj & Hd & Hb). exists (j - a)%nat. rewrite counter_at_add.
    replace (a + (j - a))%nat with j by lia.
    destruct (Z.ltb_spec (index_value seed ordinal (counter_at 0 j)) (zone_of count)); [|done].
    split; [lia|]. split; [|by injection Hd]. intros i Hi. rewrite counter_at_add.
    specialize (Hb (a + i)%nat ltac:(lia)). by destruct (Z.ltb_spec (index_value seed ordinal (counter_at 0 (a + i))) (zone_of count)).
Qed.
(** Both searches: what they return, and how much fuel they need. *)
Lemma fresh_index_first {E} rounds fuel seed ordinal a count taken c :
  @fresh_index E rounds fuel seed ordinal (counter_at 0 a) count taken = Ok c ->
  first_fresh seed count ordinal taken a c.
Proof.
  revert a. induction rounds as [|rounds IH]; intros a; cbn [fresh_index]; [done|].
  intros (x & (k & Hk & Hd & Hb)%unbiased_index_draw & H)%bind_Ok_inv. case_bool_decide as Hin.
  - rewrite counter_at_next in H. apply IH in H as (j & Hj & Hc & Hnot & Hall). exists j.
    split; [lia|]. split; [done|]. split; [done|]. intros i y Hi Hy.
    destruct (decide (i = a)) as [->|]; [|apply (Hall i); [lia|done]].
    destruct (decide (k = a)) as [->|]; [congruence|]. rewrite Hb in Hy by lia. done.
  - injection H as <-. exists k. split; [lia|]. split; [done|]. split; [done|].
    intros i y Hi Hy. by rewrite Hb in Hy by lia.
Qed.
Lemma fresh_index_reaches {E} seed ordinal a count taken c : first_fresh seed count ordinal taken a c ->
  exists enough, forall rounds fuel, (enough <= rounds)%nat -> (enough <= fuel)%nat ->
    @fresh_index E rounds fuel seed ordinal (counter_at 0 a) count taken = Ok c.
Proof.
  intros (j & Haj & Hd & Hnot & Hall). exists (S j - a)%nat. remember (j - a)%nat as d eqn:Hdist.
  revert a Haj Hall Hdist. induction d as [|d IH]; intros a Haj Hall Hdist rounds fuel Hr Hf;
    (destruct rounds as [|rounds]; [lia|]); cbn [fresh_index].
  - assert (a = j) as -> by lia. rewrite (proj2 (unbiased_index_draw fuel seed ordinal j count c)).
    + cbn [mbind outcome_bind]. by rewrite bool_decide_eq_false_2.
    + exists j. split; [lia|]. split; [done|]. lia.
  - assert (exists k x, (a <= k <= j)%nat /\ draw seed count ordinal k = Some x /\
      forall i, (a <= i < k)%nat -> draw seed count ordinal i = None) as (k & x & Hk & Hx & Hb).
    { clear -Haj Hd. remember (j - a)%nat as e eqn:He. revert a Haj He.
      induction e as [|e IH]; intros a Haj He.
      - exists j, c. split; [lia|]. split; [done|]. lia.
      - destruct (draw seed count ordinal a) as [x|] eqn:Hx; [exists a, x; split; [lia|]; split; [done|lia]|].
        destruct (IH (S a)) as (k & x & Hk & Hkx & Hb); [lia..|]. exists k, x. split; [lia|].
        split; [done|]. intros i Hi. destruct (decide (i = a)) as [->|]; [done|]. apply Hb. lia. }
    rewrite (proj2 (unbiased_index_draw fuel seed ordinal a count x)) by (exists k; split; [lia|done]).
    cbn [mbind outcome_bind]. case_bool_decide as Hin.
    + rewrite counter_at_next. apply IH; [lia| |lia..]. intros i y Hi. apply Hall. lia.
    + destruct (decide (k = j)) as [->|]; [congruence|]. exfalso. apply Hin, (Hall k); [lia|done].
Qed.
(** The searches answer or run out of fuel. *)
Definition answers {E A} (o : outcome E A) : Prop :=
  match o with Ok _ | OutOfFuel => True | _ => False end.
Lemma fresh_index_answers {E} rounds fuel seed ordinal counter count taken :
  answers (@fresh_index E rounds fuel seed ordinal counter count taken).
Proof.
  revert counter. induction rounds as [|rounds IH]; intros counter; cbn [fresh_index]; [done|].
  destruct (unbiased_index fuel seed ordinal counter count) as [x| | |] eqn:Hx; cbn [mbind outcome_bind]; try done.
  - case_bool_decide; [apply IH|done].
  - by apply reject_loop_not_Err in Hx.
  - by apply reject_loop_not_Panic in Hx.
Qed.
Lemma select_loop_answers {E} fuel seed count selected todo :
  answers (ofold (@select_ordinal E fuel seed count) selected todo).
Proof.
  revert selected. induction todo as [|k todo IH]; intros selected; cbn [ofold]; [done|].
  destruct (select_ordinal fuel seed count selected k) as [sel| | |] eqn:Hs; cbn [mbind outcome_bind]; [apply IH|..]; try done;
    unfold select_ordinal in Hs;
    pose proof (@fresh_index_answers E fuel fuel seed (Z.of_nat k) 0 count (take k selected)) as Hf;
    by destruct (fresh_index _ _ _ _ _ _ _).
Qed.

Lemma select_loop_selection {E} fuel seed count selected r :
  ofold (@select_ordinal E fuel seed count) selected (seq 0 (length selected)) = Ok r ->
  length r = length selected /\ reference_selection seed count r.
Proof.
  intros H. apply (ofold_inv (fun done sel => length sel = length selected /\
    reference_selection seed count (take (length done) sel))) in H.
  - rewrite length_seq in H. destruct H as [Hl Hs]. rewrite <- Hl, take_ge in Hs by lia. done.
  - split; [done|constructor].
  - intros done k todo sel sel' Hseq (Hl & Hs) Hstep.
    assert (k = length done /\ (k < length selected)%nat) as [-> Hk].
    { assert (seq 0 (length selected) !! length done = Some k) as Hk
        by (by rewrite Hseq, list_lookup_middle).
      apply lookup_seq in Hk. lia. }
    apply bind_Ok_inv in Hstep as (c & Hcand & [= <-]).
    change 0 with (counter_at 0 0) in Hcand. apply fresh_index_first in Hcand.
    rewrite length_insert, length_app, Nat.add_1_r. split; [done|].
    rewrite take_S_insert by lia. constructor; [done|]. by rewrite length_take_le by lia.
Qed.
Lemma selection_reached {E} seed count l : reference_selection seed count l ->
  exists enough, forall fuel s, (enough <= fuel)%nat -> (length l <= length s)%nat ->
    ofold (@select_ordinal E fuel seed count) s (seq 0 (length l)) = Ok (l ++ drop (length l) s).
Proof.
  induction 1 as [|l c Hl [f1 IH] [f2 Hc]%(@fresh_index_reaches E)].
  - by exists 0%nat.
  - exists (f1 + f2)%nat. intros fuel s Hf Hs. rewrite length_app in Hs |- *. cbn [length] in *.
    rewrite seq_app, ofold_app, IH by lia. cbn [mbind outcome_bind Nat.add seq ofold].
    unfold select_ordinal. rewrite take_app_length. change 0 with (counter_at 0 0).
    rewrite Hc by lia. cbn [mbind outcome_bind]. f_equal.
    destruct (drop (length l) s) as [|x rest] eqn:Hrest.
    { apply (f_equal length) in Hrest. rewrite length_drop in Hrest. cbn in Hrest. lia. }
    rewrite <- (Nat.add_0_r (length l)) at 1. rewrite insert_app_r. cbn [insert list_insert].
    rewrite <- app_assoc. do 2 f_equal. cbn [app]. f_equal.
    by rewrite <- drop_drop, Hrest.
Qed.

(** An ordinal whose draws have a value that is not taken has a first one. *)
Lemma first_fresh_exists seed count ordinal taken j x :
  draw seed count ordinal j = Some x -> x ∉ taken -> exists c, first_fresh seed count ordinal taken 0 c.
Proof.
  revert x. induction j as [j IH] using lt_wf_ind. intros x Hx Hnot.
  destruct (decide (Exists (fun i => match draw seed count ordinal i with
    Some y => bool_decide (y ∉ taken) | None => false end = true) (seq 0 j)))
    as [Hex|Hno].
  - apply Exists_exists in Hex as (i & [_ Hi]%elem_of_seq & Hy).
    destruct (draw seed count ordinal i) as [y|] eqn:Hd; [|done]. apply bool_decide_eq_true in Hy.
    by apply (IH i ltac:(lia) y).
  - exists x, j. split; [lia|]. split; [done|]. split; [done|]. intros i y Hi Hy.
    destruct (decide (y ∈ taken)); [done|]. exfalso. apply Hno, Exists_exists. exists i.
    split; [apply elem_of_seq; lia|]. rewrite Hy. by apply bool_decide_eq_true.
Qed.
(** A list with more distinct values than [taken] has one that is not taken. *)
Lemma exists_fresh (cs taken : list Z) : NoDup cs -> (length taken < length cs)%nat ->
  exists x, x ∈ cs /\ x ∉ taken.
Proof.
  intros Hnd Hlt. destruct (decide (Forall (.∈ taken) cs)) as [Hall|Hex].
  - exfalso. assert (length cs <= length taken)%nat; [|lia].
    apply submseteq_length, NoDup_submseteq; [done|]. by apply Forall_forall.
  - apply not_Forall_Exists in Hex; [|solve_decision]. apply Exists_exists in Hex. done.
Qed.
Lemma selection_exists seed count n :
  (forall ordinal, (ordinal < n)%nat -> exists cs, NoDup cs /\ (ordinal < length cs)%nat /\
     forall x, x ∈ cs -> exists j, draw seed count (Z.of_nat ordinal) j = Some x) ->
  exists l, reference_selection seed count l /\ length l = n.
Proof.
  induction n as [|n IH]; intros Hdraws; [exists []; split; [constructor|done]|].
  destruct IH as (l & Hl & Hn); [intros; apply Hdraws; lia|].
  destruct (Hdraws n) as (cs & Hnd & Hcs & Hall); [lia|].
  destruct (exists_fresh cs l) as (x & Hx & Hnot); [done|lia|].
  destruct (Hall x Hx) as [j Hj]. rewrite <- Hn in Hj.
  destruct (first_fresh_exists seed count (zlen l) l j x Hj Hnot) as [c Hc].
  exists (l ++ [c]). split; [by constructor|]. rewrite length_app. cbn. lia.
Qed.

(** C40: On every input, [derive_cluster_indices] refuses an empty catalogue, an empty
    selection and a selection larger than the catalogue, in this order, and does
    not panic; otherwise it gives the sorted reference selection, the first
    fresh draw of each ordinal, as soon as the fuel covers its searches, and
    nothing else with less fuel.  The searches end when the draws for each
    ordinal take more distinct values than there are ordinals before it. *)
Theorem derive_cluster_indices_reference seed count selected : 0 <= count -> zlen selected < 2 ^ 64 ->
  (forall fuel,
     if count =? 0 then derive_cluster_indices fuel seed count selected = Err EmptyCatalog
     else if bool_decide (selected = []) then
       derive_cluster_indices fuel seed count selected = Err EmptySelection
     else if count <? zlen selected then
       derive_cluster_indices fuel seed count selected = Err SelectionExceedsCatalog
     else derive_cluster_indices fuel seed count selected = OutOfFuel \/
       exists l, reference_selection seed count l /\ length l = length selected /\
         derive_cluster_indices fuel seed count selected = Ok (merge_sort Z.le l)) /\
  (0 < zlen selected <= count -> forall l, reference_selection seed count l -> length l = length selected ->
     exists enough, forall fuel, (enough <= fuel)%nat ->
       derive_cluster_indices fuel seed count selected = Ok (merge_sort Z.le l)) /\
  ((forall ordinal, (ordinal < length selected)%nat -> exists cs, NoDup cs /\ (ordinal < length cs)%nat /\
      forall x, x ∈ cs -> exists j, draw seed count (Z.of_nat ordinal) j = Some x) ->
   exists l, reference_selection seed count l /\ length l = length selected).
Proof.
  intros Hc Hlen. split; [|split; [|apply selection_exists]].
  - intros fuel. unfold derive_cluster_indices. destruct (Z.eqb_spec count 0); [done|].
    cbn [negb ensure mbind outcome_bind]. case_bool_decide; [done|].
    cbn [negb ensure mbind outcome_bind]. rewrite to_u64_ok by lia.
    destruct (Z.ltb_spec count (zlen selected)); [done|]. cbn [negb ensure mbind outcome_bind].
    pose proof (@select_loop_answers SamplingError fuel seed count selected (seq 0 (length selected))) as Ha.
    destruct (ofold _ selected (seq 0 (length selected))) as [l| | |] eqn:Hl; try done; [|by left]. right.
    apply select_loop_selection in Hl as [Hl Hs]. exists l. by split_and!.
  - intros Hr l Hl Hll. destruct (@selection_reached SamplingError seed count l Hl) as [enough He].
    exists enough. intros fuel Hf. unfold derive_cluster_indices.
    rewrite (proj2 (Z.eqb_neq count 0)) by lia. rewrite bool_decide_eq_false_2 by (intros ->; cbn in Hr; lia).
    cbn [negb ensure mbind outcome_bind]. rewrite to_u64_ok, (proj2 (Z.ltb_ge _ _)) by lia.
    cbn [negb ensure mbind outcome_bind]. rewrite <- Hll, He by lia. cbn [mbind outcome_bind].
    by rewrite drop_ge, app_nil_r by lia.
Qed.
End Cluster.
End Cluster.

Module FlowGraph.
Section FlowGraph.
Context `{HC : Crypto}.

Definition WINDOW_DOMAIN : bytes := ascii_bytes "TrustDrop.FlowGraphSampling.window.v1".

Record TimeCoverage := {
  first_timestamp : Z;
  last_timestamp : Z;
  bucket_seconds : Z;
}.
Record TimeWindow := {
  bucket_start : Z;
  bucket_end : Z;
}.
#[export] Instance TimeWindow_eq_dec : EqDecision TimeWindow.
Proof. solve_decision. Defined.
Inductive SamplingError :=
  | EmptyCoverage
  | InvalidBucketWidth
  | ArithmeticOverflow.

Definition window_value (seed : bytes) (counter : Z) : Z :=
  be_val (take 8 (blake3 (WINDOW_DOMAIN ++ seed ++ be_bytes 8 counter))).
Definition unbiased_index {E} (fuel : nat) (seed : bytes) (upper_bound : Z) : outcome E Z :=
  reject_loop fuel (window_value seed) 0 upper_bound.

Definition align_down (timestamp bucket_seconds : Z) : Z := timestamp - timestamp `mod` bucket_seconds.

(** [x.checked_div(y)] *)
Definition checked_div (x y : Z) : option Z := if y =? 0 then None else Some (x `div` y).

Definition derive_time_window (fuel : nat) (seed : bytes) (coverage : TimeCoverage)
    : outcome SamplingError TimeWindow :=
  ensure (negb (bucket_seconds coverage =? 0)) InvalidBucketWidth ;;
  ensure (negb (last_timestamp coverage <? first_timestamp coverage)) EmptyCoverage ;;
  let first_bucket := align_down (first_timestamp coverage) (bucket_seconds coverage) in
  let last_bucket := align_down (last_timestamp coverage) (bucket_seconds coverage) in
  distance ← ok_or (to_u64 (last_bucket - first_bucket)) ArithmeticOverflow;
  bucket_count ← ok_or (value ← checked_div distance (bucket_seconds coverage); to_u64 (value + 1))
    ArithmeticOverflow;
  bucket_offset ← unbiased_index fuel seed bucket_count;
  bucket_start ← ok_or (value ← to_u64 (bucket_offset * bucket_seconds coverage);
                        to_u64 (first_bucket + value)) ArithmeticOverflow;
  bucket_end ← ok_or (to_u64 (bucket_start + bucket_seconds coverage)) ArithmeticOverflow;
  Ok {| bucket_start := bucket_start; bucket_end := bucket_end |}.

Definition verify_time_window (fuel : nat) (seed : bytes) (coverage : TimeCoverage)
    (claimed : TimeWindow) : outcome SamplingError bool :=
  w ← derive_time_window fuel seed coverage; Ok (bool_decide (w = claimed)).

Definition row_is_in_window (window : TimeWindow) (row_bucket_start row_bucket_end : Z) : bool :=
  (row_bucket_start =? bucket_start window) && (row_bucket_end =? bucket_end window).

(** ** The window *)

Definition coverage_typed (c : TimeCoverage) : Prop :=
  0 <= first_timestamp c < 2 ^ 64 /\ 0 <= last_timestamp c < 2 ^ 64 /\ 0 <= bucket_seconds c < 2 ^ 64.

Lemma align_down_spec t b : 0 < b ->
  align_down t b = b * (t `div` b) /\ t - b < align_down t b <= t.
Proof.
  intros Hb. unfold align_down. pose proof (Z.div_mod t b). pose proof (Z.mod_pos_bound t b). lia.
Qed.
(** How many buckets meet the coverage. *)
Definition bucket_count (c : TimeCoverage) : Z :=
  last_timestamp c `div` bucket_seconds c - first_timestamp c `div` bucket_seconds c + 1.

(** The window as a function of the drawn index, with every check that can
    fire. *)
Lemma derive_time_window_eq fuel seed c : coverage_typed c ->
  derive_time_window fuel seed c =
  if bucket_seconds c =? 0 then Err InvalidBucketWidth
  else if last_timestamp c <? first_timestamp c then Err EmptyCoverage
  else
    if 2 ^ 64 <=? bucket_count c then Err ArithmeticOverflow
    else
      i ← unbiased_index fuel seed (bucket_count c);
      let start := (first_timestamp c `div` bucket_seconds c + i) * bucket_seconds c in
      if 2 ^ 64 <=? start + bucket_seconds c then Err ArithmeticOverflow
      else Ok {| bucket_start := start; bucket_end := start + bucket_seconds c |}.
Proof.
  intros (Hf & Hl & Hb). unfold derive_time_window.
  destruct (Z.eqb_spec (bucket_seconds c) 0) as [|Hb0]; [done|]. cbn [negb ensure mbind outcome_bind].
  destruct (Z.ltb_spec (last_timestamp c) (first_timestamp c)); [done|]. cbn [negb ensure mbind outcome_bind].
  set (b := bucket_seconds c) in *.
  destruct (align_down_spec (first_timestamp c) b) as [Hfe Hfr]; [lia|].
  destruct (align_down_spec (last_timestamp c) b) as [Hle Hlr]; [lia|]. rewrite Hfe, Hle in *.
  assert (first_timestamp c `div` b <= last_timestamp c `div` b) by (apply Z.div_le_mono; lia).
  assert (0 <= first_timestamp c `div` b) by (apply Z.div_pos; lia).
  set (f := first_timestamp c `div` b) in *. set (l := last_timestamp c `div` b) in *.
  assert (to_u64 (b * l - b * f) = Some (b * l - b * f)) as -> by (apply to_u64_Some; nia).
  cbn [ok_or mbind outcome_bind]. unfold checked_div. rewrite (proj2 (Z.eqb_neq b 0)) by done.
  cbn [mbind option_bind]. 
  assert ((b * l - b * f) `div` b = l - f) as ->
    by (rewrite <- Z.mul_sub_distr_l, Z.mul_comm; by apply Z.div_mul).
  unfold bucket_count. fold b f l. destruct (Z.leb_spec (2 ^ 64) (l - f + 1)) as [Hov|Hov].
  { by rewrite to_u64_None by lia. }
  rewrite to_u64_ok by lia. cbn [ok_or mbind outcome_bind].
  destruct (unbiased_index fuel seed (l - f + 1)) as [i| | |] eqn:Hi; try done. cbn [mbind outcome_bind].
  apply reject_loop_range in Hi; [|lia].
  assert (to_u64 (i * b) = Some (i * b)) as -> by (apply to_u64_Some; nia). cbn [mbind option_bind].
  assert (to_u64 (b * f + i * b) = Some ((f + i) * b)) as -> by (apply to_u64_Some; nia).
  cbn [ok_or mbind outcome_bind]. destruct (Z.leb_spec (2 ^ 64) ((f + i) * b + b)).
  - by rewrite to_u64_None by lia.
  - by rewrite to_u64_ok by nia.
Qed.

(** A derived window is a canonical bucket that meets the coverage: aligned to
    the bucket width and as wide, starting no later than the last timestamp and
    ending after the first; it is the bucket of the drawn index, [verify_time_window]
    accepts exactly it, and a row is in it exactly when it has its bounds. The
    refusals are a zero width, an empty coverage, and an overflow, which needs
    a last bucket that ends beyond 64 bits. *)
Theorem derive_time_window_spec fuel seed c : coverage_typed c ->
  (forall w, derive_time_window fuel seed c = Ok w ->
     bucket_start w `mod` bucket_seconds c = 0 /\ bucket_end w = bucket_start w + bucket_seconds c /\
     bucket_start w <= last_timestamp c /\ first_timestamp c < bucket_end w /\
     (exists i, 0 <= i < bucket_count c /\ unbiased_index (E:=SamplingError) fuel seed (bucket_count c) = Ok i /\
        bucket_start w = (first_timestamp c `div` bucket_seconds c + i) * bucket_seconds c) /\
     (forall claimed, verify_time_window fuel seed c claimed = Ok (bool_decide (w = claimed))) /\
     (forall s e, row_is_in_window w s e = bool_decide (w = {| bucket_start := s; bucket_end := e |}))) /\
  (derive_time_window fuel seed c = Err InvalidBucketWidth <-> bucket_seconds c = 0) /\
  (derive_time_window fuel seed c = Err EmptyCoverage <->
     bucket_seconds c <> 0 /\ last_timestamp c < first_timestamp c) /\
  (derive_time_window fuel seed c = Err ArithmeticOverflow ->
     2 ^ 64 <= align_down (last_timestamp c) (bucket_seconds c) + bucket_seconds c \/
     2 ^ 64 <= bucket_count c) /\
  (accepts fuel (window_value seed) 0 (bucket_count c) -> no_panic (derive_time_window fuel seed c)).
Proof.
  intros Hc. rewrite (derive_time_window_eq fuel seed c Hc). pose proof Hc as (Hf & Hl & Hb).
  destruct (Z.eqb_spec (bucket_seconds c) 0) as [|Hb0]; [split_and!; naive_solver|].
  destruct (Z.ltb_spec (last_timestamp c) (first_timestamp c)) as [|Hfl]; [split_and!; naive_solver|].
  set (b := bucket_seconds c) in *.
  assert (first_timestamp c `div` b <= last_timestamp c `div` b) by (apply Z.div_le_mono; lia).
  assert (0 < bucket_count c) as Hbc by (unfold bucket_count; fold b; lia).
  destruct (Z.leb_spec (2 ^ 64) (bucket_count c)); [split_and!; naive_solver lia|].
  destruct (unbiased_index fuel seed (bucket_count c)) as [i|e|msg|] eqn:Hi; cbn [mbind outcome_bind].
  2: by apply reject_loop_not_Err in Hi.
  2: by apply reject_loop_not_Panic in Hi.
  2: { split_and!; try naive_solver lia. intros Hacc.
       edestruct (@reject_loop_total SamplingError) as [o Ho]; [exact Hacc|done|].
       unfold unbiased_index in Hi. by rewrite Ho in Hi. }
  pose proof Hi as Hir%reject_loop_range; [|done].
  destruct (align_down_spec (last_timestamp c) b) as [Hle Hlr]; [lia|].
  pose proof (Z.div_mod (first_timestamp c) b Hb0). pose proof (Z.mod_pos_bound (first_timestamp c) b).
  unfold bucket_count in Hir. fold b in Hir.
  set (f := first_timestamp c `div` b) in *. set (l := last_timestamp c `div` b) in *.
  destruct (Z.leb_spec (2 ^ 64) ((f + i) * b + b)).
  { split; [done|]. split; [by split|]. split; [split; [done|lia]|]. split; [|done].
    intros _. left. rewrite Hle. nia. }
  split; [|split; [by split|split; [split; [done|lia]|by split]]]. intros w [= <-]. cbn [bucket_start bucket_end].
  split_and!; try done.
  - by apply Z.mod_mul.
  - nia.
  - nia.
  - exists i. split_and!; try done; unfold bucket_count; fold b f l; lia.
  - intros claimed. unfold verify_time_window. rewrite (derive_time_window_eq fuel seed c Hc).
    fold b. rewrite (proj2 (Z.eqb_neq _ _)), (proj2 (Z.ltb_ge _ _)), (proj2 (Z.leb_gt _ _)) by done.
    rewrite Hi. cbn [mbind outcome_bind]. fold f. by rewrite (proj2 (Z.leb_gt _ _)) by done.
  - intros s e. unfold row_is_in_window. cbn. destruct (Z.eqb_spec s ((f + i) * b)) as [->|], (Z.eqb_spec e ((f + i) * b + b)) as [->|];
      case_bool_decide; cbn; congruence.
Qed.
End FlowGraph.
End FlowGraph.

(** ** Concrete runs *)

(** A hash that answers the last eight bytes of its message, the counter: the
    draws of the samplers are 0, 1, 2, ... *)
Definition counter_crypto : Crypto := {|
  sha256 := fun _ => replicate 32 0;
  blake3 := fun m => drop (length m - 8) m ++ replicate 24 0;
  blake2b256 := fun _ => replicate 32 0; keystream := fun _ _ _ => 0 |}.
Definition example_seed : bytes := replicate 32 7.

Lemma derive_cluster_indices_spec_witness :
  @Cluster.derive_cluster_indices counter_crypto 4 example_seed 55 [9; 9; 9] = Ok [0; 1; 2] /\
  @Cluster.verify_cluster_indices counter_crypto 4 example_seed 55 [0; 1; 2] [9; 9; 9] = Ok true.
Proof.
  assert (@Cluster.derive_cluster_indices counter_crypto 4 example_seed 55 [9; 9; 9] = Ok [0; 1; 2]) as H
    by (vm_compute; reflexivity).
  split; [exact H|].
  destruct (@Cluster.derive_cluster_indices_spec counter_crypto 4 example_seed 55 [9; 9; 9] _ ltac:(done) H)
    as (_ & _ & _ & _ & Hv).
  by apply (Hv [0; 1; 2]).
Defined.

Lemma derive_cluster_indices_reference_witness :
  @Cluster.derive_cluster_indices counter_crypto 0 example_seed 2 [9; 9; 9] = Err Cluster.SelectionExceedsCatalog /\
  exists l, @Cluster.reference_selection counter_crypto example_seed 55 l /\
    @Cluster.derive_cluster_indices counter_crypto 4 example_seed 55 [9; 9; 9] = Ok (merge_sort Z.le l) /\
    merge_sort Z.le l = [0; 1; 2].
Proof.
  split.
  - exact (proj1 (@Cluster.derive_cluster_indices_reference counter_crypto example_seed 2 [9; 9; 9]
      ltac:(done) ltac:(done)) 0%nat).
  - assert (@Cluster.derive_cluster_indices counter_crypto 4 example_seed 55 [9; 9; 9] = Ok [0; 1; 2]) as Hrun
      by (vm_compute; reflexivity).
    destruct (proj1 (@Cluster.derive_cluster_indices_reference counter_crypto example_seed 55 [9; 9; 9]
      ltac:(done) ltac:(done)) 4%nat) as [Hno|(l & Hl & _ & Hd)]; [congruence|].
    exists l. split; [exact Hl|]. split; [exact Hd|]. congruence.
Defined.

Definition example_coverage : FlowGraph.TimeCoverage :=
  {| FlowGraph.first_timestamp := 1787875201; FlowGraph.last_timestamp := 1787877341;
     FlowGraph.bucket_seconds := 60 |}.
Definition example_window : FlowGraph.TimeWindow :=
  {| FlowGraph.bucket_start := 1787875200; FlowGraph.bucket_end := 1787875260 |}.
Lemma derive_time_window_spec_witness :
  1787875200 <= 1787877341 /\
  @FlowGraph.verify_time_window counter_crypto 1 example_seed example_coverage example_window = Ok true.
Proof.
  destruct (@FlowGraph.derive_time_window_spec counter_crypto 1 example_seed example_coverage) as [H _];
    [by split_and!|].
  destruct (H example_window ltac:(vm_compute; reflexivity)) as (_ & _ & H1 & _ & _ & Hv & _).
  split; [exact H1|]. by rewrite Hv.
Defined.
