(* ===== verification/Multiproof.v ===== *)
(** The multiproof of the opened symbols of a primary sliver, as the sampling
    guests check it ([verify_primary_multiproof] of
    [guest/{cluster,flow-graph,video}-sampling/program/src/main.rs]).

    The programs keep the frontier of known nodes in two ways: a dense vector
    with a proof map that is consumed (cluster and flow graph, the same code),
    and ordered maps that are only read (video).  [MapFrontier] is proved sound
    against the Merkle tree of [WalrusMerkle.v]; [DenseFrontier] refines it. *)
From S2P Require Import Prelude Crypto WalrusMerkle.

Record MultiproofNode := {
  mp_level : Z;
  mp_index : Z;
  mp_node : Node;
}.
Record AuthenticatedPrimarySymbol := {
  as_leaf_index : Z;
  as_bytes : bytes;
}.
Record AuthenticatedPrimarySliver := {
  sl_shard_index : Z;
  sl_primary_root : bytes;
  sl_secondary_root : bytes;
  sl_pair_leaf_path : list Node;
  sl_symbols : list AuthenticatedPrimarySymbol;
  sl_proof_nodes : list MultiproofNode;
}.

(** [(item.level as usize, item.index as usize)] *)
Definition proof_key (item : MultiproofNode) : nat * nat :=
  (Z.to_nat (mp_level item), Z.to_nat (mp_index item)).
(** [symbol.leaf_index as usize] *)
Definition symbol_index (symbol : AuthenticatedPrimarySymbol) : nat := Z.to_nat (as_leaf_index symbol).
(** [width.next_multiple_of(2)] *)
Definition padded_width (width : nat) : nat := (width + width mod 2)%nat.

Module DenseFrontier.
Section DenseFrontier.
Context `{HC : Crypto}.

(** One round of the loop over the symbols. *)
Definition place_symbol (n_leaves : nat) (symbol_size : Z) (current : list (option Node))
    (symbol : AuthenticatedPrimarySymbol) : guest (list (option Node)) :=
  assert (zlen (as_bytes symbol) =? symbol_size) "wrong Walrus symbol size" ;;
  let index := symbol_index symbol in
  assert ((index <? n_leaves)%nat && bool_decide (current !!! index = None))
    "duplicate primary symbol" ;;
  Ok (<[index := Some (root (build [as_bytes symbol]))]> current).

(** One round of the loop over the proof nodes. *)
Definition add_proof_node (proof : gmap (nat * nat) Node) (item : MultiproofNode)
    : guest (gmap (nat * nat) Node) :=
  assert (bool_decide (proof !! proof_key item = None)) "duplicate primary multiproof node" ;;
  Ok (<[proof_key item := mp_node item]> proof).

(** The closure [child], which takes the node out of the proof. *)
Definition child (level width : nat) (current : list (option Node)) (proof : gmap (nat * nat) Node)
    (index : nat) : guest (Node * gmap (nat * nat) Node) :=
  slot ← expect (current !! index) "index out of bounds";
  match slot with
  | Some node => Ok (node, proof)
  | None =>
      match proof !! (level, index) with
      | Some node => Ok (node, delete (level, index) proof)
      | None => if (width <=? index)%nat then Ok (Empty, proof)
                else Panic "missing primary multiproof node"
      end
  end.

(** One round of the loop over the parents of a level. *)
Definition join_parent (level width : nat) (current : list (option Node))
    (st : list (option Node) * gmap (nat * nat) Node) (parent : nat)
    : guest (list (option Node) * gmap (nat * nat) Node) :=
  let '(next, proof) := st in
  left ← expect (current !! (parent * 2)%nat) "index out of bounds";
  right ← expect (current !! (parent * 2 + 1)%nat) "index out of bounds";
  match left, right with
  | None, None => Ok (next, proof)
  | _, _ =>
      '(a, proof) ← child level width current proof (parent * 2);
      '(b, proof) ← child level width current proof (parent * 2 + 1);
      Ok (<[parent := Some (root (build_from_leaf_hashes [a; b]))]> next, proof)
  end.

(** The [while width > 1] loop; the width shrinks in every round. *)
Fixpoint levels_loop (fuel level width : nat) (current : list (option Node))
    (proof : gmap (nat * nat) Node) : guest (list (option Node) * gmap (nat * nat) Node) :=
  match fuel with
  | O => OutOfFuel
  | S fuel =>
      if (1 <? width)%nat then
        let padded := padded_width width in
        let current := resize padded None current in
        '(next, proof) ← ofold (join_parent level width current)
          (replicate (padded / 2) None, proof) (seq 0 (padded / 2));
        levels_loop fuel (S level) (padded / 2) next proof
      else Ok (current, proof)
  end.

Definition verify_primary_multiproof (sliver : AuthenticatedPrimarySliver) (n_leaves : nat)
    (symbol_size : Z) : guest Node :=
  current ← ofold (place_symbol n_leaves symbol_size) (replicate n_leaves None) (sl_symbols sliver);
  assert (existsb (fun slot => bool_decide (is_Some slot)) current) "empty primary symbol multiproof" ;;
  proof ← ofold add_proof_node ∅ (sl_proof_nodes sliver);
  '(current, proof) ← levels_loop (S n_leaves) 0 n_leaves current proof;
  assert (bool_decide (proof = ∅)) "unused primary multiproof nodes" ;;
  slot ← expect (current !! 0%nat) "index out of bounds";
  expect slot "multiproof produced no root".
End DenseFrontier.
End DenseFrontier.

Module MapFrontier.
Section MapFrontier.
Context `{HC : Crypto}.

Definition place_symbol (n_leaves : nat) (symbol_size : Z) (current : gmap nat Node)
    (symbol : AuthenticatedPrimarySymbol) : guest (gmap nat Node) :=
  assert (zlen (as_bytes symbol) =? symbol_size) "wrong Walrus symbol size" ;;
  let index := symbol_index symbol in
  assert ((index <? n_leaves)%nat && bool_decide (current !! index = None))
    "duplicate primary symbol" ;;
  Ok (<[index := root (build [as_bytes symbol])]> current).

(** [iter().collect::<BTreeMap<_, _>>()]: the last item of a key wins. *)
Definition proof_map (items : list MultiproofNode) : gmap (nat * nat) Node :=
  foldl (fun proof item => <[proof_key item := mp_node item]> proof) ∅ items.

(** The closure [child]. *)
Definition child (level width : nat) (current : gmap nat Node) (proof : gmap (nat * nat) Node)
    (index : nat) : option Node :=
  match current !! index with
  | Some node => Some node
  | None =>
      match proof !! (level, index) with
      | Some node => Some node
      | None => if (width <=? index)%nat then Some Empty else None
      end
  end.

(** The set of the parents of the known nodes. *)
Definition parents_of (current : gmap nat Node) : gset nat :=
  set_map (fun index => (index / 2)%nat) (dom current).

(** One round of the loop over the parents of a level. *)
Definition join_parent (level width : nat) (current : gmap nat Node) (proof : gmap (nat * nat) Node)
    (next : gmap nat Node) (parent : nat) : guest (gmap nat Node) :=
  a ← expect (child level width current proof (parent * 2)) "missing primary multiproof node";
  b ← expect (child level width current proof (parent * 2 + 1)) "missing primary multiproof node";
  Ok (<[parent := root (build_from_leaf_hashes [a; b])]> next).

Fixpoint levels_loop (fuel level width : nat) (current : gmap nat Node)
    (proof : gmap (nat * nat) Node) : guest (gmap nat Node) :=
  match fuel with
  | O => OutOfFuel
  | S fuel =>
      if (1 <? width)%nat then
        let padded := padded_width width in
        next ← ofold (join_parent level width current proof) ∅ (elements (parents_of current));
        levels_loop fuel (S level) (padded / 2) next proof
      else Ok current
  end.

Definition verify_primary_multiproof (sliver : AuthenticatedPrimarySliver) (n_leaves : nat)
    (symbol_size : Z) : guest Node :=
  current ← ofold (place_symbol n_leaves symbol_size) ∅ (sl_symbols sliver);
  assert (negb (bool_decide (current = ∅))) "empty primary symbol multiproof" ;;
  current ← levels_loop (S n_leaves) 0 n_leaves current (proof_map (sl_proof_nodes sliver));
  expect (current !! 0%nat) "multiproof produced no root".
End MapFrontier.
End MapFrontier.

(** ** One level of the map frontier *)

Section Multiproof.
Context `{HC : Crypto}.

Lemma padded_half width : (padded_width width / 2 = (width + 1) / 2)%nat.
Proof.
  unfold padded_width. destruct (Nat.Even_or_Odd width) as [[k ->]|[k ->]].
  - rewrite Nat.mul_comm, Nat.Div0.mod_mul, Nat.add_0_r, Nat.div_mul, Nat.div_add_l by done. cbn. lia.
  - rewrite (Nat.mul_comm 2), (Nat.add_comm (k * 2) 1), Nat.Div0.mod_add.
    change (1 mod 2)%nat with 1%nat. f_equal; lia.
Qed.
Lemma root_pair a b : root (build_from_leaf_hashes [a; b]) = inner_hash a b.
Proof. by rewrite build_root. Qed.
Lemma root_single s : root (build [s]) = leaf_hash s.
Proof. unfold build. by rewrite build_root. Qed.

(** The node that joins the two children of [parent], if both are known. *)
Definition joined (level width : nat) (current : gmap nat Node) (proof : gmap (nat * nat) Node)
    (parent : nat) : option Node :=
  a ← MapFrontier.child level width current proof (parent * 2);
  b ← MapFrontier.child level width current proof (parent * 2 + 1);
  Some (inner_hash a b).

Lemma join_parent_Ok level width current proof next parent next' :
  MapFrontier.join_parent level width current proof next parent = Ok next' <->
  exists x, joined level width current proof parent = Some x /\ next' = <[parent := x]> next.
Proof.
  unfold MapFrontier.join_parent, joined. rewrite bind_Ok_inv. split.
  - intros (a & ->%expect_Ok & (b & ->%expect_Ok & [= <-])%bind_Ok_inv). cbn. rewrite root_pair. eauto.
  - intros (x & (a & Ha & (b & Hb & [= <-])%bind_Some)%bind_Some & ->). exists a.
    split; [by apply expect_Ok|]. rewrite Hb. cbn. by rewrite root_pair.
Qed.
Lemma join_parents_Ok level width current proof ps next next' : NoDup ps ->
  ofold (MapFrontier.join_parent level width current proof) next ps = Ok next' <->
  (forall p, p ∈ ps -> is_Some (joined level width current proof p)) /\
  forall i, next' !! i = if decide (i ∈ ps) then joined level width current proof i else next !! i.
Proof.
  intros Hnd. revert next. induction Hnd as [|p ps Hp Hnd IH]; intros next; cbn [ofold].
  - split.
    + intros [= <-]. split; [intros p Hp; by apply elem_of_nil in Hp|]. intros i. by rewrite decide_False by apply not_elem_of_nil.
    + intros [_ H]. f_equal. apply map_eq. intros i. rewrite H. by rewrite decide_False by apply not_elem_of_nil.
  - rewrite bind_Ok_inv. setoid_rewrite join_parent_Ok. split.
    + intros (n & (x & Hx & ->) & [Hall Hl]%IH). split.
      * intros q [->|Hq]%elem_of_cons; [by eexists|by apply Hall].
      * intros i. rewrite Hl. destruct (decide (i = p)) as [->|Hne].
        { rewrite decide_False, decide_True by (done || by left). by rewrite lookup_insert_eq. }
        rewrite lookup_insert_ne by done. by rewrite (decide_ext (i ∈ p :: ps) (i ∈ ps)) by set_solver.
    + intros [Hall Hl]. destruct (Hall p ltac:(by left)) as [x Hx]. exists (<[p := x]> next).
      split; [eauto|]. apply IH. split; [intros q Hq; apply Hall; by right|].
      intros i. rewrite Hl. destruct (decide (i = p)) as [->|Hne].
      { rewrite decide_True, decide_False by (done || by left). by rewrite lookup_insert_eq. }
      rewrite lookup_insert_ne by done. by rewrite (decide_ext (i ∈ p :: ps) (i ∈ ps)) by set_solver.
Qed.
Lemma join_parents_total level width current proof ps next :
  (forall p, p ∈ ps -> is_Some (joined level width current proof p)) ->
  exists next', ofold (MapFrontier.join_parent level width current proof) next ps = Ok next'.
Proof.
  revert next. induction ps as [|p ps IH]; intros next Hall; cbn [ofold]; [eauto|].
  destruct (Hall p ltac:(by left)) as [x Hx].
  rewrite (proj2 (join_parent_Ok level width current proof next p (<[p := x]> next))) by eauto.
  apply IH. intros q Hq. apply Hall. by right.
Qed.
Lemma elem_of_parents current p : p ∈ MapFrontier.parents_of current <->
  is_Some (current !! (p * 2)%nat) \/ is_Some (current !! (p * 2 + 1)%nat).
Proof.
  unfold MapFrontier.parents_of. rewrite elem_of_map. setoid_rewrite elem_of_dom. split.
  - intros (i & -> & Hi). pose proof (even_odd_index i) as He. rewrite (Nat.mul_comm 2) in He.
    destruct (Nat.even i); [left; rewrite Nat.add_0_r in He|right]; by rewrite <- He.
  - intros [H|H]; eexists; (split; [|exact H]).
    + by rewrite Nat.div_mul.
    + by rewrite Nat.div_add_l by done; rewrite Nat.add_0_r.
Qed.
(** The next frontier of a level. *)
Lemma level_Ok level width current proof next :
  ofold (MapFrontier.join_parent level width current proof) ∅
    (elements (MapFrontier.parents_of current)) = Ok next <->
  (forall p, p ∈ MapFrontier.parents_of current -> is_Some (joined level width current proof p)) /\
  forall i, next !! i = if decide (i ∈ MapFrontier.parents_of current)
                        then joined level width current proof i else None.
Proof.
  rewrite join_parents_Ok by apply NoDup_elements.
  assert (forall i, i ∈ elements (MapFrontier.parents_of current) <-> i ∈ MapFrontier.parents_of current)
    as He by (intros i; apply elem_of_elements).
  split; (intros [H1 H2]; split; [intros p Hp; by apply H1, He|]); intros i; rewrite H2, ?lookup_empty;
    specialize (He i); destruct (decide (i ∈ elements _)), (decide (i ∈ MapFrontier.parents_of _));
    first [done|naive_solver].
Qed.

(** ** Soundness *)

Context {HL : CryptoLaws HC}.

(** The message hashed for a parent, and all the messages of the loop. *)
Definition parent_msg (level width : nat) (current : gmap nat Node) (proof : gmap (nat * nat) Node)
    (parent : nat) : option bytes :=
  a ← MapFrontier.child level width current proof (parent * 2);
  b ← MapFrontier.child level width current proof (parent * 2 + 1);
  Some (INNER_PREFIX ++ node_bytes a ++ node_bytes b).
Fixpoint loop_msgs (fuel level width : nat) (current : gmap nat Node) (proof : gmap (nat * nat) Node)
    : list bytes :=
  match fuel with
  | O => []
  | S fuel =>
      if (1 <? width)%nat then
        let ps := elements (MapFrontier.parents_of current) in
        omap (parent_msg level width current proof) ps ++
        match ofold (MapFrontier.join_parent level width current proof) ∅ ps with
        | Ok next => loop_msgs fuel (S level) (padded_width width / 2) next proof
        | _ => []
        end
      else []
  end.

Lemma child_ok level width current proof i x :
  map_Forall (fun _ => node_ok) current -> map_Forall (fun _ => node_ok) proof ->
  MapFrontier.child level width current proof i = Some x -> node_ok x.
Proof.
  intros Hc Hp. unfold MapFrontier.child. destruct (current !! i) eqn:Hi; [intros [= <-]; by eapply Hc|].
  destruct (proof !! (level, i)) eqn:Hk; [intros [= <-]; by eapply Hp|].
  by destruct (_ <=? _)%nat; [intros [= <-]|].
Qed.
Lemma child_known level width current proof i x :
  current !! i = Some x -> MapFrontier.child level width current proof i = Some x.
Proof. unfold MapFrontier.child. by intros ->. Qed.

(** The frontier fits in the width and holds digests of the right length. *)
Definition frontier_ok (width : nat) (current : gmap nat Node) : Prop :=
  map_Forall (fun i x => (i < width)%nat /\ node_ok x) current.
Lemma frontier_nodes width current : frontier_ok width current -> map_Forall (fun _ => node_ok) current.
Proof. intros H i x Hx. by apply (H i x). Qed.

Lemma next_frontier_ok level width current proof next :
  frontier_ok width current -> map_Forall (fun _ => node_ok) proof ->
  ofold (MapFrontier.join_parent level width current proof) ∅
    (elements (MapFrontier.parents_of current)) = Ok next ->
  frontier_ok (padded_width width / 2) next.
Proof.
  intros Hc Hp [_ Hn]%level_Ok i x Hx. rewrite Hn in Hx.
  destruct (decide _) as [Hin|]; [|done]. apply bind_Some in Hx as (a & Ha & Hx).
  apply bind_Some in Hx as (b & Hb & [= <-]). split; [|apply inner_hash_ok].
  rewrite padded_half. apply elem_of_parents in Hin as [[y Hy]|[y Hy]]; apply Hc in Hy as [Hlt _];
    apply Nat.div_le_lower_bound; lia.
Qed.

(** A frontier that climbs to the digest of a root holds the digests of the
    level below the root. *)
Lemma levels_loop_sound Q l fuel' fuel level width proof current current' r :
  collision_free Q -> MapFrontier.levels_loop fuel level width current proof = Ok current' ->
  current' !! 0%nat = Some r -> length l = width -> (0 < width <= fuel')%nat ->
  frontier_ok width current -> map_Forall (fun _ => node_ok) proof -> Forall node_ok l ->
  (forall x, x ∈ tree_msgs fuel' l -> Q x) ->
  (forall x, x ∈ loop_msgs fuel level width current proof -> Q x) ->
  node_bytes r = node_bytes (root_of fuel' l) ->
  forall i x, current !! i = Some x -> exists y, l !! i = Some y /\ node_bytes y = node_bytes x.
Proof.
  intros HQ. revert l fuel' level width current.
  induction fuel as [|fuel IH]; intros l fuel' level width current Hloop Hr Hl Hf Hc Hp Hok Ht Hm Hroot i x Hx;
    cbn [MapFrontier.levels_loop loop_msgs] in *; [done|].
  destruct fuel' as [|fuel']; [lia|]. cbn [root_of tree_msgs] in *. rewrite Hl in *.
  destruct (Nat.ltb_spec 1 width) as [Hlt|Hge].
  - apply bind_Ok_inv in Hloop as (next & Hnext & Hloop). rewrite Hnext in Hm.
    pose proof (next_frontier_ok _ _ _ _ _ Hc Hp Hnext) as Hnc.
    pose proof (up_shrinks l ltac:(lia)) as Hup. rewrite padded_half, <- Hl, <- up_length in *.
    pose proof Hnext as [Hall Hn]%level_Ok.
    assert (i / 2 ∈ MapFrontier.parents_of current)%nat as Hpar.
    { unfold MapFrontier.parents_of. apply elem_of_map. exists i. split; [done|]. by apply elem_of_dom. }
    destruct (Hall _ Hpar) as [z Hz]. pose proof (Hn (i / 2)%nat) as Hnz.
    rewrite decide_True, Hz in Hnz by done. pose proof Hz as Hz'.
    apply bind_Some in Hz' as (a & Ha & (b & Hb & [= <-])%bind_Some).
    destruct (IH (up l) fuel' (S level) (length (up l)) next Hloop Hr eq_refl) with (i := (i / 2)%nat)
      (x := inner_hash a b) as (y & Hy & Hyb); try done; [lia|apply pair_up_ok|set_solver|set_solver|].
    destruct (children_of_parent Q l (i / 2) a b y HQ Hok) as (c & d & Hc1 & Hd1 & Hca & Hdb); try done.
    + exact (child_ok _ _ _ _ _ _ (frontier_nodes _ _ Hc) Hp Ha).
    + intros m Hm'. apply Ht. set_solver.
    + apply Hm, elem_of_app. left. apply list_elem_of_omap. exists (i / 2)%nat.
      split; [by apply elem_of_elements|]. unfold parent_msg. by rewrite Ha, Hb.
    + destruct (Hc i x Hx) as [Hix _]. destruct (lookup_lt_is_Some_2 l i ltac:(lia)) as [w Hw].
      exists w. split; [done|]. apply pad_lookup in Hw.
      pose proof (even_odd_index i) as He. rewrite (Nat.mul_comm 2) in He.
      rewrite (Nat.mul_comm 2) in Hc1, Hd1. destruct (Nat.even i).
      * rewrite Nat.add_0_r in He. rewrite <- He in Ha, Hc1. rewrite (child_known _ _ _ _ _ _ Hx) in Ha.
        rewrite Hw in Hc1. congruence.
      * rewrite <- He in Hb, Hd1. rewrite (child_known _ _ _ _ _ _ Hx) in Hb. rewrite Hw in Hd1. congruence.
  - injection Hloop as <-. assert (width = 1)%nat as -> by lia.
    destruct (Hc i x Hx) as [Hi _]. assert (i = 0%nat) as -> by lia. rewrite Hx in Hr. injection Hr as ->.
    destruct l as [|y [|]]; [done| |done]. exists y. split; [done|]. by rewrite Hroot.
Qed.

Lemma place_symbols_Ok n size symbols current :
  ofold (MapFrontier.place_symbol n size) ∅ symbols = Ok current ->
  frontier_ok n current /\
  Forall (fun so => zlen (as_bytes so) = size /\
                    current !! symbol_index so = Some (leaf_hash (as_bytes so))) symbols.
Proof.
  apply (ofold_inv (fun done current => frontier_ok n current /\
    Forall (fun so => zlen (as_bytes so) = size /\
                      current !! symbol_index so = Some (leaf_hash (as_bytes so))) done)).
  - split; [apply map_Forall_empty|constructor].
  - intros done so todo cur cur' _ [Hc Hs] (_ & H1%assert_Ok & (_ & H2%assert_Ok & [= <-])%bind_Ok_inv)%bind_Ok_inv.
    bool_hyps. apply Nat.ltb_lt in H. rewrite root_single. split.
    + apply map_Forall_insert_2; [|done]. split; [done|apply blake2b256_length].
    + apply Forall_app. split.
      * eapply Forall_impl; [exact Hs|]. intros so' [Hz Hl]. split; [done|].
        rewrite lookup_insert_ne by congruence. done.
      * apply Forall_singleton. by rewrite lookup_insert_eq.
Qed.
Lemma proof_map_ok items : Forall (fun item => node_ok (mp_node item)) items ->
  map_Forall (fun _ => node_ok) (MapFrontier.proof_map items).
Proof.
  unfold MapFrontier.proof_map. intros H.
  enough (forall m, map_Forall (fun _ => node_ok) m -> map_Forall (fun _ => node_ok)
    (foldl (fun proof item => <[proof_key item := mp_node item]> proof) m items)) as Hg
    by (apply Hg, map_Forall_empty).
  induction H as [|x items Hx _ IH]; intros m Hm; cbn; [done|]. apply IH. by apply map_Forall_insert_2.
Qed.

(** The messages hashed to check the multiproof of a sliver. *)
Definition multiproof_msgs (sliver : AuthenticatedPrimarySliver) (n : nat) (size : Z) : list bytes :=
  ((fun so => LEAF_PREFIX ++ as_bytes so) <$> sl_symbols sliver) ++
  match ofold (MapFrontier.place_symbol n size) ∅ (sl_symbols sliver) with
  | Ok current => loop_msgs (S n) 0 n current (MapFrontier.proof_map (sl_proof_nodes sliver))
  | _ => []
  end.
Definition sliver_typed (sliver : AuthenticatedPrimarySliver) : Prop :=
  0 <= sl_shard_index sliver /\ length (sl_primary_root sliver) = DIGEST_LEN /\
  length (sl_secondary_root sliver) = DIGEST_LEN /\ Forall node_ok (sl_pair_leaf_path sliver) /\
  Forall (fun so => 0 <= as_leaf_index so) (sl_symbols sliver) /\
  Forall (fun item => node_ok (mp_node item)) (sl_proof_nodes sliver).

Lemma map_multiproof_sound Q leaves sliver size r :
  collision_free Q -> leaves <> [] -> sliver_typed sliver ->
  (forall x, x ∈ build_msgs leaves -> Q x) ->
  (forall x, x ∈ multiproof_msgs sliver (length leaves) size -> Q x) ->
  MapFrontier.verify_primary_multiproof sliver (length leaves) size = Ok r ->
  node_bytes r = node_bytes (root (build leaves)) ->
  Forall (fun so => zlen (as_bytes so) = size /\ leaves !! symbol_index so = Some (as_bytes so))
    (sl_symbols sliver).
Proof.
  intros HQ Hne (_ & _ & _ & _ & _ & Hpn) Ht Hm H Hr. unfold MapFrontier.verify_primary_multiproof in H.
  apply bind_Ok_inv in H as (cur & Hcur & H). apply bind_Ok_inv in H as (_ & _ & H).
  apply bind_Ok_inv in H as (cur' & Hloop & Hget%expect_Ok).
  unfold multiproof_msgs in Hm. rewrite Hcur in Hm. apply place_symbols_Ok in Hcur as [Hc Hs].
  unfold build in Hr. rewrite build_root in Hr. unfold tree_root in Hr. rewrite length_fmap in Hr.
  assert (forall i x, cur !! i = Some x -> exists y, (leaf_hash <$> leaves) !! i = Some y /\
    node_bytes y = node_bytes x) as Hall.
  { eapply (levels_loop_sound Q (leaf_hash <$> leaves) (length leaves)); try done.
    - by rewrite length_fmap.
    - destruct leaves; [done|cbn; lia].
    - by apply proof_map_ok.
    - apply Forall_fmap, Forall_true. intros x. apply blake2b256_length.
    - intros x Hx. apply Ht. unfold build_msgs. set_solver.
    - intros x Hx. apply Hm. set_solver. }
  rewrite Forall_forall in Hs |- *. intros so Hso. destruct (Hs so Hso) as [Hz Hl]. split; [done|].
  apply Hall in Hl as (y & Hy & Hyb). rewrite list_lookup_fmap, fmap_Some in Hy.
  destruct Hy as (d & Hd & ->). rewrite Hd. f_equal. apply HQ in Hyb; [by apply app_inv_head in Hyb| |].
  - apply Ht. unfold build_msgs. apply elem_of_app. left. apply list_elem_of_fmap. exists d.
    split; [done|]. by eapply list_elem_of_lookup_2.
  - apply Hm, elem_of_app. left. apply list_elem_of_fmap. by exists so.
Qed.
End Multiproof.

(** ** The dense frontier refines the map frontier *)

Section Refinement.
Context `{HC : Crypto}.

(** The dense vector and the map hold the same nodes. *)
Definition same_frontier (dense : list (option Node)) (sparse : gmap nat Node) : Prop :=
  forall i, sparse !! i = mjoin (dense !! i).

Lemma same_frontier_insert dense sparse i x : (i < length dense)%nat ->
  same_frontier dense sparse -> same_frontier (<[i := Some x]> dense) (<[i := x]> sparse).
Proof.
  intros Hi Hs j. destruct (decide (i = j)) as [<-|Hne].
  - by rewrite lookup_insert_eq, list_lookup_insert_eq.
  - by rewrite lookup_insert_ne, list_lookup_insert_ne.
Qed.
Lemma same_frontier_empty n : same_frontier (replicate n None) ∅.
Proof.
  intros i. rewrite lookup_empty. destruct (replicate n None !! i) as [x|] eqn:Hx; [|done].
  by apply lookup_replicate in Hx as [-> _].
Qed.
Lemma same_frontier_resize n dense sparse :
  same_frontier dense sparse -> (length dense <= n)%nat -> same_frontier (resize n None dense) sparse.
Proof.
  intros Hs Hn i. rewrite Hs. rewrite resize_ge by done.
  destruct (decide (i < length dense)%nat); [by rewrite lookup_app_l|].
  rewrite lookup_app_r, (lookup_ge_None_2 dense) by lia. cbn.
  by rewrite <- (same_frontier_empty (n - length dense)), lookup_empty.
Qed.

Lemma place_symbols_refine n size symbols dense :
  ofold (DenseFrontier.place_symbol n size) (replicate n None) symbols = Ok dense ->
  exists sparse, ofold (MapFrontier.place_symbol n size) ∅ symbols = Ok sparse /\
    same_frontier dense sparse /\ length dense = n.
Proof.
  assert (Hg : forall d s, length d = n -> same_frontier d s ->
    ofold (DenseFrontier.place_symbol n size) d symbols = Ok dense ->
    exists sparse, ofold (MapFrontier.place_symbol n size) s symbols = Ok sparse /\
      same_frontier dense sparse /\ length dense = n).
  2: apply Hg; [apply length_replicate|apply same_frontier_empty].
  induction symbols as [|so symbols IH]; intros d s Hl Hs; cbn [ofold].
  - intros [= <-]. by exists s.
  - intros (d' & ([] & H1 & ([] & H2%assert_Ok & [= <-])%bind_Ok_inv)%bind_Ok_inv & H)%bind_Ok_inv.
    apply andb_true_iff in H2 as [H2 H3%bool_decide_eq_true]. pose proof H2 as Hlt%Nat.ltb_lt.
    assert (MapFrontier.place_symbol n size s so
      = Ok (<[symbol_index so := root (build [as_bytes so])]> s)) as ->.
    { unfold MapFrontier.place_symbol. rewrite H1. cbn [mbind outcome_bind]. rewrite H2, Hs.
      rewrite (list_lookup_lookup_total_lt d) by lia. cbn. by rewrite H3. }
    cbn [mbind outcome_bind]. eapply IH; [| |exact H]; [by rewrite length_insert|].
    apply same_frontier_insert; [lia|done].
Qed.
Lemma proof_refine items proof :
  ofold DenseFrontier.add_proof_node ∅ items = Ok proof -> proof = MapFrontier.proof_map items.
Proof.
  unfold MapFrontier.proof_map. generalize (∅ : gmap (nat * nat) Node).
  induction items as [|item items IH]; intros m; cbn [ofold foldl]; [by intros [= <-]|].
  intros (m' & (_ & _ & [= <-])%bind_Ok_inv & H)%bind_Ok_inv. by apply IH.
Qed.

(** What one level of the dense loop leaves: the proof entries of this level are
    consumed in order, so those of the parents that are still to come, and those
    of the levels above, are untouched. *)
Record level_done (level width : nat) (sparse : gmap nat Node) (whole : gmap (nat * nat) Node)
    (half k : nat) (next : list (option Node)) (proof : gmap (nat * nat) Node) : Prop := {
  ld_length : length next = half;
  ld_done : forall p, (p < k)%nat ->
    (p ∈ MapFrontier.parents_of sparse -> exists x, joined level width sparse whole p = Some x /\
       next !! p = Some (Some x)) /\
    (p ∉ MapFrontier.parents_of sparse -> next !! p = Some None);
  ld_todo : forall p, (k <= p < half)%nat -> next !! p = Some None;
  ld_level : forall i, (2 * k <= i)%nat -> proof !! (level, i) = whole !! (level, i);
  ld_above : forall l i, (level < l)%nat -> proof !! (l, i) = whole !! (l, i);
}.

Lemma dense_child level width dense sparse whole proof i a proof' :
  same_frontier dense sparse -> proof !! (level, i) = whole !! (level, i) ->
  DenseFrontier.child level width dense proof i = Ok (a, proof') ->
  MapFrontier.child level width sparse whole i = Some a /\
  (forall k, k <> (level, i) -> proof' !! k = proof !! k).
Proof.
  intros Hs Hp (slot & Hslot%expect_Ok & H)%bind_Ok_inv. unfold MapFrontier.child.
  rewrite Hs, Hslot. cbn. destruct slot as [x|]; [by injection H as <- <-|]. rewrite <- Hp.
  destruct (proof !! (level, i)) as [x|].
  - injection H as <- <-. split; [done|]. intros k Hk. by apply lookup_delete_ne.
  - destruct (_ <=? _)%nat; [|done]. by injection H as <- <-.
Qed.

Lemma dense_join level width dense sparse whole half k next proof next' proof' :
  same_frontier dense sparse -> (k < half)%nat ->
  level_done level width sparse whole half k next proof ->
  DenseFrontier.join_parent level width dense (next, proof) k = Ok (next', proof') ->
  level_done level width sparse whole half (S k) next' proof'.
Proof.
  intros Hs Hk [Hl Hd Ht Hlv Hab] (l & Hleft%expect_Ok & (r & Hright%expect_Ok & H)%bind_Ok_inv)%bind_Ok_inv.
  assert (k ∈ MapFrontier.parents_of sparse <-> is_Some l \/ is_Some r) as Hpar.
  { rewrite elem_of_parents, !Hs, Hleft, Hright. done. }
  assert ((l = None /\ r = None /\ next' = next /\ proof' = proof) \/
    ((is_Some l \/ is_Some r) /\ exists a p1 b,
       DenseFrontier.child level width dense proof (k * 2) = Ok (a, p1) /\
       DenseFrontier.child level width dense p1 (k * 2 + 1) = Ok (b, proof') /\
       next' = <[k := Some (inner_hash a b)]> next))
    as [(-> & -> & -> & ->)|(Hsome & a & p1 & b & Ha & Hb & ->)].
  { destruct l, r; [right|right|right|left; by injection H as <- <-];
      (split; [by eauto|]); apply bind_Ok_inv in H as ([a p1] & Ha & H);
      apply bind_Ok_inv in H as ([b p2] & Hb & H); injection H as <- <-; rewrite root_pair; eauto 10. }
  - assert (k ∉ MapFrontier.parents_of sparse) as Hnp by (rewrite Hpar; by intros [[? ?]|[? ?]]).
    split; try done; try (intros; apply Hlv || apply Ht; lia).
    intros p Hp. destruct (decide (p = k)) as [->|]; [|apply Hd; lia].
    split; [done|]. intros _. apply Ht. lia.
  - apply (dense_child _ _ _ sparse whole) in Ha as [Ha Hp1]; [|done|apply Hlv; lia].
    apply (dense_child _ _ _ sparse whole) in Hb as [Hb Hp2];
      [|done|rewrite Hp1 by (intros [=]; lia); apply Hlv; lia].
    split.
    + by rewrite length_insert.
    + intros p Hp. destruct (decide (p = k)) as [->|].
      * split; [|intros Hnp; by destruct Hnp; apply Hpar]. intros _. exists (inner_hash a b).
        rewrite list_lookup_insert_eq by lia. split; [|done]. unfold joined. by rewrite Ha, Hb.
      * rewrite list_lookup_insert_ne by done. apply Hd. lia.
    + intros p Hp. rewrite list_lookup_insert_ne by lia. apply Ht. lia.
    + intros i Hi. rewrite Hp2, Hp1 by (intros [=]; lia). apply Hlv. lia.
    + intros l' i Hi. rewrite Hp2, Hp1 by (intros [=]; lia). by apply Hab.
Qed.

Lemma dense_level level width dense sparse whole half proof0 next proof :
  same_frontier dense sparse -> (forall i, is_Some (sparse !! i) -> (i < 2 * half)%nat) ->
  (forall l i, (level <= l)%nat -> proof0 !! (l, i) = whole !! (l, i)) ->
  ofold (DenseFrontier.join_parent level width dense) (replicate half None, proof0) (seq 0 half)
    = Ok (next, proof) ->
  exists next', ofold (MapFrontier.join_parent level width sparse whole) ∅
      (elements (MapFrontier.parents_of sparse)) = Ok next' /\
    same_frontier next next' /\ length next = half /\
    (forall l i, (level < l)%nat -> proof !! (l, i) = whole !! (l, i)).
Proof.
  intros Hs Hlt Hwh H.
  apply (ofold_inv (fun done st => level_done level width sparse whole half (length done) st.1 st.2)) in H.
  - rewrite length_seq in H. destruct H as [Hl Hd _ _ Hab]. cbn in *.
    assert (forall p, p ∈ MapFrontier.parents_of sparse -> (p < half)%nat) as Hph.
    { intros p Hp. apply elem_of_parents in Hp as [Hp|Hp]; apply Hlt in Hp; lia. }
    destruct (join_parents_total level width sparse whole (elements (MapFrontier.parents_of sparse)) ∅)
      as [next' Hn].
    { intros p Hp%elem_of_elements. destruct (proj1 (Hd p (Hph p Hp)) Hp) as (x & Hx & _). by exists x. }
    exists next'. split; [done|]. split; [|done]. apply level_Ok in Hn as [_ Hn]. intros p. rewrite Hn.
    destruct (decide (p < half)%nat) as [Hp|Hp].
    + destruct (decide (p ∈ MapFrontier.parents_of sparse)) as [Hin|Hni].
      * destruct (proj1 (Hd p Hp) Hin) as (x & -> & ->). done.
      * by rewrite (proj2 (Hd p Hp) Hni).
    + rewrite decide_False by (intros Hin; by apply Hp, Hph). by rewrite lookup_ge_None_2 by lia.
  - split; cbn [length fst snd].
    + apply length_replicate.
    + lia.
    + intros p Hp. apply lookup_replicate_2. lia.
    + intros i _. by apply Hwh.
    + intros l i Hl. apply Hwh. lia.
  - intros done k todo [n1 p1] [n2 p2] Hseq Hdone Hstep. cbn in *.
    assert (k = length done /\ (k < half)%nat) as [-> Hk].
    { assert (seq 0 half !! length done = Some k) as Hk by (by rewrite Hseq, list_lookup_middle).
      apply lookup_seq in Hk. lia. }
    rewrite length_app, Nat.add_1_r. by eapply dense_join.
Qed.

Lemma padded_even width : padded_width width = (2 * (padded_width width / 2))%nat.
Proof.
  unfold padded_width. destruct (Nat.Even_or_Odd width) as [[k ->]|[k ->]].
  - rewrite (Nat.mul_comm 2 k), Nat.Div0.mod_mul, Nat.add_0_r, Nat.div_mul by done. lia.
  - rewrite (Nat.mul_comm 2 k), (Nat.add_comm (k * 2) 1), Nat.Div0.mod_add.
    change (1 mod 2)%nat with 1%nat. replace (1 + k * 2 + 1)%nat with ((k + 1) * 2)%nat by lia.
    rewrite Nat.div_mul by done. lia.
Qed.
Lemma dense_levels fuel level width dense sparse proof0 whole current proof :
  same_frontier dense sparse -> length dense = width ->
  (forall l i, (level <= l)%nat -> proof0 !! (l, i) = whole !! (l, i)) ->
  DenseFrontier.levels_loop fuel level width dense proof0 = Ok (current, proof) ->
  exists current', MapFrontier.levels_loop fuel level width sparse whole = Ok current' /\
    same_frontier current current'.
Proof.
  revert level width dense sparse proof0. induction fuel as [|fuel IH];
    intros level width dense sparse proof0 Hs Hl Hp; cbn [DenseFrontier.levels_loop MapFrontier.levels_loop];
    [done|].
  destruct (1 <? width)%nat; [|intros [= <- <-]; by exists sparse].
  intros ([next p1] & Hlevel & H)%bind_Ok_inv.
  assert (length dense <= padded_width width)%nat as Hle by (unfold padded_width; lia).
  apply (dense_level _ _ _ sparse whole) in Hlevel as (next' & Hn & Hs' & Hl' & Hab); [| |  |done].
  - rewrite Hn. cbn [mbind outcome_bind]. eapply IH; [exact Hs'|exact Hl'| |exact H].
    intros l i Hli. apply Hab. lia.
  - by apply same_frontier_resize.
  - intros i Hi. rewrite <- padded_even. rewrite Hs in Hi.
    destruct (dense !! i) eqn:Hd; [|by destruct Hi]. apply lookup_lt_Some in Hd. lia.
Qed.

(** C25: The multiproof check of the cluster and flow-graph guests, which keeps a
    dense frontier and consumes its proof nodes, refines that of the video
    guest, which keeps ordered maps: with the same sliver, when the first
    returns a root so does the second, and it is the same root.  The first also
    refuses duplicate and unused proof nodes. *)
Theorem dense_refines_map sliver n size r :
  DenseFrontier.verify_primary_multiproof sliver n size = Ok r ->
  MapFrontier.verify_primary_multiproof sliver n size = Ok r /\
  NoDup (proof_key <$> sl_proof_nodes sliver).
Proof.
  unfold DenseFrontier.verify_primary_multiproof, MapFrontier.verify_primary_multiproof.
  intros (cur & Hcur & ([] & Hany%assert_Ok & (proof & Hproof & H)%bind_Ok_inv)%bind_Ok_inv)%bind_Ok_inv.
  apply bind_Ok_inv in H as ([cur' rest] & Hloop & H).
  apply bind_Ok_inv in H as ([] & _ & H). apply bind_Ok_inv in H as (slot & Hslot%expect_Ok & Hr%expect_Ok).
  subst slot. split.
  - apply place_symbols_refine in Hcur as (sparse & -> & Hs & Hl). cbn [mbind outcome_bind].
    apply existsb_exists in Hany as (slot & Hin & [x ->]%bool_decide_eq_true).
    apply list_elem_of_In, list_elem_of_lookup in Hin as [i Hi].
    assert (sparse <> ∅) as Hne.
    { intros ->. specialize (Hs i). rewrite lookup_empty, Hi in Hs. done. }
    rewrite bool_decide_eq_false_2 by done. cbn [negb assert mbind outcome_bind].
    apply proof_refine in Hproof as ->.
    eapply dense_levels in Hloop as (cur'' & -> & Hs''); [|exact Hs|done|done].
    cbn [mbind outcome_bind]. by rewrite Hs'', Hslot.
  - apply (ofold_inv (fun done proof => NoDup (proof_key <$> done) /\
      forall k, is_Some (proof !! k) <-> k ∈ (proof_key <$> done))) in Hproof; [by destruct Hproof|..].
    + split; [constructor|]. intros k. rewrite lookup_empty. cbn.
      split; intros Hk; [by apply is_Some_None in Hk|by apply elem_of_nil in Hk].
    + intros done item todo m m' _ [Hnd Hk] ([] & Hnew%assert_Ok & [= <-])%bind_Ok_inv.
      apply bool_decide_eq_true in Hnew. rewrite fmap_app. cbn. split.
      * apply NoDup_app. split; [done|]. split; [|apply NoDup_singleton].
        intros k Hk1 ->%list_elem_of_singleton. apply Hk in Hk1. rewrite Hnew in Hk1.
        by apply is_Some_None in Hk1.
      * intros k. rewrite elem_of_app, list_elem_of_singleton, <- Hk, lookup_insert_is_Some.
        destruct (decide (proof_key item = k)); intuition congruence.
Qed.

(** ** Soundness of both checks *)

Context {HL : CryptoLaws HC}.

(** C26: A multiproof accepted against the root of a primary sliver, by either of
    the two programs, shows the symbols the sliver was committed with: each
    symbol it opens has the expected size and is the leaf at its index, for
    messages that do not collide. *)
Theorem multiproof_sound leaves sliver size r :
  leaves <> [] -> sliver_typed sliver ->
  collision_free (fun m => m ∈ build_msgs leaves ++ multiproof_msgs sliver (length leaves) size) ->
  MapFrontier.verify_primary_multiproof sliver (length leaves) size = Ok r \/
  DenseFrontier.verify_primary_multiproof sliver (length leaves) size = Ok r ->
  node_bytes r = node_bytes (root (build leaves)) ->
  Forall (fun so => zlen (as_bytes so) = size /\ leaves !! symbol_index so = Some (as_bytes so))
    (sl_symbols sliver).
Proof.
  intros Hne Ht HQ Hv Hr. assert (MapFrontier.verify_primary_multiproof sliver (length leaves) size = Ok r) as Hm.
  { by destruct Hv as [|[? _]%dense_refines_map]. }
  eapply map_multiproof_sound; [exact HQ|done|done|set_solver|set_solver|exact Hm|done].
Qed.
End Refinement.

(** ** A concrete multiproof: symbols 1 and 2 of five *)

Definition example_row : list bytes := [[1; 2]; [3; 4]; [5; 6]; [7; 8]; [9; 10]].
Definition example_sliver : AuthenticatedPrimarySliver := {|
  sl_shard_index := 0; sl_primary_root := node_bytes (root (build example_row));
  sl_secondary_root := replicate 32 0; sl_pair_leaf_path := [];
  sl_symbols := [{| as_leaf_index := 1; as_bytes := [3; 4] |}; {| as_leaf_index := 2; as_bytes := [5; 6] |}];
  sl_proof_nodes := [{| mp_level := 0; mp_index := 0; mp_node := leaf_hash [1; 2] |};
                     {| mp_level := 0; mp_index := 3; mp_node := leaf_hash [7; 8] |};
                     {| mp_level := 2; mp_index := 1;
                        mp_node := inner_hash (inner_hash (leaf_hash [9; 10]) Empty) Empty |}];
|}.
Lemma dense_refines_map_witness :
  MapFrontier.verify_primary_multiproof example_sliver 5 2 = Ok (root (build example_row)).
Proof. apply (dense_refines_map example_sliver 5 2). vm_compute. reflexivity. Defined.

Definition sliver_typedb (sliver : AuthenticatedPrimarySliver) : bool :=
  let node_okb n := match n with Empty => true | Digest d => (length d =? DIGEST_LEN)%nat end in
  (0 <=? sl_shard_index sliver) && (length (sl_primary_root sliver) =? DIGEST_LEN)%nat
  && (length (sl_secondary_root sliver) =? DIGEST_LEN)%nat
  && forallb node_okb (sl_pair_leaf_path sliver)
  && forallb (fun so => 0 <=? as_leaf_index so) (sl_symbols sliver)
  && forallb (fun item => node_okb (mp_node item)) (sl_proof_nodes sliver).
Lemma sliver_typedb_ok sliver : sliver_typedb sliver = true -> sliver_typed sliver.
Proof.
  unfold sliver_typedb. intros H. bool_hyps.
  assert (forall n, match n with Empty => true | Digest d => (length d =? DIGEST_LEN)%nat end = true ->
    node_ok n) as Hn by (intros [|d]; [done|by intros ?%Nat.eqb_eq]).
  repeat match goal with H : (_ =? _)%nat = true |- _ => apply Nat.eqb_eq in H end.
  split_and!; try done; try (eapply forallb_Forall; [|eassumption]; cbv beta).
  - done.
  - intros so. apply Z.leb_le.
  - intros item. apply Hn.
Qed.
Lemma multiproof_sound_witness :
  Forall (fun so => zlen (as_bytes so) = 2 /\ example_row !! symbol_index so = Some (as_bytes so))
    (sl_symbols example_sliver).
Proof.
  apply (multiproof_sound example_row example_sliver 2 (root (build example_row))).
  - done.
  - apply sliver_typedb_ok. vm_compute. reflexivity.
  - apply collision_free_list_ok. vm_compute. reflexivity.
  - right. vm_compute. reflexivity.
  - reflexivity.
Defined.
