(* ===== verification/SymbolReader.v ===== *)
(** The authenticated reader the three sampling guests share
    ([guest/{cluster,flow-graph,video}-sampling/program/src/main.rs]): the check
    of the opening of a Walrus blob, the reads of byte ranges through the opened
    symbols, and the exact set of symbols that a run may open.

    [usize] and [u64] are 64 bits wide, [u32] casts wrap.  The loop of
    [read_origin_range] has as much fuel as a range has symbols; a read is
    proved to return the bytes of the committed blob, and to return at all when
    the symbols of the range are opened. *)
From S2P Require Import Prelude Crypto WalrusMerkle WalrusConfig Rslh Multiproof.

(** [WalrusClusterOpening], [WalrusFlowOpening] and [WalrusVideoOpening] have
    the same fields. *)
Record WalrusOpening := {
  wo_blob_id : bytes;
  wo_encoding_type : Z;
  wo_unencoded_length : Z;
  wo_n_shards : Z;
  wo_metadata_root : bytes;
  wo_primary_slivers : list AuthenticatedPrimarySliver;
}.

(** [BTreeMap<u32, BTreeSet<u32>>] *)
Abbreviation selection := (gmap Z (gset Z)).

Section SymbolReader.
Context `{HC : Crypto}.

(** One round of the loop over the slivers. *)
Definition verify_sliver (multiproof : AuthenticatedPrimarySliver -> nat -> Z -> guest Node)
    (origin : WalrusOpening) (symbol_size : Z) (seen_shards : gset Z)
    (sliver : AuthenticatedPrimarySliver) : guest (gset Z) :=
  assert (negb (bool_decide (sl_shard_index sliver ∈ seen_shards))) "duplicate primary sliver" ;;
  assert (sl_shard_index sliver <? wo_n_shards origin) "assertion failed" ;;
  let pair_leaf := sl_primary_root sliver ++ sl_secondary_root sliver in
  unwrap (verify_proof (sl_pair_leaf_path sliver) (Digest (wo_metadata_root origin))
            (Z.to_nat (wo_n_shards origin)) pair_leaf (Z.to_nat (sl_shard_index sliver)))
    "sliver pair opening mismatch" ;;
  node ← multiproof sliver (Z.to_nat (wo_n_shards origin)) symbol_size;
  assert (bool_decide (node = Digest (sl_primary_root sliver)))
    "primary symbol multiproof mismatch" ;;
  Ok ({[sl_shard_index sliver]} ∪ seen_shards).

Definition verify_opening (multiproof : AuthenticatedPrimarySliver -> nat -> Z -> guest Node)
    (origin : WalrusOpening) : guest unit :=
  encoding ← unwrap (encoding_try_from (wo_encoding_type origin)) "invalid Walrus encoding";
  assert (wo_n_shards origin =? 1000) "unsupported Walrus shard count" ;;
  let blob_id := from_metadata (Digest (wo_metadata_root origin)) encoding (wo_unencoded_length origin) in
  assert (bool_decide (blob_id = wo_blob_id origin)) "Walrus blob ID mismatch" ;;
  let symbol_size := walrus_symbol_size (wo_unencoded_length origin) in
  ofold (verify_sliver multiproof origin symbol_size) ∅ (wo_primary_slivers origin) ;;
  Ok tt.
Definition verify_walrus_opening : WalrusOpening -> guest unit :=
  verify_opening DenseFrontier.verify_primary_multiproof.
Definition verify_walrus_video_opening : WalrusOpening -> guest unit :=
  verify_opening MapFrontier.verify_primary_multiproof.

Definition find_primary_symbol (origin : WalrusOpening) (shard_index leaf_index : Z) : guest bytes :=
  shard ← expect (find (fun sliver => sl_shard_index sliver =? shard_index) (wo_primary_slivers origin))
    "missing authenticated primary sliver";
  symbol ← expect (find (fun symbol => as_leaf_index symbol =? leaf_index) (sl_symbols shard))
    "missing authenticated primary symbol";
  Ok (as_bytes symbol).

(** The [while cursor < end] loop; [checked] is the additional check of the
    video guest. *)
Fixpoint read_loop (checked : bool) (fuel : nat) (origin : WalrusOpening) (symbol_size cursor end_ : Z)
    (output : bytes) : guest bytes :=
  match fuel with
  | O => OutOfFuel
  | S fuel =>
      if cursor <? end_ then
        let flat_symbol := cursor `div` symbol_size in
        let shard_index := flat_symbol `div` COL_HEIGHT_SECONDARY in
        let leaf_index := flat_symbol `mod` COL_HEIGHT_SECONDARY in
        symbol ← find_primary_symbol origin (wrap 32 shard_index) (wrap 32 leaf_index);
        assert (negb checked || (zlen symbol =? symbol_size)) "wrong Walrus symbol size" ;;
        let within := cursor `mod` symbol_size in
        left ← expect (to_u64 (zlen symbol - within)) "attempt to subtract with overflow";
        let take := Z.min left (end_ - cursor) in
        piece ← expect (get_range symbol within take) "range end index out of range";
        read_loop checked fuel origin symbol_size (cursor + take) end_ (output ++ piece)
      else Ok output
  end.
Definition read_range (checked : bool) (origin : WalrusOpening) (offset len : Z) : guest bytes :=
  end_ ← expect (to_u64 (offset + len)) "source range overflow";
  assert (end_ <=? wo_unencoded_length origin) "source range outside blob" ;;
  let symbol_size := walrus_symbol_size (wo_unencoded_length origin) in
  read_loop checked (Z.to_nat (len `div` symbol_size + 3)) origin symbol_size offset end_ [].
Definition read_origin_range : WalrusOpening -> Z -> Z -> guest bytes := read_range false.
Definition read_video_range : WalrusOpening -> Z -> Z -> guest bytes := read_range true.

(** [needed.entry(shard).or_default().insert(leaf)] *)
Definition mark_symbol (needed : selection) (flat_symbol : Z) : selection :=
  let shard := wrap 32 (flat_symbol `div` COL_HEIGHT_SECONDARY) in
  let leaf := wrap 32 (flat_symbol `mod` COL_HEIGHT_SECONDARY) in
  <[shard := {[leaf]} ∪ default ∅ (needed !! shard)]> needed.
Definition mark_range (needed : selection) (offset len symbol_size : Z) : guest selection :=
  assert (0 <? len) "cannot select an empty source range" ;;
  last ← expect (to_u64 (offset + (len - 1))) "source range overflow";
  let first_symbol := offset `div` symbol_size in
  let last_symbol := last `div` symbol_size in
  Ok (foldl mark_symbol needed (seqZ first_symbol (last_symbol - first_symbol + 1))).

Definition check_selection (required : selection) (sliver : AuthenticatedPrimarySliver) : guest unit :=
  expected ← expect (required !! sl_shard_index sliver) "guest did not select supplied sliver";
  let supplied : gset Z := list_to_set (as_leaf_index <$> sl_symbols sliver) in
  assert (bool_decide (supplied = expected)) "unexpected symbol set in selected sliver".
Definition assert_exact_symbol_selection (origin : WalrusOpening) (required : selection) : guest unit :=
  assert (length (wo_primary_slivers origin) =? size required)%nat "unexpected sliver set" ;;
  oforall (check_selection required) (wo_primary_slivers origin).

(** ** What an accepted opening shows *)

Context {HL : CryptoLaws HC}.

Definition opening_typed (o : WalrusOpening) : Prop :=
  0 <= wo_unencoded_length o < 2 ^ 64 /\ length (wo_metadata_root o) = DIGEST_LEN /\
  Forall sliver_typed (wo_primary_slivers o).

(** A blob: its length, the roots of its shards, and the symbols of its primary
    slivers. *)
Record Committed (id : bytes) (len : Z) (roots : list SliverPairRoots) (rows : nat -> list bytes) : Prop := {
  cm_len : 0 <= len < 2 ^ 64;
  cm_id : id = compute_blob_id_from_sliver_pair_roots roots RS2 len;
  cm_roots : length roots = 1000%nat;
  cm_rows : forall i r, roots !! i = Some r ->
    length (rows i) = 1000%nat /\ sp_primary r = node_bytes (root (build (rows i))) /\
    length (sp_secondary r) = DIGEST_LEN;
}.

Definition pair_leaves (roots : list SliverPairRoots) : list bytes :=
  pair_leaf_input <$> (roots_metadata <$> roots).
(** The messages hashed to commit to what an opening opens, and to check it. *)
Definition commitment_msgs (len : Z) (roots : list SliverPairRoots) (rows : nat -> list bytes)
    (o : WalrusOpening) : list bytes :=
  blob_id_msg (root (build (pair_leaves roots))) RS2 len :: build_msgs (pair_leaves roots) ++
  concat ((fun s => build_msgs (rows (Z.to_nat (sl_shard_index s)))) <$> wo_primary_slivers o).
Definition reader_sliver_msgs (size : Z) (s : AuthenticatedPrimarySliver) : list bytes :=
  verify_msgs (sl_pair_leaf_path s) (sl_primary_root s ++ sl_secondary_root s)
    (Z.to_nat (sl_shard_index s)) ++ multiproof_msgs s 1000 size.
Definition reader_msgs (o : WalrusOpening) : list bytes :=
  blob_id_msg (Digest (wo_metadata_root o)) RS2 (wo_unencoded_length o) ::
  concat (reader_sliver_msgs (walrus_symbol_size (wo_unencoded_length o)) <$> wo_primary_slivers o).

(** An opened symbol is the symbol of the blob at its place. *)
Definition sliver_shows (len : Z) (rows : nat -> list bytes) (s : AuthenticatedPrimarySliver) : Prop :=
  0 <= sl_shard_index s < 1000 /\
  Forall (fun so => zlen (as_bytes so) = walrus_symbol_size len /\
      rows (Z.to_nat (sl_shard_index s)) !! symbol_index so = Some (as_bytes so)) (sl_symbols s).

Lemma verify_sliver_Ok mp o size seen s seen' :
  verify_sliver mp o size seen s = Ok seen' ->
  sl_shard_index s ∉ seen /\ seen' = {[sl_shard_index s]} ∪ seen /\
  sl_shard_index s < wo_n_shards o /\
  verify_proof (sl_pair_leaf_path s) (Digest (wo_metadata_root o)) (Z.to_nat (wo_n_shards o))
    (sl_primary_root s ++ sl_secondary_root s) (Z.to_nat (sl_shard_index s)) = Ok tt /\
  mp s (Z.to_nat (wo_n_shards o)) size = Ok (Digest (sl_primary_root s)).
Proof.
  unfold verify_sliver. intros H.
  apply bind_Ok_inv in H as ([] & H1%assert_Ok & H). apply bind_Ok_inv in H as ([] & H2%assert_Ok & H).
  apply bind_Ok_inv in H as ([] & H3%unwrap_Ok & H). apply bind_Ok_inv in H as (node & H4 & H).
  apply bind_Ok_inv in H as ([] & H5%assert_Ok & [= <-]). bool_hyps. subst node. done.
Qed.
(** The distinct shards an accepted opening has. *)
Lemma verify_slivers_Ok mp o size ss seen :
  ofold (verify_sliver mp o size) ∅ ss = Ok seen ->
  NoDup (sl_shard_index <$> ss) /\
  Forall (fun s => exists seen seen', verify_sliver mp o size seen s = Ok seen') ss.
Proof.
  intros H. apply (ofold_inv (fun done seen => NoDup (sl_shard_index <$> done) /\
    (forall i, i ∈ seen <-> i ∈ (sl_shard_index <$> done)) /\
    Forall (fun s => exists seen seen', verify_sliver mp o size seen s = Ok seen') done)) in H.
  - by destruct H as (? & _ & ?).
  - split; [constructor|]. split; [set_solver|constructor].
  - intros done s todo sn sn' _ (Hnd & Hin & Hall) Hs. pose proof Hs as (Hni & -> & _)%verify_sliver_Ok.
    rewrite fmap_app. cbn. split_and!.
    + apply NoDup_app. split; [done|]. split; [|apply NoDup_singleton].
      intros i Hi ->%list_elem_of_singleton. by apply Hni, Hin.
    + intros i. rewrite elem_of_union, elem_of_singleton, elem_of_app, list_elem_of_singleton, Hin. tauto.
    + apply Forall_app. split; [done|]. apply Forall_singleton. eauto.
Qed.

(** Either multiproof check accepts only what the map frontier accepts. *)
Definition multiproof_refined (mp : AuthenticatedPrimarySliver -> nat -> Z -> guest Node) : Prop :=
  forall s n size r, mp s n size = Ok r -> MapFrontier.verify_primary_multiproof s n size = Ok r.

Section Sound.
Context (mp : AuthenticatedPrimarySliver -> nat -> Z -> guest Node) (Hmp : multiproof_refined mp).
Context (o : WalrusOpening) (len : Z) (roots : list SliverPairRoots) (rows : nat -> list bytes).
Context (Ho : opening_typed o) (Hc : Committed (wo_blob_id o) len roots rows).
Context (HQ : collision_free (fun m => m ∈ commitment_msgs len roots rows o ++ reader_msgs o)).

Lemma blob_id_root e : encoding_try_from (wo_encoding_type o) = Ok e ->
  from_metadata (Digest (wo_metadata_root o)) e (wo_unencoded_length o) = wo_blob_id o ->
  wo_unencoded_length o = len /\ wo_metadata_root o = node_bytes (root (build (pair_leaves roots))).
Proof.
  intros He H. assert (e = RS2) as ->.
  { unfold encoding_try_from in He. destruct (_ =? 1); [by injection He as <-|done]. }
  destruct Hc as [Hlen Hid _ _], Ho as [Hol _]. rewrite Hid in H.
  change (blake2b256 (blob_id_msg (Digest (wo_metadata_root o)) RS2 (wo_unencoded_length o))
    = blake2b256 (blob_id_msg (root (build (pair_leaves roots))) RS2 len)) in H.
  destruct HQ as [Hinj _]. apply Hinj in H.
  2: { apply elem_of_app. right. apply list_elem_of_here. }
  2: { apply elem_of_app. left. apply list_elem_of_here. }
  by apply blob_id_msg_inj in H as (_ & Hl & Hr).
Qed.

Lemma pair_leaves_lookup i y : pair_leaves roots !! i = Some y ->
  exists r, roots !! i = Some r /\ y = sp_primary r ++ sp_secondary r.
Proof.
  unfold pair_leaves. rewrite !list_lookup_fmap. destruct (roots !! i) as [r|]; [|done].
  intros [= <-]. by exists r.
Qed.

Lemma sliver_sound s seen seen' :
  wo_n_shards o = 1000 -> s ∈ wo_primary_slivers o ->
  wo_metadata_root o = node_bytes (root (build (pair_leaves roots))) -> wo_unencoded_length o = len ->
  verify_sliver mp o (walrus_symbol_size len) seen s = Ok seen' -> sliver_shows len rows s.
Proof.
  intros Hn Hs Hmr Hlen H. apply verify_sliver_Ok in H as (_ & _ & Hlt & Hv & Hm). rewrite Hn in *.
  destruct Ho as (_ & _ & Hts). rewrite Forall_forall in Hts. pose proof (Hts s Hs) as Hst.
  destruct Hst as (Hi0 & Hpl & Hsl & Hpath & _ & _).
  assert (forall m, m ∈ reader_sliver_msgs (walrus_symbol_size len) s ->
    m ∈ commitment_msgs len roots rows o ++ reader_msgs o) as Hmsgs.
  { intros m Hm'. apply elem_of_app. right. unfold reader_msgs. apply elem_of_cons. right.
    apply list_elem_of_In, in_concat. eexists. split; [|by apply list_elem_of_In].
    apply list_elem_of_In, list_elem_of_fmap. exists s. by rewrite Hlen. }
  assert (forall m, m ∈ build_msgs (pair_leaves roots) ->
    m ∈ commitment_msgs len roots rows o ++ reader_msgs o) as Hpm.
  { intros m Hm'. apply elem_of_app. left. apply elem_of_cons. right. apply elem_of_app. by left. }
  pose proof Hc as [_ _ Hrl Hrows].
  assert (length (pair_leaves roots) = 1000%nat) as Hll by (unfold pair_leaves; by rewrite !length_fmap).
  change (Z.to_nat 1000) with 1000%nat in *. rewrite <- Hll in Hv.
  rewrite <- (length_fmap leaf_hash (pair_leaves roots)) in Hv.
  eapply verify_proof_node in Hv as (y & Hy & Hyb); try exact HQ; try done.
  - rewrite list_lookup_fmap, fmap_Some in Hy. destruct Hy as (d & Hd & ->).
    cbn [node_bytes leaf_hash] in Hyb. apply HQ in Hyb.
    2: { apply Hpm. unfold build_msgs. apply elem_of_app. left. apply list_elem_of_fmap. exists d.
         split; [done|]. by eapply list_elem_of_lookup_2. }
    2: { apply Hmsgs, elem_of_app. left. apply list_elem_of_here. }
    apply app_inv_head in Hyb. subst d. apply pair_leaves_lookup in Hd as (r & Hr & Heq).
    destruct (Hrows _ _ Hr) as (Hrowl & Hpr & Hsr).
    apply app_inj_1 in Heq as [Hp _]; [|by rewrite Hpr, Hpl, root_bytes_length].
    split; [lia|]. rewrite <- Hrowl in Hm. apply Hmp in Hm.
    eapply map_multiproof_sound; [exact HQ| | | | |exact Hm|by rewrite <- Hpr].
    + intros Hrow0. by rewrite Hrow0 in Hrowl.
    + by apply Hts.
    + intros m Hm'. apply elem_of_app. left. unfold commitment_msgs. apply elem_of_cons. right.
      apply elem_of_app. right. apply list_elem_of_In, in_concat. eexists.
      split; [|by apply list_elem_of_In]. apply list_elem_of_In, list_elem_of_fmap. by exists s.
    + rewrite Hrowl. intros m Hm'. apply Hmsgs, elem_of_app. by right.
  - rewrite length_fmap. intros m Hm'. apply Hpm, elem_of_app. by right.
  - intros m Hm'. apply Hmsgs, elem_of_app. by left.
  - intros Hnil. apply (f_equal length) in Hnil. by rewrite length_fmap, Hll in Hnil.
  - apply Forall_fmap, Forall_true. intros d. apply blake2b256_length.
Qed.

(** An accepted opening has the blob's length and shows the blob's symbols, in
    distinct slivers. *)
Lemma verify_opening_sound : verify_opening mp o = Ok tt ->
  wo_unencoded_length o = len /\ NoDup (sl_shard_index <$> wo_primary_slivers o) /\
  Forall (sliver_shows len rows) (wo_primary_slivers o).
Proof.
  unfold verify_opening. intros H.
  apply bind_Ok_inv in H as (e & He%unwrap_Ok & H). apply bind_Ok_inv in H as ([] & Hn%assert_Ok & H).
  apply bind_Ok_inv in H as ([] & Hid%assert_Ok & H). apply bind_Ok_inv in H as (seen & Hs & _). bool_hyps.
  destruct (blob_id_root e He Hid) as [Hl Hr]. split; [done|].
  apply verify_slivers_Ok in Hs as [Hnd Hs]. split; [done|].
  rewrite Forall_forall in Hs |- *. intros s Hin. destruct (Hs s Hin) as (sn & sn' & Hv).
  rewrite Hl in Hv. by eapply sliver_sound.
Qed.
End Sound.

(** ** Reading the committed blob *)

(** Symbol [k] of the systematic layout, the last one completed with zeros, and
    the layout: symbol [k] is leaf [k mod 667] of row [k / 667]. *)
Definition source_symbol (data : bytes) (size k : Z) : bytes :=
  take (Z.to_nat size) (drop (Z.to_nat (k * size)) data ++ zeros size).
Definition systematic (data : bytes) (rows : nat -> list bytes) : Prop :=
  let size := walrus_symbol_size (zlen data) in
  forall k, 0 <= k -> k * size < zlen data ->
    rows (Z.to_nat (k `div` COL_HEIGHT_SECONDARY)) !! Z.to_nat (k `mod` COL_HEIGHT_SECONDARY)
      = Some (source_symbol data size k).

Lemma symbol_size_bounds len : 0 <= len ->
  1 <= walrus_symbol_size len /\ len <= 222778 * walrus_symbol_size len.
Proof.
  intros Hl. unfold walrus_symbol_size. change (ROW_WIDTH_PRIMARY * COL_HEIGHT_SECONDARY) with 222778.
  pose proof (div_ceil_spec (Z.max len 1) 222778 ltac:(lia)) as Hd. set (d := div_ceil _ _) in *.
  assert (0 <= Z.land d 1) by (apply Z.land_nonneg; lia). lia.
Qed.

Lemma source_symbol_length data size k : 0 <= size -> zlen (source_symbol data size k) = size.
Proof.
  intros Hs. unfold source_symbol, zeros. rewrite length_take, length_app, length_replicate. lia.
Qed.
Lemma source_symbol_slice data size k w t :
  0 <= k * size -> 0 <= w -> 0 <= t -> w + t <= size -> k * size + w + t <= zlen data ->
  get_range (source_symbol data size k) w t
    = Some (take (Z.to_nat t) (drop (Z.to_nat (k * size + w)) data)).
Proof.
  intros Hk Hw Ht Hs Hd. apply get_range_Some. rewrite source_symbol_length by lia.
  split_and!; try lia. unfold source_symbol.
  rewrite skipn_firstn_comm, take_take, Nat.min_l by lia.
  rewrite drop_app_le by (rewrite length_drop; lia).
  rewrite take_app_le by (rewrite !length_drop; lia). rewrite drop_drop.
  do 2 f_equal. lia.
Qed.

(** Every byte of a range comes from a symbol with this property. *)
Definition reads_source (o : WalrusOpening) (data : bytes) : Prop :=
  let size := walrus_symbol_size (zlen data) in
  forall k s, 0 <= k -> k * size < zlen data ->
    find_primary_symbol o (wrap 32 (k `div` COL_HEIGHT_SECONDARY))
      (wrap 32 (k `mod` COL_HEIGHT_SECONDARY)) = Ok s -> s = source_symbol data size k.
Definition opened (o : WalrusOpening) (k : Z) : Prop :=
  exists s, find_primary_symbol o (wrap 32 (k `div` COL_HEIGHT_SECONDARY))
    (wrap 32 (k `mod` COL_HEIGHT_SECONDARY)) = Ok s.

Lemma symbol_place k size len : 0 <= k -> 1 <= size -> len <= 222778 * size -> k * size < len ->
  wrap 32 (k `div` COL_HEIGHT_SECONDARY) = k `div` COL_HEIGHT_SECONDARY /\
  wrap 32 (k `mod` COL_HEIGHT_SECONDARY) = k `mod` COL_HEIGHT_SECONDARY /\
  0 <= k `div` COL_HEIGHT_SECONDARY /\ 0 <= k `mod` COL_HEIGHT_SECONDARY.
Proof.
  intros Hk Hs Hl Hks. assert (k < 222778) by nia. unfold COL_HEIGHT_SECONDARY.
  pose proof (Z.mod_pos_bound k 667). pose proof (Z.div_mod k 667).
  assert (0 <= k `div` 667) by (apply Z.div_pos; lia).
  rewrite !wrap_small by lia. lia.
Qed.

Lemma sliver_shows_reads o data rows : systematic data rows ->
  Forall (fun s => Forall (fun so => 0 <= as_leaf_index so) (sl_symbols s)) (wo_primary_slivers o) ->
  Forall (sliver_shows (zlen data) rows) (wo_primary_slivers o) -> reads_source o data.
Proof.
  intros Hsys Htyp Hall k s Hk Hks Hf. destruct (symbol_size_bounds (zlen data) ltac:(lia)) as [Hs1 Hs2].
  destruct (symbol_place k _ _ Hk Hs1 Hs2 Hks) as (Hw1 & Hw2 & Hp1 & Hp2). rewrite Hw1, Hw2 in Hf.
  unfold find_primary_symbol in Hf.
  apply bind_Ok_inv in Hf as (sl & Hsl%expect_Ok & Hf). apply bind_Ok_inv in Hf as (so & Hso%expect_Ok & [= <-]).
  apply find_some in Hsl as [Hin Hi%Z.eqb_eq]. apply find_some in Hso as [Hin' Hl%Z.eqb_eq].
  rewrite Forall_forall in Hall, Htyp. apply list_elem_of_In in Hin, Hin'.
  destruct (Hall sl Hin) as [_ Hsh]. rewrite Forall_forall in Hsh. destruct (Hsh so Hin') as [_ Hrow].
  specialize (Hsys k Hk Hks). unfold symbol_index in Hrow. rewrite Hi, Hl in Hrow. congruence.
Qed.

Section ReadLoop.
Context (checked : bool) (o : WalrusOpening) (data : bytes) (Hr : reads_source o data).
Let size := walrus_symbol_size (zlen data).

Lemma size_pos : 1 <= size.
Proof. destruct (symbol_size_bounds (zlen data)); [lia|done]. Qed.

(** One round of the loop, when its symbol is opened. *)
Lemma read_step fuel cursor end_ out s :
  0 <= cursor < end_ -> end_ <= zlen data -> zlen data < 2 ^ 64 ->
  find_primary_symbol o (wrap 32 (cursor `div` size `div` COL_HEIGHT_SECONDARY))
    (wrap 32 ((cursor `div` size) `mod` COL_HEIGHT_SECONDARY)) = Ok s ->
  let t := Z.min (size - cursor `mod` size) (end_ - cursor) in
  read_loop checked (S fuel) o size cursor end_ out
    = read_loop checked fuel o size (cursor + t) end_
        (out ++ take (Z.to_nat t) (drop (Z.to_nat cursor) data)) /\ 0 < t.
Proof.
  intros Hc He Hd Hf t. pose proof size_pos as Hs. cbn [read_loop].
  rewrite (proj2 (Z.ltb_lt _ _)) by lia. rewrite Hf. cbn [mbind outcome_bind].
  pose proof (Z.mod_pos_bound cursor size ltac:(lia)). pose proof (Z.div_mod cursor size ltac:(lia)).
  assert (0 <= cursor `div` size) by (apply Z.div_pos; lia).
  assert (s = source_symbol data size (cursor `div` size)) as -> by (apply Hr; [done|nia|done]).
  rewrite source_symbol_length, Z.eqb_refl, orb_true_r by lia. cbn [assert mbind outcome_bind].
  assert (size < 2 ^ 64).
  { unfold size, walrus_symbol_size. change (ROW_WIDTH_PRIMARY * COL_HEIGHT_SECONDARY) with 222778.
    pose proof (div_ceil_spec (Z.max (zlen data) 1) 222778 ltac:(lia)). set (d := div_ceil _ _) in *.
    assert (Z.land d 1 = d `mod` 2) as -> by exact (Z.land_ones d 1 ltac:(lia)).
    pose proof (Z.mod_pos_bound d 2). lia. }
  rewrite to_u64_ok by lia. cbn [expect mbind outcome_bind]. fold t. split; [|lia].
  rewrite source_symbol_slice by (nia || lia). cbn [expect mbind outcome_bind].
  do 4 f_equal. lia.
Qed.

(** What the loop returns is the range of the data. *)
Lemma read_loop_Ok fuel cursor end_ out r :
  0 <= cursor <= end_ -> end_ <= zlen data -> zlen data < 2 ^ 64 ->
  read_loop checked fuel o size cursor end_ out = Ok r ->
  r = out ++ take (Z.to_nat (end_ - cursor)) (drop (Z.to_nat cursor) data).
Proof.
  revert cursor out. induction fuel as [|fuel IH]; intros cursor out Hc He Hd H; [done|].
  destruct (Z.ltb_spec cursor end_) as [Hlt|Hge].
  - pose proof H as H'. cbn [read_loop] in H'. rewrite (proj2 (Z.ltb_lt _ _)) in H' by done.
    apply bind_Ok_inv in H' as (s & Hf & _).
    destruct (read_step fuel cursor end_ out s ltac:(lia) He Hd Hf) as [Heq Ht]. rewrite Heq in H.
    set (t := Z.min _ _) in *. apply IH in H; [|lia..]. rewrite H, <- app_assoc. f_equal.
    replace (Z.to_nat (cursor + t)) with (Z.to_nat cursor + Z.to_nat t)%nat by lia. rewrite <- drop_drop.
    rewrite <- (take_drop (Z.to_nat t) (drop (Z.to_nat cursor) data)) at 3.
    rewrite take_app, length_take, length_drop, take_take.
    f_equal; f_equal; lia.
  - cbn [read_loop] in H. rewrite (proj2 (Z.ltb_ge _ _)) in H by done. injection H as <-.
    replace (Z.to_nat (end_ - cursor)) with 0%nat by lia. by rewrite take_0, app_nil_r.
Qed.

(** The loop ends, with fuel for each of the remaining symbols. *)
Lemma read_loop_total fuel cursor end_ out :
  0 <= cursor <= end_ -> end_ <= zlen data -> zlen data < 2 ^ 64 ->
  (forall k, cursor `div` size <= k <= (end_ - 1) `div` size -> opened o k) ->
  (if cursor <? end_ then (end_ - 1) `div` size - cursor `div` size + 1 else 0) < Z.of_nat fuel ->
  exists r, read_loop checked fuel o size cursor end_ out = Ok r.
Proof.
  revert cursor out. induction fuel as [|fuel IH]; intros cursor out Hc He Hd Hop Hfuel.
  { pose proof size_pos. destruct (Z.ltb_spec cursor end_); [|lia].
    assert (cursor `div` size <= (end_ - 1) `div` size) by (apply Z.div_le_mono; lia). lia. }
  pose proof size_pos as Hs. destruct (Z.ltb_spec cursor end_) as [Hlt|Hge].
  - assert (cursor `div` size <= (end_ - 1) `div` size) by (apply Z.div_le_mono; lia).
    destruct (Hop (cursor `div` size) ltac:(lia)) as [s Hf].
    destruct (read_step fuel cursor end_ out s ltac:(lia) He Hd Hf) as [-> Ht].
    set (t := Z.min _ _) in *. pose proof (Z.mod_pos_bound cursor size ltac:(lia)).
    pose proof (Z.div_mod cursor size ltac:(lia)) as Hdm.
    assert (t <= end_ - cursor) by (subst t; lia).
    assert (cursor + t = end_ \/ (cursor + t) `div` size = cursor `div` size + 1) as Hnext.
    { subst t. destruct (Z.min_spec (size - cursor `mod` size) (end_ - cursor)) as [[_ ->]|[_ ->]]; [right|left; lia].
      replace (cursor + (size - cursor `mod` size)) with ((cursor `div` size + 1) * size) by lia.
      apply Z.div_mul. lia. }
    apply IH; try lia.
    + intros k Hk. apply Hop. assert (cursor `div` size <= (cursor + t) `div` size) by (apply Z.div_le_mono; lia). lia.
    + destruct (Z.ltb_spec (cursor + t) end_); lia.
  - exists out. cbn [read_loop]. by rewrite (proj2 (Z.ltb_ge _ _)) by done.
Qed.
End ReadLoop.

(** A range read through an opening of the blob is that range of the blob. *)
Lemma read_range_Ok checked o data off len r :
  reads_source o data -> wo_unencoded_length o = zlen data -> zlen data < 2 ^ 64 -> 0 <= off -> 0 <= len ->
  read_range checked o off len = Ok r -> get_range data off len = Some r.
Proof.
  intros Hr Hl Hd Hoff Hlen H. unfold read_range in H.
  apply bind_Ok_inv in H as (e & [-> He]%expect_Ok%to_u64_Some & H).
  apply bind_Ok_inv in H as ([] & Hle%assert_Ok & H). bool_hyps. rewrite Hl in *.
  apply read_loop_Ok in H; [|done|lia..]. subst r. cbn [app].
  apply get_range_Some. split_and!; [lia..|]. do 2 f_equal. lia.
Qed.
(** It is read as soon as its symbols are opened. *)
Lemma read_range_total checked o data off len :
  reads_source o data -> wo_unencoded_length o = zlen data -> zlen data < 2 ^ 64 ->
  0 <= off -> 0 <= len -> off + len <= zlen data ->
  (forall k, off `div` walrus_symbol_size (zlen data) <= k
     <= (off + len - 1) `div` walrus_symbol_size (zlen data) -> opened o k) ->
  exists r, read_range checked o off len = Ok r /\ get_range data off len = Some r.
Proof.
  intros Hr Hl Hd Hoff Hlen Hle Hop.
  assert (exists r, read_range checked o off len = Ok r) as [r H].
  { unfold read_range. rewrite to_u64_ok by lia. cbn [expect mbind outcome_bind].
    rewrite Hl, (proj2 (Z.leb_le _ _)) by done. cbn [assert mbind outcome_bind].
    apply read_loop_total; try done; [lia|].
    destruct (symbol_size_bounds (zlen data) ltac:(lia)) as [Hs _].
    set (size := walrus_symbol_size (zlen data)) in *.
    assert (0 <= len `div` size) by (apply Z.div_pos; lia).
    destruct (Z.ltb_spec off (off + len)); [|lia].
    assert ((off + len - 1) `div` size <= off `div` size + len `div` size + 1); [|lia].
    apply Z.lt_succ_r, Z.div_lt_upper_bound; [lia|].
    pose proof (Z.div_mod off size). pose proof (Z.mod_pos_bound off size).
    pose proof (Z.div_mod len size). pose proof (Z.mod_pos_bound len size). nia. }
  exists r. split; [done|]. by eapply read_range_Ok in H.
Qed.

(** ** The exact selection *)

Definition selected (required : selection) (shard leaf : Z) : Prop :=
  exists s, required !! shard = Some s /\ leaf ∈ s.
Definition place_of (k : Z) : Z * Z :=
  (wrap 32 (k `div` COL_HEIGHT_SECONDARY), wrap 32 (k `mod` COL_HEIGHT_SECONDARY)).

Lemma mark_symbol_selected needed k shard leaf :
  selected (mark_symbol needed k) shard leaf <->
  selected needed shard leaf \/ (shard, leaf) = place_of k.
Proof.
  unfold selected, mark_symbol, place_of. set (i := wrap 32 (k `div` _)). set (j := wrap 32 (k `mod` _)).
  destruct (decide (i = shard)) as [<-|Hne].
  - rewrite lookup_insert_eq. split.
    + intros (s & [= <-] & [->%elem_of_singleton|Hin]%elem_of_union); [by right|].
      left. destruct (needed !! i) as [s|]; [by exists s|by apply elem_of_empty in Hin].
    + intros [(s & Hs & Hin)|[= ->]]; (eexists; split; [done|]); apply elem_of_union.
      * right. by rewrite Hs.
      * left. by apply elem_of_singleton.
  - rewrite lookup_insert_ne by done. split; [by left|]. intros [|[= -> _]]; done.
Qed.
Lemma mark_symbols_selected ks needed shard leaf :
  selected (foldl mark_symbol needed ks) shard leaf <->
  selected needed shard leaf \/ exists k, k ∈ ks /\ (shard, leaf) = place_of k.
Proof.
  revert needed. induction ks as [|k ks IH]; intros needed; cbn [foldl].
  - split; [by left|]. intros [|(k & Hk & _)]; [done|by apply elem_of_nil in Hk].
  - rewrite IH, mark_symbol_selected. setoid_rewrite elem_of_cons. naive_solver.
Qed.
Lemma mark_range_Ok needed off len size r : 0 <= off -> 0 < size ->
  mark_range needed off len size = Ok r ->
  0 < len /\ off + len - 1 < 2 ^ 64 /\ forall shard leaf, selected r shard leaf <->
    selected needed shard leaf \/
    exists k, off `div` size <= k <= (off + len - 1) `div` size /\ (shard, leaf) = place_of k.
Proof.
  intros Hoff Hsize H. unfold mark_range in H. apply bind_Ok_inv in H as ([] & Hl%assert_Ok & H).
  apply bind_Ok_inv in H as (last & [-> Hlast]%expect_Ok%to_u64_Some & [= <-]). bool_hyps.
  split; [done|]. split; [lia|]. intros shard leaf. rewrite mark_symbols_selected.
  setoid_rewrite elem_of_seqZ. replace (off + (len - 1)) with (off + len - 1) by lia.
  split; (intros [|(k & Hk & Hp)]; [by left|]); right; exists k; (split; [lia|done]).
Qed.

Lemma exact_selection_Ok o required :
  NoDup (sl_shard_index <$> wo_primary_slivers o) ->
  assert_exact_symbol_selection o required = Ok tt ->
  (forall s, s ∈ wo_primary_slivers o ->
     required !! sl_shard_index s = Some (list_to_set (as_leaf_index <$> sl_symbols s))) /\
  dom required = list_to_set (sl_shard_index <$> wo_primary_slivers o).
Proof.
  intros Hnd H. apply bind_Ok_inv in H as ([] & Hlen%assert_Ok & H%oforall_Ok). apply Nat.eqb_eq in Hlen.
  assert (forall s, s ∈ wo_primary_slivers o ->
    required !! sl_shard_index s = Some (list_to_set (as_leaf_index <$> sl_symbols s))) as Hs.
  { intros s Hin. rewrite Forall_forall in H. specialize (H s Hin).
    apply bind_Ok_inv in H as (e & He%expect_Ok & Heq%assert_Ok). bool_hyps. by subst e. }
  split; [done|]. symmetry. apply set_subseteq_size_eq.
  - intros i. rewrite elem_of_list_to_set, elem_of_dom. intros (s & -> & Hin)%list_elem_of_fmap.
    rewrite (Hs s Hin). eauto.
  - rewrite size_dom, size_list_to_set, length_fmap by done. lia.
Qed.
(** Symbol [leaf] of the sliver of [shard] is opened. *)
Definition opened_at (o : WalrusOpening) (shard leaf : Z) : Prop :=
  exists s so, s ∈ wo_primary_slivers o /\ so ∈ sl_symbols s /\
    sl_shard_index s = shard /\ as_leaf_index so = leaf.
Definition opened_atb (o : WalrusOpening) (shard leaf : Z) : bool :=
  existsb (fun s => (sl_shard_index s =? shard) && existsb (fun so => as_leaf_index so =? leaf) (sl_symbols s))
    (wo_primary_slivers o).
Lemma opened_atb_ok o shard leaf : opened_atb o shard leaf = true <-> opened_at o shard leaf.
Proof.
  unfold opened_atb, opened_at. rewrite existsb_exists. setoid_rewrite andb_true_iff.
  setoid_rewrite existsb_exists. setoid_rewrite Z.eqb_eq. setoid_rewrite <- list_elem_of_In. naive_solver.
Qed.
(** Under an exact selection, the opened places are the selected ones: nothing
    is missing and nothing more is opened. *)
Lemma exact_selection_opened o required :
  NoDup (sl_shard_index <$> wo_primary_slivers o) ->
  assert_exact_symbol_selection o required = Ok tt ->
  forall shard leaf, selected required shard leaf <-> opened_at o shard leaf.
Proof.
  intros Hnd H. destruct (exact_selection_Ok o required Hnd H) as [Hs Hdom].
  intros shard leaf. split.
  - intros (set & Hset & Hleaf). assert (shard ∈ dom required) as Hd by (apply elem_of_dom; eauto).
    rewrite Hdom in Hd. apply elem_of_list_to_set, list_elem_of_fmap in Hd as (s & -> & Hin).
    rewrite (Hs s Hin) in Hset. injection Hset as <-.
    apply elem_of_list_to_set, list_elem_of_fmap in Hleaf as (so & -> & Hso). exists s, so. by split_and!.
  - intros (s & so & Hin & Hso & <- & <-). eexists. split; [by apply Hs|].
    apply elem_of_list_to_set, list_elem_of_fmap. eauto.
Qed.
Lemma map_refined : multiproof_refined MapFrontier.verify_primary_multiproof.
Proof. by intros s n size r. Qed.
Lemma dense_refined : multiproof_refined DenseFrontier.verify_primary_multiproof.
Proof. by intros s n size r [H _]%dense_refines_map. Qed.

(** The ranges [(offset, length)] that a program marks one after the other, and
    the symbols of [size] bytes that a range overlaps. *)
Definition mark_one (size : Z) (needed : selection) (range : Z * Z) : guest selection :=
  mark_range needed range.1 range.2 size.
Definition overlaps (size k : Z) (range : Z * Z) : Prop :=
  range.1 `div` size <= k <= (range.1 + range.2 - 1) `div` size.

Lemma mark_one_cons size needed off len ranges : ofold (mark_one size) needed ((off, len) :: ranges)
  = (needed ← mark_range needed off len size; ofold (mark_one size) needed ranges).
Proof. done. Qed.
Lemma mark_ranges_Ok size ranges needed r : 0 < size -> Forall (fun range => 0 <= range.1) ranges ->
  ofold (mark_one size) needed ranges = Ok r ->
  forall shard leaf, selected r shard leaf <->
    selected needed shard leaf \/
    exists k range, range ∈ ranges /\ overlaps size k range /\ (shard, leaf) = place_of k.
Proof.
  intros Hs Hr. revert needed. induction Hr as [|range ranges Ho Hr IH]; intros needed; cbn [ofold].
  - intros [= <-] shard leaf. setoid_rewrite elem_of_nil. naive_solver.
  - intros (needed' & H1 & H2)%bind_Ok_inv shard leaf. rewrite (IH _ H2).
    apply mark_range_Ok in H1 as (_ & _ & H1); [|done..]. rewrite H1. setoid_rewrite elem_of_cons.
    unfold overlaps. naive_solver.
Qed.
(** A place inside the blob is that of a flat symbol: no index wraps. *)
Lemma place_of_small k : 0 <= k < 222778 -> place_of k = (k `div` COL_HEIGHT_SECONDARY, k `mod` COL_HEIGHT_SECONDARY).
Proof.
  intros Hk. unfold place_of, COL_HEIGHT_SECONDARY. pose proof (Z.mod_pos_bound k 667).
  assert (0 <= k `div` 667) by (apply Z.div_pos; lia).
  assert (k `div` 667 < 334) by (apply Z.div_lt_upper_bound; lia).
  by rewrite !wrap_small by lia.
Qed.
Lemma exact_openings o size ranges required :
  0 < size -> wo_unencoded_length o <= 222778 * size ->
  Forall (fun range => 0 <= range.1 /\ 0 < range.2 /\ range.1 + range.2 <= wo_unencoded_length o) ranges ->
  NoDup (sl_shard_index <$> wo_primary_slivers o) ->
  ofold (mark_one size) ∅ ranges = Ok required -> assert_exact_symbol_selection o required = Ok tt ->
  forall shard leaf, opened_at o shard leaf <->
    exists k range, range ∈ ranges /\ overlaps size k range /\
      shard = k `div` COL_HEIGHT_SECONDARY /\ leaf = k `mod` COL_HEIGHT_SECONDARY.
Proof.
  intros Hs Hcap Hr Hnd Hm Hex shard leaf.
  rewrite <- (exact_selection_opened o required Hnd Hex shard leaf).
  rewrite (mark_ranges_Ok size ranges ∅ required Hs) by (try done; apply (Forall_impl _ _ _ Hr); naive_solver).
  assert (~ selected ∅ shard leaf) as Hno by (intros (x & Hx & _); by rewrite lookup_empty in Hx).
  assert (forall k range, range ∈ ranges -> overlaps size k range -> 0 <= k < 222778) as Hk.
  { intros k [off len] Hin [Hk1 Hk2]. rewrite Forall_forall in Hr. destruct (Hr _ Hin) as (H1 & H2 & H3).
    cbn [fst snd] in *. assert (0 <= off `div` size) by (apply Z.div_pos; lia).
    assert ((off + len - 1) `div` size < 222778) by (apply Z.div_lt_upper_bound; lia). lia. }
  split.
  - intros [|(k & range & Hin & Ho & Hp)]; [done|]. rewrite place_of_small in Hp by eauto.
    injection Hp as -> ->. eauto 10.
  - intros (k & range & Hin & Ho & -> & ->). right. exists k, range. rewrite place_of_small by eauto. done.
Qed.

(** What both reader programs rely on, from the check of the opening. *)
Lemma opening_reads_source o data roots rows :
  opening_typed o -> Committed (wo_blob_id o) (zlen data) roots rows -> systematic data rows ->
  collision_free (fun m => m ∈ commitment_msgs (zlen data) roots rows o ++ reader_msgs o) ->
  verify_walrus_opening o = Ok tt \/ verify_walrus_video_opening o = Ok tt ->
  wo_unencoded_length o = zlen data /\ NoDup (sl_shard_index <$> wo_primary_slivers o) /\
  reads_source o data.
Proof.
  intros Ho Hc Hsys HQ Hv.
  assert (exists mp, multiproof_refined mp /\ verify_opening mp o = Ok tt) as (mp & Hmp & Hv').
  { destruct Hv as [Hv|Hv]; [exists DenseFrontier.verify_primary_multiproof|
      exists MapFrontier.verify_primary_multiproof]; (split; [|done]); [apply dense_refined|apply map_refined]. }
  destruct (verify_opening_sound mp Hmp o (zlen data) roots rows Ho Hc HQ Hv') as (Hl & Hnd & Hs).
  split; [done|]. split; [done|]. apply (sliver_shows_reads o data rows); [done| |done].
  destruct Ho as (_ & _ & Ht). eapply Forall_impl; [exact Ht|]. by intros s (_ & _ & _ & _ & ? & _).
Qed.

(** C9: Authenticated reads return the blob: when a guest accepts an opening of the
    identifier of a blob whose primary slivers hold [data] in the systematic
    layout, the opening has the blob's length, every range that it reads is
    that range of [data], and every range whose symbols are opened is read
    (the loop ends and does not panic), unless BLAKE2b collides on the messages
    hashed for the commitment and for the check. *)
Theorem authenticated_read o data roots rows off len :
  opening_typed o -> Committed (wo_blob_id o) (zlen data) roots rows -> systematic data rows ->
  collision_free (fun m => m ∈ commitment_msgs (zlen data) roots rows o ++ reader_msgs o) ->
  verify_walrus_opening o = Ok tt \/ verify_walrus_video_opening o = Ok tt ->
  0 <= off -> 0 <= len ->
  wo_unencoded_length o = zlen data /\
  (forall r, read_origin_range o off len = Ok r \/ read_video_range o off len = Ok r ->
     get_range data off len = Some r) /\
  (off + len <= zlen data ->
   (forall k, off `div` walrus_symbol_size (zlen data) <= k
      <= (off + len - 1) `div` walrus_symbol_size (zlen data) -> opened o k) ->
   exists r, read_origin_range o off len = Ok r /\ read_video_range o off len = Ok r /\
     get_range data off len = Some r).
Proof.
  intros Ho Hc Hsys HQ Hv Hoff Hlen.
  destruct (opening_reads_source o data roots rows Ho Hc Hsys HQ Hv) as (Hl & _ & Hr).
  destruct Hc as [Hd _ _ _]. split; [done|]. split.
  - intros r [H|H]; (eapply read_range_Ok; [exact Hr|done|lia|done|done|exact H]).
  - intros Hle Hop. destruct (read_range_total false o data off len) as (r & H1 & H2); try done; [lia|].
    destruct (read_range_total true o data off len) as (r' & H3 & H4); try done; try lia.
    exists r. assert (r = r') as -> by congruence. done.
Qed.
End SymbolReader.
