(* ===== verification/HostOpening.v ===== *)
(** The host's side of an opening: [build_opening_from_slivers] of
    [guest/cluster-sampling/script/src/main.rs], which opens selected symbols of
    primary slivers with one multiproof per sliver.

    The expansion of a sliver to its 1000 recovery symbols is the Reed-Solomon
    codec of another crate: it is the parameter [recovery_symbols]. *)
From S2P Require Import Prelude Crypto WalrusMerkle WalrusConfig Rslh Multiproof SymbolReader.
From stdpp Require Import sorting.
#[local] Open Scope Z_scope.

Section HostOpening.
Context `{HC : Crypto}.

(** The proof nodes collected so far, by level and index. *)
Abbreviation node_map := (gmap (Z * Z) Node).

(** The loop over the path of a leaf: [or_insert] of the sibling of each level. *)
Fixpoint add_path (level level_index : Z) (path : list Node) (proof_nodes : node_map) : node_map :=
  match path with
  | [] => proof_nodes
  | node :: path =>
      let sibling := if level_index `mod` 2 =? 0 then level_index + 1 else level_index - 1 in
      let key := (wrap 8 level, wrap 32 sibling) in
      let proof_nodes :=
        match proof_nodes !! key with Some _ => proof_nodes | None => <[key := node]> proof_nodes end in
      add_path (level + 1) (level_index `div` 2) path proof_nodes
  end.

(** One leaf of the loop over the selected leaves. *)
Definition open_leaf (tree : MerkleTree) (expanded : list bytes)
    (st : list AuthenticatedPrimarySymbol * node_map) (leaf_index : Z)
    : guest (list AuthenticatedPrimarySymbol * node_map) :=
  let '(symbols, proof_nodes) := st in
  path ← unwrap (get_proof tree (Z.to_nat leaf_index)) "called `Result::unwrap()` on an `Err` value";
  let proof_nodes := add_path 0 leaf_index path proof_nodes in
  symbol ← expect (get_at expanded leaf_index) "index out of bounds";
  Ok (symbols ++ [{| as_leaf_index := leaf_index; as_bytes := symbol |}], proof_nodes).

(** The [while width > 1] loop that removes the nodes the guest computes. *)
Fixpoint prune_active (fuel width : nat) (level : Z) (active : gset Z) (proof_nodes : node_map) : node_map :=
  match fuel with
  | O => proof_nodes
  | S fuel =>
      if (1 <? width)%nat then
        let proof_nodes := foldl (fun m i => delete (level, i) m) proof_nodes (elements active) in
        prune_active fuel (padded_width width / 2) (wrap 8 (level + 1))
          (set_map (fun i => i `div` 2) active) proof_nodes
      else proof_nodes
  end.

(** The order of the keys of the ordered map. *)
Definition key_le (x y : (Z * Z) * Node) : Prop :=
  x.1.1 < y.1.1 \/ (x.1.1 = y.1.1 /\ x.1.2 <= y.1.2).
#[export] Instance key_le_dec x y : Decision (key_le x y).
Proof. unfold key_le. apply _. Defined.
Definition to_proof_nodes (proof_nodes : node_map) : list MultiproofNode :=
  (fun kv => {| mp_level := kv.1.1; mp_index := kv.1.2; mp_node := kv.2 |})
    <$> merge_sort key_le (map_to_list proof_nodes).

(** [roots.iter().map(|pair| ..)]: the leaves of the tree of the pairs. *)
Definition root_pair_leaf (pair : SliverPairRoots) : bytes := sp_primary pair ++ sp_secondary pair.

Definition build_sliver (recovery_symbols : Z -> list bytes) (roots : list SliverPairRoots)
    (pair_tree : MerkleTree) (n_shards : nat) (shard_leaves : Z * gset Z)
    : guest AuthenticatedPrimarySliver :=
  let '(shard_index, leaves) := shard_leaves in
  let expanded := recovery_symbols shard_index in
  let tree := build expanded in
  pair ← expect (get_at roots shard_index) "index out of bounds";
  assert (bool_decide (root tree = Digest (sp_primary pair))) "assertion failed" ;;
  '(symbols, proof_nodes) ← ofold (open_leaf tree expanded) ([], ∅) (merge_sort Z.le (elements leaves));
  let proof_nodes := prune_active n_shards n_shards 0 leaves proof_nodes in
  path ← unwrap (get_proof pair_tree (Z.to_nat shard_index))
    "called `Result::unwrap()` on an `Err` value";
  Ok {| sl_shard_index := shard_index; sl_primary_root := sp_primary pair;
        sl_secondary_root := sp_secondary pair; sl_pair_leaf_path := path;
        sl_symbols := symbols; sl_proof_nodes := to_proof_nodes proof_nodes |}.

(** The order of the shards of the selection. *)
Definition shard_le (x y : Z * gset Z) : Prop := x.1 <= y.1.
#[export] Instance shard_le_dec x y : Decision (shard_le x y).
Proof. unfold shard_le. apply _. Defined.

Definition build_opening_from_slivers (recovery_symbols : Z -> list bytes) (metadata : BlobMetadataWithId)
    (needed : selection) : guest WalrusOpening :=
  let md := WalrusConfig.metadata metadata in
  let roots := (fun pair => {| sp_primary := node_bytes (primary_hash pair);
                               sp_secondary := node_bytes (secondary_hash pair) |}) <$> hashes md in
  let pair_tree := build (root_pair_leaf <$> roots) in
  primary_slivers ← omapM (build_sliver recovery_symbols roots pair_tree (length roots))
    (merge_sort shard_le (map_to_list needed));
  Ok {| wo_blob_id := blob_id metadata; wo_encoding_type := encoding_to_u8 (encoding_type md);
        wo_unencoded_length := unencoded_length md; wo_n_shards := wrap 32 (zlen roots);
        wo_metadata_root := node_bytes (root pair_tree); wo_primary_slivers := primary_slivers |}.
End HostOpening.

(** ** A small blob of 1000 shards

    Nine bytes in symbols of two bytes: the first five symbols of sliver 0; every
    other symbol is zero. *)

(** A hash that is cheap to evaluate on trees of a thousand leaves: it mixes the
    first eight bytes of both halves of an inner message, lane by lane. *)
Definition cheap_hash (m : bytes) : bytes :=
  (fold_left (fun '(acc, l) '(a, b) =>
     let c := Z.land (acc * 5 + a * 3 + b * 7 + 29) 255 in (c, c :: l))
     (zip (take 8 (drop 1 m ++ replicate 8 0)) (rev (take 8 (drop 33 m ++ replicate 8 0))))
     (hd 0 m, [])).2
  ++ replicate 24 7.
(** Its BLAKE3 answers the last eight bytes of the message, the counter of the
    samplers. *)
Definition tail_hash (m : bytes) : bytes :=
  ((fun b => Z.land b 255) <$> take 8 (drop (length m - 8) m ++ replicate 8 0)) ++ replicate 24 7.
Lemma cheap_hash_ok m : length (cheap_hash m) = 32%nat /\ is_bytes (cheap_hash m).
Proof.
  unfold cheap_hash. set (f := fun '(acc, l) '(a, b) => _).
  assert (forall zs acc l, is_bytes l -> length (fold_left f zs (acc, l)).2 = (length zs + length l)%nat /\
    is_bytes (fold_left f zs (acc, l)).2) as Hf.
  { induction zs as [|[a b] zs IH]; intros acc l Hl; [done|]. cbn [fold_left f].
    destruct (IH (Z.land (acc * 5 + a * 3 + b * 7 + 29) 255) (Z.land (acc * 5 + a * 3 + b * 7 + 29) 255 :: l))
      as [Hn Hb]; [constructor; [apply land_255_byte|done]|].
    rewrite Hn. cbn. split; [lia|done]. }
  edestruct Hf as [Hn Hb]; [constructor|]. split.
  - rewrite length_app, Hn, length_replicate, length_zip_with, length_rev, !length_take, !length_app, length_replicate.
    cbn [length]. lia.
  - apply Forall_app. split; [exact Hb|by repeat constructor].
Qed.
Lemma tail_hash_ok m : length (tail_hash m) = 32%nat /\ is_bytes (tail_hash m).
Proof.
  unfold tail_hash. split.
  - rewrite length_app, length_fmap, length_take, length_app, !length_replicate. lia.
  - apply Forall_app. split; [|by repeat constructor].
    apply Forall_fmap, Forall_true. intros b. apply land_255_byte.
Qed.
Definition cheap_crypto : Crypto := {|
  sha256 := cheap_hash; blake3 := tail_hash; blake2b256 := cheap_hash;
  keystream := fun _ _ _ => 0 |}.
#[export] Instance cheap_crypto_laws : CryptoLaws cheap_crypto.
Proof.
  split; intros; first [apply cheap_hash_ok|apply tail_hash_ok|done].
Qed.

Section SmallBlob.
Local Existing Instance cheap_crypto.
Context (data : bytes).
Let size := walrus_symbol_size (zlen data).
Definition small_row : list bytes :=
  (fun k => if (k <? 667)%nat then source_symbol data size (Z.of_nat k) else zeros size) <$> seq 0 1000.
Definition zero_row : list bytes := replicate 1000 (zeros size).
Definition small_rows (i : nat) : list bytes := if decide (i = 0%nat) then small_row else zero_row.
Definition row_roots (row : list bytes) : SliverPairRoots :=
  {| sp_primary := node_bytes (root (build row)); sp_secondary := replicate 32 0 |}.
Definition small_roots : list SliverPairRoots := row_roots small_row :: replicate 999 (row_roots zero_row).
Definition small_metadata : BlobMetadataWithId :=
  new_verified_from_metadata (roots_metadata <$> small_roots) RS2 (zlen data).
Definition small_opening (needed : selection) : WalrusOpening :=
  match build_opening_from_slivers (fun i => small_rows (Z.to_nat i)) small_metadata needed with
  | Ok o => o
  | _ => {| wo_blob_id := []; wo_encoding_type := 0; wo_unencoded_length := 0; wo_n_shards := 0;
            wo_metadata_root := []; wo_primary_slivers := [] |}
  end.
End SmallBlob.
Definition nine_bytes : bytes := [10; 20; 30; 40; 50; 60; 70; 80; 90].
Definition nine_selection : selection :=
  match mark_range ∅ 3 5 (walrus_symbol_size 9) with Ok n => n | _ => ∅ end.
Local Existing Instance cheap_crypto.
Definition nine_opening : WalrusOpening :=
  Eval vm_compute in small_opening nine_bytes nine_selection.

Lemma small_committed data id : zlen data < 2 ^ 64 ->
  bool_decide (id = compute_blob_id_from_sliver_pair_roots (small_roots data) RS2 (zlen data)) = true ->
  Committed id (zlen data) (small_roots data) (small_rows data).
Proof.
  intros Hd Hid%bool_decide_eq_true. split; [lia|done| |].
  - unfold small_roots. cbn [length]. by rewrite length_replicate.
  - intros i r Hr. unfold small_rows. unfold small_roots in Hr.
    apply lookup_cons_Some in Hr as [[-> <-]|[Hi Hr]].
    + rewrite decide_True by reflexivity. split; [|split; reflexivity].
      unfold small_row. by rewrite length_fmap, length_seq.
    + apply lookup_replicate in Hr as [-> _]. rewrite decide_False by lia.
      split; [apply length_replicate|split; reflexivity].
Qed.
Lemma small_systematic data : zlen data <= 667 * walrus_symbol_size (zlen data) ->
  systematic data (small_rows data).
Proof.
  intros Hd k Hk Hks. destruct (symbol_size_bounds (zlen data) ltac:(lia)) as [Hs _].
  set (size := walrus_symbol_size (zlen data)) in *. assert (k < 667) by nia. unfold COL_HEIGHT_SECONDARY.
  rewrite Z.div_small, Z.mod_small by lia. unfold small_rows. rewrite decide_True by done.
  unfold small_row. rewrite list_lookup_fmap, (lookup_seq_lt 0 1000) by lia. cbn [fmap option_fmap option_map].
  rewrite (proj2 (Nat.ltb_lt _ _)) by lia. do 2 f_equal. lia.
Qed.
Definition opening_typedb (o : WalrusOpening) : bool :=
  (0 <=? wo_unencoded_length o) && (wo_unencoded_length o <? 2 ^ 64)
  && (length (wo_metadata_root o) =? DIGEST_LEN)%nat && forallb sliver_typedb (wo_primary_slivers o).
Lemma reader_typedb_ok o : opening_typedb o = true -> opening_typed o.
Proof.
  unfold opening_typedb. intros H. bool_hyps.
  match goal with H : (_ =? _)%nat = true |- _ => apply Nat.eqb_eq in H end.
  split; [done|]. split; [done|].
  eapply forallb_Forall; [|eassumption]. apply sliver_typedb_ok.
Qed.
(** Everything the theorems on readers ask of the small blob. *)
Lemma nine_committed :
  opening_typed nine_opening /\
  Committed (wo_blob_id nine_opening) (zlen nine_bytes) (small_roots nine_bytes) (small_rows nine_bytes) /\
  systematic nine_bytes (small_rows nine_bytes) /\
  collision_free (fun m => m ∈ commitment_msgs (zlen nine_bytes) (small_roots nine_bytes)
    (small_rows nine_bytes) nine_opening ++ reader_msgs nine_opening) /\
  verify_walrus_opening nine_opening = Ok tt.
Proof.
  split; [apply reader_typedb_ok; vm_compute; reflexivity|].
  split; [apply small_committed; [done|vm_compute; reflexivity]|].
  split; [apply small_systematic; done|].
  split; [apply collision_free_list_ok; vm_compute; reflexivity|vm_compute; reflexivity].
Qed.

Lemma authenticated_read_witness :
  read_origin_range nine_opening 3 5 = Ok [40; 50; 60; 70; 80] /\
  get_range nine_bytes 3 5 = Some [40; 50; 60; 70; 80].
Proof.
  assert (read_origin_range nine_opening 3 5 = Ok [40; 50; 60; 70; 80]) as Hread by (vm_compute; reflexivity).
  split; [exact Hread|]. destruct nine_committed as (H1 & H2 & H3 & H4 & H5).
  apply (authenticated_read nine_opening nine_bytes _ _ 3 5 H1 H2 H3 H4 (or_introl H5)); [lia|lia|].
  left. exact Hread.
Defined.
