(* ===== verification/EncodedBlob.v ===== *)
(** What the blob identifier of an encoded blob commits to.

    The three encoders of [BlobEncoding.v] agree; the identifier that
    [compute_blob_id] derives from the matrix pins the blob; and an identifier
    over 1000 shards is one that the readers of the sampling guests can rely on
    ([Committed] and [systematic] of [SymbolReader.v]). *)
From S2P Require Import Prelude Crypto WalrusMerkle WalrusConfig Rslh WalrusOpen ReedSolomon BlobEncoding BlobMatrix.
From S2P Require Import Multiproof SymbolReader HostOpening.

Section EncodedBlob.
Context `{HC : Crypto} {HL : CryptoLaws HC} `{R : ReedSolomon} {RL : ReedSolomonLaws R}.

(** The codec supports the two codes of a committee, for every symbol size. *)
Definition codec_supports (n : Z) : Prop := forall s, 2 <= s < 65536 -> s `mod` 2 = 0 ->
  rs_new (n - 2 * max_n_faulty n) (2 * max_n_faulty n) s = Ok tt /\
  rs_new (n - max_n_faulty n) (max_n_faulty n) s = Ok tt.
Definition rows_of (n : Z) : nat := Z.to_nat (n - 2 * max_n_faulty n).
Definition columns_of (n : Z) : nat := Z.to_nat (n - max_n_faulty n).
Definition encoder_of (n : Z) (s : nat) (data : bytes) : BlobEncoder :=
  encoder (rows_of n) (columns_of n) (Z.to_nat n) s data.
Definition metadata_of (n : Z) (s : nat) (data : bytes) : BlobMetadataWithId :=
  committed_metadata (rows_of n) (columns_of n) (Z.to_nat n) s data.

Lemma compute_symbol_size_Ok len m s : 0 <= len < 2 ^ 63 -> 1 <= m < 2 ^ 32 ->
  compute_symbol_size len m 2 = Ok s -> 2 <= s < 65536 /\ s `mod` 2 = 0 /\ len <= m * s.
Proof.
  intros Hl Hm H. rewrite (compute_symbol_size_eq len m 2 Hl Hm ltac:(lia)) in H.
  destruct (raw_symbol_size len m 2 Hl Hm ltac:(lia)) as (H1 & H2 & H3 & _).
  set (raw := next_multiple_of _ 2) in *. destruct (Z.ltb_spec raw 65536); [|done]. injection H as <-.
  pose proof (Z.div_mod raw 2). lia.
Qed.
Lemma encoder_supported {E} n data c e :
  1 <= n < 65536 -> zlen data < 2 ^ 63 -> codec_supports n ->
  @config_new E n = Ok c -> blob_encoder_new c data = Ok e ->
  let s := Z.to_nat (be_symbol_size e) in
  e = encoder_of n s data /\ Supported (rows_of n) (columns_of n) (Z.to_nat n) s data /\
  compute_symbol_size (zlen data) (Z.of_nat (rows_of n) * Z.of_nat (columns_of n)) 2 = Ok (Z.of_nat s).
Proof.
  intros Hn Hd Hsup Hc He. rewrite (config_new_eq n Hn) in Hc. injection Hc as <-.
  pose proof (source_symbols_range n Hn) as Hr. cbn in Hr. unfold min_n_correct in Hr.
  destruct Hr as (H1 & H2 & _ & _).
  unfold blob_encoder_new in He. cbn [source_symbols_primary source_symbols_secondary] in He.
  change (required_alignment RS2) with 2 in He. apply bind_Ok_inv in He as (s & Hs & [= <-]).
  set (p := n - 2 * max_n_faulty n) in *. set (q := n - max_n_faulty n) in *.
  assert (1 <= p * q < 2 ^ 32) as Hpq by nia.
  destruct (compute_symbol_size_Ok (zlen data) (p * q) s ltac:(lia) Hpq Hs) as (Hs1 & Hs2 & Hs3).
  destruct (Hsup s Hs1 Hs2) as [Hp Hq]. fold p q in Hp, Hq.
  cbn [be_symbol_size]. unfold encoder_of, encoder, config, rows_of, columns_of. fold p q.
  rewrite !Z2Nat.id by lia. split; [done|]. split; [|done].
  split; rewrite ?Z2Nat.id; try lia; try done.
  - replace (n - p) with (2 * max_n_faulty n) by (unfold p; lia). exact Hp.
  - replace (n - q) with (max_n_faulty n) by (unfold q; lia). exact Hq.
Qed.

Lemma compute_blob_id_inv n data id :
  1 <= n < 65536 -> zlen data < 2 ^ 63 -> codec_supports n -> compute_blob_id data n = Ok id ->
  exists s, Supported (rows_of n) (columns_of n) (Z.to_nat n) s data /\
    compute_symbol_size (zlen data) (Z.of_nat (rows_of n) * Z.of_nat (columns_of n)) 2 = Ok (Z.of_nat s) /\
    id = blob_id (metadata_of n s data).
Proof.
  intros Hn Hd Hsup H. unfold compute_blob_id in H. rewrite (proj2 (Z.eqb_neq n 0)) in H by lia.
  cbn [negb assert mbind outcome_bind] in H. apply bind_Ok_inv in H as (c & Hc & H).
  cbn [get_for_type mbind outcome_bind] in H. apply bind_Ok_inv in H as (e & He & H).
  destruct (encoder_supported n data c e Hn Hd Hsup Hc He) as (Hee & Hsp & Hs).
  apply bind_Ok_inv in H as (md & Hmd%unwrap_Ok & [= <-]). rewrite Hee in Hmd.
  unfold compute_metadata, encoder_of in Hmd. rewrite compute_metadata_ok in Hmd by done.
  injection Hmd as <-. eexists. by split_and!.
Qed.

(** C10: the three encoders agree: [encode_with_metadata], its legacy version over
    the expanded matrix and [compute_metadata_with_symbol_hashes] end without
    a panic with the same metadata, the first two with the same sliver pairs,
    for every blob that an encoder accepts; the primary slivers of the pairs
    ascend, the secondary ones descend, and the data of the systematic primary
    slivers, one after the other, is the blob and its padding. *)
Theorem encoders_agree n data c e :
  1 <= n < 65536 -> zlen data < 2 ^ 63 -> codec_supports n ->
  @config_new DataTooLargeError n = Ok c -> blob_encoder_new c data = Ok e ->
  exists pairs md hashes,
    encode_with_metadata e = Ok (pairs, md) /\
    encode_with_metadata_legacy e = Ok (pairs, md) /\
    compute_metadata_with_symbol_hashes e = Ok (md, hashes) /\
    zlen pairs = n /\
    (forall i p, pairs !! i = Some p -> sd_index (pr_primary p) = Z.of_nat i /\
       sd_index (pr_secondary p) = to_sliver_index false (Z.of_nat i) n) /\
    take (length data) (concat ((fun p => sy_data (sd_symbols (pr_primary p))) <$>
      take (rows_of n) pairs)) = data.
Proof.
  intros Hn Hd Hsup Hc He. destruct (encoder_supported n data c e Hn Hd Hsup Hc He) as (Hee & Hsp & _).
  set (s := Z.to_nat (be_symbol_size e)) in *. clearbody s. rewrite Hee. unfold encoder_of.
  exists (matrix_pairs (rows_of n) (columns_of n) (Z.to_nat n) s data), (metadata_of n s data),
    (matrix_hashes (rows_of n) (columns_of n) (Z.to_nat n) s data).
  split; [by apply encode_with_metadata_ok|]. split; [by apply encode_with_metadata_legacy_ok|].
  split; [by apply compute_metadata_ok|]. split; [|split].
  - unfold matrix_pairs. rewrite length_fmap, length_seq. lia.
  - intros i p Hp. unfold matrix_pairs in Hp. rewrite list_lookup_fmap in Hp.
    destruct (seq 0 (Z.to_nat n) !! i) as [j|] eqn:Hj; [|done]. apply lookup_seq in Hj as [-> Hi].
    injection Hp as <-. cbn. split; [done|]. unfold to_sliver_index.
    rewrite !wrap_small by (rewrite ?wrap_small; lia). lia.
  - by apply primary_data.
Qed.

(** ** The identifier pins the blob *)

(** The messages hashed to compute the identifier of a blob: the metadata and
    the symbols of the systematic rows. *)
Definition encoding_msgs (n : Z) (data : bytes) : list bytes :=
  match compute_symbol_size (zlen data) (Z.of_nat (rows_of n) * Z.of_nat (columns_of n)) 2 with
  | Ok size => let s := Z.to_nat size in
      metadata_msgs (metadata (metadata_of n s data))
      ++ concat ((fun r => build_msgs (cell (rows_of n) (columns_of n) (Z.to_nat n) s data r
                    <$> seq 0 (Z.to_nat n))) <$> seq 0 (rows_of n))
  | _ => []
  end.
Lemma root_node_ok ls : node_ok (root (build ls)).
Proof. apply build_root_ok, Forall_fmap, Forall_true. intros d. apply blake2b256_length. Qed.
Lemma metadata_of_ok n s data : zlen data < 2 ^ 63 -> Supported (rows_of n) (columns_of n) (Z.to_nat n) s data ->
  metadata_ok (metadata (metadata_of n s data)).
Proof.
  intros Hd Hsp. split; [cbn; lia|]. unfold metadata_of. rewrite committed_hashes by done.
  apply Forall_fmap, Forall_true. intros i. split; apply root_node_ok.
Qed.

(** A blob is pinned by the roots of its systematic rows. *)
Lemma systematic_roots_inj Q k1 k2 n s d1 d2 : Supported k1 k2 n s d1 -> Supported k1 k2 n s d2 ->
  length d1 = length d2 -> collision_free Q ->
  (forall r, (r < k1)%nat -> forall x, x ∈ build_msgs (cell k1 k2 n s d1 r <$> seq 0 n) ++ build_msgs (cell k1 k2 n s d2 r <$> seq 0 n) -> Q x) ->
  (forall r, (r < k1)%nat ->
     node_bytes (root (build (cell k1 k2 n s d1 r <$> seq 0 n))) = node_bytes (root (build (cell k1 k2 n s d2 r <$> seq 0 n)))) ->
  d1 = d2.
Proof.
  intros Hsp1 Hsp2 Hlen HQ Hin Hroots. rewrite <- (rows_data _ _ _ _ d1 Hsp1), <- (rows_data _ _ _ _ d2 Hsp2).
  f_equal; [done|]. f_equal. apply list_fmap_ext. intros r r' [-> Hr]%lookup_seq. cbn [Nat.add].
  rewrite <- (row_systematic _ _ _ _ d1 Hsp1 r Hr), <- (row_systematic _ _ _ _ d2 Hsp2 r Hr). f_equal.
  pose proof (build_inj Q _ _ HQ (Hin r Hr) ltac:(by rewrite !length_fmap) (Hroots r Hr)) as Heq.
  apply list_fmap_ext. intros c c' [-> Hc]%lookup_seq. apply (f_equal (lookup c)) in Heq.
  rewrite !list_lookup_fmap, lookup_seq_lt in Heq by (destruct Hsp1; lia). by injection Heq.
Qed.
(** the identifier pins the blob: two blobs with the same identifier over the
    same number of shards are equal, unless BLAKE2b collides on the messages
    hashed to encode them. *)
Theorem blob_id_commits n d1 d2 id :
  1 <= n < 65536 -> zlen d1 < 2 ^ 63 -> zlen d2 < 2 ^ 63 -> codec_supports n ->
  compute_blob_id d1 n = Ok id -> compute_blob_id d2 n = Ok id ->
  collision_free (fun m => m ∈ encoding_msgs n d1 ++ encoding_msgs n d2) -> d1 = d2.
Proof.
  intros Hn Hd1 Hd2 Hsup H1 H2 HQ.
  destruct (compute_blob_id_inv n d1 id Hn Hd1 Hsup H1) as (s1 & Hsp1 & Hs1 & Hid1).
  destruct (compute_blob_id_inv n d2 id Hn Hd2 Hsup H2) as (s2 & Hsp2 & Hs2 & Hid2).
  unfold encoding_msgs in HQ. rewrite Hs1, Hs2, !Nat2Z.id in HQ. cbv zeta in HQ.
  destruct (from_sliver_pair_metadata_inj _ (metadata (metadata_of n s1 d1)) (metadata (metadata_of n s2 d2)) HQ)
    as (_ & Hl & Hh); try (by apply metadata_of_ok).
  - intros x. rewrite !elem_of_app. tauto.
  - unfold metadata_of. rewrite !committed_hashes by done. by rewrite !length_fmap.
  - change (blob_id (metadata_of n s1 d1) = blob_id (metadata_of n s2 d2)). congruence.
  - cbn in Hl. assert (zlen d1 = zlen d2) as Hlen by lia. rewrite Hlen in Hs1.
    assert (s1 = s2) as -> by (apply Nat2Z.inj; congruence).
    apply (systematic_roots_inj _ _ _ _ _ d1 d2 Hsp1 Hsp2 ltac:(lia) HQ).
    + intros r Hr x [Hx|Hx]%elem_of_app; rewrite !elem_of_app; [left|right]; right;
        apply list_elem_of_In, in_concat; eexists; (split; [|by apply list_elem_of_In]);
        apply list_elem_of_In, list_elem_of_fmap; exists r; (split; [done|]); apply elem_of_seq; lia.
    + intros r Hr. unfold metadata_of in Hh. rewrite !committed_hashes in Hh by done.
      apply (f_equal (lookup r)) in Hh. rewrite !list_lookup_fmap, lookup_seq_lt in Hh by (destruct Hsp1; lia).
      cbn [fmap option_fmap option_map Nat.add] in Hh. injection Hh as Hh. unfold pair_leaf_input in Hh.
      apply app_inj_1 in Hh as [Hroot _]; [|by rewrite !node_bytes_length by apply root_node_ok].
      exact Hroot.
Qed.

(** ** Errors *)

Lemma compute_blob_id_eq n data : 1 <= n < 65536 -> zlen data < 2 ^ 63 -> codec_supports n ->
  compute_blob_id data n
  = (s ← compute_symbol_size (zlen data) ((n - 2 * max_n_faulty n) * (n - max_n_faulty n)) 2;
     Ok (blob_id (metadata_of n (Z.to_nat s) data))).
Proof.
  intros Hn Hd Hsup. unfold compute_blob_id. rewrite (proj2 (Z.eqb_neq n 0)), config_new_eq by lia.
  cbn [negb assert mbind outcome_bind get_for_type].
  pose proof (fun e => encoder_supported (E := DataTooLargeError) n data _ e Hn Hd Hsup (config_new_eq n Hn)) as Hspec.
  unfold blob_encoder_new in *. cbn [source_symbols_primary source_symbols_secondary] in *.
  change (required_alignment RS2) with 2 in *.
  destruct (compute_symbol_size _ _ _) as [s| | |]; try done. cbn [mbind outcome_bind] in *.
  destruct (Hspec _ eq_refl) as (Hee & Hsp & _). cbn [be_symbol_size] in *. rewrite Hee.
  unfold compute_metadata, encoder_of. by rewrite compute_metadata_ok.
Qed.
Lemma blob_id_length n data id : 1 <= n < 65536 -> zlen data < 2 ^ 63 -> codec_supports n ->
  compute_blob_id data n = Ok id -> length id = 32%nat.
Proof.
  intros Hn Hd Hsup. rewrite compute_blob_id_eq by done.
  intros (s & _ & [= <-])%bind_Ok_inv. apply blake2b256_length.
Qed.
(** A blob of less than 4 GiB has an identifier. *)
Lemma blob_id_defined data : zlen data < 2 ^ 32 -> codec_supports 1000 ->
  exists id, compute_blob_id_default data = Ok id.
Proof.
  intros Hd Hsup. unfold compute_blob_id_default. rewrite compute_blob_id_eq by (done || lia).
  change ((1000 - 2 * max_n_faulty 1000) * (1000 - max_n_faulty 1000))
    with (source_symbols_per_blob_for_n_shards 1000).
  change 2 with (required_alignment RS2). rewrite walrus_symbol_size_computed by lia.
  rewrite (proj2 (Z.ltb_lt _ _)) by (apply walrus_symbol_size_fits; lia). eexists. reflexivity.
Qed.

(** ** The readers of the sampling guests *)

Definition encoded_rows (s : nat) (data : bytes) (r : nat) : list bytes :=
  cell 334 667 1000 s data r <$> seq 0 1000.
Definition encoded_roots (s : nat) (data : bytes) : list SliverPairRoots :=
  (fun i => {| sp_primary := node_bytes (primary_hash (pair_roots 334 667 1000 s data i));
               sp_secondary := node_bytes (secondary_hash (pair_roots 334 667 1000 s data i)) |})
  <$> seq 0 1000.
Lemma node_bytes_digest b : node_bytes (Digest b) = b.
Proof. done. Qed.
Lemma pad_to_source data size k :
  pad_to (Z.to_nat size) (drop (Z.to_nat (k * size)) data) = source_symbol data size k.
Proof. done. Qed.

(** The identifier that the encoder computes is the one the guests recompute from the roots of the shards. *)
Lemma metadata_of_roots s data : Supported 334 667 1000 s data ->
  blob_id (metadata_of 1000 s data)
  = compute_blob_id_from_sliver_pair_roots (encoded_roots s data) RS2 (zlen data).
Proof.
  intros Hsp. change (from_sliver_pair_metadata (metadata (metadata_of 1000 s data))
    = compute_blob_id_from_sliver_pair_roots (encoded_roots s data) RS2 (zlen data)).
  unfold compute_blob_id_from_sliver_pair_roots, from_sliver_pair_metadata, compute_root_hash.
  cbn [hashes encoding_type unencoded_length].
  apply (f_equal (fun l => from_metadata (root (build l)) RS2 (zlen data))). unfold metadata_of.
  change (rows_of 1000) with 334%nat. change (columns_of 1000) with 667%nat.
  change (Z.to_nat 1000) with 1000%nat. rewrite committed_hashes by done. unfold encoded_roots.
  rewrite <- !list_fmap_compose. apply list_fmap_ext. intros i j _.
  unfold compose, pair_leaf_input, roots_metadata. cbn [primary_hash secondary_hash sp_primary sp_secondary].
  by rewrite !node_bytes_digest.
Qed.

(** What the guests assume of the blob behind an identifier holds of every blob
    that the encoder gives the identifier to. *)
Lemma encoded_blob_committed data id :
  zlen data < 2 ^ 63 -> codec_supports 1000 -> compute_blob_id_default data = Ok id ->
  let s := Z.to_nat (walrus_symbol_size (zlen data)) in
  Committed id (zlen data) (encoded_roots s data) (encoded_rows s data) /\
  systematic data (encoded_rows s data).
Proof.
  intros Hd Hsup H. destruct (compute_blob_id_inv 1000 data id ltac:(lia) Hd Hsup H) as (s0 & Hsp & Hs & Hid).
  change (Z.of_nat (rows_of 1000) * Z.of_nat (columns_of 1000)) with (source_symbols_per_blob_for_n_shards 1000) in Hs.
  rewrite walrus_symbol_size_computed in Hs by lia.
  destruct (Z.ltb_spec (walrus_symbol_size (zlen data)) 65536) as [_|]; [|done].
  injection Hs as Hs. rewrite Hs, Nat2Z.id. cbv zeta.
  change (rows_of 1000) with 334%nat in Hsp. change (columns_of 1000) with 667%nat in Hsp.
  change (Z.to_nat 1000) with 1000%nat in Hsp. split.
  - split; [lia| | |].
    + rewrite Hid. by apply metadata_of_roots.
    + unfold encoded_roots. by rewrite length_fmap, length_seq.
    + intros i r Hr. unfold encoded_roots in Hr. apply list_lookup_fmap_Some in Hr as (j & -> & Hj).
      apply lookup_seq in Hj as [-> Hi]. unfold encoded_rows. rewrite length_fmap, length_seq.
      split; [reflexivity|]. split; [reflexivity|]. cbn [sp_secondary secondary_hash pair_roots].
      apply node_bytes_length, root_node_ok.
  - intros k Hk Hlt. rewrite Hs in *. pose proof Hsp as [_ _ _ _ _ _ Hb].
    unfold COL_HEIGHT_SECONDARY. unfold encoded_rows.
    pose proof (Z.div_mod k 667). pose proof (Z.mod_pos_bound k 667).
    assert (k `div` 667 < 334) by (apply Z.div_lt_upper_bound; nia).
    assert (0 <= k `div` 667) by (apply Z.div_pos; lia).
    rewrite list_lookup_fmap, lookup_seq_lt by lia. cbn [fmap option_fmap option_map Nat.add]. f_equal.
    rewrite cell_source by (done || lia). rewrite <- pad_to_source, Nat2Z.id. unfold sym. do 2 f_equal. nia.
Qed.

(** C11: from the encoder to the guests: when [compute_blob_id_default] gives a blob
    the identifier that a guest is shown, and the guest accepts the opening,
    every range that it reads is that range of the blob, unless BLAKE2b
    collides on the messages hashed. *)
Theorem encoded_blob_read o data off len r :
  zlen data < 2 ^ 63 -> codec_supports 1000 -> compute_blob_id_default data = Ok (wo_blob_id o) ->
  opening_typed o -> verify_walrus_opening o = Ok tt \/ verify_walrus_video_opening o = Ok tt ->
  let s := Z.to_nat (walrus_symbol_size (zlen data)) in
  collision_free (fun m => m ∈ commitment_msgs (zlen data) (encoded_roots s data) (encoded_rows s data) o
    ++ reader_msgs o) ->
  0 <= off -> 0 <= len -> read_origin_range o off len = Ok r \/ read_video_range o off len = Ok r ->
  get_range data off len = Some r.
Proof.
  intros Hd Hsup Hid Ho Hv s HQ Hoff Hlen Hread.
  destruct (encoded_blob_committed data (wo_blob_id o) Hd Hsup Hid) as [Hc Hsys].
  destruct (opening_reads_source o data _ _ Ho Hc Hsys HQ Hv) as (Hl & _ & Hr).
  destruct Hread as [H|H]; (eapply read_range_Ok; [exact Hr|done|lia|done|done|exact H]).
Qed.
End EncodedBlob.

(** ** Concrete blobs *)

Lemma toy_supports : codec_supports (R := toy_rs) 4.
Proof. intros s _ Hs. cbn. by rewrite Hs. Qed.
Definition fifteen_bytes : bytes := seqZ 1 15.
Definition four_encoder : BlobEncoder :=
  match blob_encoder_new four_shards fifteen_bytes with
  | Ok e => e
  | _ => {| be_blob := []; be_symbol_size := 0; be_n_rows := 0; be_n_columns := 0; be_config := four_shards |}
  end.
Lemma encoders_agree_witness : exists pairs md,
  encode_with_metadata four_encoder = Ok (pairs, md) /\ encode_with_metadata_legacy four_encoder = Ok (pairs, md).
Proof.
  destruct (encoders_agree 4 fifteen_bytes four_shards four_encoder) as (pairs & md & hs & H1 & H2 & _);
    try (exact toy_supports || reflexivity || lia). exists pairs, md. split; [exact H1|exact H2].
Defined.
Lemma blob_id_commits_witness : fifteen_bytes = [1; 2; 3] ++ seqZ 4 12.
Proof.
  destruct (compute_blob_id fifteen_bytes 4) as [id| | |] eqn:Hid.
  2-4: exfalso; revert Hid; vm_compute; discriminate.
  apply (blob_id_commits 4 fifteen_bytes ([1; 2; 3] ++ seqZ 4 12) id);
    try (exact toy_supports || exact Hid || reflexivity || lia).
  apply collision_free_list_ok. vm_compute. reflexivity.
Defined.

(** Nine zero bytes over 1000 shards, with a codec whose recovery symbols are
    zero: every symbol of the matrix is zero. *)
Definition zero_rs : ReedSolomon := {|
  rs_new _ _ _ := Ok tt;
  rs_encode m os := replicate (Z.to_nat m) (replicate (length (hd [] os)) 0) |}.
Lemma zero_rs_laws : ReedSolomonLaws zero_rs.
Proof.
  split; cbn [rs_encode zero_rs].
  - intros m os _. apply length_replicate.
  - intros m os s Hne Hf. apply Forall_replicate. rewrite length_replicate.
    destruct os; [done|]. by apply Forall_cons in Hf as [Hf _].
Qed.
Lemma zero_cell k1 k2 n s m r c : Supported (R := zero_rs) k1 k2 n s (replicate m 0) ->
  (r < n)%nat -> (c < n)%nat -> cell (R := zero_rs) k1 k2 n s (replicate m 0) r c = replicate s 0.
Proof.
  intros HS Hr Hc. pose proof zero_rs_laws as HL.
  assert (forall k (f : nat -> bytes) i, (0 < k)%nat -> (forall j, (j < k)%nat -> f j = replicate s 0) ->
    (i < n)%nat -> (k <= n)%nat ->
    codeword (R := zero_rs) (Z.of_nat k) (Z.of_nat n) (f <$> seq 0 k) !!! i = replicate s 0) as Hcode.
  { intros k f i Hk Hf Hi Hkn. apply list_lookup_total_correct. unfold codeword.
    assert (f <$> seq 0 k = replicate k (replicate s 0)) as ->.
    { rewrite (list_fmap_ext f (fun _ => replicate s 0) _) by (intros j j' [-> Hj]%lookup_seq; by apply Hf).
      rewrite (const_fmap (fun _ => replicate s 0) _ (replicate s 0)) by done. by rewrite length_seq. }
    destruct k as [|k]; [lia|]. cbn [rs_encode zero_rs replicate hd]. rewrite length_replicate.
    replace (Z.to_nat (Z.of_nat n - Z.of_nat (S k))) with (n - S k)%nat by lia.
    change (replicate s 0 :: replicate k (replicate s 0)) with (replicate (S k) (replicate s 0)).
    rewrite <- replicate_add. apply lookup_replicate_2. lia. }
  destruct HS as [Hk1 Hk2 _ _ _ _ _]. apply Hcode; try lia. intros j Hj.
  apply Hcode; try lia. intros i Hi. unfold sym, pad_to. rewrite drop_replicate, <- replicate_add, take_replicate.
  f_equal. lia.
Qed.

Lemma commitment_msgs_rows {CO : Crypto} len roots rows rows' o :
  Forall (fun s => rows (Z.to_nat (sl_shard_index s)) = rows' (Z.to_nat (sl_shard_index s))) (wo_primary_slivers o) ->
  commitment_msgs len roots rows o = commitment_msgs len roots rows' o.
Proof.
  intros Hall. unfold commitment_msgs.
  assert ((fun s => build_msgs (rows (Z.to_nat (sl_shard_index s)))) <$> wo_primary_slivers o
    = (fun s => build_msgs (rows' (Z.to_nat (sl_shard_index s)))) <$> wo_primary_slivers o) as ->; [|done].
  induction Hall as [|s l Hs _ IH]; [done|]. rewrite !fmap_cons. by rewrite Hs, IH.
Qed.

Section ZeroBlob.
Local Existing Instance cheap_crypto.
Local Existing Instance zero_rs.
Local Existing Instance zero_rs_laws.
Definition zero_blob : bytes := replicate 9 0.
Definition zero_symbols : list bytes := replicate 1000 (replicate 2 0).
Definition zero_pair : SliverPairRoots :=
  {| sp_primary := node_bytes (root (build zero_symbols)); sp_secondary := node_bytes (root (build zero_symbols)) |}.
Definition zero_opening : WalrusOpening := Eval vm_compute in
  match mark_range ∅ 3 5 2 with
  | Ok needed =>
      match build_opening_from_slivers (fun _ => zero_symbols)
        (new_verified_from_metadata (roots_metadata <$> replicate 1000 zero_pair) RS2 9) needed with
      | Ok o => o
      | _ => small_opening zero_blob ∅
      end
  | _ => small_opening zero_blob ∅
  end.

Lemma zero_supported : Supported 334 667 1000 2 zero_blob.
Proof.
  split; [lia|lia|lia|split; [lia|reflexivity]|reflexivity|reflexivity|].
  unfold zero_blob. rewrite length_replicate. lia.
Qed.
Lemma zero_line (f : nat -> bytes) : (forall i, (i < 1000)%nat -> f i = replicate 2 0) ->
  f <$> seq 0 1000 = zero_symbols.
Proof.
  intros Hf. rewrite (list_fmap_ext f (fun _ => replicate 2 0) _) by (intros i j [-> Hi]%lookup_seq; by apply Hf).
  unfold zero_symbols. rewrite (const_fmap (fun _ => replicate 2 0) _ (replicate 2 0)) by reflexivity.
  by rewrite length_seq.
Qed.
Lemma zero_rows r : (r < 1000)%nat -> encoded_rows 2 zero_blob r = zero_symbols.
Proof. intros Hr. apply zero_line. intros c Hc. by apply (zero_cell 334 667 1000 2 9 r c zero_supported). Qed.
Lemma zero_pair_roots i : (i < 1000)%nat -> pair_roots 334 667 1000 2 zero_blob i
  = {| primary_hash := root (build zero_symbols); secondary_hash := root (build zero_symbols) |}.
Proof.
  intros Hi. unfold pair_roots. fold (encoded_rows 2 zero_blob i). rewrite zero_rows, zero_line; [reflexivity| |done].
  intros r Hr. apply (zero_cell 334 667 1000 2 9 r (1000 - 1 - i) zero_supported); lia.
Qed.
Lemma zero_hashes : pair_roots 334 667 1000 2 zero_blob <$> seq 0 1000
  = replicate 1000 {| primary_hash := root (build zero_symbols); secondary_hash := root (build zero_symbols) |}.
Proof.
  rewrite (list_fmap_ext _ (fun _ => {| primary_hash := root (build zero_symbols);
    secondary_hash := root (build zero_symbols) |}) _) by (intros i j [-> Hi]%lookup_seq; by apply zero_pair_roots).
  by rewrite const_fmap with (y := {| primary_hash := root (build zero_symbols);
    secondary_hash := root (build zero_symbols) |}), length_seq by reflexivity.
Qed.
Lemma zero_encoded_roots : encoded_roots 2 zero_blob = replicate 1000 zero_pair.
Proof.
  unfold encoded_roots. apply list_eq. intros i. rewrite list_lookup_fmap. destruct (decide (i < 1000)%nat).
  - rewrite lookup_seq_lt, lookup_replicate_2 by done. cbn [fmap option_fmap option_map Nat.add].
    by rewrite zero_pair_roots.
  - by rewrite !lookup_ge_None_2; rewrite ?length_seq, ?length_replicate; try lia.
Qed.
Lemma zero_msgs :
  commitment_msgs 9 (encoded_roots 2 zero_blob) (encoded_rows 2 zero_blob) zero_opening
  = commitment_msgs 9 (replicate 1000 zero_pair) (fun _ => zero_symbols) zero_opening.
Proof.
  rewrite zero_encoded_roots. apply commitment_msgs_rows.
  assert (Forall (fun s => (Z.to_nat (sl_shard_index s) < 1000)%nat) (wo_primary_slivers zero_opening)) as Hall
    by (repeat constructor; vm_compute; lia).
  refine (Forall_impl _ _ _ Hall _). intros s Hs. by apply zero_rows.
Qed.
Lemma zero_blob_id : compute_blob_id_default zero_blob = Ok (wo_blob_id zero_opening).
Proof.
  unfold compute_blob_id_default. rewrite compute_blob_id_eq; [|lia|done|done].
  assert (compute_symbol_size (zlen zero_blob)
    ((1000 - 2 * max_n_faulty 1000) * (1000 - max_n_faulty 1000)) 2 = Ok 2) as -> by (vm_compute; reflexivity).
  cbn [mbind outcome_bind]. apply (f_equal Ok).
  rewrite (metadata_of_roots (Z.to_nat 2) zero_blob zero_supported).
  change (Z.to_nat 2) with 2%nat. rewrite zero_encoded_roots. vm_compute. reflexivity.
Qed.
(** The messages hashed to encode [zero_blob] are few. *)
Definition zero_msgs_list : list bytes :=
  blob_id_msg (root (build (pair_leaf_input <$> (roots_metadata <$> replicate 1000 zero_pair)))) RS2 9
    :: build_msgs (pair_leaf_input <$> (roots_metadata <$> replicate 1000 zero_pair)) ++ build_msgs zero_symbols.
Lemma zero_encoding_msgs m : m ∈ encoding_msgs 1000 zero_blob -> m ∈ zero_msgs_list.
Proof.
  unfold encoding_msgs.
  assert (compute_symbol_size (zlen zero_blob) (Z.of_nat (rows_of 1000) * Z.of_nat (columns_of 1000)) 2 = Ok 2)
    as -> by (vm_compute; reflexivity).
  change (Z.to_nat 2) with 2%nat. change (Z.to_nat 1000) with 1000%nat.
  change (rows_of 1000) with 334%nat. change (columns_of 1000) with 667%nat. cbv zeta.
  change (metadata_of 1000 2 zero_blob) with (committed_metadata 334 667 1000 2 zero_blob).
  assert (hashes (metadata (committed_metadata 334 667 1000 2 zero_blob)) = roots_metadata <$> replicate 1000 zero_pair) as Hh.
  { rewrite (committed_hashes 334 667 1000 2 zero_blob), zero_hashes.
    rewrite fmap_replicate. apply (f_equal (replicate 1000)). vm_compute. reflexivity. }
  unfold metadata_msgs, compute_root_hash. rewrite Hh.
  change (encoding_type (metadata (committed_metadata 334 667 1000 2 zero_blob))) with RS2.
  change (unencoded_length (metadata (committed_metadata 334 667 1000 2 zero_blob))) with 9.
  unfold zero_msgs_list.
  rewrite elem_of_app. intros [Hm|Hm].
  - rewrite elem_of_cons in Hm |- *. rewrite elem_of_app. tauto.
  - apply elem_of_cons. right. apply elem_of_app. right.
    apply list_elem_of_In, in_concat in Hm as (l & Hl%list_elem_of_In & Hm%list_elem_of_In). apply list_elem_of_fmap in Hl as (r & -> & Hr).
    apply elem_of_seq in Hr. fold (encoded_rows 2 zero_blob r) in Hm. by rewrite zero_rows in Hm by lia.
Qed.
Lemma encoded_blob_read_witness :
  read_origin_range zero_opening 3 5 = Ok (replicate 5 0) /\ get_range zero_blob 3 5 = Some (replicate 5 0).
Proof.
  assert (read_origin_range zero_opening 3 5 = Ok (replicate 5 0)) as Hread by (vm_compute; reflexivity).
  split; [exact Hread|].
  apply (encoded_blob_read zero_opening zero_blob 3 5 (replicate 5 0)).
  - reflexivity.
  - intros s _ _. split; reflexivity.
  - exact zero_blob_id.
  - apply reader_typedb_ok. vm_compute. reflexivity.
  - left. vm_compute. reflexivity.
  - change (Z.to_nat (walrus_symbol_size (zlen zero_blob))) with 2%nat. change (zlen zero_blob) with 9.
    rewrite zero_msgs. apply collision_free_list_ok. vm_compute. reflexivity.
  - lia.
  - lia.
  - left. exact Hread.
Defined.
End ZeroBlob.
