(* ===== verification/Consistency.v ===== *)
(** Consistency checks of decoded blobs in [walrus-core]: [decode_and_verify]
    and [strict_consistency_check] of [encoding/config.rs], and
    [default_consistency_check] of [encoding/blob_encoding.rs].

    The default check hashes the systematic rows of the decoded blob; the strict
    one encodes it again.  [decode_and_verify] lets the default check skip the
    systematic primary slivers that the decoder took from its input, which it
    observes with [inspect] on the iterator: [config_decode_iter] tells how many
    slivers were taken. *)
From S2P Require Import Prelude Crypto WalrusMerkle WalrusConfig Rslh WalrusOpen ReedSolomon BlobEncoding BlobMatrix Decoder.
From S2P Require Import Slivers SymbolReader EncodedBlob.

Inductive ConsistencyCheckType := Skip | Default | Strict.
#[export] Instance ConsistencyCheckType_eq_dec : EqDecision ConsistencyCheckType.
Proof. solve_decision. Defined.

Section Consistency.
Context `{HC : Crypto} `{R : ReedSolomon} `{D : ReedSolomonDecode}.

Definition systematic_primary_sliver (self : BlobEncoder) (index : nat) : guest SliverData :=
  let sliver := empty_sliver self Primary (Z.of_nat index) in
  match blob_rows self !! index with
  | Some row =>
      data ← overwrite (sy_data (sd_symbols sliver)) row;
      Ok {| sd_symbols := {| sy_data := data; sy_symbol_size := sy_symbol_size (sd_symbols sliver) |};
            sd_index := sd_index sliver |}
  | None => Ok sliver
  end.
Definition check_systematic_row (self : BlobEncoder) (md : BlobMetadataWithId) (already_verified_slivers : option (list bool))
    (i : nat) : outcome DecodeError unit :=
  if match already_verified_slivers with Some l => nth i l false | None => false end then Ok tt
  else
    sliver ← no_error (systematic_primary_sliver self i);
    map_err (check_hash (be_config self) Primary sliver (metadata md)) (fun _ => DecodeVerificationError).
Definition default_consistency_check (self : BlobEncoder) (md : BlobMetadataWithId)
    (already_verified_slivers : option (list bool)) : outcome DecodeError unit :=
  let n_systematic_primary_slivers := n_source_symbols (be_config self) Primary in
  match already_verified_slivers with
  | Some l => assert (zlen l =? n_systematic_primary_slivers) "assertion `left == right` failed"
  | None => Ok tt
  end ;;
  oforall (check_systematic_row self md already_verified_slivers) (seq 0 (Z.to_nat n_systematic_primary_slivers)).
Definition strict_consistency_check (c : ReedSolomonEncodingConfig) (id blob : bytes) : outcome DecodeError unit :=
  encoder ← map_err (blob_encoder_new c blob) (fun _ => DecodeDataTooLarge);
  blob_metadata ← no_error (compute_metadata encoder);
  ensure (bool_decide (blob_id blob_metadata = id)) DecodeVerificationError.

(** The closure of [inspect], on each sliver taken from the iterator. *)
Definition mark (n_systematic_slivers : Z) (already_verified_slivers : list bool) (sliver : SliverData) : list bool :=
  if sd_index sliver <? n_systematic_slivers then <[Z.to_nat (sd_index sliver) := true]> already_verified_slivers
  else already_verified_slivers.
Definition decode_and_verify (c : ReedSolomonEncodingConfig) (e : EncodingAxis) (md : BlobMetadataWithId)
    (slivers : list SliverData) (consistency_check : ConsistencyCheckType) : outcome DecodeError bytes :=
  '(decoded_blob, already_verified_slivers) ←
    (if is_primary e && bool_decide (consistency_check = Default) then
       let n_systematic_slivers := n_source_symbols c e in
       '(blob, pulled) ← config_decode_iter c e (unencoded_length (metadata md)) slivers;
       Ok (blob, Some (fold_left (mark n_systematic_slivers) (take pulled slivers)
                         (replicate (Z.to_nat n_systematic_slivers) false)))
     else
       blob ← config_decode c e (unencoded_length (metadata md)) slivers;
       Ok (blob, None));
  match consistency_check with
  | Skip => Ok tt
  | Default =>
      encoder ← map_err (blob_encoder_new c decoded_blob) (fun _ => DecodeDataTooLarge);
      default_consistency_check encoder md already_verified_slivers
  | Strict => strict_consistency_check c (blob_id md) decoded_blob
  end ;;
  Ok decoded_blob.
End Consistency.

(** ** The size of a decoded blob

    The decoder of secondary slivers writes into a buffer of fixed size, whatever
    it is given. *)

Lemma ofold_keep {E A B} (P : B -> Prop) (f : B -> A -> outcome E B) acc l r :
  (forall b x b', P b -> f b x = Ok b' -> P b') -> P acc -> ofold f acc l = Ok r -> P r.
Proof. intros HS H0. apply (ofold_inv (fun _ => P)); [done|]. intros; eauto. Qed.
Lemma splice_range_length l off len (r d : bytes) : get_range l off len = Some r -> length r = length d ->
  length (splice l off d) = length l.
Proof.
  intros H Hd. pose proof (get_range_length _ _ _ _ H) as Hl. apply get_range_Some in H as (H1 & H2 & H3 & _).
  apply splice_length; lia.
Qed.
Lemma symbols_write_length s i d s' : symbols_write s i d = Ok s' -> length (sy_data s') = length (sy_data s).
Proof.
  unfold symbols_write, symbols_at, copy_from_slice. intros H. inv_ok. subst. cbn [sy_data].
  eapply splice_range_length; [done|]. bool_hyps. lia.
Qed.
Lemma symbols_write_range_length s lo hi d s' : symbols_write_range s lo hi d = Ok s' -> length (sy_data s') = length (sy_data s).
Proof.
  unfold symbols_write_range, copy_from_slice. intros H. inv_ok. subst. cbn [sy_data].
  eapply splice_range_length; [done|]. bool_hyps. lia.
Qed.
Section Workspace.
Context `{D : ReedSolomonDecode}.
(** The same buffer size and blob size. *)
Definition same_size (len size : Z) (d : BlobDecoder) : Prop :=
  zlen (sy_data (bd_workspace d)) = len /\ bd_blob_size d = size.
Lemma write_slivers_size len size slivers d set count d' count' pulled :
  same_size len size d -> write_slivers Secondary slivers d set count = Ok (d', count', pulled) -> same_size len size d'.
Proof.
  revert d set count d' count' pulled. induction slivers as [|x slivers IH]; intros d set count d' count' pulled Hd; cbn [write_slivers].
  { by intros [= <- _ _]. }
  destruct (count =? bd_sliver_count d); [by intros [= <- _ _]|].
  assert (forall d1 set1 count1 v, same_size len size d1 ->
    ('(d, slivers_count, pulled) ← write_slivers Secondary slivers d1 set1 count1; Ok (d, slivers_count, S pulled)) = Ok v ->
    same_size len size v.1.1) as Hnext.
  { intros d1 set1 count1 v Hd1 H. apply bind_Ok_inv in H as ([[d2 c2] p2] & H2 & [= <-]). cbn. by eapply IH. }
  case_bool_decide; [intros H1; exact (Hnext _ _ _ _ Hd H1)|].
  destruct (_ || _); [intros H1; exact (Hnext _ _ _ _ Hd H1)|].
  intros (d1 & H1 & H2)%bind_Ok_inv. refine (Hnext _ _ _ _ _ H2). unfold write_secondary_sliver_to_workspace in H1.
  apply bind_Ok_inv in H1 as (w & Hw & [= <-]). destruct Hd as [Hd1 Hd2]. split; [|exact Hd2]. cbn.
  revert Hw. apply (ofold_keep (fun w => zlen (sy_data w) = len)); [|exact Hd1].
  intros w1 [row c] w2 Hw1 Hw2%symbols_write_length. lia.
Qed.
Lemma decode_line_size len size d j d' : same_size len size d -> decode_line Secondary d j = Ok d' -> same_size len size d'.
Proof.
  intros [Hd1 Hd2] H. unfold decode_line, write_line in H.
  apply bind_Ok_inv in H as (l & _ & H). apply bind_Ok_inv in H as ([dec data] & _ & H).
  apply no_error_Ok, bind_Ok_inv in H as (w & Hw%symbols_write_range_length & [= <-]). split; cbn in *; lia.
Qed.
Lemma config_decode_length c slivers size b s : symbol_size_for_blob c size = Ok s ->
  0 <= source_symbols_primary c * source_symbols_secondary c * s -> 0 <= size <= source_symbols_primary c * source_symbols_secondary c * s ->
  config_decode c Secondary size slivers = Ok b -> zlen b = size.
Proof.
  intros Hs H0 Hle H. unfold config_decode, config_decode_iter, blob_decoder_new in H. rewrite Hs in H. cbn [map_err mbind outcome_bind] in H.
  apply bind_Ok_inv in H as ([b' pulled] & H & [= ->]). apply bind_Ok_inv in H as (d0 & Hd0 & H).
  apply bind_Ok_inv in Hd0 as (dec & _ & [= Hd0]).
  assert (same_size (source_symbols_primary c * source_symbols_secondary c * s) size d0) as Hsz0.
  { subst d0. split; [|done]. cbn. rewrite zeros_length. lia. }
  unfold blob_decoder_decode, check_and_write_slivers_to_workspace, perform_decoding in H.
  apply bind_Ok_inv in H as ([d1 p1] & H1 & H). apply bind_Ok_inv in H as (d2 & H2 & [= <- _]).
  apply bind_Ok_inv in H1 as ([[d1' count] p1'] & H1 & H1'). apply no_error_Ok in H1. apply (write_slivers_size _ _ _ _ _ _ _ _ _ Hsz0) in H1.
  apply bind_Ok_inv in H1' as (u & _ & [= <- _]).
  apply (ofold_keep (same_size (source_symbols_primary c * source_symbols_secondary c * s) size)) in H2; [|intros; by eapply decode_line_size|done].
  destruct H2 as [Hw Hb]. rewrite length_take. lia.
Qed.
End Workspace.

(** ** Decoding slivers that nobody vouches for *)

Section Checks.
Context `{HC : Crypto} {HL : CryptoLaws HC}.
Context `{R : ReedSolomon} `{D : ReedSolomonDecode}
  {RL : ReedSolomonLaws R} {DL : ReedSolomonDecodeLaws R D} {RC : ReedSolomonCommutes R}.
Context (k1 k2 n s : nat) (blob : bytes) (HS : Supported k1 k2 n s blob).
Context (Hsize : symbol_size_for_blob (config k1 k2 n) (zlen blob) = Ok (Z.of_nat s)).
Local Notation mn := (Z.of_nat n).
Local Notation conf := (config k1 k2 n).
Local Notation md := (committed_metadata k1 k2 n s blob).

Lemma same_length_supported b : length b = length blob -> Supported k1 k2 n s b.
Proof using All. intros Hb. destruct HS. split; try done. by rewrite Hb. Qed.
Lemma new_encoder_ok b : length b = length blob -> blob_encoder_new conf b = Ok (encoder k1 k2 n s b).
Proof using All.
  intros Hb. unfold blob_encoder_new, symbol_size_for_blob in *. rewrite Hb, Hsize. reflexivity.
Qed.
Lemma systematic_primary_sliver_ok b i : length b = length blob -> (i < k1)%nat ->
  systematic_primary_sliver (encoder k1 k2 n s b) i = Ok (primary_sliver k1 k2 n s b i).
Proof using All.
  intros Hb Hi. pose proof (same_length_supported b Hb) as HSb. unfold systematic_primary_sliver, primary_sliver, empty_sliver, sliver_new_empty.
  rewrite (row_systematic k1 k2 n s b HSb) by done.
  cbn [sd_symbols sd_index n_source_symbols OrthogonalAxis be_config config source_symbols_secondary encoder be_symbol_size].
  rewrite zero_data. pose proof (blob_rows_lookup k1 k2 n s b HSb i) as Hrow. destruct (blob_rows _ !! i) as [row|].
  - destruct Hrow as [Hl Hp]. rewrite overwrite_zeros by done. cbn [mbind outcome_bind]. by rewrite Hp.
  - f_equal. unfold symbols_zeros, sym_list. rewrite Hrow. f_equal. unfold zeros. f_equal. f_equal. lia.
Qed.
(** A row is checked against the root of the row of the encoded blob. *)
Lemma check_row_ok b already i : length b = length blob -> (i < k1)%nat ->
  check_systematic_row (encoder k1 k2 n s b) md already i
  = if match already with Some l => nth i l false | None => false end
       || bool_decide (root (build (cell k1 k2 n s b i <$> seq 0 n)) = root (build (cell k1 k2 n s blob i <$> seq 0 n)))
    then Ok tt else Err DecodeVerificationError.
Proof using All.
  intros Hb Hi. pose proof (same_length_supported b Hb) as HSb. unfold check_systematic_row.
  destruct (match already with Some l => nth i l false | None => false end); [done|]. cbn [orb].
  rewrite systematic_primary_sliver_ok by done. cbn [no_error map_err mbind outcome_bind be_config encoder].
  assert (i < n)%nat as Hin by (destruct HS; lia). unfold check_hash.
  pose proof (sliver_hash_at k1 k2 n s blob HS Hsize Primary i Hin) as Hh. unfold get_sliver_hash in Hh.
  apply fmap_Some in Hh as (h & Hget & Hh). cbn [sd_index primary_sliver rs_n_shards config]. rewrite Hget.
  assert (symbol_size_for_blob conf (zlen b) = Ok (Z.of_nat s)) as Hsb by (by rewrite Hb).
  change (primary_sliver k1 k2 n s b i) with (blob_sliver k1 k2 n s b Primary i). cbn [expect mbind outcome_bind].
  unfold get_merkle_root. rewrite (blob_sliver_expands k1 k2 n s b HSb Hsb Primary i Hin). cbn [mbind outcome_bind unwrap].
  rewrite to_symbols_list by (try exact (s_pos k1 k2 n s blob HS); by apply (expanded_sized k1 k2 n s b HSb Hsb)).
  cbn [unwrap]. rewrite <- Hh. change (expanded k1 k2 n s b Primary i) with (cell k1 k2 n s b i <$> seq 0 n).
  change (expanded k1 k2 n s blob Primary i) with (cell k1 k2 n s blob i <$> seq 0 n).
  by case_bool_decide.
Qed.

(** The messages hashed for the systematic rows of a blob. *)
Definition row_msgs (b : bytes) : list bytes :=
  concat ((fun r => build_msgs (cell k1 k2 n s b r <$> seq 0 n)) <$> seq 0 k1).
Lemma in_row_msgs b r x : (r < k1)%nat -> x ∈ build_msgs (cell k1 k2 n s b r <$> seq 0 n) -> x ∈ row_msgs b.
Proof using.
  intros Hr Hx. apply list_elem_of_In, in_concat. eexists. split; [|by apply list_elem_of_In].
  apply list_elem_of_In, list_elem_of_fmap. exists r. split; [done|]. apply elem_of_seq. cbn. clear - Hr. lia.
Qed.
Lemma default_check_None b : length b = length blob -> collision_free (fun x => x ∈ row_msgs b ++ row_msgs blob) ->
  default_consistency_check (encoder k1 k2 n s b) md None = Ok tt <-> b = blob.
Proof using All.
  intros Hb HQ. unfold default_consistency_check. cbn [be_config encoder n_source_symbols config source_symbols_primary mbind outcome_bind].
  rewrite Nat2Z.id, oforall_Ok, Forall_seq. split.
  - intros H. apply (systematic_roots_inj _ k1 k2 n s b blob (same_length_supported b Hb) HS Hb HQ).
    + intros r Hr x [Hx|Hx]%elem_of_app; apply elem_of_app; [left|right]; by apply (in_row_msgs _ r).
    + intros r Hr. specialize (H r ltac:(lia)). rewrite check_row_ok in H by done. cbn [orb] in H.
      case_bool_decide as Heq; [by rewrite Heq|done].
  - intros -> i Hi. rewrite check_row_ok by (done || lia). by rewrite bool_decide_eq_true_2, orb_true_r.
Qed.
Lemma default_check_honest already : match already with Some l => length l = k1 | None => True end ->
  default_consistency_check (encoder k1 k2 n s blob) md already = Ok tt.
Proof using All.
  intros Hal. unfold default_consistency_check. cbn [be_config encoder n_source_symbols config source_symbols_primary].
  assert (match already with Some l => assert (zlen l =? Z.of_nat k1) "assertion `left == right` failed" | None => Ok (E := DecodeError) tt end = Ok tt) as ->
    by (destruct already; [rewrite Hal, Z.eqb_refl|]; done).
  cbn [mbind outcome_bind]. rewrite Nat2Z.id. apply oforall_Ok, Forall_seq. intros i Hi.
  rewrite check_row_ok by (done || lia). by rewrite bool_decide_eq_true_2, orb_true_r.
Qed.
(** C21: when the default check is made on every row, as it is for secondary slivers,
    the metadata of a blob yields this blob only: whatever slivers are decoded,
    the result is an error or the blob, unless BLAKE2b collides on the symbols
    of the two blobs. *)
Theorem default_check_sound slivers b :
  decode_and_verify conf Secondary md slivers Default = Ok b ->
  collision_free (fun x => x ∈ row_msgs b ++ row_msgs blob) -> b = blob.
Proof using All.
  intros H HQ. unfold decode_and_verify in H. cbn [is_primary andb] in H.
  change (unencoded_length (metadata md)) with (zlen blob) in H.
  apply bind_Ok_inv in H as ([b' already] & Hdec & H). apply bind_Ok_inv in Hdec as (b'' & Hdec & [= -> <-]).
  assert (length b' = length blob) as Hl.
  { apply config_decode_length with (s := Z.of_nat s) in Hdec; [lia|done|cbn; lia|]. cbn. destruct HS. lia. }
  rewrite new_encoder_ok in H by done. cbn [map_err mbind outcome_bind] in H.
  apply bind_Ok_inv in H as ([] & H & [= ->]). by apply default_check_None in H.
Qed.

Lemma marks_length m (slivers : list SliverData) l : length (fold_left (mark m) slivers l) = length l.
Proof using.
  revert l. induction slivers as [|x slivers IH]; intros l; cbn [fold_left]; [done|]. rewrite IH. unfold mark.
  destruct (_ <? _); [apply length_insert|done].
Qed.
(** C17: the slivers of the encoder pass every check: from as many distinct ones as
    there are source symbols, [decode_and_verify] returns the blob, for either
    axis and every kind of check; from fewer, [DecodingUnsuccessful]. *)
Theorem decode_and_verify_roundtrip e slivers check :
  Forall (authentic k1 k2 n s blob e) slivers ->
  decode_and_verify conf e md slivers check
  = if Z.of_nat (count_of k1 k2 e) <=? Z.of_nat (size (fitting k1 k2 s e slivers)) then Ok blob else Err DecodingUnsuccessful.
Proof using All.
  intros Ha. destruct (config_decode_iter_ok k1 k2 n s blob HS e slivers Hsize Ha) as [pulled Hit].
  unfold decode_and_verify, config_decode. change (unencoded_length (metadata md)) with (zlen blob). rewrite Hit.
  destruct (Z.of_nat (count_of k1 k2 e) <=? Z.of_nat (size (fitting k1 k2 s e slivers))); [|by destruct (_ && _)].
  assert (forall already, match already with Some l => length l = k1 | None => True end ->
    ('(decoded_blob, already_verified_slivers) ← Ok (blob, already);
     match check with
     | Skip => Ok tt
     | Default => encoder ← map_err (blob_encoder_new conf decoded_blob) (fun _ => DecodeDataTooLarge);
                  default_consistency_check encoder md already_verified_slivers
     | Strict => strict_consistency_check conf (blob_id md) decoded_blob
     end ;; Ok decoded_blob) = Ok blob) as Hcheck.
  { intros already Hal. cbn [mbind outcome_bind]. destruct check; [done|..].
    - rewrite new_encoder_ok by done. cbn [map_err mbind outcome_bind]. by rewrite default_check_honest.
    - unfold strict_consistency_check. rewrite new_encoder_ok by done. cbn [map_err mbind outcome_bind].
      unfold compute_metadata. rewrite compute_metadata_ok by done. cbn [no_error map_err mbind outcome_bind fst].
      by rewrite bool_decide_eq_true_2. }
  destruct e; cbn [is_primary andb]; [destruct (bool_decide (check = Default))|];
    cbn [mbind outcome_bind]; apply Hcheck; try done.
  rewrite marks_length, length_replicate. cbn. lia.
Qed.

(** Every message hashed to encode a blob of symbols of [size] bytes. *)
Definition all_msgs (size : nat) (b : bytes) : list bytes :=
  metadata_msgs (metadata (committed_metadata k1 k2 n size b))
    ++ concat ((fun r => build_msgs (cell k1 k2 n size b r <$> seq 0 n)) <$> seq 0 k1).
Lemma encoder_accepts b enc : zlen b < 2 ^ 63 ->
  (forall z, 2 <= z < 65536 -> z `mod` 2 = 0 -> rs_new (Z.of_nat k1) (mn - Z.of_nat k1) z = Ok tt /\
     rs_new (Z.of_nat k2) (mn - Z.of_nat k2) z = Ok tt) ->
  blob_encoder_new conf b = Ok enc -> exists size, enc = encoder k1 k2 n size b /\ Supported k1 k2 n size b /\
    symbol_size_for_blob conf (zlen b) = Ok (Z.of_nat size).
Proof using All.
  intros Hb Hcodes H. unfold blob_encoder_new in H. apply bind_Ok_inv in H as (z & Hz & [= <-]).
  cbn [source_symbols_primary source_symbols_secondary config] in Hz. assert (HS' := HS). destruct HS' as [Hk1 Hk2 Hn _ _ _ _].
  change (required_alignment RS2) with 2 in Hz.
  destruct (compute_symbol_size_Ok (zlen b) (Z.of_nat k1 * Z.of_nat k2) z ltac:(lia) ltac:(nia) Hz) as (Hz1 & Hz2 & Hz3).
  destruct (Hcodes z Hz1 Hz2) as [Hc1 Hc2]. exists (Z.to_nat z).
  split; [unfold encoder; cbn; by rewrite Z2Nat.id by lia|].
  split; [|rewrite Z2Nat.id by lia; exact Hz]. split; rewrite ?Z2Nat.id; try done; try lia.
Qed.
(** C22: the strict check yields this blob only, for slivers of either axis: a decoded
    blob with the identifier of another is the same blob. *)
Theorem strict_check_sound e slivers b :
  zlen b < 2 ^ 63 -> zlen blob < 2 ^ 63 ->
  (forall z, 2 <= z < 65536 -> z `mod` 2 = 0 -> rs_new (Z.of_nat k1) (mn - Z.of_nat k1) z = Ok tt /\
     rs_new (Z.of_nat k2) (mn - Z.of_nat k2) z = Ok tt) ->
  decode_and_verify conf e md slivers Strict = Ok b ->
  (forall size, symbol_size_for_blob conf (zlen b) = Ok (Z.of_nat size) ->
     collision_free (fun x => x ∈ all_msgs size b ++ all_msgs s blob)) -> b = blob.
Proof using All.
  intros Hb Hblob Hcodes H HQ. unfold decode_and_verify in H. apply bind_Ok_inv in H as ([b' already] & _ & H).
  apply bind_Ok_inv in H as ([] & H & [= ->]). unfold strict_consistency_check in H.
  apply bind_Ok_inv in H as (enc & Henc & H). apply map_err_Ok in Henc.
  destruct (encoder_accepts b enc Hb Hcodes Henc) as (size & -> & HSb & Hsb). specialize (HQ size Hsb).
  unfold compute_metadata in H. rewrite compute_metadata_ok in H by done. cbn [no_error map_err mbind outcome_bind fst] in H.
  apply ensure_Ok, bool_decide_eq_true in H. unfold all_msgs in HQ.
  assert (forall z d, zlen d < 2 ^ 63 -> metadata_ok (metadata (committed_metadata k1 k2 n z d))) as Hok.
  { intros z d Hd. split; [cbn; lia|]. rewrite committed_hashes. apply Forall_fmap, Forall_true. intros i. split; apply root_node_ok. }
  destruct (from_sliver_pair_metadata_inj _ (metadata (committed_metadata k1 k2 n size b)) (metadata md) HQ)
    as (_ & Hl & Hh); [intros x; rewrite !elem_of_app; tauto|by apply Hok|by apply Hok|by rewrite !committed_hashes, !length_fmap|exact H|].
  assert (length b = length blob) as Hlen by (cbn in Hl; lia).
  assert (size = s) as -> by (rewrite Hlen, Hsize in Hsb; injection Hsb; lia).
  apply (systematic_roots_inj _ k1 k2 n s b blob HSb HS Hlen HQ).
  - intros r Hr x [Hx|Hx]%elem_of_app; apply elem_of_app; [left|right]; apply elem_of_app; right; by apply (in_row_msgs _ r).
  - intros r Hr. rewrite !committed_hashes in Hh. apply (f_equal (lookup r)) in Hh.
    rewrite !list_lookup_fmap, lookup_seq_lt in Hh by (destruct HS; lia). cbn [fmap option_fmap option_map Nat.add] in Hh.
    injection Hh as Hh. unfold pair_leaf_input in Hh.
    apply app_inj_1 in Hh as [Hroot _]; [|by rewrite !node_bytes_length by apply root_node_ok]. exact Hroot.
Qed.
End Checks.

(** ** Concrete runs *)

Section ParityConsistency.
Local Existing Instance parity_rs.
Local Existing Instance parity_rs_laws.
Local Existing Instance parity_decode.
Local Existing Instance parity_decode_laws.
Local Existing Instance parity_rs_commutes.
Local Notation three_metadata := (committed_metadata 1 2 3 2 three_bytes).
Lemma default_check_sound_witness : exists b,
  decode_and_verify three_shards Secondary three_metadata received_slivers Default = Ok b /\ b = three_bytes.
Proof.
  exists three_bytes. assert (decode_and_verify three_shards Secondary three_metadata received_slivers Default
    = Ok three_bytes) as Hrun by (vm_compute; reflexivity). split; [exact Hrun|].
  apply (default_check_sound 1 2 3 2 three_bytes three_supported eq_refl received_slivers).
  - exact Hrun.
  - apply collision_free_list_ok. vm_compute. reflexivity.
Defined.
Lemma decode_and_verify_roundtrip_witness :
  decode_and_verify three_shards Secondary three_metadata received_slivers Strict = Ok three_bytes.
Proof.
  rewrite (decode_and_verify_roundtrip 1 2 3 2 three_bytes three_supported eq_refl Secondary received_slivers Strict); [reflexivity|].
  unfold received_slivers. rewrite !Forall_cons. split_and!; [|intros [=]|..|apply Forall_nil_2]; intros _; eexists;
    (split; [|reflexivity]; lia).
Defined.
Lemma strict_check_sound_witness : exists b,
  decode_and_verify three_shards Secondary three_metadata received_slivers Strict = Ok b /\ b = three_bytes.
Proof.
  exists three_bytes. assert (decode_and_verify three_shards Secondary three_metadata received_slivers Strict
    = Ok three_bytes) as Hrun by (vm_compute; reflexivity). split; [exact Hrun|].
  apply (strict_check_sound 1 2 3 2 three_bytes three_supported eq_refl Secondary received_slivers three_bytes).
  - reflexivity.
  - reflexivity.
  - intros z _ _. split; reflexivity.
  - exact Hrun.
  - intros size H. assert (size = 2%nat) as -> by (apply Nat2Z.inj; by injection H).
    apply collision_free_list_ok. vm_compute. reflexivity.
Defined.

(** Metadata of an inconsistent blob: the rows of two primary slivers do not
    belong to one matrix. *)
Definition first_sliver : SliverData := {| sd_symbols := {| sy_data := [1; 2; 3; 0]; sy_symbol_size := 2 |}; sd_index := 0 |}.
Definition second_sliver : SliverData := {| sd_symbols := {| sy_data := [5; 6; 7; 0]; sy_symbol_size := 2 |}; sd_index := 1 |}.
Definition root_in (x : SliverData) : Node := match get_merkle_root three_shards Primary x with Ok r => r | _ => Empty end.
Definition inconsistent_blob : BlobMetadataWithId :=
  new_verified_from_metadata [{| primary_hash := root_in first_sliver; secondary_hash := Empty |};
    {| primary_hash := root_in second_sliver; secondary_hash := Empty |}; {| primary_hash := Empty; secondary_hash := Empty |}] RS2 3.
(** A surplus sliver that the decoder takes from its input and drops is taken for
    verified, so that its row of the decoded blob is not checked: two readers that
    make the default check of verified slivers against one verified metadata get
    two blobs. *)
Example default_check_skips_surplus :
  metadata_verify inconsistent_blob three_shards = Ok inconsistent_blob /\
  sliver_verify three_shards Primary first_sliver (metadata inconsistent_blob) = Ok tt /\
  sliver_verify three_shards Primary second_sliver (metadata inconsistent_blob) = Ok tt /\
  decode_and_verify three_shards Primary inconsistent_blob [first_sliver] Default = Ok [1; 2; 3] /\
  decode_and_verify three_shards Primary inconsistent_blob [second_sliver] Default = Err DecodeVerificationError /\
  decode_and_verify three_shards Primary inconsistent_blob [second_sliver; first_sliver] Default = Ok [5; 6; 7].
Proof. vm_compute. done. Qed.
End ParityConsistency.
