(* ===== verification/Agreement.v ===== *)
(** Readers that make the default consistency check agree ([decode_and_verify] of
    [encoding/config.rs] with [default_consistency_check] of
    [encoding/blob_encoding.rs]), whatever metadata they read with: the encoder
    of the blob may have been malicious.

    The first half follows primary slivers that nobody vouches for through the
    decoder: what is decoded has them in their places.  This needs one more
    documented fact of the codec, [ReedSolomonRestores]. *)
From S2P Require Import Prelude Crypto WalrusMerkle WalrusConfig Rslh WalrusOpen ReedSolomon BlobEncoding BlobMatrix Decoder.
From S2P Require Import Slivers SymbolReader EncodedBlob Consistency.

(** [restored_original_iter] lists shards that were not given. *)
Class ReedSolomonRestores (D : ReedSolomonDecode) : Prop := rs_restores_missing :
  forall k m s originals recoveries restored,
    rs_decode k m s originals recoveries = inr restored -> Forall (fun p => p.1 ∉ originals.*1) restored.

(** ** Writing symbols that may not be the encoder's *)

Section Line.
Context `{D : ReedSolomonDecode} {DR : ReedSolomonRestores D}.
Context (k n s : nat) (Hs : (0 < s)%nat).

Lemma symbols_write_inv (l : list bytes) i x w : sized s l -> symbols_write (sym_list s l) i x = Ok w ->
  exists p, i = Z.of_nat p /\ (p < length l)%nat /\ length x = s /\ w = sym_list s (<[p := x]> l).
Proof using Hs.
  intros Hl H. pose proof H as H'. unfold symbols_write in H.
  apply bind_Ok_inv in H as (dest & Hd%expect_Ok & H). apply bind_Ok_inv in H as (x' & Hx & _).
  unfold copy_from_slice in Hx. apply bind_Ok_inv in Hx as ([] & Hx%assert_Ok & _). bool_hyps.
  pose proof (get_range_length _ _ _ _ Hd) as Hdl. apply get_range_Some in Hd as (H1 & _ & H3 & _).
  cbn [sym_list sy_data sy_symbol_size] in *. rewrite (concat_length s) in H3 by done.
  exists (Z.to_nat i). assert (0 <= i) by nia. assert (Z.to_nat i < length l)%nat by nia.
  assert (length x = s) by lia. split; [lia|]. split; [done|]. split; [done|].
  rewrite <- (Z2Nat.id i), symbols_write_list in H' by done. by injection H'.
Qed.
Lemma write_restored l restored w : sized s l ->
  ofold (fun symbols '(index, symbol) => symbols_write symbols index symbol) (sym_list s l) restored = Ok w ->
  exists l', w = sym_list s l' /\ sized s l' /\ length l' = length l /\
    forall p, Z.of_nat p ∉ restored.*1 -> l' !! p = l !! p.
Proof using Hs.
  revert l. induction restored as [|[i x] restored IH]; intros l Hl; cbn [ofold].
  - intros [= <-]. by exists l.
  - intros (w1 & (p & -> & Hp & Hx & ->)%symbols_write_inv & H)%bind_Ok_inv; [|done].
    apply IH in H as (l' & -> & Hl' & Hlen & Hkeep); [|by apply sized_insert].
    exists l'. split; [done|]. split; [done|]. split; [by rewrite Hlen, length_insert|].
    intros q. cbn [fmap list_fmap fst]. rewrite not_elem_of_cons. intros [Hq Hqr].
    rewrite Hkeep, list_lookup_insert_ne by (done || by intros <-). done.
Qed.

(** The state of a decoder that was given the symbols [xs]. *)
Record Given (xs : list DecodingSymbol) (d : ReedSolomonDecoder) (l : list bytes) : Prop := {
  gv_k : dc_n_source_symbols d = Z.of_nat k;
  gv_n : dc_n_shards d = Z.of_nat n;
  gv_symbols : dc_source_symbols d = sym_list s l;
  gv_sized : sized s l /\ length l = k;
  gv_originals : forall x, x ∈ xs -> ds_index x < Z.of_nat k ->
    ds_index x ∈ (dc_originals d).*1 /\ exists p, ds_index x = Z.of_nat p /\ l !! p = Some (ds_data x);
}.
Lemma fresh_given : Given [] (fresh_decoder k n s) (replicate k (zero_symbol s)).
Proof using.
  split; cbn; [done|done|by apply symbols_zeros_list| |by intros x ?%elem_of_nil].
  split; [apply sized_zeros|apply length_replicate].
Qed.
Lemma add_symbol_given xs d l x d' : Given xs d l -> length (ds_data x) = s -> ds_index x ∉ (ds_index <$> xs) ->
  add_symbol d x = Ok d' -> exists l', Given (xs ++ [x]) d' l'.
Proof using Hs.
  intros [Hk Hn Hsy [Hsz Hl] Ho] Hx Hnew H. unfold add_symbol in H. rewrite Hsy, Hk in H.
  cbn [sym_list sy_symbol_size] in H. rewrite Hx, Z.eqb_refl in H. cbn [negb] in H. fold (sym_list s l) in H.
  destruct (Z.ltb_spec (ds_index x) (Z.of_nat k)) as [Hlt|Hge].
  - apply bind_Ok_inv in H as (w & (p & Hp & Hpl & _ & ->)%symbols_write_inv & [= <-]); [|done].
    exists (<[p := ds_data x]> l). split; cbn; [done..| |].
    + split; [by apply sized_insert|by rewrite length_insert].
    + intros y [Hy| ->%list_elem_of_singleton]%elem_of_app Hyk; rewrite fmap_app.
      * destruct (Ho y Hy Hyk) as (Hin & q & Hq & Hlq). split; [apply elem_of_app; by left|]. exists q. split; [done|].
        rewrite list_lookup_insert_ne; [done|]. intros ->. apply Hnew. rewrite Hp, <- Hq. by apply list_elem_of_fmap_2.
      * split; [apply elem_of_app; right; by apply list_elem_of_singleton|]. exists p. split; [done|].
        by apply list_lookup_insert_eq.
  - injection H as <-. exists l. split; cbn; [done..|].
    intros y [Hy| ->%list_elem_of_singleton]%elem_of_app Hyk; [by apply Ho|lia].
Qed.
Lemma add_symbols_given todo xs d l d' : Given xs d l -> Forall (fun x => length (ds_data x) = s) todo ->
  NoDup (ds_index <$> (xs ++ todo)) -> ofold add_symbol d todo = Ok d' -> exists l', Given (xs ++ todo) d' l'.
Proof using Hs.
  revert xs d l. induction todo as [|x todo IH]; intros xs d l Hg Hf Hnd; cbn [ofold].
  - intros [= <-]. exists l. by rewrite app_nil_r.
  - intros (d1 & Hx & H)%bind_Ok_inv. apply Forall_cons in Hf as [Hxl Hf].
    rewrite cons_middle, app_assoc in Hnd. assert (ds_index x ∉ (ds_index <$> xs)) as Hni.
    { rewrite !fmap_app in Hnd. apply NoDup_app in Hnd as (Hnd & _ & _). apply NoDup_app in Hnd as (_ & Hd & _).
      intros Hin. apply (Hd _ Hin). by left. }
    destruct (add_symbol_given xs d l x d1 Hg Hxl Hni Hx) as [l1 Hg1].
    rewrite cons_middle, app_assoc. by apply (IH (xs ++ [x]) d1 l1).
Qed.
(** A decoding that succeeds has every symbol that it was given in its place. *)
Lemma decode_given xs d' data : Forall (fun x => length (ds_data x) = s) xs -> NoDup (ds_index <$> xs) ->
  decode_or_fail (fresh_decoder k n s) xs = Ok (d', data) ->
  d' = fresh_decoder k n s /\ exists l, data = concat l /\ sized s l /\ length l = k /\
    forall x, x ∈ xs -> ds_index x < Z.of_nat k -> exists p, ds_index x = Z.of_nat p /\ l !! p = Some (ds_data x).
Proof using Hs DR.
  intros Hf Hnd H. unfold decode_or_fail in H. apply bind_Ok_inv in H as ([d1 result] & Hdec%no_error_Ok & H).
  destruct result as [|data']; [done|]. injection H as -> ->. unfold decode in Hdec.
  apply bind_Ok_inv in Hdec as (d2 & Hadd & Hdec).
  apply (add_symbols_given xs [] _ _ _ fresh_given Hf Hnd) in Hadd as [l [Hk Hn Hsy [Hsz Hl] Ho]].
  rewrite Hk, Hn, Hsy in Hdec. cbn [sym_list sy_symbol_size] in Hdec. fold (sym_list s l) in Hdec.
  destruct (rs_decode _ _ _ _ _) as [e|restored] eqn:Hr; [done|].
  apply rs_restores_missing in Hr. apply bind_Ok_inv in Hdec as (w & Hw & [= <- <-]).
  apply write_restored in Hw as (l' & -> & Hsz' & Hl' & Hkeep); [|done].
  split; [done|]. exists l'. split; [done|]. split; [done|]. split; [lia|].
  intros x Hx Hxk. destruct (Ho x Hx Hxk) as (Hin & p & Hp & Hlp). exists p. split; [done|].
  rewrite Hkeep; [done|]. intros ((j & y) & Hj & Hjin)%list_elem_of_fmap. cbn in Hj. subst j.
  rewrite Forall_forall in Hr. specialize (Hr _ Hjin). cbn in Hr. by rewrite <- Hp in Hr.
Qed.
End Line.

(** ** Decoding primary slivers that may not be the encoder's *)

Section Primary.
Context `{D : ReedSolomonDecode} {DR : ReedSolomonRestores D}.
Context (k1 k2 n s : nat) (size : Z) (Hk2 : (0 < k2)%nat) (Hs : (0 < s)%nat).

(** Symbol [c] of a sliver. *)
Definition piece (x : SliverData) (c : nat) : bytes := chunks s (sy_data (sd_symbols x)) !!! c.
Definition full_sliver (x : SliverData) : Prop :=
  length (sy_data (sd_symbols x)) = (k2 * s)%nat /\ sy_symbol_size (sd_symbols x) = Z.of_nat s.
Definition holding (xs : list SliverData) (w : Symbols) : BlobDecoder :=
  {| bd_decoder := fresh_decoder k1 n s; bd_blob_size := size; bd_symbol_size := Z.of_nat s;
     bd_sliver_count := Z.of_nat k1; bd_sliver_length := Z.of_nat k2; bd_n_columns := Z.of_nat k2;
     bd_workspace := w; bd_sliver_indices := sd_index <$> xs |}.
Definition stacked (xs : list SliverData) : Symbols :=
  {| sy_data := concat ((fun x => sy_data (sd_symbols x)) <$> xs); sy_symbol_size := Z.of_nat s |}.

Lemma pieces x : full_sliver x ->
  chunks s (sy_data (sd_symbols x)) = piece x <$> seq 0 k2 /\ sized s (piece x <$> seq 0 k2).
Proof using Hk2 Hs.
  intros [Hl _]. pose proof (chunks_length s k2 _ Hs Hl) as Hc.
  assert (chunks s (sy_data (sd_symbols x)) = piece x <$> seq 0 k2) as Heq.
  { apply list_eq. intros c. rewrite list_lookup_fmap. destruct (decide (c < k2)%nat) as [Hlt|Hge].
    - rewrite lookup_seq_lt by done. apply list_lookup_lookup_total_lt. lia.
    - rewrite !lookup_ge_None_2; rewrite ?length_seq; (done || lia). }
  split; [done|]. rewrite <- Heq. by apply (chunks_exact_full s k2).
Qed.
Lemma piece_length x c : full_sliver x -> (c < k2)%nat -> length (piece x c) = s.
Proof using Hk2 Hs.
  intros Hx Hc. destruct (pieces x Hx) as [_ Hsz]. apply (sized_lookup s _ c _ Hsz).
  by rewrite list_lookup_fmap, lookup_seq_lt.
Qed.

(** Distinct slivers, not more than are needed, are all taken and all kept. *)
Lemma write_all_slivers xs pre : Forall full_sliver xs -> NoDup (sd_index <$> (pre ++ xs)) ->
  (length (pre ++ xs) <= k1)%nat ->
  write_slivers Primary xs (holding pre (stacked pre)) (list_to_set (sd_index <$> pre)) (zlen pre)
  = Ok (holding (pre ++ xs) (stacked (pre ++ xs)), zlen (pre ++ xs), length xs).
Proof using All.
  revert pre. induction xs as [|x xs IH]; intros pre Hf Hnd Hle; cbn [write_slivers]; [by rewrite app_nil_r|].
  apply Forall_cons in Hf as [[Hxl Hxs] Hf].
  assert (length pre < k1)%nat as Hlt by (rewrite length_app in Hle; cbn [length] in Hle; lia).
  cbn [holding bd_sliver_count bd_sliver_length bd_symbol_size]. fold (holding pre (stacked pre)).
  rewrite (proj2 (Z.eqb_neq _ _)) by lia.
  rewrite bool_decide_eq_false_2.
  2: { intros Hin%elem_of_list_to_set. rewrite fmap_app in Hnd. apply NoDup_app in Hnd as (_ & Hd & _).
       apply (Hd _ Hin). by left. }
  unfold symbols_len. rewrite Hxs, Hxl, Nat2Z.inj_mul, Z.div_mul, !Z.eqb_refl by lia. cbn [negb orb].
  unfold write_primary_sliver_to_workspace, symbols_extend.
  cbn [bd_workspace holding stacked sy_symbol_size sy_data]. rewrite Hxl, Nat2Z.inj_mul, Z.mod_mul by lia.
  cbn [Z.eqb ensure mbind outcome_bind unwrap].
  rewrite cons_middle, app_assoc in Hnd, Hle |- *.
  specialize (IH (pre ++ [x]) Hf Hnd Hle).
  assert (push_index (set_workspace (holding pre (stacked pre))
      {| sy_data := concat ((fun x => sy_data (sd_symbols x)) <$> pre) ++ sy_data (sd_symbols x);
         sy_symbol_size := Z.of_nat s |}) (sd_index x)
    = holding (pre ++ [x]) (stacked (pre ++ [x]))) as Hst.
  { unfold push_index, set_workspace, holding, stacked. cbn. rewrite !fmap_app, concat_app. cbn. by rewrite app_nil_r. }
  rewrite Hst. replace ({[sd_index x]} ∪ list_to_set (sd_index <$> pre)) with
    (list_to_set (sd_index <$> (pre ++ [x])) : gset Z)
    by (apply set_eq; intros z; rewrite fmap_app; set_solver).
  replace (zlen pre + 1) with (zlen (pre ++ [x])) by (rewrite length_app; cbn [length]; lia).
  by rewrite IH.
Qed.

(** One line: its symbols are those of the slivers, and what is decoded has them
    at the slivers' indices; other columns are not touched. *)
Lemma line_symbols_given xs g j : (j < k2)%nat -> length xs = k1 -> table_sized s k1 k2 g ->
  (forall r x, xs !! r = Some x -> g (k2 * r + j)%nat = piece x j) ->
  line_symbols Primary (holding xs (table s k1 k2 g)) (Z.of_nat j)
  = Ok ((fun x => {| ds_index := sd_index x; ds_data := piece x j |}) <$> xs).
Proof using All.
  intros Hj Hl Hg Hrows. unfold line_symbols. cbn [holding bd_sliver_indices bd_workspace]. apply omapM_Ok.
  apply Forall2_same_length_lookup. split; [by rewrite length_imap, !length_fmap|].
  intros r [r' idx] y Hr Hy. rewrite list_lookup_imap, list_lookup_fmap in Hr. rewrite list_lookup_fmap in Hy.
  destruct (xs !! r) as [x|] eqn:Hx; [|done]. injection Hr as <- <-. injection Hy as <-.
  pose proof (lookup_lt_Some _ _ _ Hx). cbn [workspace_index bd_n_columns holding].
  replace (Z.of_nat r * Z.of_nat k2 + Z.of_nat j) with (Z.of_nat (k2 * r + j)) by lia.
  rewrite table_at by (done || nia). cbn [mbind outcome_bind]. by rewrite (Hrows r x).
Qed.
Lemma decode_line_given xs g j d' : (j < k2)%nat -> length xs = k1 -> Forall full_sliver xs ->
  NoDup (sd_index <$> xs) -> table_sized s k1 k2 g ->
  (forall r x, xs !! r = Some x -> g (k2 * r + j)%nat = piece x j) ->
  decode_line Primary (holding xs (table s k1 k2 g)) j = Ok d' ->
  exists g', d' = holding xs (table s k1 k2 g') /\ table_sized s k1 k2 g' /\
    (forall p, (p mod k2 <> j)%nat -> g' p = g p) /\
    (forall x, x ∈ xs -> sd_index x < Z.of_nat k1 -> g' (k2 * Z.to_nat (sd_index x) + j)%nat = piece x j).
Proof using All.
  intros Hj Hl Hf Hnd Hg Hrows H. unfold decode_line in H. rewrite line_symbols_given in H by done.
  cbn [mbind outcome_bind] in H. apply bind_Ok_inv in H as ([dec data] & Hdec & H).
  change (bd_decoder (holding xs (table s k1 k2 g))) with (fresh_decoder k1 n s) in Hdec.
  apply (decode_given k1 n s Hs) in Hdec as (-> & l & -> & Hsz & Hll & Hin).
  2: { apply Forall_fmap. eapply Forall_impl; [exact Hf|]. intros x Hx. cbn. by apply piece_length. }
  2: { by rewrite <- list_fmap_compose. }
  apply no_error_Ok in H. unfold write_line in H.
  cbn [set_decoder set_workspace holding bd_workspace bd_n_columns bd_symbol_size] in H.
  rewrite Nat2Z.id, chunks_concat in H by done.
  rewrite (write_column_ok s k1 k2 Hk2 _ _ j (fun r => Z.of_nat k2 * Z.of_nat r + Z.of_nat j)) in H by (done || lia).
  injection H as <-. eexists. split; [reflexivity|]. split; [|split].
  - intros p Hp. destruct (position_split k1 k2 Hk2 p Hp) as (_ & Hr & _). cbv beta.
    destruct (_ =? _)%nat; [|by apply Hg]. apply (sized_lookup s l (p / k2)); [done|].
    apply list_lookup_lookup_total_lt. lia.
  - intros p Hp. cbv beta. by rewrite (proj2 (Nat.eqb_neq _ _)).
  - intros x Hx Hxk. destruct (Hin {| ds_index := sd_index x; ds_data := piece x j |}) as (p & Hp & Hlp);
      [by apply (list_elem_of_fmap_2 (fun x => {| ds_index := sd_index x; ds_data := piece x j |}))|done|].
    cbn in Hp, Hlp. rewrite Hp, Nat2Z.id. cbv beta. destruct (position k2 p j Hj) as [-> ->].
    rewrite Nat.eqb_refl. by apply list_lookup_total_correct.
Qed.
Lemma perform_decoding_given xs g d' : length xs = k1 -> Forall full_sliver xs ->
  NoDup (sd_index <$> xs) -> table_sized s k1 k2 g ->
  (forall r x c, (c < k2)%nat -> xs !! r = Some x -> g (k2 * r + c)%nat = piece x c) ->
  perform_decoding Primary (holding xs (table s k1 k2 g)) = Ok d' ->
  exists g', d' = holding xs (table s k1 k2 g') /\ table_sized s k1 k2 g' /\
    (forall x c, x ∈ xs -> sd_index x < Z.of_nat k1 -> (c < k2)%nat ->
       g' (k2 * Z.to_nat (sd_index x) + c)%nat = piece x c).
Proof using All.
  intros Hl Hf Hnd Hg Hrows H. unfold perform_decoding in H. cbn [bd_sliver_length holding] in H.
  rewrite Nat2Z.id in H. fold (holding xs (table s k1 k2 g)) in H.
  apply (ofold_inv (fun done d => exists g', d = holding xs (table s k1 k2 g') /\ table_sized s k1 k2 g' /\
    (forall r x c, (length done <= c < k2)%nat -> xs !! r = Some x -> g' (k2 * r + c)%nat = piece x c) /\
    (forall x c, x ∈ xs -> sd_index x < Z.of_nat k1 -> (c < length done)%nat ->
       g' (k2 * Z.to_nat (sd_index x) + c)%nat = piece x c))) in H.
  - destruct H as (g' & -> & Hg' & _ & Hin). rewrite length_seq in Hin. exists g'. split; [done|].
    split; [done|]. intros. by apply Hin.
  - exists g. split; [done|]. split; [done|]. split; [|intros; cbn in *; lia].
    intros r x c [_ Hc] Hx. by apply Hrows.
  - intros dn j todo d d1 Hseq (g1 & -> & Hg1 & Hr1 & Hd1) Hstep.
    assert (j = length dn /\ (j < k2)%nat) as [-> Hj].
    { assert (seq 0 k2 !! length dn = Some j) as Hj by (by rewrite Hseq, list_lookup_middle).
      apply lookup_seq in Hj. lia. }
    apply decode_line_given in Hstep as (g2 & -> & Hg2 & Hsame & Hat); [|done..|].
    2: { intros r x Hx. by apply Hr1. }
    exists g2. split; [done|]. split; [done|]. rewrite length_app. cbn [length]. split.
    + intros r x c Hc Hx. destruct (position k2 r c ltac:(lia)) as [_ Hm].
      rewrite Hsame by lia. apply Hr1; [lia|done].
    + intros x c Hx Hxk Hc. destruct (decide (c = length dn)) as [->|Hne]; [by apply Hat|].
      destruct (position k2 (Z.to_nat (sd_index x)) c ltac:(lia)) as [_ Hm].
      rewrite Hsame by lia. apply Hd1; [done|done|lia].
Qed.

Definition stacked_at (xs : list SliverData) (r c : nat) : bytes :=
  match xs !! r with Some x => piece x c | None => [] end.
Lemma stacked_table xs : length xs = k1 -> Forall full_sliver xs ->
  stacked xs = table s k1 k2 (fun p => stacked_at xs (p / k2) (p mod k2)).
Proof using All.
  intros Hl Hf. unfold stacked, table, sym_list. f_equal. rewrite <- concat_rows, <- concat_nested. f_equal.
  rewrite <- list_fmap_compose. apply list_eq. intros r. rewrite !list_lookup_fmap.
  destruct (xs !! r) as [x|] eqn:Hx.
  - pose proof (lookup_lt_Some _ _ _ Hx). rewrite lookup_seq_lt by lia. cbn. f_equal.
    rewrite Forall_lookup in Hf. destruct (pieces x (Hf r x Hx)) as [Hp _].
    rewrite <- (concat_chunks s (sy_data (sd_symbols x))) at 1 by done. rewrite Hp. f_equal.
    apply list_fmap_ext. intros c c' _. unfold stacked_at. by rewrite Hx.
  - apply lookup_ge_None in Hx. rewrite lookup_ge_None_2; [done|]. rewrite length_seq. lia.
Qed.
Lemma stacked_sized xs : length xs = k1 -> Forall full_sliver xs ->
  table_sized s k1 k2 (fun p => stacked_at xs (p / k2) (p mod k2)).
Proof using All.
  intros Hl Hf p Hp. destruct (position_split k1 k2 Hk2 p Hp) as (_ & Hr & Hc). unfold stacked_at.
  destruct (lookup_lt_is_Some_2 xs (p / k2)) as [x Hx]; [lia|]. rewrite Hx. rewrite Forall_lookup in Hf.
  apply piece_length; [by apply (Hf (p / k2)%nat)|done].
Qed.
Lemma new_decoder_given d : symbol_size_for_blob (config k1 k2 n) size = Ok (Z.of_nat s) ->
  blob_decoder_new (config k1 k2 n) Primary size = Ok d -> d = holding [] (stacked []).
Proof using All.
  intros Hsize H. unfold blob_decoder_new in H. rewrite Hsize in H. cbn [map_err mbind outcome_bind] in H.
  unfold decoder_new in H. apply bind_Ok_inv in H as (dec & Hdec & H).
  apply bind_Ok_inv in Hdec as ([] & _ & [= <-]). by injection H as <-.
Qed.
Lemma config_decode_given xs b pulled : symbol_size_for_blob (config k1 k2 n) size = Ok (Z.of_nat s) ->
  Forall full_sliver xs -> NoDup (sd_index <$> xs) -> (length xs <= k1)%nat ->
  config_decode_iter (config k1 k2 n) Primary size xs = Ok (b, pulled) ->
  pulled = length xs /\ exists g, table_sized s k1 k2 g /\
    b = take (Z.to_nat size) (concat (g <$> seq 0 (k1 * k2))) /\
    forall x c, x ∈ xs -> sd_index x < Z.of_nat k1 -> (c < k2)%nat -> g (k2 * Z.to_nat (sd_index x) + c)%nat = piece x c.
Proof using All.
  intros Hsize Hf Hnd Hle H. unfold config_decode_iter in H.
  apply bind_Ok_inv in H as (d0 & ->%new_decoder_given & H); [|done].
  unfold blob_decoder_decode, check_and_write_slivers_to_workspace in H.
  pose proof (write_all_slivers xs [] Hf Hnd Hle) as Hw. cbn [app] in Hw.
  change (list_to_set (sd_index <$> [])) with (∅ : gset Z) in Hw. change (zlen []) with 0 in Hw. rewrite Hw in H.
  cbn [no_error map_err mbind outcome_bind] in H. change (bd_sliver_count (holding xs (stacked xs))) with (Z.of_nat k1) in H.
  apply bind_Ok_inv in H as ([d1 p1] & Hcount & H). apply bind_Ok_inv in Hcount as ([] & Hcount%ensure_Ok & [= <- <-]).
  apply Z.eqb_eq, Nat2Z.inj in Hcount. apply bind_Ok_inv in H as (d2 & H & [= <- <-]). split; [done|].
  rewrite stacked_table in H by done.
  apply perform_decoding_given in H as (g & -> & Hg & Hin); [|done..|by apply stacked_sized|].
  - exists g. done.
  - intros r x c Hc Hx. destruct (position k2 r c Hc) as [-> ->]. unfold stacked_at. by rewrite Hx.
Qed.
(** The row of a sliver in what is decoded. *)
Lemma table_row g i b : table_sized s k1 k2 g -> (i < k1)%nat ->
  b = take (Z.to_nat size) (concat (g <$> seq 0 (k1 * k2))) ->
  take (k2 * s) (drop (i * (k2 * s)) b) `prefix_of` concat ((fun c => g (k2 * i + c)%nat) <$> seq 0 k2).
Proof using All.
  intros Hg Hi ->.
  assert (concat (g <$> seq 0 (k1 * k2)) = concat ((fun r => concat ((fun c => g (k2 * r + c)%nat) <$> seq 0 k2)) <$> seq 0 k1)) as ->.
  { transitivity (concat (concat ((fun r => (fun c => g (k2 * r + c)%nat) <$> seq 0 k2) <$> seq 0 k1)));
      [|by rewrite <- concat_nested, <- list_fmap_compose].
    rewrite (concat_rows (fun r c => g (k2 * r + c)%nat)). f_equal. apply list_fmap_ext. intros q p [-> Hp]%lookup_seq.
    f_equal. apply (position_split k1 k2 Hk2). exact Hp. }
  set (rows := (fun r => concat ((fun c => g (k2 * r + c)%nat) <$> seq 0 k2)) <$> seq 0 k1).
  assert (sized (k2 * s) rows) as Hrows.
  { apply Forall_fmap, Forall_forall. intros r [_ Hr]%elem_of_seq. cbn. rewrite (concat_length s).
    - by rewrite length_fmap, length_seq.
    - apply Forall_fmap, Forall_forall. intros c [_ Hc]%elem_of_seq. apply Hg. nia. }
  assert (rows !! i = Some (concat ((fun c => g (k2 * i + c)%nat) <$> seq 0 k2))) as Hrow
    by (unfold rows; by rewrite list_lookup_fmap, lookup_seq_lt).
  rewrite skipn_firstn_comm, take_take, (concat_drop (k2 * s)) by done.
  rewrite (drop_S _ _ _ Hrow). cbn [concat]. pose proof (sized_lookup (k2 * s) rows i _ Hrows Hrow).
  rewrite take_app_le by lia. eexists. symmetry. apply take_drop.
Qed.
End Primary.

(** ** The rows that a successful read commits to *)

Lemma rows_of_list (m k : nat) (b : bytes) : (length b <= k * m)%nat ->
  concat ((fun i => take m (drop (i * m) b)) <$> seq 0 k) = b.
Proof.
  revert b. induction k as [|k IH]; intros b Hb.
  - destruct b; [done|cbn in Hb; lia].
  - cbn [seq fmap list_fmap concat Nat.mul]. rewrite drop_0, <- seq_shift, <- list_fmap_compose.
    rewrite (list_fmap_ext _ (fun i => take m (drop (i * m) (drop m b)))).
    + rewrite IH by (rewrite length_drop; lia). apply take_drop.
    + intros i j _. cbn. by rewrite drop_drop.
Qed.

Section Agreement.
Context `{HC : Crypto} {HL : CryptoLaws HC}.
Context `{R : ReedSolomon} `{D : ReedSolomonDecode} {RL : ReedSolomonLaws R} {DL : ReedSolomonDecodeLaws R D}
  {RC : ReedSolomonCommutes R} {DR : ReedSolomonRestores D}.
Context (k1 k2 n s : nat) (md : BlobMetadataWithId).
Local Notation len := (unencoded_length (metadata md)).
Local Notation mn := (Z.of_nat n).
Local Notation conf := (config k1 k2 n).
Local Notation code cs := (codeword (Z.of_nat k2) mn cs).
(** The encoding supports blobs of the length in the metadata. *)
Context (Hlen : 0 <= len) (HS : Supported k1 k2 n s (zeros len)).
Context (Hsize : symbol_size_for_blob conf len = Ok (Z.of_nat s)).

Lemma zeros_len : zlen (zeros len) = len.
Proof using Hlen. rewrite zeros_length. lia. Qed.
Lemma supported_blob b : zlen b = len -> Supported k1 k2 n s b /\ symbol_size_for_blob conf (zlen b) = Ok (Z.of_nat s).
Proof using All.
  intros Hb. split; [|by rewrite Hb]. destruct HS as [H1 H2 H3 H4 H5 H6 H7]. split; try done.
  pose proof zeros_len. lia.
Qed.

(** A sliver that was verified against the metadata. *)
Definition verified (x : SliverData) : Prop :=
  0 <= sd_index x /\ sliver_verify conf Primary x (metadata md) = Ok tt.
Definition sliver_tree (x : SliverData) : list bytes := build_msgs (code (chunks s (sy_data (sd_symbols x)))).
(** The row of the metadata for sliver [i]. *)
Definition primary_root (i : Z) (cs : list bytes) : Prop :=
  exists h, get_at (hashes (metadata md)) (to_pair_index true i mn) = Some h /\
    root (build (code cs)) = primary_hash h.

Lemma check_hash_root x : full_sliver k2 s x -> check_hash conf Primary x (metadata md) = Ok tt ->
  primary_root (sd_index x) (chunks s (sy_data (sd_symbols x))).
Proof using All.
  intros [Hl _] H. unfold check_hash in H. apply bind_Ok_inv in H as (h & Hh%expect_Ok & H).
  pose proof zeros_len as Hz.
  rewrite (sliver_root k1 k2 n s (zeros len) HS ltac:(by rewrite Hz) Primary x Hl) in H.
  cbn [unwrap mbind outcome_bind] in H. apply ensure_Ok, bool_decide_eq_true in H. exists h. done.
Qed.
Lemma verified_sliver x : verified x ->
  full_sliver k2 s x /\ primary_root (sd_index x) (chunks s (sy_data (sd_symbols x))).
Proof using All.
  intros [_ H]. pose proof zeros_len as Hz. unfold sliver_verify in H. apply bind_Ok_inv in H as (c & Hc & H).
  assert (encoding_type (metadata md) = RS2) as Htype by (by destruct (encoding_type (metadata md))).
  rewrite Htype in Hc. injection Hc as <-.
  apply bind_Ok_inv in H as ([] & _ & H). apply bind_Ok_inv in H as (correct & Hcorrect%no_error_Ok & H).
  apply bind_Ok_inv in H as ([] & ->%ensure_Ok & H).
  unfold has_correct_length in Hcorrect. rewrite <- Hz in Hcorrect.
  rewrite (sliver_size_ok k1 k2 n s (zeros len) HS ltac:(by rewrite Hz) Primary) in Hcorrect.
  cbn [attempt mbind outcome_bind] in Hcorrect. injection Hcorrect as Hl%Z.eqb_eq%Nat2Z.inj.
  apply bind_Ok_inv in H as (size & Hs & H). apply bind_Ok_inv in H as ([] & He%ensure_Ok & H).
  unfold metadata_symbol_size in Hs. rewrite Htype in Hs. cbn [get_for_type mbind outcome_bind] in Hs.
  assert (full_sliver k2 s x) as Hfull; [|split; [done|by apply check_hash_root]].
  split; [done|]. rewrite Hsize in Hs. injection Hs as <-. by apply Z.eqb_eq.
Qed.

(** Row [i] of a blob that is read is that of the metadata: all of it, or a prefix
    in the padding. *)
Definition committed_row (b : bytes) (i : nat) (cs : list bytes) : Prop :=
  length cs = k2 /\ sized s cs /\ primary_root (Z.of_nat i) cs /\
  take (k2 * s) (drop (i * (k2 * s)) b) `prefix_of` concat cs.
(** The messages hashed for a read: the rows of the blob, and the primary slivers. *)
Definition read_msgs (e : EncodingAxis) (slivers : list SliverData) (b : bytes) : list bytes :=
  row_msgs k1 k2 n s b ++ (if is_primary e then concat (sliver_tree <$> slivers) else []).

Lemma checked_row b already i : zlen b = len -> (i < k1)%nat ->
  check_systematic_row (encoder k1 k2 n s b) md already i = Ok tt ->
  (exists l, already = Some l /\ nth i l false = true) \/
  committed_row b i (cell k1 k2 n s b i <$> seq 0 k2) /\
  code (cell k1 k2 n s b i <$> seq 0 k2) = cell k1 k2 n s b i <$> seq 0 n.
Proof using All.
  intros Hb Hi H. destruct (supported_blob b Hb) as [HSb Hsb]. unfold check_systematic_row in H.
  destruct (match already with Some l => nth i l false | None => false end) eqn:Hmark.
  { left. destruct already as [l|]; [eauto|done]. }
  right. rewrite (systematic_primary_sliver_ok k1 k2 n s b HSb Hsb b i eq_refl Hi) in H.
  cbn [no_error map_err mbind outcome_bind be_config encoder] in H. apply map_err_Ok in H.
  assert (i < n)%nat as Hin by (destruct HS; lia).
  pose proof (sliver_source_sized k1 k2 n s b HSb Hsb Primary i Hin) as [Hl Hsz].
  pose proof (sliver_expanded k1 k2 n s b HSb Hsb Primary i Hin) as Hexp.
  change (sliver_source k1 k2 n s b Primary i) with (cell k1 k2 n s b i <$> seq 0 k2) in *.
  cbn [length_of] in Hl. split; [|exact Hexp]. assert (0 < s)%nat as Hs by (apply (s_pos k1 k2 n s b HSb)).
  assert (full_sliver k2 s (primary_sliver k1 k2 n s b i)) as Hfull.
  { split; [|done]. cbn. rewrite (concat_length s) by done. by rewrite Hl. }
  apply check_hash_root in H; [|done]. cbn [primary_sliver sd_symbols sd_index sym_list sy_data] in H.
  rewrite chunks_concat in H by done. split; [done|]. split; [done|]. split; [exact H|].
  rewrite (row_systematic k1 k2 n s b HSb) by done. rewrite (row_bytes k2 s b). unfold pad_to.
  set (rest := drop (i * (k2 * s)) b). rewrite take_app. apply prefix_app_r. done.
Qed.

(** What the default check asks of primary slivers to be sound: they were verified,
    and there are no surplus ones. *)
Definition no_surplus (e : EncodingAxis) (slivers : list SliverData) : Prop :=
  e = Primary -> NoDup (sd_index <$> slivers) /\ (length slivers <= k1)%nat /\ Forall verified slivers.

Lemma marked_sliver m slivers l i : nth i (fold_left (mark m) slivers l) false = true ->
  nth i l false = true \/ exists x, x ∈ slivers /\ sd_index x < m /\ Z.to_nat (sd_index x) = i.
Proof using.
  revert l. induction slivers as [|x slivers IH]; intros l; cbn [fold_left]; [by left|].
  intros [H|(y & Hy & Hm & Hi)]%IH; [|right; exists y; split; [by right|done]].
  unfold mark in H. destruct (Z.ltb_spec (sd_index x) m) as [Hlt|]; [|by left].
  destruct (decide (Z.to_nat (sd_index x) = i)) as [<-|Hne]; [right; exists x; split; [by left|done]|left].
  rewrite nth_lookup, list_lookup_insert_ne, <- nth_lookup in H by done. exact H.
Qed.
Lemma marked_row slivers g b x : table_sized s k1 k2 g -> b = take (Z.to_nat len) (concat (g <$> seq 0 (k1 * k2))) ->
  (forall c, (c < k2)%nat -> g (k2 * Z.to_nat (sd_index x) + c)%nat = piece s x c) ->
  x ∈ slivers -> Forall verified slivers -> sd_index x < Z.of_nat k1 ->
  exists cs, committed_row b (Z.to_nat (sd_index x)) cs /\ build_msgs (code cs) = sliver_tree x.
Proof using All.
  intros Hg Hb Hx Hin Hv Hlt. rewrite Forall_forall in Hv. pose proof (Hv x Hin) as [Hx0 _].
  destruct (verified_sliver x (Hv x Hin)) as [Hfull Hroot]. assert (0 < s)%nat as Hs by (apply (s_pos k1 k2 n s _ HS)).
  assert (0 < k2)%nat as Hk2 by (destruct HS; lia).
  destruct (pieces k2 s Hk2 Hs x Hfull) as [Hp Hsz].
  exists (chunks s (sy_data (sd_symbols x))). split; [|done]. split; [rewrite Hp; by rewrite length_fmap, length_seq|].
  split; [by rewrite Hp|]. rewrite Z2Nat.id by done. split; [done|].
  assert (concat (chunks s (sy_data (sd_symbols x)))
    = concat ((fun c => g (k2 * Z.to_nat (sd_index x) + c)%nat) <$> seq 0 k2)) as ->.
  { rewrite Hp. f_equal. apply list_fmap_ext. intros i c [-> Hc]%lookup_seq. symmetry. by apply Hx. }
  apply (table_row k1 k2 n s len Hk2 Hs g); [done|lia|done].
Qed.
(** The blob that is read, and the check that it passed: a row that is not checked
    is that of a sliver. *)
Lemma read_checked e slivers b : no_surplus e slivers -> decode_and_verify conf e md slivers Default = Ok b ->
  exists already, zlen b = len /\ default_consistency_check (encoder k1 k2 n s b) md already = Ok tt /\
    forall l i, already = Some l -> nth i l false = true -> exists cs, committed_row b i cs /\
      forall m, m ∈ build_msgs (code cs) -> m ∈ read_msgs e slivers b.
Proof using All.
  intros Hns H. assert (0 < s)%nat as Hs by (apply (s_pos k1 k2 n s _ HS)).
  assert (0 < k2)%nat as Hk2 by (destruct HS; lia). pose proof zeros_len as Hz.
  assert (len <= Z.of_nat k1 * Z.of_nat k2 * Z.of_nat s) as Hcap by (destruct HS; nia).
  unfold decode_and_verify in H. apply bind_Ok_inv in H as ([b' already] & Hdec & H).
  apply bind_Ok_inv in H as ([] & H & [= ->]). apply bind_Ok_inv in H as (enc & Henc%map_err_Ok & H).
  exists already. destruct e; cbn [is_primary andb] in Hdec.
  - destruct (Hns eq_refl) as (Hnd & Hle & Hv). rewrite bool_decide_eq_true_2 in Hdec by done.
    apply bind_Ok_inv in Hdec as ([b' pulled] & Hdec & [= -> <-]).
    apply (config_decode_given k1 k2 n s len Hk2 Hs) in Hdec as (-> & g & Hg & Hbg & Hin);
      [|done|by eapply Forall_impl; [exact Hv|]; intros x ?%verified_sliver; tauto|done..].
    assert (zlen b = len) as Hbl.
    { rewrite Hbg, length_take, (concat_length s) by by apply table_list_sized.
      rewrite length_fmap, length_seq. nia. }
    split; [done|]. destruct (supported_blob b Hbl) as [HSb Hsb].
    rewrite (new_encoder_ok k1 k2 n s b HSb Hsb b eq_refl) in Henc. injection Henc as <-. split; [done|].
    intros l i [= <-] Hm. rewrite take_ge in Hm by done.
    apply marked_sliver in Hm as [Hm|(x & Hx & Hlt & <-)].
    { rewrite nth_lookup in Hm. destruct (_ !! i) as [v|] eqn:Hv'; [|done].
      apply lookup_replicate in Hv' as [-> _]. done. }
    destruct (marked_row slivers g b x Hg Hbg) as (cs & Hrow & Hmsgs); [by intros; apply Hin|done..|].
    exists cs. split; [done|]. rewrite Hmsgs. intros m Hm. unfold read_msgs. apply elem_of_app. right. cbn.
    apply list_elem_of_In, in_concat. eexists. split; [|by apply list_elem_of_In].
    apply list_elem_of_In. by apply list_elem_of_fmap_2.
  - apply bind_Ok_inv in Hdec as (b'' & Hdec & [= -> <-]).
    assert (zlen b = len) as Hbl.
    { apply config_decode_length with (s := Z.of_nat s) in Hdec; [done|done|cbn; lia|]. cbn. lia. }
    split; [done|]. destruct (supported_blob b Hbl) as [HSb Hsb].
    rewrite (new_encoder_ok k1 k2 n s b HSb Hsb b eq_refl) in Henc. injection Henc as <-. by split.
Qed.
(** Every row of a blob that is read is committed. *)
Lemma read_rows e slivers b : no_surplus e slivers -> decode_and_verify conf e md slivers Default = Ok b ->
  zlen b = len /\ forall i, (i < k1)%nat -> exists cs, committed_row b i cs /\
    forall m, m ∈ build_msgs (code cs) -> m ∈ read_msgs e slivers b.
Proof using All.
  intros Hns H. destruct (read_checked e slivers b Hns H) as (already & Hb & Hcheck & Hmarked).
  split; [done|]. intros i Hi. unfold default_consistency_check in Hcheck.
  apply bind_Ok_inv in Hcheck as ([] & _ & Hcheck). rewrite oforall_Ok, Forall_seq in Hcheck.
  specialize (Hcheck i ltac:(cbn; lia)).
  apply checked_row in Hcheck as [(l & Hl & Hm)|[Hrow Hcode]]; [by apply (Hmarked l)| |done|done].
  eexists. split; [exact Hrow|]. rewrite Hcode. intros m Hm. unfold read_msgs. apply elem_of_app. left.
  by apply (in_row_msgs k1 k2 n s b i).
Qed.

(** C24: Readers agree: whatever metadata two readers have, also of a blob that was
    encoded inconsistently, if each decodes slivers of either axis with the
    default check, and a reader of primary slivers takes verified and distinct
    ones and not more than it needs, then they read the same blob or one of
    them gets an error, unless BLAKE2b collides on the rows and slivers hashed. *)
Theorem default_check_agrees e1 e2 slivers1 slivers2 b1 b2 :
  no_surplus e1 slivers1 -> no_surplus e2 slivers2 ->
  decode_and_verify conf e1 md slivers1 Default = Ok b1 ->
  decode_and_verify conf e2 md slivers2 Default = Ok b2 ->
  collision_free (fun m => m ∈ read_msgs e1 slivers1 b1 ++ read_msgs e2 slivers2 b2) -> b1 = b2.
Proof using All.
  intros Hn1 Hn2 H1 H2 HQ. destruct (read_rows e1 slivers1 b1 Hn1 H1) as [Hl1 Hr1].
  destruct (read_rows e2 slivers2 b2 Hn2 H2) as [Hl2 Hr2].
  destruct (supported_blob b1 Hl1) as [[_ Hk2 _ _ _ _ Hb1] _]. destruct (supported_blob b2 Hl2) as [[_ _ _ _ _ _ Hb2] _].
  rewrite <- (rows_of_list (k2 * s) k1 b1), <- (rows_of_list (k2 * s) k1 b2) by lia. f_equal.
  apply list_fmap_ext. intros j i [-> Hi]%lookup_seq. cbn [Nat.add].
  destruct (Hr1 j Hi) as (cs1 & (Hc1 & Hs1 & (h1 & Hh1 & Hroot1) & Hp1) & Hm1).
  destruct (Hr2 j Hi) as (cs2 & (Hc2 & Hs2 & (h2 & Hh2 & Hroot2) & Hp2) & Hm2).
  assert (code cs1 = code cs2) as Hcs.
  { apply (build_inj _ _ _ HQ).
    - intros m. rewrite !elem_of_app. intros [Hm|Hm]; [left; by apply Hm1|right; by apply Hm2].
    - by rewrite !(fun cs H1 H2 => proj1 (codeword_sized n s k2 cs Hk2 H1 H2)).
    - congruence. }
  apply app_inj_1 in Hcs as [<- _]; [|lia].
  destruct Hp1 as [t1 Hp1], Hp2 as [t2 Hp2]. rewrite Hp1 in Hp2. apply app_inj_1 in Hp2 as [Heq _]; [exact Heq|].
  rewrite !length_take, !length_drop. lia.
Qed.
End Agreement.

(** ** Concrete reads *)

Lemma parity_restores : ReedSolomonRestores parity_decode.
Proof.
  intros k m s originals recoveries restored H. cbn in H. destruct (_ <? _); [done|]. injection H as <-.
  unfold parity_restore. destruct (filter _ recoveries) as [|[j r] rest]; [constructor|].
  apply Forall_fmap, Forall_forall. intros i Hi. by apply missing_spec in Hi as [_ Hi].
Qed.
Section ParityAgreement.
Local Existing Instance parity_rs.
Local Existing Instance parity_rs_laws.
Local Existing Instance parity_decode.
Local Existing Instance parity_decode_laws.
Local Existing Instance parity_rs_commutes.
Local Existing Instance parity_restores.
Local Notation three_metadata := (committed_metadata 1 2 3 2 three_bytes).
Lemma three_zeros_supported : Supported 1 2 3 2 (zeros 3).
Proof. destruct three_supported. by split. Qed.
(** A reader of the first primary sliver and one of secondary slivers. *)
Lemma default_check_agrees_witness : exists b1 b2,
  decode_and_verify three_shards Primary three_metadata [first_sliver] Default = Ok b1 /\
  decode_and_verify three_shards Secondary three_metadata received_slivers Default = Ok b2 /\ b1 = b2.
Proof.
  exists [1; 2; 3], three_bytes. split; [vm_compute; reflexivity|]. split; [vm_compute; reflexivity|].
  apply (default_check_agrees 1 2 3 2 three_metadata) with (e1 := Primary) (e2 := Secondary)
    (slivers1 := [first_sliver]) (slivers2 := received_slivers).
  - done.
  - exact three_zeros_supported.
  - reflexivity.
  - intros _. split; [repeat constructor; set_solver|]. split; [cbn; lia|].
    constructor; [|constructor]. split; [cbn; lia|vm_compute; reflexivity].
  - done.
  - vm_compute. reflexivity.
  - vm_compute. reflexivity.
  - apply collision_free_list_ok. vm_compute. reflexivity.
Defined.
End ParityAgreement.
