(* ===== verification/Quilt.v ===== *)
(** Quilts in [walrus-core]: many small blobs stored as one
    ([encoding/quilt_encoding.rs], and the index of a quilt in [metadata.rs]).

    A quilt is a matrix of symbols.  Each blob occupies consecutive columns, the
    first columns hold the index.  A column is read from a quilt or from the
    secondary slivers of its encoding; the trait [QuiltColumnRangeReader] of the
    two is the argument [reader] of the decoding functions.

    A string is the list of its Unicode scalar values; strings are ordered by
    them, as by their UTF-8 bytes.  The serialization is the one of the crate
    [bcs], the class [Bcs].  The log messages and the texts of errors are left
    out. *)
From S2P Require Import Prelude Crypto WalrusMerkle WalrusConfig Rslh WalrusOpen ReedSolomon BlobEncoding.
From stdpp Require Import sorting.
#[local] Open Scope Z_scope.

Abbreviation ustring := (list Z).
Abbreviation tag_map := (gmap ustring ustring).

Inductive QuiltError :=
  | BlobsNotFoundInQuilt (identifiers : list ustring)
  | QuiltVersionMismatch (actual expected : Z)
  | InvalidFormatNotAligned
  | FailedToExtractQuiltIndexSize
  | QuiltIndexSerDerError
  | MissingSlivers (slivers : list Z)
  | MissingQuiltIndex
  | TooManyBlobs (n max : Z)
  | QuiltOversize
  | IndexOutOfBounds (index max : Z)
  | EmptyInput
  | InvalidIdentifier
  | DuplicateIdentifier (identifier : ustring)
  | FailedToDecodeExtension
  | QuiltPatchIdParseError
  | Other
  | ColumnSizeMismatch (expected actual : Z).

Definition QUILT_INDEX_SIZE_BYTES_LENGTH : Z := 4.
Definition QUILT_VERSION_BYTES_LENGTH : Z := 1.
Definition BLOB_IDENTIFIER_SIZE_BYTES_LENGTH : Z := 2.
Definition TAGS_SIZE_BYTES_LENGTH : Z := 2.
Definition MAX_BLOB_IDENTIFIER_BYTES_LENGTH : Z := Z.shiftl 1 (8 * BLOB_IDENTIFIER_SIZE_BYTES_LENGTH) - 1.
Definition QUILT_INDEX_PREFIX_SIZE : Z := QUILT_INDEX_SIZE_BYTES_LENGTH + QUILT_VERSION_BYTES_LENGTH.
Definition MAX_NUM_SLIVERS_FOR_QUILT_INDEX : Z := 10.
Definition QUILT_VERSION_BYTE : Z := 1.
Definition BLOB_HEADER_SIZE : Z := 6.
Definition TAGS_ENABLED : Z := 1.

(** ** Identifiers *)

(** [str::len], [char::is_whitespace], [char::is_control], [str::trim_end]. *)
Definition utf8_len (s : ustring) : Z :=
  foldr (fun c n : Z => (if c <? 128 then 1 else if c <? 2048 then 2 else if c <? 65536 then 3 else 4) + n) 0 s.
Definition is_whitespace (c : Z) : bool :=
  ((9 <=? c) && (c <=? 13)) || ((8192 <=? c) && (c <=? 8202))
  || existsb (Z.eqb c) [32; 133; 160; 5760; 8232; 8233; 8239; 8287; 12288].
Definition is_control (c : Z) : bool := (c <? 32) || ((127 <=? c) && (c <=? 159)).
Fixpoint drop_while (f : Z -> bool) (s : ustring) : ustring :=
  match s with
  | [] => []
  | c :: s' => if f c then drop_while f s' else s
  end.
Definition trim_end (s : ustring) : ustring := rev (drop_while is_whitespace (rev s)).
Definition validate_quilt_identifier (identifier : ustring) : outcome QuiltError unit :=
  ensure (utf8_len identifier <=? MAX_BLOB_IDENTIFIER_BYTES_LENGTH) InvalidIdentifier ;;
  ensure (negb (bool_decide (identifier = []))) InvalidIdentifier ;;
  ensure (bool_decide (trim_end identifier = identifier)) InvalidIdentifier ;;
  ensure (negb (existsb is_control identifier)) InvalidIdentifier.
(** [str::cmp] *)
Fixpoint str_leb (a b : ustring) : bool :=
  match a, b with
  | [], _ => true
  | _ :: _, [] => false
  | x :: a, y :: b => if x <? y then true else if y <? x then false else str_leb a b
  end.

(** ** Data *)

Record QuiltStoreBlob := {
  qb_blob : bytes;
  qb_identifier : ustring;
  qb_tags : tag_map;
}.
Definition quilt_store_blob_new (blob : bytes) (identifier : ustring) : outcome QuiltError QuiltStoreBlob :=
  validate_quilt_identifier identifier ;;
  Ok {| qb_blob := blob; qb_identifier := identifier; qb_tags := ∅ |}.
Definition with_tags (self : QuiltStoreBlob) (tags : tag_map) : QuiltStoreBlob :=
  {| qb_blob := qb_blob self; qb_identifier := qb_identifier self; qb_tags := tags |}.

Record QuiltPatchV1 := {
  qp_start_index : Z;
  qp_end_index : Z;
  qp_identifier : ustring;
  qp_tags : tag_map;
}.
Definition patch_new (identifier : ustring) : outcome QuiltError QuiltPatchV1 :=
  validate_quilt_identifier identifier ;;
  Ok {| qp_start_index := 0; qp_end_index := 0; qp_identifier := identifier; qp_tags := ∅ |}.
Definition patch_new_with_tags (identifier : ustring) (tags : tag_map) : outcome QuiltError QuiltPatchV1 :=
  validate_quilt_identifier identifier ;;
  Ok {| qp_start_index := 0; qp_end_index := 0; qp_identifier := identifier; qp_tags := tags |}.
Definition set_range (self : QuiltPatchV1) (start_index end_index : Z) : QuiltPatchV1 :=
  {| qp_start_index := start_index; qp_end_index := end_index; qp_identifier := qp_identifier self; qp_tags := qp_tags self |}.
Definition has_matched_tag (self : QuiltPatchV1) (target_tag target_value : ustring) : bool :=
  bool_decide (qp_tags self !! target_tag = Some target_value).
Definition patch_sliver_indices (self : QuiltPatchV1) : list Z :=
  seqZ (qp_start_index self) (qp_end_index self - qp_start_index self).

Abbreviation QuiltIndexV1 := (list QuiltPatchV1).
Fixpoint populate_start_indices (first_start : Z) (self : QuiltIndexV1) : QuiltIndexV1 :=
  match self with
  | [] => []
  | patch :: self =>
      {| qp_start_index := first_start; qp_end_index := qp_end_index patch;
         qp_identifier := qp_identifier patch; qp_tags := qp_tags patch |}
      :: populate_start_indices (qp_end_index patch) self
  end.
(** The closure of [filter], which removes the identifiers it meets: the
    selected patches and the identifiers that are left. *)
Fixpoint filter_patches (identifiers : gset ustring) (patches : QuiltIndexV1) : QuiltIndexV1 * gset ustring :=
  match patches with
  | [] => ([], identifiers)
  | patch :: patches =>
      if bool_decide (qp_identifier patch ∈ identifiers) then
        let '(selected, rest) := filter_patches (identifiers ∖ {[qp_identifier patch]}) patches in
        (patch :: selected, rest)
      else filter_patches identifiers patches
  end.
Definition get_quilt_patches_by_identifiers (self : QuiltIndexV1) (identifiers : list ustring)
    : outcome QuiltError QuiltIndexV1 :=
  let '(patches, rest) := filter_patches (list_to_set identifiers) self in
  ensure (bool_decide (rest = ∅)) (BlobsNotFoundInQuilt (elements rest)) ;;
  Ok patches.
Definition get_quilt_patches_by_tag (self : QuiltIndexV1) (target_tag target_value : ustring) : QuiltIndexV1 :=
  filter (fun patch => has_matched_tag patch target_tag target_value = true) self.
Definition get_sliver_indices_for_identifiers (self : QuiltIndexV1) (identifiers : list ustring)
    : outcome QuiltError (list Z) :=
  patches ← get_quilt_patches_by_identifiers self identifiers;
  Ok (concat (patch_sliver_indices <$> patches)).
Definition get_sliver_indices_for_tag (self : QuiltIndexV1) (target_tag target_value : ustring) : list Z :=
  concat (patch_sliver_indices <$> get_quilt_patches_by_tag self target_tag target_value).

Record QuiltPatchInternalIdV1 := {
  pi_start_index : Z;
  pi_end_index : Z;
}.
Definition quilt_patch_internal_id (self : QuiltPatchV1) : QuiltPatchInternalIdV1 :=
  {| pi_start_index := qp_start_index self; pi_end_index := qp_end_index self |}.
Definition patch_id_sliver_indices (self : QuiltPatchInternalIdV1) : list Z :=
  seqZ (pi_start_index self) (pi_end_index self - pi_start_index self).
Definition patch_id_to_bytes (self : QuiltPatchInternalIdV1) : bytes :=
  QUILT_VERSION_BYTE :: le_bytes 2 (pi_start_index self) ++ le_bytes 2 (pi_end_index self).
Definition patch_id_from_bytes (b : bytes) : outcome QuiltError QuiltPatchInternalIdV1 :=
  ensure (zlen b =? 5) Other ;;
  ensure (nth 0 b 0 =? QUILT_VERSION_BYTE) (QuiltVersionMismatch (nth 0 b 0) QUILT_VERSION_BYTE) ;;
  Ok {| pi_start_index := le_val (take 2 (drop 1 b)); pi_end_index := le_val (take 2 (drop 3 b)) |}.

Record BlobHeaderV1 := {
  bh_length : Z;
  bh_mask : Z;
}.
Definition header_from_bytes (b : bytes) : guest BlobHeaderV1 :=
  assert (nth 0 b 0 =? QUILT_VERSION_BYTE) "assertion `left == right` failed" ;;
  Ok {| bh_length := le_val (take 4 (drop 1 b)); bh_mask := nth 5 b 0 |}.
Definition header_as_bytes (self : BlobHeaderV1) : bytes :=
  QUILT_VERSION_BYTE :: le_bytes 4 (bh_length self) ++ [bh_mask self].
Definition has_tags (self : BlobHeaderV1) : bool := negb (Z.land (bh_mask self) TAGS_ENABLED =? 0).
Definition set_has_tags (self : BlobHeaderV1) (has_tags : bool) : BlobHeaderV1 :=
  {| bh_length := bh_length self;
     bh_mask := if has_tags then Z.lor (bh_mask self) TAGS_ENABLED else Z.ldiff (bh_mask self) TAGS_ENABLED |}.

(** ** The crate [bcs]

    [to_bytes] may fail, for strings and maps that are too long; the start
    indices of patches are not serialized and the width of an index is fixed. *)
Class Bcs := {
  bcs_string : ustring -> option bytes;
  bcs_string_from : bytes -> option ustring;
  bcs_tags : tag_map -> option bytes;
  bcs_tags_from : bytes -> option tag_map;
  bcs_index : QuiltIndexV1 -> option bytes;
  bcs_index_from : bytes -> option QuiltIndexV1;
}.
Definition scalar_values (s : ustring) : Prop := Forall (fun c => 0 <= c < 1114112) s.
Definition tags_typed (tags : tag_map) : Prop := map_Forall (fun k v => scalar_values k /\ scalar_values v) tags.
Definition patch_typed (p : QuiltPatchV1) : Prop :=
  0 <= qp_end_index p < 65536 /\ scalar_values (qp_identifier p) /\ tags_typed (qp_tags p).
Class BcsLaws (B : Bcs) : Prop := {
  bcs_string_roundtrip s b : scalar_values s -> bcs_string s = Some b -> bcs_string_from b = Some s /\ is_bytes b;
  bcs_tags_roundtrip t b : tags_typed t -> bcs_tags t = Some b -> bcs_tags_from b = Some t /\ is_bytes b;
  bcs_index_roundtrip l b : Forall patch_typed l -> bcs_index l = Some b ->
    bcs_index_from b = Some ((fun p => set_range p 0 (qp_end_index p)) <$> l) /\ is_bytes b;
  bcs_index_width l l' : (fun p => set_range p 0 0) <$> l = (fun p => set_range p 0 0) <$> l' ->
    length <$> bcs_index l = length <$> bcs_index l';
}.

(** ** The symbol size ([utils]) *)

Definition sumZ (l : list Z) : Z := foldr Z.add 0 l.
Definition can_blobs_fit_into_matrix (blobs_sizes : list Z) (n_columns column_size : Z) : bool :=
  sumZ ((fun blob_size => div_ceil blob_size column_size) <$> blobs_sizes) <=? n_columns.
(** The binary search; a step makes the interval smaller. *)
Fixpoint search_symbol_size (fuel : nat) (fits : Z -> bool) (min_val max_val : Z) : outcome QuiltError Z :=
  if min_val <? max_val then
    match fuel with
    | O => OutOfFuel
    | S fuel =>
        let mid := (min_val + max_val) / 2 in
        if fits mid then search_symbol_size fuel fits min_val mid
        else search_symbol_size fuel fits (mid + 1) max_val
    end
  else Ok min_val.
Definition quilt_compute_symbol_size (blobs_sizes : list Z) (n_columns n_rows max_num_columns_for_quilt_index : Z)
    (encoding_type : EncodingType) : outcome QuiltError Z :=
  ensure (zlen blobs_sizes <=? n_columns) (TooManyBlobs (zlen blobs_sizes - 1) (n_columns - 1)) ;;
  ensure (negb (bool_decide (blobs_sizes = []))) EmptyInput ;;
  let min_val := Z.max (div_ceil (sumZ blobs_sizes) (n_columns * n_rows))
    (div_ceil (hd 0 blobs_sizes) (n_rows * max_num_columns_for_quilt_index)) in
  let min_val := Z.max min_val (div_ceil QUILT_INDEX_PREFIX_SIZE n_rows) in
  let max_val := div_ceil (foldr Z.max 0 blobs_sizes) (n_columns / zlen blobs_sizes * n_rows) in
  min_val ← search_symbol_size (Z.to_nat (max_val - min_val))
    (fun mid => can_blobs_fit_into_matrix blobs_sizes n_columns (mid * n_rows)) min_val max_val;
  let symbol_size := next_multiple_of min_val (required_alignment encoding_type) in
  ensure (symbol_size <=? max_symbol_size encoding_type) QuiltOversize ;;
  Ok symbol_size.
Definition check_quilt_version (data : bytes) : outcome QuiltError unit :=
  version ← ok_or (get_at data 0) EmptyInput;
  ensure (version =? QUILT_VERSION_BYTE) (QuiltVersionMismatch version QUILT_VERSION_BYTE).

(** ** Decoding, from a reader of ranges of columns *)

Abbreviation column_reader := (Z -> Z -> Z -> outcome QuiltError bytes).
Section Decode.
Context `{B : Bcs} (reader : column_reader).

Definition decode_quilt_index (column_size : Z) : outcome QuiltError QuiltIndexV1 :=
  quilt_version_bytes ← reader 0 0 QUILT_VERSION_BYTES_LENGTH;
  assert (zlen quilt_version_bytes =? QUILT_VERSION_BYTES_LENGTH) "assertion failed" ;;
  check_quilt_version quilt_version_bytes ;;
  size_bytes ← reader 0 QUILT_VERSION_BYTES_LENGTH QUILT_INDEX_SIZE_BYTES_LENGTH;
  assert (zlen size_bytes =? QUILT_INDEX_SIZE_BYTES_LENGTH) "assertion failed" ;;
  let index_size := le_val size_bytes in
  index_bytes ← reader 0 QUILT_INDEX_PREFIX_SIZE index_size;
  assert (zlen index_bytes =? index_size) "assertion failed" ;;
  quilt_index ← ok_or (bcs_index_from index_bytes) QuiltIndexSerDerError;
  let total_size := index_size + QUILT_INDEX_PREFIX_SIZE in
  assert (negb (column_size =? 0)) "attempt to divide by zero" ;;
  let columns_needed := div_ceil total_size column_size in
  assert (columns_needed <? 65536) "columns_needed should fit in u16" ;;
  Ok (populate_start_indices columns_needed quilt_index).

(** [a - b] on [usize], with overflow checks; without them it wraps.  It overflows
    only for a header whose length is below the sizes of its identifier and tags. *)
Definition usize_sub (a b : Z) : outcome QuiltError Z := expect (to_u64 (a - b)) "attempt to subtract with overflow".
Definition decode_blob_identifier (start_col initial_offset : Z) : outcome QuiltError (ustring * Z) :=
  size_buffer ← reader start_col initial_offset BLOB_IDENTIFIER_SIZE_BYTES_LENGTH;
  let offset := initial_offset + BLOB_IDENTIFIER_SIZE_BYTES_LENGTH in
  assert (zlen size_buffer =? 2) "size_buffer should be 2 bytes" ;;
  let identifier_size := le_val size_buffer in
  identifier_bytes ← reader start_col offset identifier_size;
  identifier ← ok_or (bcs_string_from identifier_bytes) InvalidIdentifier;
  Ok (identifier, BLOB_IDENTIFIER_SIZE_BYTES_LENGTH + identifier_size).
Definition decode_blob_tags (start_col initial_offset : Z) : outcome QuiltError (tag_map * Z) :=
  size_bytes ← reader start_col initial_offset TAGS_SIZE_BYTES_LENGTH;
  assert (zlen size_bytes =? TAGS_SIZE_BYTES_LENGTH) "assertion failed" ;;
  let tags_size := le_val size_bytes in
  let offset := initial_offset + TAGS_SIZE_BYTES_LENGTH in
  tags_bytes ← reader start_col offset tags_size;
  tags ← ok_or (bcs_tags_from tags_bytes) FailedToDecodeExtension;
  Ok (tags, offset + tags_size - initial_offset).
Definition decode_blob (start_col : Z) : outcome QuiltError QuiltStoreBlob :=
  header_bytes ← reader start_col 0 BLOB_HEADER_SIZE;
  assert (zlen header_bytes =? BLOB_HEADER_SIZE) "assertion failed" ;;
  blob_header ← no_error (header_from_bytes header_bytes);
  let offset := BLOB_HEADER_SIZE in
  let blob_bytes_size := bh_length blob_header in
  '(identifier, bytes_consumed) ← decode_blob_identifier start_col offset;
  let offset := offset + bytes_consumed in
  blob_bytes_size ← usize_sub blob_bytes_size bytes_consumed;
  '(tags, offset, blob_bytes_size) ←
    (if has_tags blob_header then
       '(tags, bytes_consumed) ← decode_blob_tags start_col offset;
       blob_bytes_size ← usize_sub blob_bytes_size bytes_consumed;
       Ok (tags, offset + bytes_consumed, blob_bytes_size)
     else Ok (∅, offset, blob_bytes_size));
  data_bytes ← reader start_col offset blob_bytes_size;
  assert (zlen data_bytes =? blob_bytes_size) "assertion failed" ;;
  blob ← quilt_store_blob_new data_bytes identifier;
  Ok (with_tags blob tags).
End Decode.

(** ** The quilt *)

Record QuiltV1 := {
  qu_data : bytes;
  qu_row_size : Z;
  qu_symbol_size : Z;
  qu_index : option QuiltIndexV1;
}.

(** The loop over the cells; a cell gives at least one byte. *)
Fixpoint read_cells (fuel : nat) (self : QuiltV1) (n_rows current_col current_row skip bytes_to_return : Z)
    : outcome QuiltError bytes :=
  if 0 <? bytes_to_return then
    match fuel with
    | O => OutOfFuel
    | S fuel =>
        let base_index := current_row * qu_row_size self + current_col * qu_symbol_size self in
        let start_index := base_index + skip in
        let end_index := Z.min (Z.min (base_index + qu_symbol_size self) (start_index + bytes_to_return))
          (zlen (qu_data self)) in
        ensure (start_index <? zlen (qu_data self)) (IndexOutOfBounds start_index (zlen (qu_data self))) ;;
        slice ← expect (get_range (qu_data self) start_index (end_index - start_index)) "slice index out of range";
        let row := (current_row + 1) `mod` n_rows in
        rest ← read_cells fuel self n_rows (if row =? 0 then current_col + 1 else current_col) row 0
          (bytes_to_return - zlen slice);
        Ok (slice ++ rest)
    end
  else Ok [].
Definition quilt_range_read (self : QuiltV1) : column_reader := fun start_col bytes_to_skip bytes_to_return =>
  ensure (negb ((qu_symbol_size self =? 0) || (qu_row_size self =? 0) || bool_decide (qu_data self = []))) Other ;;
  let n_rows := zlen (qu_data self) `div` qu_row_size self in
  let symbols_to_skip := bytes_to_skip `div` qu_symbol_size self in
  assert (negb (n_rows =? 0)) "attempt to divide by zero" ;;
  read_cells (Z.to_nat bytes_to_return) self n_rows (start_col + symbols_to_skip `div` n_rows)
    (symbols_to_skip `mod` n_rows) (bytes_to_skip - symbols_to_skip * qu_symbol_size self) bytes_to_return.

(** The loop of [write_bytes_to_columns]; [bytes] are those that are left. *)
Fixpoint write_cells (fuel : nat) (n_rows row_size symbol_size : Z) (data bytes : bytes)
    (current_col current_row offset : Z) : guest Prelude.bytes :=
  match bytes with
  | [] => Ok data
  | _ :: _ =>
      match fuel with
      | O => OutOfFuel
      | S fuel =>
          let base_idx := current_row * row_size + current_col * symbol_size in
          let start_idx := base_idx + offset in
          let len := Z.min (symbol_size - offset) (zlen bytes) in
          dest ← expect (get_range data start_idx len) "range end index out of range";
          piece ← copy_from_slice dest (take (Z.to_nat len) bytes);
          let row := (current_row + 1) `mod` n_rows in
          write_cells fuel n_rows row_size symbol_size (splice data start_idx piece) (drop (Z.to_nat len) bytes)
            (if row =? 0 then current_col + 1 else current_col) row 0
      end
  end.
Definition write_bytes_to_columns (data bytes : bytes) (start_col row_size column_size symbol_size bytes_to_skip : Z)
    : guest Prelude.bytes :=
  let n_rows := column_size `div` symbol_size in
  let n_cols := row_size `div` symbol_size in
  let current_col := start_col + bytes_to_skip `div` column_size in
  assert (current_col <? n_cols) "assertion failed: current_col < n_cols" ;;
  let current_row := (bytes_to_skip `div` symbol_size) `mod` n_rows in
  let offset := bytes_to_skip `mod` symbol_size in
  assert (offset <? symbol_size) "assertion failed: offset < symbol_size" ;;
  write_cells (length bytes) n_rows row_size symbol_size data bytes current_col current_row offset.

Section Encode.
Context `{B : Bcs}.

Definition serialized_blob_size (blob : QuiltStoreBlob) : outcome QuiltError Z :=
  identifier ← ok_or (bcs_string (qb_identifier blob)) Other;
  let identifier_size := zlen identifier in
  ensure (negb (MAX_BLOB_IDENTIFIER_BYTES_LENGTH <=? identifier_size)) InvalidIdentifier ;;
  let prefix_size := identifier_size + BLOB_IDENTIFIER_SIZE_BYTES_LENGTH in
  prefix_size ← (if bool_decide (qb_tags blob = ∅) then Ok prefix_size
    else tags ← ok_or (bcs_tags (qb_tags blob)) Other; Ok (prefix_size + (zlen tags + TAGS_SIZE_BYTES_LENGTH)));
  Ok (prefix_size + zlen (qb_blob blob) + BLOB_HEADER_SIZE).
Definition get_header_and_extension_bytes (blob : QuiltStoreBlob) : outcome QuiltError bytes :=
  identifier ← ok_or (bcs_string (qb_identifier blob)) InvalidIdentifier;
  ensure (zlen identifier <? 65536) InvalidIdentifier ;;
  let identifier_bytes := le_bytes 2 (zlen identifier) ++ identifier in
  let header := {| bh_length := 0; bh_mask := 0 |} in
  '(header, extension_bytes) ←
    (if bool_decide (qb_tags blob = ∅) then Ok (header, identifier_bytes)
     else
       serialized_tags ← ok_or (bcs_tags (qb_tags blob)) Other;
       ensure (zlen serialized_tags <? 65536) Other ;;
       Ok (set_has_tags header true, identifier_bytes ++ le_bytes 2 (zlen serialized_tags) ++ serialized_tags));
  let total_size := zlen extension_bytes + zlen (qb_blob blob) in
  let header := {| bh_length := wrap 32 total_size; bh_mask := bh_mask header |} in
  Ok (header_as_bytes header ++ extension_bytes).
Definition add_blob_to_quilt (data : bytes) (blob : QuiltStoreBlob) (is_meta_blob : bool)
    (current_col column_size row_size symbol_size : Z) : outcome QuiltError (bytes * Z) :=
  assert (column_size `mod` symbol_size =? 0) "assertion failed" ;;
  '(data, total_bytes_written) ←
    (if is_meta_blob then Ok (data, 0)
     else
       prefix_bytes ← get_header_and_extension_bytes blob;
       data ← no_error (write_bytes_to_columns data prefix_bytes current_col row_size column_size symbol_size 0);
       Ok (data, zlen prefix_bytes));
  data ← no_error (write_bytes_to_columns data (qb_blob blob) current_col row_size column_size symbol_size total_bytes_written);
  Ok (data, div_ceil (total_bytes_written + zlen (qb_blob blob)) column_size).

Definition identifier_le (a b : QuiltStoreBlob) : Prop := str_leb (qb_identifier a) (qb_identifier b) = true.
#[export] Instance identifier_le_dec : RelDecision identifier_le.
Proof. intros a b. apply (decide (str_leb (qb_identifier a) (qb_identifier b) = true)). Defined.
(** The identifier of the first two neighbours that share it. *)
Fixpoint adjacent_duplicate (blobs : list QuiltStoreBlob) : option ustring :=
  match blobs with
  | a :: (b :: _) as blobs' =>
      if bool_decide (qb_identifier a = qb_identifier b) then Some (qb_identifier a) else adjacent_duplicate blobs'
  | _ => None
  end.
(** The loop over the blobs: the data, the patches and the next column. *)
Definition add_blob (column_size row_size symbol_size : Z) (state : bytes * QuiltIndexV1 * Z)
    (x : QuiltStoreBlob * QuiltPatchV1) : outcome QuiltError (bytes * QuiltIndexV1 * Z) :=
  let '(data, patches, current_col) := state in
  let '(quilt_store_blob, patch) := x in
  '(data, cols_needed) ← add_blob_to_quilt data quilt_store_blob false current_col column_size row_size symbol_size;
  assert (current_col <? 65536) "current_col should fit in u16" ;;
  assert (current_col + cols_needed <? 65536) "current_col + cols_needed should fit in u16" ;;
  Ok (data, patches ++ [set_range patch current_col (current_col + cols_needed)], current_col + cols_needed).
(** The part of [construct_quilt] that writes the quilt. *)
Definition fill_quilt (n_rows n_columns serialized_index_size symbol_size : Z) (blob_pairs : list QuiltStoreBlob)
    (quilt_patches : QuiltIndexV1) : outcome QuiltError QuiltV1 :=
  let index_total_size := QUILT_INDEX_PREFIX_SIZE + serialized_index_size in
  let row_size := symbol_size * n_columns in
  let data := zeros (row_size * n_rows) in
  let column_size := symbol_size * n_rows in
  let index_cols_needed := div_ceil index_total_size column_size in
  assert (index_cols_needed <=? MAX_NUM_SLIVERS_FOR_QUILT_INDEX)
    "assertion failed: index_cols_needed <= MAX_NUM_SLIVERS_FOR_QUILT_INDEX" ;;
  '(data, quilt_patches, _) ← ofold (add_blob column_size row_size symbol_size) (data, [], index_cols_needed)
    (zip blob_pairs quilt_patches);
  index_bytes ← expect (bcs_index quilt_patches) "serialization should succeed";
  let meta_blob_data := QUILT_VERSION_BYTE :: le_bytes 4 serialized_index_size ++ index_bytes in
  assert (zlen meta_blob_data =? index_total_size) "assertion `left == right` failed" ;;
  meta_blob ← quilt_store_blob_new meta_blob_data (ascii_bytes "quilt_index");
  '(data, _) ← add_blob_to_quilt data meta_blob true 0 column_size row_size symbol_size;
  Ok {| qu_data := data; qu_row_size := row_size; qu_symbol_size := symbol_size; qu_index := Some quilt_patches |}.
Definition construct_quilt (config : ReedSolomonEncodingConfig) (blobs : list QuiltStoreBlob) : outcome QuiltError QuiltV1 :=
  let n_rows := n_source_symbols config Primary in
  let n_columns := n_source_symbols config Secondary in
  let blob_pairs := merge_sort identifier_le blobs in
  match adjacent_duplicate blob_pairs with Some identifier => Err (DuplicateIdentifier identifier) | None => Ok tt end ;;
  quilt_patches ← omapM (fun blob => patch_new_with_tags (qb_identifier blob) (qb_tags blob)) blob_pairs;
  serialized_index ← ok_or (bcs_index quilt_patches) QuiltIndexSerDerError;
  let serialized_index_size := zlen serialized_index in
  assert (serialized_index_size <? 2 ^ 32) "serialized_index_size should fit in u32" ;;
  let index_total_size := QUILT_INDEX_PREFIX_SIZE + serialized_index_size in
  sizes ← omapM serialized_blob_size blob_pairs;
  symbol_size ← quilt_compute_symbol_size (index_total_size :: sizes) n_columns n_rows MAX_NUM_SLIVERS_FOR_QUILT_INDEX RS2;
  fill_quilt n_rows n_columns serialized_index_size symbol_size blob_pairs quilt_patches.

(** ** Reading a quilt *)

Definition quilt_get_or_decode_quilt_index (self : QuiltV1) : outcome QuiltError QuiltV1 :=
  match qu_index self with
  | Some _ => Ok self
  | None =>
      let columns_size := zlen (qu_data self) `div` qu_row_size self * qu_symbol_size self in
      quilt_index ← decode_quilt_index (quilt_range_read self) columns_size;
      Ok {| qu_data := qu_data self; qu_row_size := qu_row_size self; qu_symbol_size := qu_symbol_size self;
            qu_index := Some quilt_index |}
  end.
Definition new_from_quilt_blob (quilt_blob : bytes) (config : ReedSolomonEncodingConfig) : outcome QuiltError QuiltV1 :=
  ensure (negb (bool_decide (quilt_blob = []))) EmptyInput ;;
  let n_primary_source_symbols := n_source_symbols config Primary in
  let n_secondary_source_symbols := n_source_symbols config Secondary in
  let n_source_symbols := n_primary_source_symbols * n_secondary_source_symbols in
  ensure (negb (n_source_symbols =? 0)) Other ;;
  ensure (zlen quilt_blob `mod` n_source_symbols =? 0) InvalidFormatNotAligned ;;
  let symbol_size := zlen quilt_blob `div` n_source_symbols in
  quilt_get_or_decode_quilt_index {| qu_data := quilt_blob; qu_row_size := symbol_size * n_secondary_source_symbols;
    qu_symbol_size := symbol_size; qu_index := None |}.
(** [QuiltEnum::new], over [QuiltVersionEnum::new_from_sliver]. *)
Definition quilt_new (quilt_blob : bytes) (config : ReedSolomonEncodingConfig) : outcome QuiltError QuiltV1 :=
  version ← ok_or (get_at quilt_blob 0) EmptyInput;
  ensure (version =? QUILT_VERSION_BYTE) Other ;;
  new_from_quilt_blob quilt_blob config.
Definition quilt_index (self : QuiltV1) : outcome QuiltError QuiltIndexV1 := ok_or (qu_index self) MissingQuiltIndex.
Definition quilt_decode_patches (self : QuiltV1) (patches : QuiltIndexV1) : outcome QuiltError (list QuiltStoreBlob) :=
  omapM (fun patch => decode_blob (quilt_range_read self) (qp_start_index patch)) patches.
Definition quilt_get_blobs_by_identifiers (self : QuiltV1) (identifiers : list ustring) : outcome QuiltError (list QuiltStoreBlob) :=
  index ← quilt_index self;
  patches ← get_quilt_patches_by_identifiers index identifiers;
  quilt_decode_patches self patches.
Definition quilt_get_blob_by_patch_internal_id (self : QuiltV1) (patch_internal_id : bytes) : outcome QuiltError QuiltStoreBlob :=
  id ← patch_id_from_bytes patch_internal_id;
  decode_blob (quilt_range_read self) (pi_start_index id).
Definition quilt_get_blobs_by_tag (self : QuiltV1) (target_tag target_value : ustring) : outcome QuiltError (list QuiltStoreBlob) :=
  index ← quilt_index self;
  quilt_decode_patches self (get_quilt_patches_by_tag index target_tag target_value).
Definition quilt_get_all_blobs (self : QuiltV1) : outcome QuiltError (list QuiltStoreBlob) :=
  index ← quilt_index self;
  quilt_decode_patches self index.
End Encode.

(** ** Encoding a quilt *)

Record QuiltMetadataV1 := {
  qm_quilt_id : bytes;
  qm_metadata : BlobMetadata;
  qm_index : QuiltIndexV1;
}.
Definition get_verified_metadata (self : QuiltMetadataV1) : BlobMetadataWithId :=
  {| blob_id := qm_quilt_id self; metadata := qm_metadata self |}.
Definition quilt_encode_with_metadata `{HC : Crypto} `{R : ReedSolomon} `{B : Bcs} (config : ReedSolomonEncodingConfig)
    (blobs : list QuiltStoreBlob) : outcome QuiltError (list SliverPair * QuiltMetadataV1) :=
  quilt ← construct_quilt config blobs;
  quilt_patches ← quilt_index quilt;
  encoder ← map_err (blob_encoder_new config (qu_data quilt)) (fun _ => QuiltOversize);
  assert (be_symbol_size encoder =? qu_symbol_size quilt) "assertion `left == right` failed" ;;
  '(sliver_pairs, md) ← no_error (encode_with_metadata encoder);
  Ok (sliver_pairs, {| qm_quilt_id := blob_id md; qm_metadata := metadata md; qm_index := quilt_patches |}).

(** ** The choice of the symbol size *)

(** Each blob has its own columns, the prefix of the index fits into the first
    column and the index into its columns. *)
Definition symbol_size_fits (blobs_sizes : list Z) (n_columns n_rows max_num_columns_for_quilt_index s : Z) : Prop :=
  QUILT_INDEX_PREFIX_SIZE <= n_rows * s /\ hd 0 blobs_sizes <= n_rows * max_num_columns_for_quilt_index * s /\
  sumZ ((fun blob_size => div_ceil blob_size (s * n_rows)) <$> blobs_sizes) <= n_columns.

Lemma div_ceil_le a b c : 0 < b -> div_ceil a b <= c <-> a <= b * c.
Proof. intros Hb. pose proof (div_ceil_spec a b Hb) as Hd. split; intros H; nia. Qed.
Lemma div_ceil_nonneg a b : 0 < b -> 0 <= a -> 0 <= div_ceil a b.
Proof. intros Hb Ha. pose proof (div_ceil_spec a b Hb). nia. Qed.
Lemma sumZ_le {A} (f g : A -> Z) l : (forall x, x ∈ l -> f x <= g x) -> sumZ (f <$> l) <= sumZ (g <$> l).
Proof.
  unfold sumZ. induction l as [|x l IH]; intros H; cbn; [done|].
  pose proof (H x ltac:(set_solver)). pose proof (IH ltac:(intros; apply H; set_solver)). lia.
Qed.
Lemma sumZ_const {A} (l : list A) k : sumZ ((fun _ => k) <$> l) = zlen l * k.
Proof. induction l as [|x l IH]; cbn [sumZ fmap list_fmap foldr length] in *; [done|]. unfold sumZ in IH. lia. Qed.
Lemma sumZ_mul {A} (f : A -> Z) l k : sumZ ((fun x => k * f x) <$> l) = k * sumZ (f <$> l).
Proof. induction l as [|x l IH]; cbn [sumZ fmap list_fmap foldr] in *; [lia|]. unfold sumZ in IH. lia. Qed.
Lemma sumZ_nonneg l : Forall (fun x => 0 <= x) l -> 0 <= sumZ l.
Proof. unfold sumZ. induction 1; cbn; lia. Qed.
Lemma sumZ_elem l x : Forall (fun x => 0 <= x) l -> x ∈ l -> x <= sumZ l.
Proof.
  induction 1 as [|y l Hy Hl IH]; intros Hx; [by apply not_elem_of_nil in Hx|].
  pose proof (sumZ_nonneg l Hl). unfold sumZ in *. cbn.
  apply elem_of_cons in Hx as [->|Hx%IH]; lia.
Qed.
Lemma max_elem l x : x ∈ l -> x <= foldr Z.max 0 l.
Proof. induction l as [|y l IH]; [by intros ?%not_elem_of_nil|]. cbn. intros [->|?%IH]%elem_of_cons; lia. Qed.

Section SymbolSize.
Context (sizes : list Z) (n_columns n_rows cols : Z).
Context (Hrows : 0 < n_rows) (Hcolumns : 0 < n_columns) (Hcols : 0 < cols).
Context (Hsizes : Forall (fun x => 0 <= x) sizes).
Let fits (s : Z) : bool := can_blobs_fit_into_matrix sizes n_columns (s * n_rows).

Lemma fits_mono a b : 1 <= a <= b -> fits a = true -> fits b = true.
Proof using Hrows Hsizes.
  intros Hab H. unfold fits, can_blobs_fit_into_matrix in *. bool_hyps. apply Z.leb_le. etrans; [|done].
  apply sumZ_le. intros x Hx. apply div_ceil_le; [nia|]. rewrite Forall_forall in Hsizes. pose proof (Hsizes x Hx).
  pose proof (div_ceil_spec x (a * n_rows) ltac:(nia)). pose proof (div_ceil_nonneg x (a * n_rows) ltac:(nia)). nia.
Qed.
(** The bounds of the search. *)
Lemma fits_lower s : 1 <= s -> fits s = true -> div_ceil (sumZ sizes) (n_columns * n_rows) <= s.
Proof using Hrows Hcolumns.
  intros Hs H. unfold fits, can_blobs_fit_into_matrix in H. bool_hyps. apply div_ceil_le; [nia|].
  trans ((s * n_rows) * sumZ ((fun x => div_ceil x (s * n_rows)) <$> sizes)); [|nia].
  rewrite <- sumZ_mul. rewrite <- (list_fmap_id sizes) at 1. apply sumZ_le. intros x Hx.
  pose proof (div_ceil_spec x (s * n_rows) ltac:(nia)). unfold id. lia.
Qed.
Lemma fits_upper s : zlen sizes <= n_columns -> sizes <> [] -> 1 <= s ->
  div_ceil (foldr Z.max 0 sizes) (n_columns `div` zlen sizes * n_rows) <= s -> fits s = true.
Proof using Hrows Hsizes.
  intros Hlen Hne Hs H. assert (0 < zlen sizes) by (destruct sizes; [done|cbn; lia]).
  pose proof (Z.div_str_pos n_columns (zlen sizes) ltac:(lia)) as Hk.
  pose proof (Z.mul_div_le n_columns (zlen sizes) ltac:(lia)) as Hm.
  set (k := n_columns `div` zlen sizes) in *. clearbody k. apply div_ceil_le in H; [|nia].
  unfold fits, can_blobs_fit_into_matrix. apply Z.leb_le. trans (sumZ ((fun _ => k) <$> sizes)).
  - apply sumZ_le. intros x Hx. apply div_ceil_le; [nia|]. pose proof (max_elem sizes x Hx). nia.
  - rewrite sumZ_const. lia.
Qed.
Let lower : Z := Z.max (Z.max (div_ceil (sumZ sizes) (n_columns * n_rows)) (div_ceil (hd 0 sizes) (n_rows * cols)))
  (div_ceil QUILT_INDEX_PREFIX_SIZE n_rows).
Lemma symbol_size_fits_iff s : symbol_size_fits sizes n_columns n_rows cols s <-> lower <= s /\ fits s = true.
Proof using Hrows Hcolumns Hcols.
  unfold symbol_size_fits, lower, fits, can_blobs_fit_into_matrix. rewrite Z.leb_le, !Z.max_lub_iff,
    (div_ceil_le _ (n_rows * cols)), (div_ceil_le _ n_rows) by (done || apply Z.mul_pos_pos; done).
  assert (QUILT_INDEX_PREFIX_SIZE <= n_rows * s -> 1 <= s) as H1 by (change QUILT_INDEX_PREFIX_SIZE with 5; intros; nia).
  split; [|naive_solver]. intros (Hp & Hi & Hf). split_and!; [|done..].
  apply fits_lower; [lia|]. unfold fits, can_blobs_fit_into_matrix. by apply Z.leb_le.
Qed.
Lemma lower_pos : 1 <= lower.
Proof using Hrows.
  pose proof (div_ceil_spec QUILT_INDEX_PREFIX_SIZE n_rows Hrows). unfold lower. change QUILT_INDEX_PREFIX_SIZE with 5 in *. nia.
Qed.
End SymbolSize.
Lemma div_ceil_self a b : 0 < b -> 0 <= a -> div_ceil a b <= a.
Proof. intros Hb Ha. apply div_ceil_le; nia. Qed.
(** Rounding up to an aligned size keeps the least one. *)
Lemma next_multiple_of_least a b s : 0 < b -> 0 <= a -> a + b <= 2 ^ 64 -> s `mod` b = 0 -> a <= s -> next_multiple_of a b <= s.
Proof.
  intros Hb Ha Hab Hs Has. destruct (next_multiple_of_spec a b Hb Ha Hab) as [Hn Hm].
  pose proof (Z.div_mod s b ltac:(lia)). pose proof (Z.div_mod (next_multiple_of a b) b ltac:(lia)).
  enough (next_multiple_of a b `div` b < s `div` b + 1) by nia.
  apply (Z.mul_lt_mono_pos_l b); lia.
Qed.

Lemma search_bound sizes n_columns n_rows cols r : 0 < n_columns -> 0 < n_rows -> 0 < cols ->
  Forall (fun x => 0 <= x) sizes -> sizes <> [] -> sumZ sizes < 2 ^ 63 -> zlen sizes <= n_columns ->
  r <= Z.max (Z.max (Z.max (div_ceil (sumZ sizes) (n_columns * n_rows)) (div_ceil (hd 0 sizes) (n_rows * cols)))
      (div_ceil QUILT_INDEX_PREFIX_SIZE n_rows))
    (div_ceil (foldr Z.max 0 sizes) (n_columns `div` zlen sizes * n_rows)) -> r + 2 <= 2 ^ 64.
Proof.
  intros HC HR Hcols Hsz Hne Hsum Hlen Hr.
  assert (0 < zlen sizes) by (destruct sizes; [done|cbn; lia]).
  pose proof (Z.div_str_pos n_columns (zlen sizes) ltac:(lia)) as Hk.
  pose proof (sumZ_nonneg sizes Hsz).
  assert (0 <= hd 0 sizes <= sumZ sizes) as Hhd.
  { destruct Hsz as [|x l Hx Hl]; [done|]. cbn. pose proof (sumZ_nonneg l Hl). unfold sumZ in *. lia. }
  assert (0 <= foldr Z.max 0 sizes <= sumZ sizes) as Hmax.
  { clear -Hsz. unfold sumZ. induction Hsz; cbn; lia. }
  pose proof (div_ceil_self (sumZ sizes) (n_columns * n_rows) ltac:(nia)).
  pose proof (div_ceil_self (hd 0 sizes) (n_rows * cols) ltac:(nia)).
  pose proof (div_ceil_self QUILT_INDEX_PREFIX_SIZE n_rows HR).
  pose proof (div_ceil_self (foldr Z.max 0 sizes) (n_columns `div` zlen sizes * n_rows) ltac:(nia)).
  change QUILT_INDEX_PREFIX_SIZE with 5 in *. lia.
Qed.
(** The search is complete, whatever the fuel above the width of the interval. *)
Lemma search_symbol_size_spec (fits : Z -> bool) fuel min_val max_val :
  (forall a b, 1 <= a <= b -> fits a = true -> fits b = true) ->
  1 <= min_val -> fits (Z.max min_val max_val) = true -> (Z.to_nat (max_val - min_val) <= fuel)%nat ->
  exists r, search_symbol_size fuel fits min_val max_val = Ok r /\ min_val <= r <= Z.max min_val max_val /\
    fits r = true /\ forall x, min_val <= x -> fits x = true -> r <= x.
Proof.
  intros Hmono. revert min_val max_val. induction fuel as [|fuel IH]; intros lo hi Hlo Hhi Hf.
  all: cbn [search_symbol_size]; destruct (Z.ltb_spec lo hi); [|exists lo; replace (Z.max lo hi) with lo in * by lia; split_and!; [done|lia|lia|done|lia]].
  { lia. }
  pose proof (Z.div_mod (lo + hi) 2 ltac:(lia)). pose proof (Z.mod_pos_bound (lo + hi) 2 ltac:(lia)). cbv zeta.
  set (mid := (lo + hi) `div` 2) in *. replace (Z.max lo hi) with hi in * by lia.
  destruct (fits mid) eqn:Hm.
  - destruct (IH lo mid Hlo) as (r & Hr & Hb & Hfit & Hleast); [by replace (Z.max lo mid) with mid by lia|lia|].
    exists r. split_and!; [done|lia|lia|done|done].
  - destruct (IH (mid + 1) hi ltac:(lia)) as (r & Hr & Hb & Hfit & Hleast);
      [by replace (Z.max (mid + 1) hi) with hi by lia|lia|].
    exists r. split_and!; [done|lia|lia|done|]. intros x Hx Hfx. apply Hleast; [|done].
    destruct (Z.le_gt_cases x mid) as [Hle|]; [|lia]. rewrite (Hmono x mid) in Hm; [done|lia|done].
Qed.

Lemma quilt_symbol_size_exists sizes n_columns n_rows cols encoding_type :
  0 < n_columns -> 0 < n_rows -> 0 < cols -> Forall (fun x => 0 <= x) sizes -> sizes <> [] -> sumZ sizes < 2 ^ 63 ->
  zlen sizes <= n_columns ->
  let valid s := s `mod` required_alignment encoding_type = 0 /\ symbol_size_fits sizes n_columns n_rows cols s in
  exists m, 0 < m /\ valid m /\ (forall s', valid s' -> m <= s') /\
    quilt_compute_symbol_size sizes n_columns n_rows cols encoding_type =
      (ensure (m <=? max_symbol_size encoding_type) QuiltOversize ;; Ok m).
Proof.
  intros HC HR Hcols Hsz Hne Hsum Hlen valid. unfold quilt_compute_symbol_size.
  rewrite (proj2 (Z.leb_le _ n_columns)) by done. cbn [ensure mbind outcome_bind].
  rewrite bool_decide_eq_false_2 by done. cbn [negb ensure mbind outcome_bind]. cbv zeta.
  set (lo := Z.max _ _). set (hi := div_ceil _ _). unfold fmap.
  set (fits := fun mid => can_blobs_fit_into_matrix sizes n_columns (mid * n_rows)).
  assert (forall a b, 1 <= a <= b -> fits a = true -> fits b = true) as Hmono by exact (fits_mono sizes n_columns n_rows HR Hsz).
  assert (1 <= lo) as Hlo by by apply (lower_pos sizes n_columns n_rows cols).
  assert (forall s, symbol_size_fits sizes n_columns n_rows cols s <-> lo <= s /\ fits s = true) as Hiff
    by (intros s; by apply symbol_size_fits_iff).
  destruct (search_symbol_size_spec fits (Z.to_nat (hi - lo)) lo hi Hmono Hlo) as (r & Hr & Hb & Hfit & Hleast).
  { apply fits_upper; [done|done|done|done|lia|]. fold hi. lia. }
  { lia. }
  rewrite Hr. cbn [mbind outcome_bind].
  assert (r + 2 <= 2 ^ 64) as Hr64
    by (apply (search_bound sizes n_columns n_rows cols); [done..|]; fold lo; fold hi; lia).
  destruct (next_multiple_of_spec r 2 ltac:(lia) ltac:(lia) Hr64) as [Hm Hmod].
  exists (next_multiple_of r 2). split_and!; [lia| | |done].
  - split; [done|]. apply Hiff. split; [lia|]. apply (Hmono r); [lia|done].
  - intros s' [Ha [Hls Hfs]%Hiff]. apply next_multiple_of_least; [lia..|done|]. by apply Hleast.
Qed.

(** C15: The symbol size of a quilt is the least aligned size with which every blob
    and the index have their own columns, the index takes at most [cols] of
    them and its prefix lies in the first; the function fails only when there
    are more blobs than columns, or when no size up to the maximum is enough.
    The binary search ends. *)
Theorem quilt_symbol_size_least sizes n_columns n_rows cols encoding_type :
  0 < n_columns -> 0 < n_rows -> 0 < cols -> Forall (fun x => 0 <= x) sizes -> sizes <> [] -> sumZ sizes < 2 ^ 63 ->
  let valid s := s `mod` required_alignment encoding_type = 0 /\ symbol_size_fits sizes n_columns n_rows cols s in
  match quilt_compute_symbol_size sizes n_columns n_rows cols encoding_type with
  | Ok s => zlen sizes <= n_columns /\ valid s /\ 0 < s <= max_symbol_size encoding_type /\
      (forall s', valid s' -> s <= s')
  | Err (TooManyBlobs n max) => n_columns < zlen sizes /\ n = zlen sizes - 1 /\ max = n_columns - 1
  | Err QuiltOversize => zlen sizes <= n_columns /\ forall s, valid s -> max_symbol_size encoding_type < s
  | _ => False
  end.
Proof.
  intros HC HR Hcols Hsz Hne Hsum valid.
  destruct (Z.le_gt_cases (zlen sizes) n_columns) as [Hlen|Hlen].
  - destruct (quilt_symbol_size_exists sizes n_columns n_rows cols encoding_type) as (m & Hm & Hv & Hall & ->); [done..|].
    destruct (Z.leb_spec m (max_symbol_size encoding_type)); cbn.
    + split_and!; [done|exact Hv|lia|lia|exact Hall].
    + split; [done|]. intros s' Hs'. pose proof (Hall s' Hs'). lia.
  - unfold quilt_compute_symbol_size. by rewrite (proj2 (Z.leb_gt _ _)) by done.
Qed.
Lemma quilt_symbol_size_least_witness :
  quilt_compute_symbol_size [30; 5; 17] 7 4 10 RS2 = Ok 4 /\
  (forall s', s' `mod` 2 = 0 /\ symbol_size_fits [30; 5; 17] 7 4 10 s' -> 4 <= s').
Proof.
  assert (quilt_compute_symbol_size [30; 5; 17] 7 4 10 RS2 = Ok 4) as E by (vm_compute; reflexivity).
  assert (Forall (fun x => 0 <= x) [30; 5; 17]) as Hall by (repeat constructor; lia).
  pose proof (quilt_symbol_size_least [30; 5; 17] 7 4 10 RS2 eq_refl eq_refl eq_refl Hall ltac:(discriminate) eq_refl) as H.
  rewrite E in H. split; [exact E|apply H].
Defined.
