(* ===== verification/QuiltLayout.v ===== *)
(** The columns of a quilt: its matrix read as one stream.

    A quilt is stored row by row and filled column by column.  [view] is the
    stream of its bytes in the order of the columns, from top to bottom;
    [cell_at] is the place of a byte of the stream in the matrix.  Writing
    into columns is writing into the stream ([write_bytes_view]), reading a
    range of columns is reading it ([quilt_range_read_view]). *)
From S2P Require Import Prelude WalrusConfig BlobEncoding Quilt.

Section Layout.
Context (s R C : Z) (Hs : 0 < s) (HR : 0 < R) (HC : 0 < C).

(** The place in the matrix of byte [p] of the stream. *)
Definition cell_at (p : Z) : Z := (p `div` s) `mod` R * (s * C) + (p `div` s) `div` R * s + p `mod` s.
Definition view (data : bytes) : bytes := (fun p => nth (Z.to_nat (cell_at p)) data 0) <$> seqZ 0 (s * R * C).

Lemma cell_at_eq w o : 0 <= o < s -> cell_at (w * s + o) = w `mod` R * (s * C) + w `div` R * s + o.
Proof using All.
  intros Ho. unfold cell_at. rewrite Z.div_add_l, (Z.div_small o), Z.add_0_r by lia.
  by rewrite (Z.add_comm (w * s) o), Z.mod_add, (Z.mod_small o) by lia.
Qed.
(** Rows and columns are exchanged. *)
Lemma symbol_bound w : 0 <= w < R * C -> 0 <= w `mod` R * C + w `div` R < R * C.
Proof using All.
  intros Hw. pose proof (Z.mod_pos_bound w R HR). assert (0 <= w `div` R < C) as Hd.
  { split; [apply Z.div_pos; lia|apply Z.div_lt_upper_bound; lia]. }
  nia.
Qed.
Lemma symbol_inj w v : 0 <= w < R * C -> 0 <= v < R * C ->
  w `mod` R * C + w `div` R = v `mod` R * C + v `div` R -> w = v.
Proof using All.
  intros Hw Hv Heq.
  assert (forall u, 0 <= u < R * C -> 0 <= u `div` R < C) as Hb.
  { intros u Hu. split; [apply Z.div_pos; lia|apply Z.div_lt_upper_bound; lia]. }
  pose proof (Hb w Hw). pose proof (Hb v Hv).
  assert (w `mod` R = v `mod` R) as Hm by nia.
  rewrite (Z.div_mod w R), (Z.div_mod v R) by lia. nia.
Qed.
(** The piece that begins at byte [o] of a symbol and ends in it. *)
Lemma cell_at_range w o k p : 0 <= w < R * C -> 0 <= o -> o + k <= s -> 0 <= p < s * R * C ->
  cell_at (w * s + o) <= cell_at p < cell_at (w * s + o) + k <-> w * s + o <= p < w * s + o + k.
Proof using All.
  intros Hw Ho Hk Hp.
  destruct (Z_lt_le_dec 0 k) as [Hk0|]; [|lia].
  pose proof (Z.mod_pos_bound p s Hs) as Hm. pose proof (Z.div_mod p s ltac:(lia)) as Hd.
  set (v := p `div` s) in *. set (q := p `mod` s) in *.
  assert (0 <= v < R * C) as Hv by nia.
  rewrite (cell_at_eq w o) by lia. replace p with (v * s + q) by lia. rewrite (cell_at_eq v q) by lia.
  pose proof (symbol_inj w v Hw Hv) as Hinj.
  set (a := w `mod` R * C + w `div` R) in *. set (b := v `mod` R * C + v `div` R) in *.
  replace (w `mod` R * (s * C) + w `div` R * s) with (a * s) by (subst a; ring).
  replace (v `mod` R * (s * C) + v `div` R * s) with (b * s) by (subst b; ring).
  assert (w = v -> a = b) as Hcong by (intros E; subst a b; by rewrite E).
  clearbody a b v q. split; intros H.
  - assert (a = b) as E by nia. apply Hinj in E. subst. lia.
  - assert (w = v) as E by nia. rewrite (Hcong E). subst. lia.
Qed.
Lemma cell_at_bound w o : 0 <= w < R * C -> 0 <= o < s ->
  0 <= cell_at (w * s + o) /\ cell_at (w * s + o) + (s - o) <= s * R * C.
Proof using All.
  intros Hw Ho. rewrite cell_at_eq by lia. pose proof (symbol_bound w Hw). nia.
Qed.
Lemma cell_at_pos p : 0 <= p < s * R * C -> 0 <= cell_at p < s * R * C.
Proof using All.
  intros Hp. pose proof (Z.mod_pos_bound p s Hs). pose proof (Z.div_mod p s ltac:(lia)).
  replace p with (p `div` s * s + p `mod` s) by lia.
  destruct (cell_at_bound (p `div` s) (p `mod` s)); [nia|lia|lia].
Qed.
Lemma view_length data : zlen (view data) = s * R * C.
Proof using All.
  unfold view. rewrite length_fmap, length_seqZ. pose proof (Z.mul_pos_pos (s * R) C ltac:(nia) HC). lia.
Qed.
Lemma view_lookup data i : zlen data = s * R * C -> Z.of_nat i < s * R * C ->
  view data !! i = data !! Z.to_nat (cell_at (Z.of_nat i)).
Proof using All.
  intros Hl Hi. unfold view. rewrite list_lookup_fmap, lookup_seqZ_lt by lia. cbn.
  pose proof (cell_at_pos (Z.of_nat i) ltac:(lia)).
  destruct (lookup_lt_is_Some_2 data (Z.to_nat (cell_at (Z.of_nat i)))) as [x Hx]; [lia|].
  rewrite Z.add_0_l. by rewrite Hx, (nth_lookup_Some _ _ _ _ Hx).
Qed.

Lemma symbol_fits w : 0 <= w < R * C -> 0 <= w * s /\ w * s + s <= s * R * C.
Proof using All.
  intros Hw. pose proof (Z.mul_nonneg_nonneg w s). pose proof (Z.mul_le_mono_nonneg_r (w + 1) (R * C) s). lia.
Qed.
Lemma view_splice data w o piece : zlen data = s * R * C -> 0 <= w < R * C -> 0 <= o -> o + zlen piece <= s -> o < s ->
  view (splice data (cell_at (w * s + o)) piece) = splice (view data) (w * s + o) piece.
Proof using All.
  intros Hl Hw Ho Hp Hos. destruct (cell_at_bound w o Hw ltac:(lia)) as [Hb1 Hb2].
  assert (0 <= w * s + o /\ w * s + o + zlen piece <= s * R * C) as [Hp1 Hp2] by (pose proof (symbol_fits w Hw); lia).
  assert (zlen (splice data (cell_at (w * s + o)) piece) = s * R * C) as Hl' by (rewrite splice_length; lia).
  pose proof (view_length data) as Hv. pose proof (view_length (splice data (cell_at (w * s + o)) piece)) as Hv'.
  apply list_eq_same_length with (n := length (view data)); [rewrite splice_length by lia; done|lia|].
  intros i x y Hi. rewrite view_lookup by lia.
  pose proof (cell_at_range w o (zlen piece) (Z.of_nat i) Hw Ho Hp ltac:(lia)) as Hr.
  pose proof (cell_at_pos (Z.of_nat i) ltac:(lia)) as Hc.
  destruct (decide (w * s + o <= Z.of_nat i < w * s + o + zlen piece)) as [Hin|Hout].
  - rewrite !splice_lookup_in by lia. intros Hx Hy. enough (Some x = Some y) as [=] by done.
    rewrite <- Hx, <- Hy. f_equal.
    pose proof (cell_at_eq w o) as E. pose proof (cell_at_eq w (Z.of_nat i - w * s)) as E'.
    replace (w * s + (Z.of_nat i - w * s)) with (Z.of_nat i) in E' by lia. lia.
  - rewrite !splice_lookup by lia. rewrite view_lookup by lia. congruence.
Qed.
(** The next symbol of the stream. *)
Lemma advance_position w : 0 <= w ->
  (w `mod` R + 1) `mod` R = (w + 1) `mod` R /\
  (if (w `mod` R + 1) `mod` R =? 0 then w `div` R + 1 else w `div` R) = (w + 1) `div` R.
Proof using HR.
  intros Hw. pose proof (Z.mod_pos_bound w R HR). pose proof (Z.div_mod w R ltac:(lia)) as Hd.
  rewrite Z.add_mod_idemp_l by lia. split; [done|].
  pose proof (Z.div_mod (w + 1) R ltac:(lia)). pose proof (Z.mod_pos_bound (w + 1) R HR).
  destruct (Z.eqb_spec ((w + 1) `mod` R) 0); nia.
Qed.

Lemma write_cells_step fuel n_rows row_size symbol_size data bytes col row o : bytes <> [] ->
  write_cells (S fuel) n_rows row_size symbol_size data bytes col row o =
    let start_idx := row * row_size + col * symbol_size + o in
    let len := Z.min (symbol_size - o) (zlen bytes) in
    dest ← expect (get_range data start_idx len) "range end index out of range";
    piece ← copy_from_slice dest (take (Z.to_nat len) bytes);
    write_cells fuel n_rows row_size symbol_size (splice data start_idx piece) (drop (Z.to_nat len) bytes)
      (if (row + 1) `mod` n_rows =? 0 then col + 1 else col) ((row + 1) `mod` n_rows) 0.
Proof. by destruct bytes. Qed.
Lemma write_cells_view fuel data bytes w o : zlen data = s * R * C -> 0 <= w -> 0 <= o < s ->
  (length bytes <= fuel)%nat -> w * s + o + zlen bytes <= s * R * C ->
  exists data', write_cells fuel R (s * C) s data bytes (w `div` R) (w `mod` R) o = Ok data' /\
    zlen data' = s * R * C /\ view data' = splice (view data) (w * s + o) bytes.
Proof using All.
  revert data bytes w o. induction fuel as [|fuel IH]; intros data bytes w o Hl Hw Ho Hf Hfit.
  all: destruct bytes as [|b bytes]; [exists data; split_and!; [done|done|symmetry; apply splice_nil; rewrite view_length; cbn in Hfit; pose proof (Z.mul_nonneg_nonneg w s); lia]|].
  { cbn in Hf; lia. }
  set (l := b :: bytes) in *. assert (0 < zlen l) as Hpos by (cbn; lia).
  assert (0 <= w < R * C) as HwC by (split; [lia|apply (Z.mul_lt_mono_pos_r s); lia]).
  destruct (cell_at_bound w o HwC Ho) as [Hb1 Hb2].
  set (len := Z.min (s - o) (zlen l)). set (piece := take (Z.to_nat len) l).
  assert (zlen piece = len) as Hpl by (unfold piece; rewrite length_take; lia).
  assert (exists r, get_range data (cell_at (w * s + o)) len = Some r) as [r Hr] by (apply get_range_is_Some; lia).
  pose proof (get_range_length _ _ _ _ Hr) as Hrl.
  destruct (IH (splice data (cell_at (w * s + o)) piece) (drop (Z.to_nat len) l) (w + 1) 0) as (data' & Hd' & Hl' & Hv').
  { rewrite splice_length; lia. }
  { lia. } { lia. } { rewrite length_drop. lia. } { rewrite length_drop. unfold len in *. nia. }
  exists data'. split_and!; [|done|].
  - destruct (advance_position w Hw) as [Ha1 Ha2]. rewrite write_cells_step by done. cbv zeta. fold len.
    rewrite <- cell_at_eq, Hr by lia. cbn [expect mbind outcome_bind]. unfold copy_from_slice.
    fold piece. rewrite Hrl, Hpl, Z.eqb_refl. cbn [assert mbind outcome_bind]. by rewrite Ha2, Ha1.
  - rewrite Hv', view_splice by (done || lia).
    destruct (decide (s - o <= zlen l)).
    + replace ((w + 1) * s + 0) with (w * s + o + zlen piece) by (unfold len in *; lia).
      rewrite splice_app; [by unfold piece; rewrite take_drop|lia|].
      rewrite view_length, length_drop. lia.
    + unfold piece. rewrite (take_ge l), (drop_ge l) by lia.
      apply splice_nil. rewrite splice_length; rewrite ?view_length; nia.
Qed.
(** Byte [skip] of column [col]. *)
Lemma column_symbol col skip : 0 <= skip ->
  (col * R + skip `div` s) `div` R = col + skip `div` (s * R) /\
  (col * R + skip `div` s) `mod` R = (skip `div` s) `mod` R /\
  (col * R + skip `div` s) * s + skip `mod` s = col * (s * R) + skip.
Proof using All.
  intros Hk. pose proof (Z.div_mod skip s ltac:(lia)). split_and!; [|rewrite Z.add_comm; apply Z.mod_add; lia|lia].
  rewrite Z.div_add_l by lia. rewrite <- Z.div_div by lia. done.
Qed.
Lemma write_bytes_view data bytes col skip : zlen data = s * R * C -> 0 <= col -> 0 <= skip ->
  col + skip `div` (s * R) < C -> col * (s * R) + skip + zlen bytes <= s * R * C ->
  exists data', write_bytes_to_columns data bytes col (s * C) (s * R) s skip = Ok data' /\
    zlen data' = s * R * C /\ view data' = splice (view data) (col * (s * R) + skip) bytes.
Proof using All.
  intros Hl Hc Hk Hcol Hfit. destruct (column_symbol col skip Hk) as (E1 & E2 & E3).
  pose proof (Z.mod_pos_bound skip s Hs) as Hm. pose proof (Z.div_pos skip s Hk Hs).
  destruct (write_cells_view (length bytes) data bytes (col * R + skip `div` s) (skip `mod` s)) as (data' & Hw & Hl' & Hv);
    [done|nia|done|lia|lia|].
  exists data'. rewrite <- E3. split_and!; [|done|done].
  unfold write_bytes_to_columns. rewrite (Z.mul_comm s R), (Z.mul_comm s C), !Z.div_mul, (Z.mul_comm R s) by lia.
  rewrite (proj2 (Z.ltb_lt _ _)) by lia. cbn [assert mbind outcome_bind]. cbv zeta.
  rewrite (proj2 (Z.ltb_lt _ _)) by lia. cbn [assert mbind outcome_bind].
  rewrite <- E1, <- E2, (Z.mul_comm C s). done.
Qed.

(** A symbol of the matrix is a range of the stream. *)
Lemma symbol_view data w o k r : zlen data = s * R * C -> 0 <= w < R * C -> 0 <= o < s -> 0 <= k -> o + k <= s ->
  get_range data (cell_at (w * s + o)) k = Some r -> get_range (view data) (w * s + o) k = Some r.
Proof using All.
  intros Hl Hw Ho Hk Hok (Hr1 & _ & Hr2 & ->)%get_range_Some. pose proof (view_length data).
  pose proof (symbol_fits w Hw). apply get_range_Some. split_and!; [lia..|].
  apply list_eq. intros i. destruct (decide (i < Z.to_nat k)%nat); [|rewrite !lookup_take_ge by lia; done].
  rewrite !lookup_take_lt, !lookup_drop, view_lookup by lia. f_equal.
  pose proof (cell_at_eq w o). pose proof (cell_at_eq w (o + Z.of_nat i)) as E.
  replace (Z.of_nat (Z.to_nat (w * s + o) + i)) with (w * s + (o + Z.of_nat i)) by lia. lia.
Qed.
Lemma read_cells_view self fuel w o n r : qu_symbol_size self = s -> qu_row_size self = s * C ->
  zlen (qu_data self) = s * R * C -> 0 <= w -> 0 <= o < s -> (Z.to_nat n <= fuel)%nat ->
  get_range (view (qu_data self)) (w * s + o) n = Some r ->
  read_cells fuel self R (w `div` R) (w `mod` R) o n = Ok r.
Proof using All.
  intros Es Er Hl. revert w o n r. induction fuel as [|fuel IH]; intros w o n r Hw Ho Hf Hr.
  all: pose proof Hr as (_ & Hn & Hfit & ->)%get_range_Some; cbn [read_cells].
  all: destruct (Z.ltb_spec 0 n); [|by assert (n = 0) as -> by lia].
  { lia. }
  rewrite view_length in Hfit. rewrite Es, Er, <- cell_at_eq by lia.
  assert (0 <= w < R * C) as HwC by (split; [lia|apply (Z.mul_lt_mono_pos_r s); lia]).
  destruct (cell_at_bound w o HwC Ho) as [Hb1 Hb2]. destruct (advance_position w Hw) as [Ha1 Ha2].
  pose proof (symbol_fits w HwC). pose proof (cell_at_eq w o Ho) as Ec. pose proof (cell_at_eq w 0) as Ec0.
  set (k := Z.min (s - o) n).
  replace (Z.min _ _ - _) with k by lia.
  rewrite (proj2 (Z.ltb_lt _ _)) by lia. cbn [ensure mbind outcome_bind].
  destruct (get_range_is_Some (qu_data self) (cell_at (w * s + o)) k) as [slice Hslice]; [lia..|].
  rewrite Hslice. cbn [expect mbind outcome_bind]. rewrite (get_range_length _ _ _ _ Hslice).
  pose proof (symbol_view _ w o k slice Hl HwC Ho ltac:(lia) ltac:(lia) Hslice) as Hv.
  rewrite Ha2, Ha1. destruct (get_range_is_Some (view (qu_data self)) (w * s + o + k) (n - k)) as [rest Hrest];
    [lia..|rewrite view_length; lia|].
  rewrite (IH (w + 1) 0 (n - k) rest); [|lia|lia|lia|].
  - pose proof (get_range_split _ _ _ _ _ _ Hv Hrest) as Hs'. replace (k + (n - k)) with n in Hs' by lia.
    rewrite Hr in Hs'. injection Hs' as ->. done.
  - destruct (decide (n <= s - o)).
    + replace (n - k) with 0 in * by lia. apply get_range_Some in Hrest as (_&_&_&->).
      apply get_range_Some. rewrite view_length. split_and!; [lia|lia|lia|done].
    + replace ((w + 1) * s + 0) with (w * s + o + k) by lia. done.
Qed.
Lemma quilt_range_read_view self col skip n r : qu_symbol_size self = s -> qu_row_size self = s * C ->
  zlen (qu_data self) = s * R * C -> 0 <= col -> 0 <= skip ->
  get_range (view (qu_data self)) (col * (s * R) + skip) n = Some r -> quilt_range_read self col skip n = Ok r.
Proof using All.
  intros Es Er Hl Hc Hk Hr. unfold quilt_range_read.
  pose proof (Z.mul_pos_pos s R Hs HR) as HsR. pose proof (Z.mul_pos_pos (s * R) C HsR HC). pose proof (Z.mul_pos_pos s C Hs HC).
  rewrite Es, Er, (bool_decide_eq_false_2 (qu_data self = [])), Hl by (intros E; rewrite E in Hl; cbn in Hl; lia).
  rewrite (proj2 (Z.eqb_neq s 0)), (proj2 (Z.eqb_neq (s * C) 0)) by lia. cbn [orb negb ensure mbind outcome_bind].
  replace (s * R * C) with (R * (s * C)) by ring. rewrite Z.div_mul by lia. cbv zeta.
  rewrite (proj2 (Z.eqb_neq R 0)) by lia. cbn [negb assert mbind outcome_bind].
  destruct (column_symbol col skip Hk) as (E1 & E2 & E3). pose proof (Z.div_pos skip s Hk Hs).
  pose proof (Z.div_mod skip s ltac:(lia)). rewrite Z.div_div, <- E1, <- E2 by lia.
  replace (skip - skip `div` s * s) with (skip `mod` s) by lia.
  apply read_cells_view; [done..|nia|apply Z.mod_pos_bound; lia|lia|]. by rewrite E3.
Qed.
End Layout.
