(* ===== verification/QuiltRoundtrip.v ===== *)
(** What is stored in a quilt is what is read from it.

    [holds reader col b] says that the columns from [col] on begin with the
    bytes [b], for any reader of columns: the serialized blob and the index
    decode from what they are ([decode_blob_holds], [decode_index_holds]).
    [construct_quilt] places the serialized blobs side by side, after the
    columns of the index ([add_blobs_view]); hence the round trip, for a reader
    of the quilt itself. *)
From S2P Require Import Prelude WalrusConfig ReedSolomon BlobEncoding Quilt QuiltLayout.
From stdpp Require Import sorting.
#[local] Open Scope Z_scope.

Definition holds (reader : column_reader) (col : Z) (b : bytes) : Prop :=
  forall off n r, 0 <= off -> get_range b off n = Some r -> reader col off n = Ok r.

(** What the types of the code promise of a blob, and that its length fits the
    header: the identifier and the tags take at most 2^18 bytes. *)
Definition blob_typed (b : QuiltStoreBlob) : Prop :=
  scalar_values (qb_identifier b) /\ tags_typed (qb_tags b) /\ zlen (qb_blob b) < 2 ^ 32 - 2 ^ 18.

Lemma holds_app reader col b x y z off n : holds reader col b -> b = x ++ y ++ z -> off = zlen x -> n = zlen y ->
  reader col off n = Ok y.
Proof. intros H -> -> ->. apply H; [lia|]. by apply get_range_app. Qed.
Lemma le_bytes_zlen n z : zlen (le_bytes n z) = Z.of_nat n.
Proof. by rewrite le_bytes_length. Qed.

Section Serialize.
Context `{HL : BcsLaws}.

Lemma patch_id_roundtrip a b : 0 <= a < 65536 -> 0 <= b < 65536 ->
  patch_id_from_bytes (patch_id_to_bytes {| pi_start_index := a; pi_end_index := b |}) =
  Ok {| pi_start_index := a; pi_end_index := b |}.
Proof.
  intros Ha Hb. unfold patch_id_from_bytes, patch_id_to_bytes. cbn [pi_start_index pi_end_index].
  cbn [length]. rewrite length_app, !le_bytes_length. cbn [ensure mbind outcome_bind nth Z.eqb].
  change (drop 1 (?x :: ?l)) with l. change (drop 3 (?x :: ?l)) with (drop 2 l).
  rewrite take_app_length', drop_app_length', take_ge, !le_val_bytes by (rewrite ?le_bytes_length; done || lia). done.
Qed.

(** The serialized form of a blob, from the serialized identifier and tags. *)
Definition extension (tags : option bytes) : bytes :=
  match tags with None => [] | Some tags => le_bytes 2 (zlen tags) ++ tags end.
Definition prefix_of (id : bytes) (tags : option bytes) (n : Z) : bytes :=
  header_as_bytes {| bh_length := wrap 32 (2 + zlen id + zlen (extension tags) + n);
                     bh_mask := match tags with None => 0 | Some _ => 1 end |}
  ++ le_bytes 2 (zlen id) ++ id ++ extension tags.
Definition serialized_tags (blob : QuiltStoreBlob) (tags : option bytes) : Prop :=
  match tags with
  | None => qb_tags blob = ∅
  | Some t => qb_tags blob <> ∅ /\ bcs_tags (qb_tags blob) = Some t /\ zlen t < 65536
  end.
#[local] Opaque le_bytes header_as_bytes.
Lemma prefix_parts blob prefix : get_header_and_extension_bytes blob = Ok prefix <->
  exists id tags, bcs_string (qb_identifier blob) = Some id /\ zlen id < 65536 /\ serialized_tags blob tags /\
    prefix = prefix_of id tags (zlen (qb_blob blob)).
Proof.
  unfold get_header_and_extension_bytes, prefix_of. split.
  - intros H. inv_ok. bool_hyps. cbv zeta in *. rename x into id.
    destruct (bool_decide_reflect (qb_tags blob = ∅)) as [Ht|Ht]; inv_ok; bool_hyps; subst; inv_ok; subst.
    + exists id, None. split_and!; [done..|]. cbn [extension]. rewrite length_app, le_bytes_length, app_nil_r.
      repeat f_equal. cbn. lia.
    + exists id, (Some x). split_and!; [done..|]. cbn [extension]. rewrite <- app_assoc, !length_app, !le_bytes_length.
      repeat f_equal. lia.
  - intros (id & tags & Hid & Hlen & Htags & ->). rewrite Hid. cbn [ok_or mbind outcome_bind].
    rewrite (proj2 (Z.ltb_lt _ _)) by done. cbn [ensure mbind outcome_bind]. cbv zeta.
    destruct tags as [t|]; cbn [serialized_tags] in Htags.
    + destruct Htags as (Hne & Ht & Hl). rewrite bool_decide_eq_false_2, Ht by done. cbn [ok_or mbind outcome_bind].
      rewrite (proj2 (Z.ltb_lt _ _)) by done. cbn [ensure mbind outcome_bind extension]. f_equal. f_equal.
      repeat f_equal. rewrite !length_app, !le_bytes_length. lia.
    + rewrite bool_decide_eq_true_2 by done. cbn [mbind outcome_bind extension]. rewrite app_nil_r. f_equal. f_equal.
      repeat f_equal. rewrite length_app, le_bytes_length. cbn. lia.
Qed.
#[local] Transparent le_bytes header_as_bytes.
Lemma prefix_length id tags n : zlen (prefix_of id tags n) = 8 + zlen id + zlen (extension tags).
Proof.
  unfold prefix_of, header_as_bytes. rewrite length_app. cbn [length]. rewrite !length_app, !le_bytes_length. cbn. lia.
Qed.
Lemma serialized_length blob prefix n : get_header_and_extension_bytes blob = Ok prefix ->
  serialized_blob_size blob = Ok n -> n = zlen (prefix ++ qb_blob blob).
Proof.
  intros (id & tags & Hid & Hlen & Htags & ->)%prefix_parts. unfold serialized_blob_size. rewrite Hid.
  rewrite length_app, Nat2Z.inj_add, prefix_length. intros H. inv_ok. subst. cbv zeta in *. inv_ok.
  destruct tags as [t|]; cbn [serialized_tags extension] in *.
  - destruct Htags as (Hne & Ht & Hl). rewrite bool_decide_eq_false_2, Ht in * by done. inv_ok. subst.
    rewrite length_app, le_bytes_length. unfold BLOB_IDENTIFIER_SIZE_BYTES_LENGTH, TAGS_SIZE_BYTES_LENGTH, BLOB_HEADER_SIZE. lia.
  - rewrite bool_decide_eq_true_2 in * by done. inv_ok. subst. cbn.
    unfold BLOB_IDENTIFIER_SIZE_BYTES_LENGTH, BLOB_HEADER_SIZE. lia.
Qed.

Lemma header_roundtrip h : 0 <= bh_length h < 2 ^ 32 -> header_from_bytes (header_as_bytes h) = Ok h.
Proof.
  intros Hl. unfold header_from_bytes.
  change (nth 0 (header_as_bytes h) 0) with 1. change (nth 5 (header_as_bytes h) 0) with (bh_mask h).
  change (take 4 (drop 1 (header_as_bytes h))) with (le_bytes 4 (bh_length h)). rewrite le_val_bytes by done.
  by destruct h.
Qed.
Lemma header_length h : zlen (header_as_bytes h) = 6.
Proof. done. Qed.

(** A part of a serialized blob, and what a step of the decoder reads. *)
Lemma decode_identifier_holds reader col b pre id rest s : holds reader col b -> b = pre ++ le_bytes 2 (zlen id) ++ id ++ rest ->
  zlen id < 65536 -> bcs_string_from id = Some s ->
  decode_blob_identifier reader col (zlen pre) = Ok (s, 2 + zlen id).
Proof.
  intros Hr Hb Hlen Hs. unfold decode_blob_identifier, BLOB_IDENTIFIER_SIZE_BYTES_LENGTH.
  rewrite (holds_app _ _ b pre (le_bytes 2 (zlen id)) (id ++ rest) _ _ Hr) by done. cbn [mbind outcome_bind]. cbv zeta.
  rewrite le_bytes_zlen.
  rewrite le_val_bytes by (change (2 ^ (8 * Z.of_nat 2)) with 65536; lia).
  rewrite (holds_app _ _ b (pre ++ le_bytes 2 (zlen id)) id rest _ _ Hr); [|by rewrite Hb, <- !app_assoc| |done].
  - cbn [mbind outcome_bind]. by rewrite Hs.
  - rewrite length_app, le_bytes_length. lia.
Qed.
Lemma decode_tags_holds reader col b pre t rest m : holds reader col b -> b = pre ++ le_bytes 2 (zlen t) ++ t ++ rest ->
  zlen t < 65536 -> bcs_tags_from t = Some m ->
  decode_blob_tags reader col (zlen pre) = Ok (m, 2 + zlen t).
Proof.
  intros Hr Hb Hlen Hs. unfold decode_blob_tags, TAGS_SIZE_BYTES_LENGTH.
  rewrite (holds_app _ _ b pre (le_bytes 2 (zlen t)) (t ++ rest) _ _ Hr) by done. cbn [mbind outcome_bind]. cbv zeta.
  rewrite le_bytes_zlen.
  rewrite le_val_bytes by (change (2 ^ (8 * Z.of_nat 2)) with 65536; lia).
  rewrite (holds_app _ _ b (pre ++ le_bytes 2 (zlen t)) t rest _ _ Hr); [|by rewrite Hb, <- !app_assoc| |done].
  - cbn [mbind outcome_bind]. rewrite Hs. change (Z.of_nat 2 =? 2) with true.
    cbn [assert ok_or mbind outcome_bind]. do 2 f_equal. lia.
  - rewrite length_app, le_bytes_length. lia.
Qed.
Lemma with_tags_eta blob :
  with_tags {| qb_blob := qb_blob blob; qb_identifier := qb_identifier blob; qb_tags := ∅ |} (qb_tags blob) = blob.
Proof. by destruct blob. Qed.
(** A serialized blob is decoded wherever it begins a column. *)
Lemma decode_blob_holds reader col blob prefix : blob_typed blob ->
  validate_quilt_identifier (qb_identifier blob) = Ok tt -> get_header_and_extension_bytes blob = Ok prefix ->
  holds reader col (prefix ++ qb_blob blob) -> decode_blob reader col = Ok blob.
Proof using All.
  intros (Hid0 & Htags0 & Hsmall) Hval (id & tags & Hid & Hlen & Htags & ->)%prefix_parts Hr.
  destruct (bcs_string_roundtrip _ _ Hid0 Hid) as [Hid' _].
  set (data := qb_blob blob) in *. set (ext := extension tags) in *.
  assert (zlen ext < 65538) as Hext.
  { subst ext. destruct tags as [t|]; [|done]. destruct Htags as (_ & _ & Hl). cbn [extension]. rewrite length_app, le_bytes_length. lia. }
  set (total := 2 + zlen id + zlen ext + zlen data). assert (0 <= total < 2 ^ 32) as Htotal by lia.
  set (h := {| bh_length := total; bh_mask := match tags with None => 0 | Some _ => 1 end |}).
  set (b := _ ++ data) in Hr.
  assert (b = header_as_bytes h ++ le_bytes 2 (zlen id) ++ id ++ ext ++ data) as Hb.
  { unfold b, prefix_of, h. rewrite wrap_small by done. by rewrite <- !app_assoc. }
  unfold decode_blob. change BLOB_HEADER_SIZE with (zlen (header_as_bytes h)). cbv zeta.
  rewrite (holds_app _ _ b [] (header_as_bytes h) (le_bytes 2 (zlen id) ++ id ++ ext ++ data) _ _ Hr) by done.
  cbn [mbind outcome_bind]. rewrite Z.eqb_refl, header_roundtrip by done. cbn [assert mbind outcome_bind no_error map_err].
  rewrite (decode_identifier_holds _ _ b (header_as_bytes h) id (ext ++ data) _ Hr Hb Hlen Hid').
  cbn [mbind outcome_bind]. unfold usize_sub. change (bh_length h) with total.
  rewrite to_u64_ok by lia. cbn [expect mbind outcome_bind].
  set (pre := header_as_bytes h ++ le_bytes 2 (zlen id) ++ id).
  assert (b = pre ++ ext ++ data) as Hb' by (unfold pre; by rewrite Hb, <- !app_assoc).
  assert (zlen (header_as_bytes h) + (2 + zlen id) = zlen pre) as Hpre by (unfold pre; rewrite !length_app, le_bytes_length; lia).
  assert (forall off n, off = zlen pre + zlen ext -> n = zlen data ->
    (data_bytes ← reader col off n; assert (zlen data_bytes =? n) "assertion failed" ;;
     result ← quilt_store_blob_new data_bytes (qb_identifier blob); Ok (with_tags result (qb_tags blob))) = Ok blob) as Hdata.
  { intros off n -> ->.
    rewrite (holds_app _ _ b (pre ++ ext) data [] _ _ Hr); [|by rewrite app_nil_r, <- app_assoc|rewrite length_app; lia|done].
    cbn [mbind outcome_bind]. rewrite Z.eqb_refl. unfold quilt_store_blob_new. rewrite Hval.
    cbn [assert mbind outcome_bind]. apply (f_equal Ok), with_tags_eta. }
  destruct tags as [t|]; cbn [serialized_tags] in Htags.
  - destruct Htags as (Hne & Ht & Hl). destruct (bcs_tags_roundtrip _ _ Htags0 Ht) as [Ht' _].
    assert (zlen ext = 2 + zlen t) as Hel by (unfold ext; cbn [extension]; rewrite length_app, le_bytes_length; lia).
    change (has_tags h) with true. cbv iota. rewrite Hpre.
    rewrite (decode_tags_holds _ _ b pre t data (qb_tags blob) Hr); [|by rewrite Hb'; unfold ext; cbn [extension]; rewrite <- !app_assoc|done|done].
    cbn [mbind outcome_bind]. rewrite to_u64_ok by lia. apply Hdata; lia.
  - change (has_tags h) with false. rewrite Hpre. assert (zlen ext = 0) as Hel by done.
    cbn [mbind outcome_bind]. rewrite <- Htags. apply Hdata; lia.
Qed.

(** The index at the beginning of the quilt. *)
Definition index_bytes_of (index : bytes) : bytes := QUILT_VERSION_BYTE :: le_bytes 4 (zlen index) ++ index.
Lemma index_bytes_length index : zlen (index_bytes_of index) = QUILT_INDEX_PREFIX_SIZE + zlen index.
Proof. unfold index_bytes_of. cbn [length]. rewrite length_app, le_bytes_length. change QUILT_INDEX_PREFIX_SIZE with 5. lia. Qed.
Lemma decode_index_holds reader cs b l : zlen b < 2 ^ 32 -> Forall patch_typed l -> bcs_index l = Some b ->
  0 < cs -> div_ceil (zlen (index_bytes_of b)) cs < 65536 -> holds reader 0 (index_bytes_of b) ->
  decode_quilt_index reader cs =
    Ok (populate_start_indices (div_ceil (zlen (index_bytes_of b)) cs) ((fun p => set_range p 0 (qp_end_index p)) <$> l)).
Proof using All.
  intros Hlen Hl Hb Hcs Hcols Hr. destruct (bcs_index_roundtrip _ _ Hl Hb) as [Hb' _].
  unfold decode_quilt_index.
  rewrite (holds_app _ _ _ [] [QUILT_VERSION_BYTE] (le_bytes 4 (zlen b) ++ b) 0 _ Hr) by done.
  cbn [mbind outcome_bind assert]. unfold check_quilt_version.
  change (zlen [QUILT_VERSION_BYTE] =? QUILT_VERSION_BYTES_LENGTH) with true.
  change (get_at [QUILT_VERSION_BYTE] 0) with (Some QUILT_VERSION_BYTE). cbn [mbind outcome_bind assert ok_or].
  rewrite Z.eqb_refl. cbn [ensure mbind outcome_bind].
  rewrite (holds_app _ _ _ [QUILT_VERSION_BYTE] (le_bytes 4 (zlen b)) b QUILT_VERSION_BYTES_LENGTH _ Hr) by done.
  cbn [mbind outcome_bind]. rewrite le_bytes_zlen. change (Z.of_nat 4 =? QUILT_INDEX_SIZE_BYTES_LENGTH) with true.
  cbn [assert mbind outcome_bind]. rewrite le_val_bytes by (change (2 ^ (8 * Z.of_nat 4)) with (2 ^ 32); lia). cbv zeta.
  rewrite (holds_app _ _ _ (QUILT_VERSION_BYTE :: le_bytes 4 (zlen b)) b [] QUILT_INDEX_PREFIX_SIZE _ Hr) by (rewrite ?app_nil_r; done).
  cbn [mbind outcome_bind]. rewrite Z.eqb_refl, Hb'. cbn [assert ok_or mbind outcome_bind].
  rewrite (proj2 (Z.eqb_neq cs 0)) by lia. cbn [negb assert mbind outcome_bind].
  rewrite index_bytes_length in *. rewrite (Z.add_comm (zlen b)).
  by rewrite (proj2 (Z.ltb_lt _ _)) by done.
Qed.
End Serialize.

(** ** Columns side by side *)

Section Place.
Context (cs : Z) (Hcs : 0 < cs).

(** The stream after the blobs [bs] have been written from column [col] on. *)
Fixpoint place (v : bytes) (col : Z) (bs : list bytes) : bytes :=
  match bs with
  | [] => v
  | b :: bs => place (splice v (col * cs) b) (col + div_ceil (zlen b) cs) bs
  end.
Fixpoint starts (col : Z) (bs : list bytes) : list Z :=
  match bs with
  | [] => []
  | b :: bs => col :: starts (col + div_ceil (zlen b) cs) bs
  end.
Definition needed_columns (bs : list bytes) : Z := sumZ ((fun b => div_ceil (zlen b) cs) <$> bs).

Lemma needed_columns_cons b bs : needed_columns (b :: bs) = div_ceil (zlen b) cs + needed_columns bs.
Proof. done. Qed.
Lemma needed_columns_nonneg bs : 0 <= needed_columns bs.
Proof using Hcs.
  induction bs as [|b bs IH]; [done|]. rewrite needed_columns_cons. pose proof (div_ceil_nonneg (zlen b) cs Hcs). lia.
Qed.
Lemma fits_in_columns (b : bytes) : zlen b <= div_ceil (zlen b) cs * cs.
Proof using Hcs. pose proof (div_ceil_spec (zlen b) cs Hcs). lia. Qed.

Lemma place_spec v col bs : 0 <= col -> (col + needed_columns bs) * cs <= zlen v ->
  zlen (place v col bs) = zlen v /\
  (forall o n, o + n <= col * cs -> get_range (place v col bs) o n = get_range v o n) /\
  Forall2 (fun start b => col <= start /\ get_range (place v col bs) (start * cs) (zlen b) = Some b) (starts col bs) bs.
Proof using Hcs.
  revert v col. induction bs as [|b bs IH]; intros v col Hc Hfit; [done|].
  rewrite needed_columns_cons in Hfit. pose proof (needed_columns_nonneg bs). pose proof (fits_in_columns b).
  pose proof (div_ceil_nonneg (zlen b) cs Hcs ltac:(lia)). cbn [place starts].
  assert (0 <= col * cs) by nia. assert (0 <= needed_columns bs * cs) by nia.
  destruct (IH (splice v (col * cs) b) (col + div_ceil (zlen b) cs)) as (Hl & Hb & Hr); [lia|rewrite splice_length; lia|].
  rewrite splice_length in Hl by lia. split_and!; [lia|..].
  - intros o n Hon. rewrite Hb by lia. apply splice_apart; lia.
  - constructor.
    + split; [done|]. rewrite Hb by lia. apply splice_same; lia.
    + eapply Forall2_impl; [done|]. cbn. intros start x [Hs Hx]. split; [lia|done].
Qed.
End Place.

(** ** The construction *)

(** The patches of the blobs [bs], from column [col] on. *)
Fixpoint placed (cs col : Z) (patches : QuiltIndexV1) (bs : list bytes) : QuiltIndexV1 :=
  match patches, bs with
  | p :: patches, b :: bs =>
      set_range p col (col + div_ceil (zlen b) cs) :: placed cs (col + div_ceil (zlen b) cs) patches bs
  | _, _ => []
  end.
Definition serializes `{B : Bcs} (blob : QuiltStoreBlob) (b : bytes) : Prop :=
  exists prefix, get_header_and_extension_bytes blob = Ok prefix /\ b = prefix ++ qb_blob blob.

Section Placed.
Context (cs : Z).
Lemma placed_unranged col patches bs : length patches = length bs ->
  (fun p => set_range p 0 0) <$> placed cs col patches bs = (fun p => set_range p 0 0) <$> patches.
Proof.
  revert col bs. induction patches as [|p patches IH]; intros col [|b bs] Hl; cbn in *; [done..|].
  f_equal. apply IH. lia.
Qed.
Lemma placed_populate col patches bs : length patches = length bs ->
  populate_start_indices col ((fun p => set_range p 0 (qp_end_index p)) <$> placed cs col patches bs) = placed cs col patches bs.
Proof.
  revert col bs. induction patches as [|p patches IH]; intros col [|b bs] Hl; cbn in *; [done..|].
  f_equal. apply IH. lia.
Qed.
Lemma placed_starts col patches bs : length patches = length bs ->
  qp_start_index <$> placed cs col patches bs = starts cs col bs.
Proof.
  revert col bs. induction patches as [|p patches IH]; intros col [|b bs] Hl; cbn in *; [done..|].
  f_equal. apply IH. lia.
Qed.
Lemma placed_identifiers col patches bs : length patches = length bs ->
  (fun p => (qp_identifier p, qp_tags p)) <$> placed cs col patches bs = (fun p => (qp_identifier p, qp_tags p)) <$> patches.
Proof.
  revert col bs. induction patches as [|p patches IH]; intros col [|b bs] Hl; cbn in *; [done..|].
  f_equal. apply IH. lia.
Qed.
Lemma placed_range col patches bs : 0 < cs -> Forall (fun p => col <= qp_start_index p <= qp_end_index p /\
  qp_end_index p <= col + needed_columns cs bs) (placed cs col patches bs).
Proof.
  intros Hcs. revert col bs. induction patches as [|p patches IH]; intros col [|b bs]; cbn [placed]; [constructor..|].
  rewrite needed_columns_cons. pose proof (needed_columns_nonneg cs Hcs bs). pose proof (div_ceil_nonneg (zlen b) cs Hcs ltac:(lia)).
  constructor; [cbn; lia|]. eapply Forall_impl; [apply IH|]. cbn. lia.
Qed.
Lemma placed_end col patches bs : length patches = length bs ->
  Forall2 (fun p b => qp_end_index p = qp_start_index p + div_ceil (zlen b) cs) (placed cs col patches bs) bs.
Proof.
  revert col bs. induction patches as [|p patches IH]; intros col [|b bs] Hl; cbn in *; [constructor|done|done|].
  constructor; [done|]. apply IH. lia.
Qed.
Lemma placed_typed col patches bs : 0 < cs -> 0 <= col -> col + needed_columns cs bs < 65536 ->
  Forall (fun p => scalar_values (qp_identifier p) /\ tags_typed (qp_tags p)) patches ->
  Forall patch_typed (placed cs col patches bs).
Proof.
  intros Hcs. revert col bs. induction patches as [|p patches IH]; intros col [|b bs] Hc Hb Hp; cbn [placed]; [constructor..|].
  rewrite needed_columns_cons in Hb. apply Forall_cons in Hp as [[Hp1 Hp2] Hp].
  pose proof (needed_columns_nonneg cs Hcs bs). pose proof (div_ceil_nonneg (zlen b) cs Hcs ltac:(lia)).
  constructor; [split; [cbn; lia|done]|]. apply IH; [lia|lia|done].
Qed.
End Placed.

Section Construct.
Context `{HL : BcsLaws} (s R C : Z) (Hs : 0 < s) (HR : 0 < R) (HC : 0 < C) (HC16 : C < 65536).
Let cs := s * R.
Local Lemma cs_pos : 0 < cs.
Proof using Hs HR. by apply Z.mul_pos_pos. Qed.

Lemma write_bytes_panics data bytes col skip : 0 <= skip -> C <= col + skip `div` cs ->
  write_bytes_to_columns data bytes col (s * C) cs s skip = Panic "assertion failed: current_col < n_cols".
Proof using Hs HR.
  intros Hk Hc. unfold write_bytes_to_columns. rewrite (Z.mul_comm s C), Z.div_mul by lia.
  by rewrite (proj2 (Z.ltb_ge _ C)) by done.
Qed.
(** A blob that fits into the remaining columns is written; the columns after
    the prefix must exist even when the blob is empty. *)
Lemma add_blob_view data blob b cur : zlen data = s * R * C -> serializes blob b -> 0 <= cur ->
  cur + div_ceil (zlen b) cs <= C ->
  qb_blob blob <> [] \/ (exists r, add_blob_to_quilt data blob false cur cs (s * C) s = Ok r) ->
  exists data', add_blob_to_quilt data blob false cur cs (s * C) s = Ok (data', div_ceil (zlen b) cs) /\
    zlen data' = s * R * C /\ view s R C data' = splice (view s R C data) (cur * cs) b.
Proof using All.
  intros Hl (prefix & Hp & ->) Hcur Hfit Hcase. pose proof cs_pos as Hcs.
  pose proof Hp as (id & tags & _ & _ & _ & Hprefix)%prefix_parts. pose proof (prefix_length id tags (zlen (qb_blob blob))) as Hpl.
  rewrite <- Hprefix in Hpl. pose proof (div_ceil_spec (zlen (prefix ++ qb_blob blob)) cs Hcs) as Hd.
  pose proof (div_ceil_nonneg (zlen (prefix ++ qb_blob blob)) cs Hcs ltac:(lia)).
  assert (div_ceil (zlen prefix + zlen (qb_blob blob)) cs = div_ceil (zlen (prefix ++ qb_blob blob)) cs) as Hdk
    by (f_equal; rewrite length_app; lia).
  set (k := div_ceil (zlen (_ ++ _)) cs) in *. clearbody k. rewrite length_app, Nat2Z.inj_add in *.
  assert (0 < k) as Hk by nia.
  assert (cur * cs + k * cs <= s * R * C) as Hroom.
  { pose proof (Z.mul_le_mono_nonneg_r (cur + k) C cs). unfold cs in *. lia. }
  pose proof (Z.mul_nonneg_nonneg cur cs).
  destruct (write_bytes_view s R C Hs HR HC data prefix cur 0) as (data1 & Hw1 & Hl1 & Hv1);
    [done|done|done|rewrite Z.div_0_l by (fold cs; lia); lia|fold cs; lia|].
  assert (add_blob_to_quilt data blob false cur cs (s * C) s =
    (data ← no_error (write_bytes_to_columns data1 (qb_blob blob) cur (s * C) cs s (zlen prefix)); Ok (data, k))) as Heq.
  { assert (cs `mod` s = 0) as Hmod by (unfold cs; rewrite Z.mul_comm; apply Z.mod_mul; lia).
    unfold add_blob_to_quilt. rewrite Hp, Hmod.
    cbn [Z.eqb assert mbind outcome_bind]. fold cs in Hw1. rewrite Hw1. cbn [no_error map_err mbind outcome_bind].
    by rewrite Hdk. }
  rewrite Heq in *.
  assert (cur + zlen prefix `div` cs < C) as Hcol.
  { destruct Hcase as [Hne|[r Hr]].
    - assert (0 < zlen (qb_blob blob)) by (destruct (qb_blob blob); [done|cbn; lia]).
      pose proof (Z.div_lt_upper_bound (zlen prefix) cs k). lia.
    - destruct (Z.lt_ge_cases (cur + zlen prefix `div` cs) C) as [|Hge]; [done|].
      rewrite write_bytes_panics in Hr by (done || lia). done. }
  destruct (write_bytes_view s R C Hs HR HC data1 (qb_blob blob) cur (zlen prefix)) as (data2 & Hw2 & Hl2 & Hv2);
    [done|done|lia|done|fold cs; lia|].
  exists data2. fold cs in Hw2. rewrite Hw2. split_and!; [done|done|]. fold cs in Hv1, Hv2.
  rewrite Hv2, Hv1, Z.add_0_r. apply splice_app; [lia|]. rewrite view_length by done. lia.
Qed.

Lemma add_blob_eq cs' row s' data data' ps cur blob p n :
  add_blob_to_quilt data blob false cur cs' row s' = Ok (data', n) -> cur < 65536 -> cur + n < 65536 ->
  add_blob cs' row s' (data, ps, cur) (blob, p) = Ok (data', ps ++ [set_range p cur (cur + n)], cur + n).
Proof.
  intros Ha H1 H2. unfold add_blob. rewrite Ha. cbn [mbind outcome_bind].
  by rewrite !(proj2 (Z.ltb_lt _ 65536)) by done.
Qed.
Lemma add_blob_Ok_inv cs' row s' data ps cur x r :
  add_blob cs' row s' (data, ps, cur) x = Ok r -> exists r', add_blob_to_quilt data x.1 false cur cs' row s' = Ok r'.
Proof. destruct x. unfold add_blob. intros H. inv_ok. eauto. Qed.

(** The loop over the blobs. *)
Lemma add_blobs_view blobs bs : Forall2 serializes blobs bs ->
  forall patches data ps cur, length patches = length bs -> zlen data = s * R * C -> 0 <= cur ->
  cur + needed_columns cs bs <= C ->
  Forall (fun blob => qb_blob blob <> []) blobs \/
    (exists r, ofold (add_blob cs (s * C) s) (data, ps, cur) (zip blobs patches) = Ok r) ->
  exists data', ofold (add_blob cs (s * C) s) (data, ps, cur) (zip blobs patches) =
      Ok (data', ps ++ placed cs cur patches bs, cur + needed_columns cs bs) /\
    zlen data' = s * R * C /\ view s R C data' = place cs (view s R C data) cur bs.
Proof using All.
  pose proof cs_pos as Hcs.
  induction 1 as [|blob b blobs bs Hb Hbs IH]; intros patches data ps cur Hlen Hl Hcur Hfit Hcase.
  { exists data. destruct patches; [|done]. split_and!; [|done|done]. cbn. by rewrite app_nil_r, Z.add_0_r. }
  destruct patches as [|p patches]; [done|]. rewrite needed_columns_cons in *. pose proof (needed_columns_nonneg cs Hcs bs).
  pose proof (div_ceil_nonneg (zlen b) cs Hcs ltac:(lia)).
  cbn [zip_with ofold] in *.
  destruct (add_blob_view data blob b cur) as (data1 & Ha & Hl1 & Hv1); [done|done|done|lia| |].
  { destruct Hcase as [Hne%Forall_cons|[r Hr]]; [left; apply Hne|right]. inv_ok.
    by eapply (add_blob_Ok_inv _ _ _ _ _ _ (blob, p)). }
  rewrite (add_blob_eq _ _ _ _ data1 ps cur blob p _ Ha) in * by lia. cbn [mbind outcome_bind] in *.
  destruct (IH patches data1 (ps ++ [set_range p cur (cur + div_ceil (zlen b) cs)]) (cur + div_ceil (zlen b) cs))
    as (data2 & Hr2 & Hl2 & Hv2); [by injection Hlen|done|lia|lia| |].
  { destruct Hcase as [Hne%Forall_cons|?]; [left; apply Hne|right; done]. }
  exists data2. rewrite Hr2. split_and!; [|done|by rewrite Hv2, Hv1].
  rewrite <- app_assoc. do 2 f_equal. lia.
Qed.

(** Where the quilt [q] keeps its index [ib] and the blobs [bs]. *)
Definition laid_out (v : bytes) (patches : QuiltIndexV1) (ib : bytes) (bs : list bytes) : Prop :=
  let first := div_ceil (zlen (index_bytes_of ib)) cs in
  first + needed_columns cs bs <= C /\ zlen v = s * R * C /\
  get_range v 0 (zlen (index_bytes_of ib)) = Some (index_bytes_of ib) /\
  Forall2 (fun start b => first <= start /\ get_range v (start * cs) (zlen b) = Some b) (starts cs first bs) bs.
Record quilt_holds (q : QuiltV1) (patches : QuiltIndexV1) (ib : bytes) (bs : list bytes) : Prop := {
  qh_symbol_size : qu_symbol_size q = s;
  qh_row_size : qu_row_size q = s * C;
  qh_length : zlen (qu_data q) = s * R * C;
  qh_patches : qu_index q = Some (placed cs (div_ceil (zlen (index_bytes_of ib)) cs) patches bs);
  qh_index : bcs_index (placed cs (div_ceil (zlen (index_bytes_of ib)) cs) patches bs) = Some ib;
  qh_laid_out : laid_out (view s R C (qu_data q)) patches ib bs;
}.
Lemma fill_quilt_holds blobs bs patches ib0 : Forall2 serializes blobs bs -> length patches = length bs ->
  bcs_index patches = Some ib0 ->
  let first := div_ceil (zlen (index_bytes_of ib0)) cs in
  first <= MAX_NUM_SLIVERS_FOR_QUILT_INDEX -> first + needed_columns cs bs <= C ->
  Forall (fun blob => qb_blob blob <> []) blobs \/ (exists q, fill_quilt R C (zlen ib0) s blobs patches = Ok q) ->
  exists q ib, fill_quilt R C (zlen ib0) s blobs patches = Ok q /\ zlen ib = zlen ib0 /\ quilt_holds q patches ib bs.
Proof using All.
  intros Hbs Hlen Hib0 first Hfirst Hfit Hcase. pose proof cs_pos as Hcs. pose proof (index_bytes_length ib0) as Hil.
  pose proof (needed_columns_nonneg cs Hcs bs) as Hcn. pose proof (div_ceil_spec (zlen (index_bytes_of ib0)) cs Hcs) as Hd.
  fold first in Hd. assert (0 <= first) as Hf0 by (apply div_ceil_nonneg; lia).
  assert (zlen (zeros (s * C * R)) = s * R * C) as Hz.
  { rewrite zeros_length. pose proof (Z.mul_nonneg_nonneg (s * C) R). lia. }
  unfold fill_quilt in *. rewrite <- Hil in Hcase |- *. fold cs in Hcase |- *. fold first in Hcase |- *.
  rewrite (proj2 (Z.leb_le _ _)) in Hcase |- * by done. cbn [assert mbind outcome_bind] in Hcase |- *.
  destruct (add_blobs_view blobs bs Hbs patches (zeros (s * C * R)) [] first) as (data1 & Hr1 & Hl1 & Hv1); [done|done|done|done| |].
  { destruct Hcase as [|[q Hq]]; [by left|right]. inv_ok. eauto. }
  fold cs in Hr1. rewrite Hr1. cbn [mbind outcome_bind app].
  pose proof (bcs_index_width _ _ (placed_unranged cs first patches bs Hlen)) as Hw. rewrite Hib0 in Hw.
  destruct (bcs_index (placed cs first patches bs)) as [ib|] eqn:Hib; [|done]. injection Hw as Hw.
  cbn [expect mbind outcome_bind].
  assert (QUILT_VERSION_BYTE :: le_bytes 4 (zlen ib0) ++ ib = index_bytes_of ib) as -> by (unfold index_bytes_of; by rewrite Hw).
  pose proof (index_bytes_length ib) as Hil'. rewrite (proj2 (Z.eqb_eq _ _)) by lia. cbn [assert mbind outcome_bind].
  change (quilt_store_blob_new ?d _) with (@Ok QuiltError _ {| qb_blob := d; qb_identifier := ascii_bytes "quilt_index"; qb_tags := ∅ |}).
  assert (zlen (index_bytes_of ib) = zlen (index_bytes_of ib0)) as Hlib by lia.
  assert (div_ceil (zlen (index_bytes_of ib)) cs = first) as Hfe by (by rewrite Hlib).
  assert (first * cs <= s * R * C) as Hroom.
  { pose proof (Z.mul_le_mono_nonneg_r first C cs). unfold cs in *. lia. }
  destruct (write_bytes_view s R C Hs HR HC data1 (index_bytes_of ib) 0 0) as (data2 & Hw2 & Hl2 & Hv2);
    [done|done|done|rewrite Z.div_0_l by (fold cs; lia); lia|lia|]. fold cs in Hw2, Hv2.
  assert (cs `mod` s = 0) as Hmod by (unfold cs; rewrite Z.mul_comm; apply Z.mod_mul; lia).
  unfold add_blob_to_quilt. rewrite Hmod. cbn [qb_blob assert mbind outcome_bind Z.eqb]. rewrite Hw2.
  cbn [no_error map_err mbind outcome_bind]. eexists _, ib. split_and!; [done|lia|].
  constructor; cbn [qu_data qu_row_size qu_symbol_size qu_index]; rewrite ?Hfe; [done..|].
  destruct (place_spec cs Hcs (view s R C (zeros (s * C * R))) first bs Hf0) as (Hpl & Hpb & Hpf).
  { rewrite view_length by done. pose proof (Z.mul_le_mono_nonneg_r (first + needed_columns cs bs) C cs). unfold cs in *. lia. }
  rewrite view_length in Hpl by done. rewrite Z.mul_0_l, Z.add_0_r in Hv2.
  unfold laid_out. rewrite Hfe, Hv2, Hv1. split_and!; [done| |apply splice_same; lia|].
  - rewrite splice_length; lia.
  - eapply Forall2_impl; [done|]. cbn. intros start b [Hst Hb]. split; [done|]. rewrite splice_apart; [done|lia|lia|].
    right. pose proof (Z.mul_le_mono_nonneg_r first start cs). lia.
Qed.
(** The reader of a quilt. *)
Lemma quilt_reader_holds q : qu_symbol_size q = s -> qu_row_size q = s * C -> zlen (qu_data q) = s * R * C ->
  forall start b, 0 <= start -> get_range (view s R C (qu_data q)) (start * cs) (zlen b) = Some b ->
  holds (quilt_range_read q) start b.
Proof using Hs HR HC.
  intros H1 H2 H3 start b Hst Hb off n r Hoff Hr. eapply (quilt_range_read_view s R C Hs HR HC); [done..|].
  by eapply get_range_sub.
Qed.
End Construct.

(** From any reader of the columns the index is decoded and the blobs. *)
Section Read.
Context `{HL : BcsLaws} (s R C : Z) (Hs : 0 < s) (HR : 0 < R) (HC : 0 < C) (HC16 : C < 65536).
Let cs := s * R.
Context (q : QuiltV1) (blobs : list QuiltStoreBlob) (patches : QuiltIndexV1) (ib : bytes) (bs : list bytes).
Context (Hq : quilt_holds s R C q patches ib bs) (Hbs : Forall2 serializes blobs bs).
Context (Hpatches : patches = (fun b => {| qp_start_index := 0; qp_end_index := 0; qp_identifier := qb_identifier b; qp_tags := qb_tags b |}) <$> blobs).
Context (Htyped : Forall blob_typed blobs) (Hvalid : Forall (fun b => validate_quilt_identifier (qb_identifier b) = Ok tt) blobs).
Context (Hib : zlen ib < 2 ^ 32).
Context (reader : column_reader).
Let first := div_ceil (zlen (index_bytes_of ib)) cs.

Local Lemma patches_length : length patches = length bs.
Proof using Hbs Hpatches. rewrite Hpatches, length_fmap. by eapply Forall2_length. Qed.
Local Lemma first_nonneg : 0 <= first.
Proof using Hs HR. apply div_ceil_nonneg; [by apply Z.mul_pos_pos|lia]. Qed.
Lemma read_index : holds reader 0 (index_bytes_of ib) -> decode_quilt_index reader cs = Ok (placed cs first patches bs).
Proof using All.
  intros Hreader. pose proof (Z.mul_pos_pos s R Hs HR : 0 < cs) as Hcs. pose proof first_nonneg as Hf.
  destruct Hq as [_ _ _ Hp Hi (Hfit & Hl & Hidx & _)]. fold cs in Hi, Hfit, Hidx. fold first in Hi, Hfit. pose proof (needed_columns_nonneg cs Hcs bs).
  rewrite (decode_index_holds reader cs ib (placed cs first patches bs)); fold first; [|done| |done|done|lia|done].
  - f_equal. apply placed_populate, patches_length.
  - apply placed_typed; [done|done|lia|]. rewrite Hpatches. apply Forall_fmap. eapply Forall_impl; [apply Htyped|].
    intros b (H1 & H2 & _). done.
Qed.
(** What the patch of a blob says, and what is read with it. *)
Definition patch_reads (p : QuiltPatchV1) (blob : QuiltStoreBlob) : Prop :=
  decode_blob reader (qp_start_index p) = Ok blob /\ qp_identifier p = qb_identifier blob /\ qp_tags p = qb_tags blob /\
  0 <= qp_start_index p < qp_end_index p /\ qp_end_index p <= C.
(** The bytes of a patch are in its columns. *)
Definition patch_bytes (p : QuiltPatchV1) (b : bytes) : Prop :=
  b <> [] /\ qp_end_index p = qp_start_index p + div_ceil (zlen b) cs /\ 0 <= qp_start_index p < qp_end_index p /\
  qp_end_index p <= C /\ get_range (view s R C (qu_data q)) (qp_start_index p * cs) (zlen b) = Some b.
Lemma read_patches : Forall2 (fun p blob => exists b, patch_bytes p b /\
  (holds reader (qp_start_index p) b -> patch_reads p blob)) (placed cs first patches bs) blobs.
Proof using All.
  pose proof (Z.mul_pos_pos s R Hs HR : 0 < cs) as Hcs. pose proof first_nonneg as Hf.
  destruct Hq as [_ _ _ _ _ (Hfit & _ & _ & Hall)]. fold cs in Hfit, Hall. fold first in Hfit, Hall.
  rewrite <- (placed_starts cs first patches bs patches_length) in Hall. apply Forall2_fmap_l in Hall.
  pose proof (placed_range cs first patches bs Hcs) as Hrange. pose proof (placed_end cs first patches bs patches_length) as Hend.
  pose proof (placed_identifiers cs first patches bs patches_length) as Hids. rewrite Hpatches in Hids at 2.
  rewrite <- list_fmap_compose in Hids.
  assert (length (placed cs first patches bs) = length bs) as Hlen by (by eapply Forall2_length).
  apply Forall2_same_length_lookup in Hall as [_ Hall]. apply Forall2_same_length_lookup in Hend as [_ Hend].
  pose proof Hbs as [Hlb Hser]%Forall2_same_length_lookup. apply Forall2_same_length_lookup. split; [congruence|].
  intros i p blob Hp Hb. destruct (lookup_lt_is_Some_2 bs i) as [b Hbi]; [rewrite <- Hlb; by eapply lookup_lt_Some|].
  destruct (Hall i p b Hp Hbi) as [Hge Hget]. pose proof (Hend i p b Hp Hbi) as He. cbn in He.
  destruct (Hser i blob b Hb Hbi) as (prefix & Hprefix & ->).
  pose proof (Forall_lookup_1 _ _ _ _ Hrange Hp) as Hr. cbn in Hr.
  pose proof (f_equal (fun l => l !! i) Hids) as Hi. cbn in Hi. rewrite !list_lookup_fmap, Hp, Hb in Hi. injection Hi as Hi1 Hi2.
  pose proof Hprefix as (id & tags & _ & _ & _ & Hpl)%prefix_parts.
  assert (8 <= zlen (prefix ++ qb_blob blob)) as H8 by (rewrite length_app, Hpl; pose proof (prefix_length id tags (zlen (qb_blob blob))); lia).
  pose proof (div_ceil_spec (zlen (prefix ++ qb_blob blob)) cs Hcs). assert (0 < div_ceil (zlen (prefix ++ qb_blob blob)) cs) by nia.
  exists (prefix ++ qb_blob blob). split.
  - split_and!; [intros E; rewrite E in H8; done|done|lia|lia|lia|done].
  - intros Hreader. split_and!; [|done|done|lia|lia|lia].
    eapply decode_blob_holds; [by eapply Forall_lookup_1|by eapply (Forall_lookup_1 _ _ _ _ Hvalid)|done|done].
Qed.
End Read.

(** ** Sorting and duplicates *)

Lemma str_leb_total a b : str_leb a b = true \/ str_leb b a = true.
Proof.
  revert b. induction a as [|x a IH]; intros [|y b]; cbn; [by left..|by right|].
  destruct (Z.ltb_spec x y), (Z.ltb_spec y x); [lia|by left|by right|apply IH].
Qed.
Lemma str_leb_trans a b c : str_leb a b = true -> str_leb b c = true -> str_leb a c = true.
Proof.
  revert b c. induction a as [|x a IH]; intros [|y b] [|z c]; cbn; [done..|].
  destruct (Z.ltb_spec x y), (Z.ltb_spec y x), (Z.ltb_spec y z), (Z.ltb_spec z y), (Z.ltb_spec x z), (Z.ltb_spec z x);
    try done; try lia. apply IH.
Qed.
Lemma str_leb_antisymm a b : str_leb a b = true -> str_leb b a = true -> a = b.
Proof.
  revert b. induction a as [|x a IH]; intros [|y b]; cbn; [done..|].
  destruct (Z.ltb_spec x y), (Z.ltb_spec y x); [lia|done|done|]. intros H1 H2. f_equal; [lia|by apply IH].
Qed.
#[export] Instance identifier_le_total : Total identifier_le.
Proof. intros a b. apply str_leb_total. Qed.
#[export] Instance identifier_le_trans : Transitive identifier_le.
Proof. intros a b c. apply str_leb_trans. Qed.
Lemma adjacent_duplicate_NoDup blobs : StronglySorted identifier_le blobs -> adjacent_duplicate blobs = None ->
  NoDup (qb_identifier <$> blobs).
Proof.
  induction 1 as [|a blobs Hs IH Ha]; intros Hd; [constructor|].
  destruct blobs as [|b blobs]; [apply NoDup_singleton|]. cbn [adjacent_duplicate] in Hd. bool_hyps.
  destruct (bool_decide_reflect (qb_identifier a = qb_identifier b)) as [|Hne]; [done|].
  rewrite fmap_cons. apply NoDup_cons. split; [|by apply IH]. intros (x & Hx & Hin)%list_elem_of_fmap.
  apply Forall_cons in Ha as [Hab _]. apply Hne, str_leb_antisymm; [done|].
  apply elem_of_cons in Hin as [->|Hin]; [rewrite Hx; destruct (str_leb_total (qb_identifier b) (qb_identifier b)); done|].
  inversion Hs as [|? ? _ Hb]; subst. rewrite Forall_forall in Hb. rewrite Hx. by apply Hb.
Qed.
Lemma adjacent_duplicate_Some blobs id : adjacent_duplicate blobs = Some id ->
  exists i a b, blobs !! i = Some a /\ blobs !! S i = Some b /\ qb_identifier a = id /\ qb_identifier b = id.
Proof.
  induction blobs as [|a blobs IH]; [done|]. destruct blobs as [|b blobs]; [done|]. cbn [adjacent_duplicate].
  destruct (bool_decide_reflect (qb_identifier a = qb_identifier b)) as [E|].
  - intros [= <-]. exists 0%nat, a, b. done.
  - intros (i & x & y & ? & ? & ? & ?)%IH. by exists (S i), x, y.
Qed.

(** The selection of patches, when no two have the same identifier. *)
Lemma filter_patches_spec l ids : NoDup (qp_identifier <$> l) ->
  filter_patches ids l = (filter (fun p => qp_identifier p ∈ ids) l, ids ∖ list_to_set (qp_identifier <$> l)).
Proof.
  revert ids. induction l as [|p l IH]; intros ids Hd; cbn [filter_patches].
  { f_equal. cbn. set_solver. }
  cbn [fmap list_fmap] in Hd. apply NoDup_cons in Hd as [Hp Hd]. rewrite filter_cons.
  destruct (bool_decide_reflect (qp_identifier p ∈ ids)) as [Hin|Hout].
  - rewrite decide_True by done. rewrite IH by done. f_equal; [|cbn; set_solver]. f_equal.
    apply list_filter_ext_in. intros x Hx. enough (qp_identifier x <> qp_identifier p) by set_solver.
    intros E. apply Hp. rewrite <- E. apply list_elem_of_fmap. by exists x.
  - rewrite decide_False by done. rewrite IH by done. f_equal. cbn. set_solver.
Qed.

(** ** The constructed quilt *)

Definition new_patch (b : QuiltStoreBlob) : QuiltPatchV1 :=
  {| qp_start_index := 0; qp_end_index := 0; qp_identifier := qb_identifier b; qp_tags := qb_tags b |}.
Lemma new_patches l patches : omapM (fun blob => patch_new_with_tags (qb_identifier blob) (qb_tags blob)) l = Ok patches ->
  patches = new_patch <$> l /\ Forall (fun b => validate_quilt_identifier (qb_identifier b) = Ok tt) l.
Proof.
  intros H%omapM_Ok. induction H as [|b p l patches Hb _ [-> IH]]; [done|].
  unfold patch_new_with_tags in Hb. inv_ok. subst. split; [done|]. by constructor.
Qed.
Lemma sumZ_bound l k : Forall (fun x => x <= k) l -> sumZ l <= zlen l * k.
Proof. unfold sumZ. induction 1; cbn [foldr length]; lia. Qed.

Lemma serialized_bound `{B : Bcs} blob b : blob_typed blob -> serializes blob b -> zlen b < 2 ^ 33.
Proof.
  intros (_ & _ & Hs) (prefix & (id & tags & _ & Hid & Htags & ->)%prefix_parts & ->).
  rewrite length_app, Nat2Z.inj_add, prefix_length. destruct tags as [t|]; cbn [serialized_tags extension] in *.
  - destruct Htags as (_ & _ & Ht). rewrite length_app, le_bytes_length. lia.
  - cbn. lia.
Qed.
Lemma blobs_serialize `{B : Bcs} cs row s blobs patches data ps cur r : length patches = length blobs ->
  ofold (add_blob cs row s) (data, ps, cur) (zip blobs patches) = Ok r ->
  Forall (fun blob => exists prefix, get_header_and_extension_bytes blob = Ok prefix) blobs.
Proof.
  revert patches data ps cur. induction blobs as [|blob blobs IH]; intros [|p patches] data ps cur Hl H; [constructor|done..|].
  cbn [zip_with ofold] in H. inv_ok. pose proof H0 as Hadd. apply add_blob_Ok_inv in Hadd as [r' Hr']. destruct x as [[data' ps'] cur'].
  constructor; [|eapply IH; [|done]; by injection Hl].
  unfold add_blob_to_quilt in Hr'. inv_ok. eauto.
Qed.
Lemma decode_patches_filter `{B : Bcs} q patches blobs (P : QuiltPatchV1 -> Prop) (Q : QuiltStoreBlob -> Prop)
    `{forall x, Decision (P x)} `{forall x, Decision (Q x)} :
  Forall2 (fun p blob => decode_blob (quilt_range_read q) (qp_start_index p) = Ok blob /\ (P p <-> Q blob)) patches blobs ->
  quilt_decode_patches q (filter P patches) = Ok (filter Q blobs).
Proof.
  intros Hall. apply omapM_Ok. induction Hall as [|p blob patches blobs [Hd HPQ] _ IH]; [constructor|].
  rewrite !filter_cons. destruct (decide (P p)), (decide (Q blob)); [by constructor|tauto|tauto|done].
Qed.

Lemma sizes_of_blobs `{B : Bcs} blobs bs sizes : Forall2 serializes blobs bs -> omapM serialized_blob_size blobs = Ok sizes ->
  sizes = (fun b => zlen b) <$> bs.
Proof.
  intros Hbs Hs%omapM_Ok. revert sizes Hs. induction Hbs as [|blob b blobs bs (prefix & Hp & ->) _ IH]; intros sizes Hs.
  { by inversion Hs. }
  inversion Hs as [|? n ? sizes' Hn Hs']; subst. rewrite fmap_cons. f_equal; [|by apply IH].
  by eapply serialized_length.
Qed.
Lemma serialized_nonneg `{B : Bcs} blob n : serialized_blob_size blob = Ok n -> 0 <= n.
Proof.
  unfold serialized_blob_size. intros H. inv_ok. cbv zeta in *. subst.
  destruct (bool_decide _); inv_ok; subst;
    unfold BLOB_HEADER_SIZE, BLOB_IDENTIFIER_SIZE_BYTES_LENGTH, TAGS_SIZE_BYTES_LENGTH; lia.
Qed.
(** Either all blobs serialize, or there is a first one that does not. *)
Lemma serialize_all_or_first `{B : Bcs} blobs : (exists bs, Forall2 serializes blobs bs) \/
  exists pre x post bs e, blobs = pre ++ x :: post /\ Forall2 serializes pre bs /\ get_header_and_extension_bytes x = Err e.
Proof.
  assert (forall x, no_panic (get_header_and_extension_bytes x)) as Hnp by (intros x; unfold get_header_and_extension_bytes; np).
  induction blobs as [|x blobs IH]; [left; by exists []|]. specialize (Hnp x).
  destruct (get_header_and_extension_bytes x) as [prefix|e| |] eqn:Hx; [|right; by exists [], x, blobs, [], e|done|done].
  assert (serializes x (prefix ++ qb_blob x)) as Hser by (by exists prefix).
  destruct IH as [[bs Hbs]|(pre & y & post & bs & e & -> & Hbs & He)]; [left; eexists; by constructor|right].
  exists (x :: pre), y, post, ((prefix ++ qb_blob x) :: bs), e. split_and!; [done|by constructor|done].
Qed.
Lemma sumZ_app l l' : sumZ (l ++ l') = sumZ l + sumZ l'.
Proof. unfold sumZ. induction l as [|x l IH]; cbn in *; lia. Qed.
Lemma zip_middle {A B} (l1 : list A) x l2 (k : list B) : length k = length (l1 ++ x :: l2) ->
  exists k1 y k2, k = k1 ++ y :: k2 /\ length k1 = length l1 /\ zip (l1 ++ x :: l2) k = zip l1 k1 ++ (x, y) :: zip l2 k2.
Proof.
  revert k. induction l1 as [|a l1 IH]; intros [|b k] Hl; cbn in Hl; [lia| |lia|].
  - by exists [], b, k.
  - destruct (IH k ltac:(lia)) as (k1 & y & k2 & -> & Hk & Hz). exists (b :: k1), y, k2. split_and!; [done|cbn; lia|].
    cbn. by f_equal.
Qed.

Lemma add_blob_Err `{B : Bcs} cs row s data ps cur x p e : cs `mod` s = 0 -> get_header_and_extension_bytes x = Err e ->
  add_blob cs row s (data, ps, cur) (x, p) = Err e.
Proof. intros Hmod He. unfold add_blob, add_blob_to_quilt. by rewrite Hmod, He. Qed.
Section Fill.
Context `{HL : BcsLaws} (s R C : Z) (Hs : 0 < s) (HR : 0 < R) (HC : 0 < C) (HC16 : C < 65536).
Let cs := s * R.
Lemma fill_quilt_no_panic blobs sizes patches ib0 : omapM serialized_blob_size blobs = Ok sizes -> length patches = length blobs ->
  Forall (fun blob => qb_blob blob <> []) blobs -> bcs_index patches = Some ib0 ->
  let first := div_ceil (zlen (index_bytes_of ib0)) cs in
  first <= MAX_NUM_SLIVERS_FOR_QUILT_INDEX -> first + sumZ ((fun n => div_ceil n cs) <$> sizes) <= C ->
  no_panic (fill_quilt R C (zlen ib0) s blobs patches).
Proof using All.
  intros Hsizes Hlen Hne Hib first Hfirst Hfit. pose proof (Z.mul_pos_pos s R Hs HR : 0 < cs) as Hcs.
  destruct (serialize_all_or_first blobs) as [[bs Hbs]|(pre & x & post & bs & e & -> & Hbs & He)].
  - rewrite (sizes_of_blobs _ _ _ Hbs Hsizes), <- list_fmap_compose in Hfit.
    destruct (fill_quilt_holds s R C Hs HR HC HC16 blobs bs patches ib0) as (q & ib & -> & _);
      [done|rewrite Hlen; by eapply Forall2_length|done|done|done|by left|done].
  - destruct (zip_middle pre x post patches Hlen) as (p1 & y & p2 & -> & Hp1 & Hz).
    apply omapM_Ok, Forall2_app_inv_l in Hsizes as (sz1 & sz2 & Hsz1 & Hsz2 & ->).
    apply omapM_Ok in Hsz1. rewrite (sizes_of_blobs _ _ _ Hbs Hsz1), fmap_app, sumZ_app, <- list_fmap_compose in Hfit.
    assert (first + (needed_columns cs bs + sumZ ((fun n => div_ceil n cs) <$> sz2)) <= C) as Hfit' by exact Hfit.
    assert (0 <= sumZ ((fun n => div_ceil n cs) <$> sz2)).
    { apply sumZ_nonneg, Forall_fmap. eapply Forall2_Forall_r; [done|]. apply Forall_true. intros b n Hn. cbn.
      apply div_ceil_nonneg; [done|]. by eapply serialized_nonneg. }
    destruct (add_blobs_view s R C Hs HR HC HC16 pre bs Hbs p1 (zeros (s * C * R)) [] first) as (data & Hr & _).
    { rewrite Hp1. by eapply Forall2_length. } { rewrite zeros_length. pose proof (Z.mul_nonneg_nonneg (s * C) R). lia. }
    { apply div_ceil_nonneg; lia. } { fold cs. lia. }
    { left. by apply Forall_app in Hne as [? _]. }
    unfold fill_quilt. rewrite <- index_bytes_length, Hz, ofold_app. fold cs. fold first. fold cs in Hr. rewrite Hr.
    apply no_panic_bind; [|intros _ _]. { by rewrite (proj2 (Z.leb_le _ _)). }
    cbn [mbind outcome_bind ofold]. rewrite (add_blob_Err _ _ _ _ _ _ _ _ e); [done| |done].
    unfold cs. rewrite Z.mul_comm. apply Z.mod_mul. lia.
Qed.
End Fill.

Section Constructed.
Context `{HL : BcsLaws} (config : ReedSolomonEncodingConfig).
Let R := n_source_symbols config Primary.
Let C := n_source_symbols config Secondary.
Context (HR : 0 < R) (HC : 0 < C < 65536).

(** What the choice of the symbol size gives. *)
Lemma chosen_size sizes n s : Forall (fun x => 0 <= x) (n :: sizes) -> sumZ (n :: sizes) < 2 ^ 63 ->
  quilt_compute_symbol_size (n :: sizes) C R MAX_NUM_SLIVERS_FOR_QUILT_INDEX RS2 = Ok s ->
  0 < s < 65536 /\ div_ceil n (s * R) <= MAX_NUM_SLIVERS_FOR_QUILT_INDEX /\
  div_ceil n (s * R) + sumZ ((fun x => div_ceil x (s * R)) <$> sizes) <= C.
Proof using HR HC.
  intros Hsz Hsum Hs. assert (zlen (n :: sizes) <= C) as Hlen.
  { unfold quilt_compute_symbol_size in Hs. inv_ok. by bool_hyps. }
  destruct (quilt_symbol_size_exists (n :: sizes) C R MAX_NUM_SLIVERS_FOR_QUILT_INDEX RS2) as (m & Hm & [_ (_ & H2 & H3)] & _ & E);
    [lia|done..|].
  rewrite E in Hs. inv_ok. bool_hyps. subst m. change (max_symbol_size RS2) with 65534 in *.
  split_and!; [lia|lia| |exact H3]. apply div_ceil_le; [by apply Z.mul_pos_pos|].
  cbn [hd] in H2. lia.
Qed.
Lemma small_sum sizes s : Forall (fun x => 0 <= x < 2 ^ 33) sizes ->
  quilt_compute_symbol_size sizes C R MAX_NUM_SLIVERS_FOR_QUILT_INDEX RS2 = Ok s -> sumZ sizes < 2 ^ 63.
Proof using HR HC.
  intros Hsz Hs. assert (zlen sizes <= C) as Hlen by (unfold quilt_compute_symbol_size in Hs; inv_ok; by bool_hyps).
  assert (Forall (fun x => x <= 2 ^ 33) sizes) as Hall by (eapply Forall_impl; [done|]; cbn; lia).
  pose proof (sumZ_bound sizes (2 ^ 33) Hall). lia.
Qed.
Lemma quilt_compute_symbol_size_no_panic n sizes : Forall (fun x => 0 <= x) (n :: sizes) -> sumZ (n :: sizes) < 2 ^ 63 ->
  no_panic (quilt_compute_symbol_size (n :: sizes) C R MAX_NUM_SLIVERS_FOR_QUILT_INDEX RS2).
Proof using HR HC.
  intros Hsz Hsum. destruct (Z.le_gt_cases (zlen (n :: sizes)) C) as [Hlen|Hlen].
  - destruct (quilt_symbol_size_exists (n :: sizes) C R MAX_NUM_SLIVERS_FOR_QUILT_INDEX RS2) as (m & _ & _ & _ & ->); [lia|done..|]. np.
  - unfold quilt_compute_symbol_size. by rewrite (proj2 (Z.leb_gt _ _)) by done.
Qed.

(** The quilt [q] of the blobs [blobs]. *)
Definition quilt_of (blobs : list QuiltStoreBlob) (q : QuiltV1) : Prop :=
  let sorted := merge_sort identifier_le blobs in
  exists s ib bs, 0 < s < 65536 /\ zlen ib < 2 ^ 32 /\
    div_ceil (zlen (index_bytes_of ib)) (s * R) <= MAX_NUM_SLIVERS_FOR_QUILT_INDEX /\ Forall2 serializes sorted bs /\
    Forall (fun b => validate_quilt_identifier (qb_identifier b) = Ok tt) sorted /\
    NoDup (qb_identifier <$> sorted) /\ quilt_holds s R C q (new_patch <$> sorted) ib bs.
Lemma construct_quilt_of blobs q : Forall blob_typed blobs -> construct_quilt config blobs = Ok q -> quilt_of blobs q.
Proof using All.
  intros Htyped H. unfold construct_quilt in H. fold R C in H. cbv zeta in H. unfold quilt_of.
  pose proof (merge_sort_Permutation identifier_le blobs) as Hperm.
  set (sorted := merge_sort identifier_le blobs) in *. cbv zeta.
  assert (Forall blob_typed sorted) as Hts by (by rewrite Hperm).
  destruct (adjacent_duplicate sorted) eqn:Hdup; [done|]. inv_ok. bool_hyps.
  apply new_patches in H1 as [-> Hvalid]. rename x1 into ib0, x3 into sizes, x4 into s, H4 into Hsizes, H5 into Hs, H3 into Hib, H2 into Hib0.
  assert (length (new_patch <$> sorted) = length sorted) as Hlp by apply length_fmap.
  assert (Forall (fun blob => exists prefix, get_header_and_extension_bytes blob = Ok prefix) sorted) as Hser.
  { pose proof H as Hf. unfold fill_quilt in Hf. inv_ok. by eapply blobs_serialize. }
  assert (exists bs, Forall2 serializes sorted bs) as [bs Hbs].
  { clear -Hser. induction Hser as [|x l [prefix Hp] _ [bs IH]]; [by exists []|].
    exists ((prefix ++ qb_blob x) :: bs). constructor; [by exists prefix|done]. }
  pose proof (sizes_of_blobs _ _ _ Hbs Hsizes) as ->.
  assert (Forall (fun x => 0 <= x < 2 ^ 33) ((fun b : bytes => zlen b) <$> bs)) as Hb33.
  { apply Forall_fmap. eapply Forall2_Forall_r; [done|]. eapply Forall_impl; [apply Hts|].
    intros blob Hb b Hsb. cbn. split; [lia|]. by eapply serialized_bound. }
  assert (Forall (fun x => 0 <= x < 2 ^ 33) (QUILT_INDEX_PREFIX_SIZE + zlen ib0 :: ((fun b : bytes => zlen b) <$> bs))) as H33
    by (constructor; [change QUILT_INDEX_PREFIX_SIZE with 5; lia|done]).
  destruct (chosen_size _ _ _ (Forall_impl _ _ _ H33 (fun x H => proj1 H)) (small_sum _ _ H33 Hs) Hs) as (Hs0 & Hidx & Hfit).
  rewrite <- index_bytes_length, <- list_fmap_compose in *.
  destruct (fill_quilt_holds s R C (proj1 Hs0) HR ltac:(lia) ltac:(lia) sorted bs (new_patch <$> sorted) ib0) as (q' & ib & Hq' & Hl & Hh);
    [done|rewrite Hlp; by eapply Forall2_length|done|done|done|right; eauto|].
  rewrite H in Hq'. injection Hq' as <-. exists s, ib, bs. split_and!; [lia|lia|lia| |done|done| |done].
  { rewrite index_bytes_length in *. by rewrite Hl. }
  apply adjacent_duplicate_NoDup; [apply StronglySorted_merge_sort; apply _|done].
Qed.

Lemma quilt_of_reads blobs q : Forall blob_typed blobs -> quilt_of blobs q ->
  exists index, qu_index q = Some index /\
    Forall2 (patch_reads C (quilt_range_read q)) index (merge_sort identifier_le blobs).
Proof using All.
  intros Htyped (s & ib & bs & Hs & Hib & _ & Hbs & Hvalid & _ & Hh).
  eexists. split; [apply Hh|]. eapply Forall2_impl.
  { eapply (read_patches s R C (proj1 Hs) HR); [lia|lia|done|done|done|by rewrite merge_sort_Permutation|done|done]. }
  intros p blob (b & (_ & _ & Hp & _ & Hget) & Hread). apply Hread.
  apply (quilt_reader_holds s R C (proj1 Hs) HR); [lia|apply Hh|apply Hh|apply Hh|lia|done].
Qed.
Lemma quilt_of_new blobs q : Forall blob_typed blobs -> quilt_of blobs q -> quilt_new (qu_data q) config = Ok q.
Proof using All.
  intros Htyped (s & ib & bs & [Hs _] & Hib & _ & Hbs & Hvalid & _ & Hh).
  pose proof (Z.mul_pos_pos s R Hs HR) as HsR. pose proof (Z.mul_pos_pos R C HR ltac:(lia)) as HRC.
  pose proof (Z.mul_pos_pos s (R * C) Hs HRC). pose proof (Z.mul_pos_pos s C Hs ltac:(lia)).
  pose proof Hh as [H1 H2 H3 H4 _ (_ & _ & Hidx & _)].
  assert (get_at (qu_data q) 0 = Some QUILT_VERSION_BYTE) as Hbyte.
  { apply get_at_Some. split; [lia|]. apply get_range_Some in Hidx as (_ & _ & _ & Hidx).
    pose proof (f_equal (fun l : bytes => l !! 0%nat) Hidx) as Hi.
    rewrite lookup_take_lt, lookup_drop in Hi by (unfold index_bytes_of; cbn; lia).
    rewrite (view_lookup s R C) in Hi by lia. unfold cell_at in Hi. by rewrite Z.div_0_l, Z.mod_0_l in Hi by lia. }
  unfold quilt_new. rewrite Hbyte. cbn [ok_or mbind outcome_bind]. rewrite Z.eqb_refl. cbn [ensure mbind outcome_bind].
  unfold new_from_quilt_blob. assert (0 < zlen (qu_data q)) as Hpos by lia.
  rewrite bool_decide_eq_false_2 by (intros E; by rewrite E in Hpos). cbn [negb ensure mbind outcome_bind]. fold R C. cbv zeta.
  rewrite (proj2 (Z.eqb_neq (R * C) 0)), H3 by lia. cbn [negb ensure mbind outcome_bind].
  replace (s * R * C) with (s * (R * C)) by ring. rewrite Z.mod_mul, Z.div_mul by lia. cbn [Z.eqb ensure mbind outcome_bind].
  unfold quilt_get_or_decode_quilt_index. cbn [qu_index qu_data qu_row_size qu_symbol_size]. rewrite H3.
  replace (s * R * C) with (R * (s * C)) by ring. rewrite Z.div_mul by lia. rewrite (Z.mul_comm R s).
  rewrite (read_index s R C Hs HR ltac:(lia) ltac:(lia) q (merge_sort identifier_le blobs) _ ib bs Hh Hbs eq_refl); [|by rewrite merge_sort_Permutation|done|done|].
  - cbn [mbind outcome_bind]. rewrite <- H1 at 2. rewrite <- H4, <- H2. by destruct q.
  - apply (quilt_reader_holds s R C Hs HR ltac:(lia) (Build_QuiltV1 _ _ _ _)); done.
Qed.

(** C14: A quilt that has been constructed is recognised and parsed from its bytes,
    and gives the blobs back: all of them in the order of their identifiers,
    those with a tag, those with given identifiers (or the identifiers it does
    not hold), and the one of a patch identifier. *)
Theorem quilt_roundtrip blobs q : Forall blob_typed blobs -> construct_quilt config blobs = Ok q ->
  quilt_new (qu_data q) config = Ok q /\
  exists sorted, sorted ≡ₚ blobs /\ StronglySorted identifier_le sorted /\ NoDup (qb_identifier <$> sorted) /\
    quilt_get_all_blobs q = Ok sorted /\
    (forall tag value, quilt_get_blobs_by_tag q tag value = Ok (filter (fun b => qb_tags b !! tag = Some value) sorted)) /\
    (forall ids : list ustring, let missing : gset ustring := list_to_set ids ∖ list_to_set (qb_identifier <$> sorted) in
      quilt_get_blobs_by_identifiers q ids =
        (if bool_decide (missing = ∅) then Ok (filter (fun b => qb_identifier b ∈ ids) sorted)
         else Err (BlobsNotFoundInQuilt (elements missing)))) /\
    (exists index, quilt_index q = Ok index /\
      Forall2 (fun p blob => quilt_get_blob_by_patch_internal_id q (patch_id_to_bytes (quilt_patch_internal_id p)) = Ok blob)
        index sorted).
Proof using All.
  intros Htyped Hq%construct_quilt_of; [|done]. split; [by eapply quilt_of_new|].
  destruct (quilt_of_reads _ _ Htyped Hq) as (index & Hindex & Hreads). destruct Hq as (_ & _ & _ & _ & _ & _ & _ & _ & Hdup & _).
  exists (merge_sort identifier_le blobs). set (sorted := merge_sort identifier_le blobs) in *.
  assert (quilt_index q = Ok index) as Hqi by (unfold quilt_index; by rewrite Hindex).
  assert (qp_identifier <$> index = qb_identifier <$> sorted) as Hids.
  { clear -Hreads. induction Hreads as [|p blob index sorted (_ & E & _) _ IH]; cbn; [done|by rewrite E, IH]. }
  split_and!; [apply merge_sort_Permutation|apply StronglySorted_merge_sort; apply _|done| | | |].
  - unfold quilt_get_all_blobs. rewrite Hqi. apply omapM_Ok. eapply Forall2_impl; [done|]. by intros p blob (Hd & _).
  - intros tag value. unfold quilt_get_blobs_by_tag. rewrite Hqi. cbn [mbind outcome_bind].
    apply decode_patches_filter. eapply Forall2_impl; [done|]. intros p blob (Hd & _ & Ht & _). split; [done|].
    unfold has_matched_tag. rewrite bool_decide_eq_true. by rewrite Ht.
  - intros ids. cbv zeta. unfold quilt_get_blobs_by_identifiers, get_quilt_patches_by_identifiers. rewrite Hqi. cbn [mbind outcome_bind].
    rewrite filter_patches_spec, Hids by (by rewrite Hids).
    destruct (bool_decide _); [|done]. cbn [ensure mbind outcome_bind]. apply decode_patches_filter.
    eapply Forall2_impl; [done|]. intros p blob (Hd & Hid & _). split; [done|]. rewrite elem_of_list_to_set, Hid. done.
  - exists index. split; [done|]. eapply Forall2_impl; [done|]. intros p blob (Hd & _ & _ & H1 & H2).
    unfold quilt_get_blob_by_patch_internal_id, quilt_patch_internal_id. rewrite patch_id_roundtrip by lia. exact Hd.
Qed.

(** C16: [construct_quilt] never panics on blobs that are not empty: each of its
    failures is an error, whatever the identifiers and the tags, as long as the
    sizes are those of data in memory and the index is below 4 GiB. *)
Theorem construct_quilt_no_panic blobs : Forall (fun b => qb_blob b <> []) blobs ->
  (forall sizes, omapM serialized_blob_size (merge_sort identifier_le blobs) = Ok sizes -> sumZ sizes < 2 ^ 62) ->
  (forall b, bcs_index (new_patch <$> merge_sort identifier_le blobs) = Some b -> zlen b < 2 ^ 32) ->
  no_panic (construct_quilt config blobs).
Proof using All.
  intros Hne Hmem Hidx. unfold construct_quilt. fold R C. cbv zeta.
  assert (Forall (fun b => qb_blob b <> []) (merge_sort identifier_le blobs)) as Hne' by (by rewrite merge_sort_Permutation).
  set (sorted := merge_sort identifier_le blobs) in *.
  apply no_panic_bind; [by destruct (adjacent_duplicate sorted)|intros _ _].
  apply no_panic_bind; [apply no_panic_omapM; intros x; unfold patch_new_with_tags, validate_quilt_identifier; np|].
  intros patches [-> Hvalid]%new_patches. apply no_panic_bind; [np|]. intros ib0 Hib0%ok_or_Ok. pose proof (Hidx _ Hib0).
  rewrite (proj2 (Z.ltb_lt _ _)) by done. cbn [assert mbind outcome_bind].
  apply no_panic_bind; [apply no_panic_omapM; intros x; unfold serialized_blob_size; np|]. intros sizes Hsizes.
  pose proof (Hmem _ Hsizes) as Hsum. rewrite <- index_bytes_length.
  assert (Forall (fun x => 0 <= x) (zlen (index_bytes_of ib0) :: sizes)) as Hnn.
  { constructor; [lia|]. apply omapM_Ok in Hsizes. eapply Forall2_Forall_r; [done|]. apply Forall_true.
    intros b n Hn. by eapply serialized_nonneg. }
  assert (sumZ (zlen (index_bytes_of ib0) :: sizes) < 2 ^ 63) as Hsum'.
  { rewrite index_bytes_length. change QUILT_INDEX_PREFIX_SIZE with 5. unfold sumZ in *. cbn [foldr]. lia. }
  apply no_panic_bind; [by apply quilt_compute_symbol_size_no_panic|]. intros s Hs.
  destruct (chosen_size _ _ _ Hnn Hsum' Hs) as (Hs0 & Hfirst & Hfit).
  eapply (fill_quilt_no_panic s R C (proj1 Hs0) HR); [lia|lia|done|apply length_fmap|done..].
Qed.
End Constructed.

(** ** A concrete serialization

    [toy_bcs] writes a value as the number that stdpp's [encode] gives it; the
    end indices of an index have two bytes each. *)

Definition number_bytes (p : positive) : bytes := le_bytes (Z.to_nat (Z.log2 (Zpos p) / 8 + 1)) (Zpos p).
Lemma number_bytes_val p : le_val (number_bytes p) = Zpos p.
Proof.
  unfold number_bytes. pose proof (Z.log2_nonneg (Zpos p)). pose proof (Z.div_pos (Z.log2 (Zpos p)) 8).
  apply le_val_bytes. split; [lia|]. apply Z.log2_lt_pow2; [lia|].
  pose proof (Z.div_mod (Z.log2 (Zpos p)) 8). pose proof (Z.mod_pos_bound (Z.log2 (Zpos p)) 8). lia.
Qed.
Definition to_toy `{Countable A} (x : A) : bytes := number_bytes (countable.encode x).
Definition from_toy `{Countable A} (b : bytes) : option A := countable.decode (Z.to_pos (le_val b)).
Lemma from_to_toy `{Countable A} (x : A) : from_toy (to_toy x) = Some x /\ is_bytes (to_toy x).
Proof.
  split; [|apply le_bytes_bytes]. unfold from_toy, to_toy. rewrite number_bytes_val. apply countable.decode_encode.
Qed.
Definition index_contents (l : QuiltIndexV1) : list (ustring * tag_map) := (fun p => (qp_identifier p, qp_tags p)) <$> l.
Definition toy_index (l : QuiltIndexV1) : option bytes :=
  let contents := to_toy (index_contents l) in
  if zlen contents <? 2 ^ 32
  then Some (le_bytes 4 (zlen contents) ++ contents ++ concat ((fun p => le_bytes 2 (qp_end_index p)) <$> l)) else None.
Definition toy_index_from (b : bytes) : option QuiltIndexV1 :=
  let n := Z.to_nat (le_val (take 4 b)) in
  contents ← (from_toy (take n (drop 4 b)) : option (list (ustring * tag_map)));
  Some (zip_with (fun c e => {| qp_start_index := 0; qp_end_index := le_val e; qp_identifier := c.1; qp_tags := c.2 |})
    contents (chunks 2 (drop (4 + n) b))).
#[export] Instance toy_bcs : Bcs := {
  bcs_string s := Some (to_toy s);
  bcs_string_from := from_toy;
  bcs_tags t := Some (to_toy t);
  bcs_tags_from := from_toy;
  bcs_index := toy_index;
  bcs_index_from := toy_index_from;
}.
Lemma toy_index_roundtrip l b : Forall patch_typed l -> toy_index l = Some b ->
  toy_index_from b = Some ((fun p => set_range p 0 (qp_end_index p)) <$> l) /\ is_bytes b.
Proof.
  intros Hl Hb. unfold toy_index in Hb. destruct (Z.ltb_spec (zlen (to_toy (index_contents l))) (2 ^ 32)) as [Hlt|]; [|done].
  apply (inj Some) in Hb as <-. destruct (from_to_toy (index_contents l)) as [Hf Hbytes].
  set (c := to_toy (index_contents l)) in *. set (ends := (fun p => le_bytes 2 (qp_end_index p)) <$> l). split.
  - unfold toy_index_from. cbv zeta. rewrite <- drop_drop.
    set (hd := le_bytes 4 (zlen c)). set (rest := c ++ concat ends).
    change (take 4 (hd ++ rest)) with hd. change (drop 4 (hd ++ rest)) with rest. unfold hd, rest.
    rewrite le_val_bytes by (change (2 ^ (8 * Z.of_nat 4)) with (2 ^ 32); lia).
    rewrite Nat2Z.id, take_app_length, drop_app_length, Hf. cbn [mbind option_bind]. f_equal.
    rewrite chunks_concat; [|lia|apply Forall_fmap, Forall_true; done].
    unfold index_contents, ends. clear -Hl. induction Hl as [|p l Hp _ IH]; [done|]. cbn [fmap list_fmap zip_with].
    rewrite le_val_bytes by (destruct Hp as [He _]; change (2 ^ (8 * Z.of_nat 2)) with 65536; lia). by f_equal.
  - apply Forall_app. split; [apply le_bytes_bytes|]. apply Forall_app. split; [done|].
    apply Forall_concat, Forall_fmap, Forall_true. intros p. apply le_bytes_bytes.
Qed.
Lemma toy_index_width l l' : (fun p => set_range p 0 0) <$> l = (fun p => set_range p 0 0) <$> l' ->
  length <$> toy_index l = length <$> toy_index l'.
Proof.
  intros H. assert (index_contents l = index_contents l') as Hc.
  { pose proof (f_equal index_contents H) as Hi. unfold index_contents in *. by rewrite <- !list_fmap_compose in Hi. }
  assert (length l = length l') as Hlen by (pose proof (f_equal length H) as E; by rewrite !length_fmap in E).
  unfold toy_index. rewrite Hc. destruct (_ <? _); [|done]. cbn. f_equal. rewrite !length_app. f_equal.
  assert (forall k : QuiltIndexV1, length (concat ((fun p => le_bytes 2 (qp_end_index p)) <$> k)) = (2 * length k)%nat) as Hk.
  { induction k as [|p k IH]; [done|]. cbn [fmap list_fmap concat]. rewrite length_app, IH, le_bytes_length. cbn. lia. }
  rewrite !Hk. lia.
Qed.
#[export] Instance toy_bcs_laws : BcsLaws toy_bcs.
Proof.
  split; cbn.
  - intros s b _ [= <-]. apply from_to_toy.
  - intros t b _ [= <-]. apply from_to_toy.
  - apply toy_index_roundtrip.
  - apply toy_index_width.
Qed.

Definition quilt_config : ReedSolomonEncodingConfig :=
  {| source_symbols_primary := 4; source_symbols_secondary := 7; rs_n_shards := 10 |}.
Definition two_blobs : list QuiltStoreBlob :=
  [{| qb_blob := seqZ 1 9; qb_identifier := ascii_bytes "b"; qb_tags := {[ascii_bytes "k" := ascii_bytes "v"]} |};
   {| qb_blob := seqZ 5 40; qb_identifier := ascii_bytes "a"; qb_tags := ∅ |}].
Definition seven_config : ReedSolomonEncodingConfig :=
  {| source_symbols_primary := 3; source_symbols_secondary := 5; rs_n_shards := 7 |}.
Definition empty_blob : QuiltStoreBlob :=
  {| qb_blob := []; qb_identifier := 3000 :: ascii_bytes "aaaaaa"; qb_tags := ∅ |}.

(** An empty blob whose prefix ends the last column of the matrix is not
    refused: the encoder looks for the column after it and panics.  The five
    columns of a committee of seven shards, one blob. *)
Theorem construct_quilt_empty_blob_panics :
  @config_new Empty_set 7 = Ok seven_config /\
  validate_quilt_identifier (qb_identifier empty_blob) = Ok tt /\
  construct_quilt seven_config [empty_blob] = Panic "assertion failed: current_col < n_cols".
Proof. split_and!; vm_compute; reflexivity. Qed.

Lemma two_blobs_typed : Forall blob_typed two_blobs.
Proof.
  constructor; [|constructor; [|constructor]]; (split; [|split]); cbn [qb_identifier qb_tags qb_blob]; try done.
  - repeat constructor; lia || done.
  - apply map_Forall_singleton. split; repeat constructor; lia || done.
  - repeat constructor; lia || done.
Qed.
Lemma quilt_roundtrip_witness : exists q, construct_quilt quilt_config two_blobs = Ok q /\ quilt_new (qu_data q) quilt_config = Ok q.
Proof.
  destruct (construct_quilt quilt_config two_blobs) as [q| | |] eqn:Hq.
  2-4: exfalso; revert Hq; vm_compute; discriminate.
  exists q. split; [done|].
  apply (quilt_roundtrip quilt_config eq_refl (conj eq_refl eq_refl) two_blobs q two_blobs_typed Hq).
Defined.
Lemma construct_quilt_no_panic_witness : no_panic (construct_quilt quilt_config two_blobs).
Proof.
  apply (construct_quilt_no_panic quilt_config eq_refl (conj eq_refl eq_refl) two_blobs).
  - repeat constructor; discriminate.
  - intros sizes Hs. vm_compute in Hs. injection Hs as <-. vm_compute. reflexivity.
  - intros b Hb. vm_compute in Hb. injection Hb as <-. vm_compute. reflexivity.
Defined.
