(* ===== verification/QuiltDecoder.v ===== *)
(** Reading blobs of a quilt from the secondary slivers of its encoding
    ([encoding/quilt_encoding.rs]).

    A [QuiltDecoderV1] collects slivers; the columns of the quilt are the
    systematic ones among them.  Slivers of the encoded quilt that contain the
    columns of a patch give its blob, whatever other slivers the decoder holds;
    when columns are missing the answer names them. *)
From S2P Require Import Prelude Crypto WalrusConfig ReedSolomon BlobEncoding BlobMatrix EncodedBlob Quilt QuiltLayout QuiltRoundtrip.
From stdpp Require Import sorting.
#[local] Open Scope Z_scope.

Record QuiltDecoderV1 := {
  de_slivers : gmap Z SliverData;
  de_quilt_index : option QuiltIndexV1;
  de_column_size : option Z;
}.
Definition validate_and_update_column_size (column_size : option Z) (sliver_data_len : Z) : outcome QuiltError (option Z) :=
  match column_size with
  | None => Ok (Some sliver_data_len)
  | Some expected =>
      ensure (expected =? sliver_data_len) (ColumnSizeMismatch expected sliver_data_len) ;; Ok column_size
  end.
(** The slivers before the one that is refused stay in the decoder. *)
Fixpoint add_slivers (slivers : list SliverData) (self : QuiltDecoderV1) : QuiltDecoderV1 * outcome QuiltError unit :=
  match slivers with
  | [] => (self, Ok tt)
  | sliver :: slivers =>
      match validate_and_update_column_size (de_column_size self) (zlen (sy_data (sd_symbols sliver))) with
      | Ok column_size =>
          add_slivers slivers {| de_slivers := <[sd_index sliver := sliver]> (de_slivers self);
            de_quilt_index := de_quilt_index self; de_column_size := column_size |}
      | Err e => (self, Err e)
      | Panic s => (self, Panic s)
      | OutOfFuel => (self, OutOfFuel)
      end
  end.
Definition quilt_decoder_new (slivers : list SliverData) (index : option QuiltIndexV1) : outcome QuiltError QuiltDecoderV1 :=
  let '(decoder, result) := add_slivers slivers {| de_slivers := ∅; de_quilt_index := index; de_column_size := None |} in
  result ;; Ok decoder.
(** [SliverIndex(i as u16)] *)
Definition check_missing_slivers (self : QuiltDecoderV1) (start_idx end_idx : Z) : outcome QuiltError unit :=
  let missing_slivers := filter (fun i => de_slivers self !! i = None) (wrap 16 <$> seqZ start_idx (end_idx - start_idx)) in
  ensure (bool_decide (missing_slivers = [])) (MissingSlivers missing_slivers).
Fixpoint read_slivers (slivers : list SliverData) (bytes_to_skip bytes_to_return : Z) : bytes :=
  match slivers with
  | [] => []
  | sliver :: slivers =>
      if bytes_to_return =? 0 then []
      else
        let data := sy_data (sd_symbols sliver) in
        if zlen data <=? bytes_to_skip then read_slivers slivers (bytes_to_skip - zlen data) bytes_to_return
        else
          let copy_len := Z.min (zlen data - bytes_to_skip) bytes_to_return in
          take (Z.to_nat copy_len) (drop (Z.to_nat bytes_to_skip) data) ++ read_slivers slivers 0 (bytes_to_return - copy_len)
  end.
Definition decoder_range_read (self : QuiltDecoderV1) : column_reader := fun start_col bytes_to_skip bytes_to_return =>
  check_missing_slivers self start_col (start_col + 1) ;;
  column_size ← expect (de_column_size self) "column size should be set";
  assert (negb (column_size =? 0)) "attempt to divide by zero" ;;
  let end_col := start_col + div_ceil (bytes_to_skip + bytes_to_return) column_size in
  check_missing_slivers self start_col end_col ;;
  slivers ← omapM (fun col => expect (de_slivers self !! wrap 16 col) "sliver exists") (seqZ start_col (end_col - start_col));
  Ok (read_slivers slivers bytes_to_skip bytes_to_return).
Section Decoder.
Context `{B : Bcs}.
Definition decoder_get_or_decode_quilt_index (self : QuiltDecoderV1) : outcome QuiltError (QuiltDecoderV1 * QuiltIndexV1) :=
  match de_quilt_index self with
  | Some index => Ok (self, index)
  | None =>
      check_missing_slivers self 0 1 ;;
      column_size ← expect (de_column_size self) "column size should be set";
      index ← decode_quilt_index (decoder_range_read self) column_size;
      Ok ({| de_slivers := de_slivers self; de_quilt_index := Some index; de_column_size := de_column_size self |}, index)
  end.
Definition get_patch_by_quilt_patch (self : QuiltDecoderV1) (quilt_patch : QuiltPatchV1) : outcome QuiltError QuiltStoreBlob :=
  check_missing_slivers self (qp_start_index quilt_patch) (qp_end_index quilt_patch) ;;
  decode_blob (decoder_range_read self) (qp_start_index quilt_patch).
Definition decoder_get_blobs_by_identifiers (self : QuiltDecoderV1) (identifiers : list ustring)
    : outcome QuiltError (list QuiltStoreBlob) :=
  index ← ok_or (de_quilt_index self) MissingQuiltIndex;
  patches ← get_quilt_patches_by_identifiers index identifiers;
  omapM (get_patch_by_quilt_patch self) patches.
Definition decoder_get_blob_by_patch_internal_id (self : QuiltDecoderV1) (patch_internal_id : bytes)
    : outcome QuiltError QuiltStoreBlob :=
  id ← patch_id_from_bytes patch_internal_id;
  check_missing_slivers self (pi_start_index id) (pi_end_index id) ;;
  decode_blob (decoder_range_read self) (pi_start_index id).
Definition decoder_get_blobs_by_tag (self : QuiltDecoderV1) (target_tag target_value : ustring)
    : outcome QuiltError (list QuiltStoreBlob) :=
  index ← ok_or (de_quilt_index self) MissingQuiltIndex;
  omapM (get_patch_by_quilt_patch self) (get_quilt_patches_by_tag index target_tag target_value).
End Decoder.

(** ** Properties *)

Lemma wrap_column i : 0 <= i < 65536 -> wrap 16 i = i.
Proof. intros H. by apply wrap_small. Qed.
Lemma wrap_columns a k : 0 <= a -> a + k <= 65536 -> wrap 16 <$> seqZ a k = seqZ a k.
Proof.
  intros Ha Hk. rewrite <- (list_fmap_id (seqZ a k)) at 2. apply list_fmap_ext. intros i x Hx%list_elem_of_lookup_2.
  apply elem_of_seqZ in Hx. apply (wrap_column x). lia.
Qed.
Lemma check_missing_slivers_spec self a b : 0 <= a -> b <= 65536 ->
  check_missing_slivers self a b =
    ensure (bool_decide (filter (fun i => de_slivers self !! i = None) (seqZ a (b - a)) = []))
      (MissingSlivers (filter (fun i => de_slivers self !! i = None) (seqZ a (b - a)))).
Proof.
  intros Ha Hb. unfold check_missing_slivers. destruct (Z.le_gt_cases b a).
  - replace (seqZ a (b - a)) with (@nil Z); [done|]. symmetry. apply seqZ_nil. lia.
  - by rewrite wrap_columns by lia.
Qed.

Section AddSlivers.
Context (cs : Z).
(** Slivers of one size are all kept. *)
Lemma add_slivers_ok slivers self : Forall (fun x => zlen (sy_data (sd_symbols x)) = cs) slivers ->
  de_column_size self = None \/ de_column_size self = Some cs ->
  exists self', add_slivers slivers self = (self', Ok tt) /\ de_quilt_index self' = de_quilt_index self /\
    de_column_size self' = (if bool_decide (slivers = []) then de_column_size self else Some cs) /\
    (forall i x, de_slivers self' !! i = Some x -> x ∈ slivers /\ sd_index x = i \/ de_slivers self !! i = Some x) /\
    (forall i, is_Some (de_slivers self' !! i) <-> i ∈ sd_index <$> slivers \/ is_Some (de_slivers self !! i)).
Proof.
  intros Hall. revert self. induction Hall as [|x slivers Hx Hall IH]; intros self Hc.
  { exists self. split_and!; [done|done|done|by right|]. intros i. cbn. set_solver. }
  set (self1 := {| de_slivers := <[sd_index x := x]> (de_slivers self); de_quilt_index := de_quilt_index self;
    de_column_size := Some cs |}).
  assert (add_slivers (x :: slivers) self = add_slivers slivers self1) as ->.
  { cbn [add_slivers]. unfold validate_and_update_column_size. rewrite Hx. by destruct Hc as [-> | ->]; [|rewrite Z.eqb_refl]. }
  destruct (IH self1) as (self' & Hr & Hi & Hcs & Hin & Hsome); [by right|].
  exists self'. rewrite Hr. split_and!; [done|by rewrite Hi| | |].
  - rewrite Hcs. by destruct (bool_decide (slivers = [])).
  - intros i y Hy. destruct (Hin i y Hy) as [[? ?]|Hy']; [left; set_solver|]. cbn in Hy'.
    apply lookup_insert_Some in Hy' as [[<- <-]|[_ ?]]; [left; set_solver|by right].
  - intros i. rewrite Hsome. cbn [self1 de_slivers]. rewrite lookup_insert_is_Some. rewrite fmap_cons, elem_of_cons.
    destruct (decide (sd_index x = i)); naive_solver.
Qed.
End AddSlivers.

(** ** The reader of the slivers *)

Lemma read_slivers_spec cs slivers skip n : Forall (fun x => zlen (sy_data (sd_symbols x)) = cs) slivers -> 0 < cs ->
  0 <= skip -> 0 <= n ->
  read_slivers slivers skip n =
    take (Z.to_nat n) (drop (Z.to_nat skip) (concat ((fun x => sy_data (sd_symbols x)) <$> slivers))).
Proof.
  intros Hall Hcs. revert skip n. induction Hall as [|x slivers Hx Hall IH]; intros skip n Hs Hn.
  { cbn. by rewrite drop_nil, take_nil. }
  cbn [read_slivers fmap list_fmap concat]. destruct (Z.eqb_spec n 0) as [->|]; [done|]. rewrite Hx.
  set (data := sy_data (sd_symbols x)) in *.
  destruct (Z.leb_spec cs skip).
  - rewrite IH by lia. rewrite (drop_app_ge data) by lia. do 2 f_equal. lia.
  - cbv zeta. rewrite IH by lia. rewrite drop_app_le by lia.
    destruct (Z.le_gt_cases n (cs - skip)).
    + replace (Z.min (cs - skip) n) with n by lia. replace (n - n) with 0 by lia. cbn [Z.to_nat take].
      rewrite take_app_le by (rewrite length_drop; lia). by rewrite app_nil_r.
    + replace (Z.min (cs - skip) n) with (cs - skip) by lia.
      rewrite take_ge by (rewrite length_drop; lia). rewrite take_app_ge by (rewrite length_drop; lia).
      f_equal. rewrite length_drop. cbn [Z.to_nat drop]. f_equal. lia.
Qed.

Section Covered.
Context (cs C : Z) (Hcs : 0 < cs) (HC : C < 65536) (v : bytes).
(** The decoder [self] holds columns of the stream [v], [a] to [b] among them. *)
Definition column_of (col : Z) (x : SliverData) : Prop := get_range v (col * cs) cs = Some (sy_data (sd_symbols x)).
Definition covers (self : QuiltDecoderV1) (a b : Z) : Prop :=
  de_column_size self = Some cs /\ 0 <= a /\ b <= C /\
  forall i, a <= i < b -> exists x, de_slivers self !! i = Some x /\ column_of i x.

Lemma covers_present self a b : covers self a b -> check_missing_slivers self a b = Ok tt.
Proof using HC.
  intros (_ & Ha & Hb & Hall). rewrite check_missing_slivers_spec by lia. rewrite list_filter_none; [done|].
  apply Forall_forall. intros i Hi%elem_of_seqZ. destruct (Hall i) as (x & -> & _); [lia|done].
Qed.
Lemma covers_weaken self a b a' b' : covers self a b -> a <= a' -> b' <= b -> covers self a' b'.
Proof using.
  intros (H1 & H2 & H3 & H4) Ha Hb. split_and!; [done|lia|lia|]. intros i Hi. apply H4. lia.
Qed.
(** The slivers of the columns [a] to [a + k] are the stream there. *)
Lemma columns_read self a (k : nat) : covers self a (a + Z.of_nat k) -> exists xs,
  omapM (fun col => expect (de_slivers self !! wrap 16 col) "sliver exists") (seqZ a (Z.of_nat k)) = (Ok xs : outcome QuiltError _) /\
  Forall (fun x => zlen (sy_data (sd_symbols x)) = cs) xs /\
  (k <> 0%nat -> get_range v (a * cs) (Z.of_nat k * cs) = Some (concat ((fun x => sy_data (sd_symbols x)) <$> xs))).
Proof using All.
  revert a. induction k as [|k IH]; intros a Hc.
  { exists []. done. }
  destruct (IH (a + 1)) as (xs & Hxs & Hl & Hr).
  { replace (a + 1 + Z.of_nat k) with (a + Z.of_nat (S k)) by lia. eapply covers_weaken; [done|lia|lia]. }
  destruct Hc as (_ & Ha & Hb & Hall). destruct (Hall a ltac:(lia)) as (x & Hx & Hxc).
  exists (x :: xs). rewrite seqZ_cons by lia. cbn [omapM]. rewrite wrap_column by lia. rewrite Hx.
  cbn [expect mbind outcome_bind]. replace (Z.pred (Z.of_nat (S k))) with (Z.of_nat k) by lia.
  replace (Z.succ a) with (a + 1) by lia. rewrite Hxs. split_and!; [done| |].
  - constructor; [|done]. by apply get_range_length in Hxc.
  - intros _. cbn [fmap list_fmap concat]. destruct k as [|k].
    + assert (xs = []) as -> by (by injection Hxs). rewrite app_nil_r. replace (Z.of_nat 1 * cs) with cs by lia. done.
    + replace (Z.of_nat (S (S k)) * cs) with (cs + Z.of_nat (S k) * cs) by lia. apply get_range_split; [done|].
      replace (a * cs + cs) with ((a + 1) * cs) by lia. by apply Hr.
Qed.
Lemma decoder_reader_holds self start b : b <> [] -> covers self start (start + div_ceil (zlen b) cs) ->
  get_range v (start * cs) (zlen b) = Some b -> holds (decoder_range_read self) start b.
Proof using All.
  intros Hb Hc Hv off n r Hoff Hr. pose proof Hr as (_ & Hn & Hfit & _)%get_range_Some.
  assert (0 < zlen b) as Hpos by (destruct b; [done|cbn; lia]).
  pose proof (div_ceil_spec (zlen b) cs Hcs) as Hd. assert (0 < div_ceil (zlen b) cs) as Hd0 by nia.
  pose proof (div_ceil_spec (off + n) cs Hcs) as Hd'.
  pose proof (div_ceil_nonneg (off + n) cs Hcs ltac:(lia)) as Hk0.
  assert (div_ceil (off + n) cs <= div_ceil (zlen b) cs) as Hkle by (apply div_ceil_le; [done|lia]).
  unfold decoder_range_read. rewrite covers_present by (eapply covers_weaken; [done|lia|lia]). cbn [mbind outcome_bind].
  pose proof Hc as (-> & Hst & HbC & _). cbn [expect mbind outcome_bind].
  rewrite (proj2 (Z.eqb_neq cs 0)) by lia. cbn [negb assert mbind outcome_bind]. cbv zeta.
  rewrite covers_present by (eapply covers_weaken; [done|lia|lia]). cbn [mbind outcome_bind].
  set (k := div_ceil (off + n) cs) in *. replace (start + k - start) with (Z.of_nat (Z.to_nat k)) by lia.
  destruct (columns_read self start (Z.to_nat k)) as (xs & -> & Hl & Hrange); [eapply covers_weaken; [done|lia|lia]|].
  cbn [mbind outcome_bind]. f_equal. rewrite (read_slivers_spec cs) by (done || lia).
  pose proof (get_range_sub _ _ _ _ _ _ Hv Hoff Hr) as Hvr.
  destruct (decide (k = 0)) as [Hk|Hk].
  { assert (n = 0) as -> by lia. apply get_range_Some in Hr as (_ & _ & _ & ->). done. }
  specialize (Hrange ltac:(lia)). rewrite Z2Nat.id in Hrange by lia. set (cc := concat _) in *.
  pose proof (get_range_length _ _ _ _ Hrange) as Hcc. rewrite <- Hcc in Hrange.
  assert (get_range cc off n = Some (take (Z.to_nat n) (drop (Z.to_nat off) cc))) as Hsub by (apply get_range_Some; split_and!; lia || done).
  pose proof (get_range_sub _ _ _ _ _ _ Hrange Hoff Hsub) as Hvr'. congruence.
Qed.
End Covered.

(** ** The slivers of an encoded quilt *)

Section SliverColumns.
Context `{HC : Crypto} `{RS : ReedSolomon} {RL : ReedSolomonLaws RS}.
Context (k1 k2 n s : nat) (blob : bytes) (HS : Supported k1 k2 n s blob).
Context (Hfull : length blob = (k1 * k2 * s)%nat).

Lemma sym_range r c : (r < k1)%nat -> (c < k2)%nat ->
  get_range blob (Z.of_nat ((k2 * r + c) * s)) (Z.of_nat s) = Some (sym k2 s blob r c).
Proof using Hfull.
  intros Hr Hc. assert ((k2 * r + c) * s + s <= k1 * k2 * s)%nat as Hb.
  { assert (k2 * r + c + 1 <= k1 * k2)%nat by nia. pose proof (Nat.mul_le_mono_r _ _ s H). lia. }
  apply get_range_Some. split_and!; [lia|lia|lia|]. rewrite !Nat2Z.id. unfold sym, pad_to.
  rewrite take_app_le by (rewrite length_drop; lia). done.
Qed.
(** A systematic secondary sliver is a column of the stream. *)
Lemma column_view c k : (c < k2)%nat -> (k <= k1)%nat ->
  get_range (view (Z.of_nat s) (Z.of_nat k1) (Z.of_nat k2) blob) (Z.of_nat c * (Z.of_nat s * Z.of_nat k1)) (Z.of_nat (k * s)) =
  Some (concat ((fun r => sym k2 s blob r c) <$> seq 0 k)).
Proof using HS Hfull.
  intros Hc Hk. pose proof (s_pos k1 k2 n s blob HS) as Hs. pose proof (sp_rows _ _ _ _ _ HS) as Hk1.
  assert (zlen blob = Z.of_nat s * Z.of_nat k1 * Z.of_nat k2) as Hl by lia.
  induction k as [|k IH].
  { apply get_range_Some. rewrite view_length by lia. cbn. split_and!; [nia|lia| |done].
    pose proof (Z.mul_le_mono_nonneg_r (Z.of_nat c) (Z.of_nat k2) (Z.of_nat s * Z.of_nat k1)). lia. }
  rewrite seq_S, fmap_app, concat_app. cbn [fmap list_fmap concat]. rewrite app_nil_r, Nat.add_0_l.
  replace (Z.of_nat (S k * s)) with (Z.of_nat (k * s) + Z.of_nat s) by lia. apply get_range_split; [apply IH; lia|].
  set (w := Z.of_nat c * Z.of_nat k1 + Z.of_nat k).
  replace (Z.of_nat c * (Z.of_nat s * Z.of_nat k1) + Z.of_nat (k * s)) with (w * Z.of_nat s + 0) by (unfold w; lia).
  apply (symbol_view (Z.of_nat s) (Z.of_nat k1) (Z.of_nat k2)); [lia|lia|lia|done| |lia|lia|lia|].
  { unfold w. split; [lia|]. pose proof (Z.mul_le_mono_nonneg_r (Z.of_nat c + 1) (Z.of_nat k2) (Z.of_nat k1)). lia. }
  assert (w `div` Z.of_nat k1 = Z.of_nat c /\ w `mod` Z.of_nat k1 = Z.of_nat k) as [Ed Em].
  { unfold w. rewrite Z.div_add_l, (Z.div_small (Z.of_nat k)) by lia. split; [lia|].
    rewrite Z.add_comm, Z.mod_add, Z.mod_small by lia. done. }
  rewrite cell_at_eq, Ed, Em by lia. rewrite <- sym_range by lia. f_equal. lia.
Qed.
Lemma secondary_column c : (c < k2)%nat ->
  column_of (Z.of_nat s * Z.of_nat k1) (view (Z.of_nat s) (Z.of_nat k1) (Z.of_nat k2) blob) (Z.of_nat c)
    (secondary_sliver k1 k2 n s blob c).
Proof using All.
  intros Hc. unfold column_of, secondary_sliver. cbn [sd_symbols sym_list sy_data].
  rewrite (column_systematic k1 k2 n s blob HS c Hc). rewrite <- (column_view c k1 Hc) by lia. f_equal. lia.
Qed.
Lemma secondary_length c : (c < n)%nat ->
  zlen (sy_data (sd_symbols (secondary_sliver k1 k2 n s blob c))) = Z.of_nat s * Z.of_nat k1.
Proof using All.
  intros Hc. cbn [secondary_sliver sd_symbols sym_list sy_data]. destruct (column_sized k1 k2 n s blob HS c Hc) as [Hl Hsz].
  rewrite (BlobMatrix.concat_length s) by done. rewrite Hl. lia.
Qed.
End SliverColumns.

Section EncodedQuilt.
Context `{HCr : Crypto} {HCL : CryptoLaws HCr} `{RS : ReedSolomon} {RL : ReedSolomonLaws RS} `{HL : BcsLaws}.

(** What the columns of a decoder are, when it received slivers of an encoding. *)
Lemma decoder_of_slivers k1 k2 n s blob slivers index :
  Supported k1 k2 n s blob -> length blob = (k1 * k2 * s)%nat ->
  Forall (fun x => x ∈ pr_secondary <$> matrix_pairs k1 k2 n s blob) slivers ->
  let cs := Z.of_nat s * Z.of_nat k1 in let v := view (Z.of_nat s) (Z.of_nat k1) (Z.of_nat k2) blob in
  exists d, quilt_decoder_new slivers index = Ok d /\ de_quilt_index d = index /\
    (forall i, is_Some (de_slivers d !! i) <-> i ∈ sd_index <$> slivers) /\
    forall a b, 0 <= a < b -> b <= Z.of_nat k2 -> (forall i, a <= i < b -> i ∈ sd_index <$> slivers) ->
      covers cs (Z.of_nat k2) v d a b.
Proof.
  intros HS Hfull Hin cs v.
  assert (forall x, x ∈ slivers -> exists c, (c < n)%nat /\ x = secondary_sliver k1 k2 n s blob c) as Hsec.
  { rewrite Forall_forall in Hin. intros x Hx%Hin. unfold matrix_pairs in Hx. rewrite <- list_fmap_compose in Hx.
    apply list_elem_of_fmap in Hx as (i & -> & [_ Hi]%elem_of_seq). exists (n - 1 - i)%nat. split; [lia|done]. }
  assert (Forall (fun x => zlen (sy_data (sd_symbols x)) = cs) slivers) as Hlen.
  { apply Forall_forall. intros x (c & Hc & ->)%Hsec. by apply (secondary_length k1 k2 n s blob HS Hfull). }
  destruct (add_slivers_ok cs slivers {| de_slivers := ∅; de_quilt_index := index; de_column_size := None |} Hlen)
    as (d & Hd & Hi & Hcs & Hmem & Hsome); [by left|].
  exists d. unfold quilt_decoder_new. rewrite Hd. split_and!; [done|done| |].
  - intros i. rewrite Hsome. cbn [de_slivers]. rewrite lookup_empty. split; [by intros [?|[? ?]]|by left].
  - intros a b Ha Hb Hall. pose proof (Hall a ltac:(lia)) as Hne. split_and!; [|lia|lia|].
    + rewrite Hcs. rewrite bool_decide_eq_false_2; [done|]. intros ->. by apply not_elem_of_nil in Hne.
    + intros i Hi'. destruct (proj2 (Hsome i) (or_introl (Hall i Hi'))) as [x Hx]. exists x. split; [done|].
      destruct (Hmem i x Hx) as [[Hx1 Hx2]|Hx1]; [|done].
      destruct (Hsec x Hx1) as (c & Hc & ->). cbn [secondary_sliver sd_index] in Hx2. subst i.
      apply (secondary_column k1 k2 n s blob HS Hfull). lia.
Qed.

Lemma fully_present (slivers : list SliverData) d a b : 0 <= a -> b <= 65536 ->
  (forall i, is_Some (de_slivers d !! i) <-> i ∈ sd_index <$> slivers) ->
  check_missing_slivers d a b =
    let missing := filter (fun i => i ∉ sd_index <$> slivers) (seqZ a (b - a)) in
    ensure (bool_decide (missing = [])) (MissingSlivers missing).
Proof.
  intros Ha Hb Hd. rewrite check_missing_slivers_spec by done. cbv zeta.
  rewrite (list_filter_ext_in (fun i => de_slivers d !! i = None) (fun i => i ∉ sd_index <$> slivers)); [done|].
  intros i _. rewrite <- Hd. apply eq_None_not_Some.
Qed.
Lemma none_missing (slivers : list SliverData) a b : filter (fun i => i ∉ sd_index <$> slivers) (seqZ a (b - a)) = [] ->
  forall i, a <= i < b -> i ∈ sd_index <$> slivers.
Proof.
  intros H i Hi. destruct (decide (i ∈ sd_index <$> slivers)) as [|Hn]; [done|].
  assert (i ∈ filter (fun i => i ∉ sd_index <$> slivers) (seqZ a (b - a))) as Hin.
  { apply list_elem_of_filter. split; [done|]. apply elem_of_seqZ. lia. }
  rewrite H in Hin. by apply not_elem_of_nil in Hin.
Qed.

(** The matrix of a quilt is the matrix that its encoding commits to. *)
Lemma encoded_quilt n config blobs pairs meta :
  1 <= n < 65536 -> codec_supports n -> @config_new Empty_set n = Ok config -> Forall blob_typed blobs ->
  quilt_encode_with_metadata config blobs = Ok (pairs, meta) ->
  exists q s, quilt_of config blobs q /\ qu_index q = Some (qm_index meta) /\ qu_symbol_size q = Z.of_nat s /\
    n_source_symbols config Primary = Z.of_nat (rows_of n) /\ n_source_symbols config Secondary = Z.of_nat (columns_of n) /\
    Z.of_nat (columns_of n) < 65535 /\
    Supported (rows_of n) (columns_of n) (Z.to_nat n) s (qu_data q) /\
    length (qu_data q) = (rows_of n * columns_of n * s)%nat /\
    pairs = matrix_pairs (rows_of n) (columns_of n) (Z.to_nat n) s (qu_data q).
Proof.
  intros Hn Hcodec Hconfig Htyped H. pose proof Hconfig as Hconf. rewrite (config_new_eq n Hn) in Hconf. injection Hconf as Hconf.
  pose proof (source_symbols_range n Hn) as Hrange. cbn in Hrange. unfold min_n_correct in Hrange.
  destruct Hrange as (Hr1 & Hr2 & Hr3 & _). unfold MAX_SOURCE_SYMBOLS in Hr3.
  assert (n_source_symbols config Primary = Z.of_nat (rows_of n)) as HR by (subst config; cbn; unfold rows_of; lia).
  assert (n_source_symbols config Secondary = Z.of_nat (columns_of n)) as HC by (subst config; cbn; unfold columns_of; lia).
  assert (1 <= Z.of_nat (rows_of n) < 65535 /\ 1 <= Z.of_nat (columns_of n) < 65535) as [Hk1 Hk2] by (unfold rows_of, columns_of; lia).
  unfold quilt_encode_with_metadata in H. apply bind_Ok_inv in H as (q & Hq & H). apply bind_Ok_inv in H as (index & Hi & H).
  apply bind_Ok_inv in H as (enc & Henc & H). apply bind_Ok_inv in H as ([] & Hsize%assert_Ok & H).
  apply bind_Ok_inv in H as ([pairs' md] & Hmd & H). injection H as -> <-. cbn [qm_index]. bool_hyps.
  apply map_err_Ok in Henc. apply no_error_Ok in Hmd. unfold quilt_index in Hi. apply ok_or_Ok in Hi.
  apply construct_quilt_of in Hq; [|lia|lia|done]. pose proof Hq as (s & ib & bs & Hs & _ & _ & _ & _ & _ & [H1 H2 H3 _ _ _]).
  rewrite HR, HC in *. pose proof (Z.mul_le_mono_nonneg s 65535 (Z.of_nat (rows_of n)) 65535) as Hb1.
  pose proof (Z.mul_le_mono_nonneg (s * Z.of_nat (rows_of n)) (65535 * 65535) (Z.of_nat (columns_of n)) 65535) as Hb2.
  destruct (encoder_supported n (qu_data q) config enc Hn ltac:(lia) Hcodec Hconfig Henc) as (He & HS & _).
  rewrite Hsize, H1 in *. rewrite He in Hmd. unfold encoder_of in Hmd. rewrite encode_with_metadata_ok in Hmd by done.
  injection Hmd as <- _. exists q, (Z.to_nat s). split_and!; [done|done|lia|done|done|lia|done| |done].
  lia.
Qed.

(** C13: Any slivers of an encoded quilt are accepted by a decoder.  With the columns
    of the index it decodes the index that the metadata holds.  A patch of the
    index gives its blob as soon as the columns of the patch are there;
    otherwise the error names the missing columns. *)
Theorem quilt_slivers_roundtrip n config blobs pairs meta :
  1 <= n < 65536 -> codec_supports n -> @config_new Empty_set n = Ok config -> Forall blob_typed blobs ->
  quilt_encode_with_metadata config blobs = Ok (pairs, meta) ->
  exists sorted index_columns, sorted ≡ₚ blobs /\ StronglySorted identifier_le sorted /\
    1 <= index_columns <= MAX_NUM_SLIVERS_FOR_QUILT_INDEX /\
    forall slivers, Forall (fun x => x ∈ pr_secondary <$> pairs) slivers ->
      (exists d, quilt_decoder_new slivers None = Ok d /\
         ((forall i, 0 <= i < index_columns -> i ∈ sd_index <$> slivers) ->
           exists d', decoder_get_or_decode_quilt_index d = Ok (d', qm_index meta) /\ de_quilt_index d' = Some (qm_index meta))) /\
      (exists d, quilt_decoder_new slivers (Some (qm_index meta)) = Ok d /\
         Forall2 (fun p blob => get_patch_by_quilt_patch d p =
           let missing := filter (fun i => i ∉ sd_index <$> slivers) (patch_sliver_indices p) in
           if bool_decide (missing = []) then Ok blob else Err (MissingSlivers missing)) (qm_index meta) sorted).
Proof.
  intros Hn Hcodec Hconfig Htyped H.
  destruct (encoded_quilt n config blobs pairs meta) as (q & s & Hq & Hi & Hs & HR & HC & HC16 & HS & Hfull & ->); [done..|].
  destruct Hq as (s' & ib & bs & Hs' & Hib & Hten & Hbs & Hvalid & Hdup & Hh).
  pose proof (qh_symbol_size _ _ _ _ _ _ _ Hh) as E. rewrite HR, HC in *. assert (s' = Z.of_nat s) as -> by congruence. clear E.
  set (k1 := rows_of n) in *. set (k2 := columns_of n) in *.
  assert (0 < Z.of_nat k1 /\ 0 < Z.of_nat k2) as [Hk1 Hk2] by (destruct HS; lia).
  assert (Forall blob_typed (merge_sort identifier_le blobs)) as Hts by (by rewrite merge_sort_Permutation).
  exists (merge_sort identifier_le blobs), (div_ceil (zlen (index_bytes_of ib)) (Z.of_nat s * Z.of_nat k1)).
  set (sorted := merge_sort identifier_le blobs) in *. set (cs := Z.of_nat s * Z.of_nat k1) in *.
  assert (0 < cs) as Hcs by (unfold cs; lia). set (first := div_ceil (zlen (index_bytes_of ib)) cs) in *.
  assert (1 <= first) as Hfirst.
  { pose proof (div_ceil_spec (zlen (index_bytes_of ib)) cs Hcs) as Hd. fold first in Hd.
    pose proof (index_bytes_length ib). change QUILT_INDEX_PREFIX_SIZE with 5 in *. nia. }
  pose proof (qh_patches _ _ _ _ _ _ _ Hh) as Hp. rewrite Hi in Hp. fold cs first in Hp. injection Hp as Hp.
  destruct (qh_laid_out _ _ _ _ _ _ _ Hh) as (Hfit & _ & Hidx & _). fold cs in Hfit. fold first in Hfit.
  pose proof (needed_columns_nonneg cs Hcs bs).
  split_and!; [apply merge_sort_Permutation|apply StronglySorted_merge_sort; apply _|done|done|].
  intros slivers Hin. set (v := view (Z.of_nat s) (Z.of_nat k1) (Z.of_nat k2) (qu_data q)) in *. split.
  - destruct (decoder_of_slivers k1 k2 (Z.to_nat n) s (qu_data q) slivers None HS Hfull Hin) as (d & Hd & Hn' & _ & Hcov).
    fold cs v in Hcov. exists d. split; [done|]. intros Hall.
    assert (covers cs (Z.of_nat k2) v d 0 first) as Hc by (apply Hcov; [lia|lia|done]).
    unfold decoder_get_or_decode_quilt_index. rewrite Hn'.
    rewrite (covers_present cs (Z.of_nat k2)) with (v := v) by (lia || (eapply covers_weaken; [done|lia|lia])).
    cbn [mbind outcome_bind]. pose proof Hc as (-> & _). cbn [expect mbind outcome_bind].
    rewrite (read_index (Z.of_nat s) (Z.of_nat k1) (Z.of_nat k2)) with (q := q) (blobs := sorted) (patches := new_patch <$> sorted) (ib := ib) (bs := bs);
      [|lia|lia|lia|lia|done|done|done|done|done|done|].
    + fold cs first. rewrite <- Hp. eexists. split; [done|done].
    + eapply (decoder_reader_holds cs (Z.of_nat k2) Hcs ltac:(lia) v); [done|exact Hc|exact Hidx].
  - destruct (decoder_of_slivers k1 k2 (Z.to_nat n) s (qu_data q) slivers (Some (qm_index meta)) HS Hfull Hin) as (d & Hd & _ & Hpres & Hcov).
    fold cs v in Hcov. exists d. split; [done|]. rewrite Hp. eapply Forall2_impl.
    { eapply (read_patches (Z.of_nat s) (Z.of_nat k1) (Z.of_nat k2)) with (q := q) (ib := ib) (reader := decoder_range_read d); [lia|lia|lia|lia|done..]. }
    intros p blob (b & (Hb & He & Hpr & HpC & Hget) & Hread). fold cs in He, Hget. fold v in Hget.
    unfold get_patch_by_quilt_patch. rewrite (fully_present slivers) by (done || lia). cbv zeta. unfold patch_sliver_indices.
    destruct (bool_decide_reflect (filter (fun i => i ∉ sd_index <$> slivers) (seqZ (qp_start_index p) (qp_end_index p - qp_start_index p)) = [])) as [Hm|];
      [|done].
    cbn [ensure mbind outcome_bind]. apply Hread.
    eapply (decoder_reader_holds cs (Z.of_nat k2) Hcs ltac:(lia) v); [done| |exact Hget].
    rewrite <- He. apply Hcov; [lia|lia|]. by apply none_missing.
Qed.
End EncodedQuilt.

Lemma quilt_slivers_roundtrip_witness : exists pairs meta d, quilt_encode_with_metadata four_shards two_blobs = Ok (pairs, meta) /\
  quilt_decoder_new (pr_secondary <$> pairs) (Some (qm_index meta)) = Ok d.
Proof.
  destruct (quilt_encode_with_metadata four_shards two_blobs) as [[pairs meta]| | |] eqn:H.
  2-4: exfalso; revert H; vm_compute; discriminate.
  destruct (quilt_slivers_roundtrip 4 four_shards two_blobs pairs meta ltac:(lia) toy_supports eq_refl two_blobs_typed H)
    as (sorted & k & _ & _ & _ & Hall).
  destruct (Hall (pr_secondary <$> pairs)) as (_ & d & Hd & _); [by apply Forall_forall|].
  exists pairs, meta, d. split; [reflexivity|exact Hd].
Defined.
