(* ===== verification/VssGuest.v ===== *)
(** The encryption guest [guest/vss/program], which encrypts one message under
    several keys, and the parser of its public values
    ([drop-lib/src/common.rs]). *)
From S2P Require Import Prelude Crypto Chacha8.

Section Vss.
Context `{HC : Crypto}.

(** The values in the order of the [read] calls; the loops read [vi_length]
    keys and as many nonces. *)
Record VssInputs := {
  vi_length : Z;
  vi_msg : bytes;
  vi_keys : list bytes;
  vi_nonces : list bytes;
}.

(** A word of the ABI encoding that ends with a byte. *)
Definition uint8_word (b : Z) : bytes := zeros 31 ++ [b].
Definition bytes12_word (nonce : bytes) : bytes := nonce ++ zeros 20.

(** One round of the loop over keys and nonces; the three arrays grow. *)
Definition append_block (msg : bytes) (arrays : bytes * bytes * bytes) (p : bytes * bytes)
    : guest (bytes * bytes * bytes) :=
  let '(cipher_data, hk_data, nonce_data) := arrays in
  let '(key, nonce) := p in
  let h_k := blake3 key in
  ciphertext ← unwrap (chacha8_encrypt msg key nonce 0) "encrypt failed";
  Ok (cipher_data ++ ciphertext, hk_data ++ h_k, nonce_data ++ bytes12_word nonce).
Definition main (i : VssInputs) : guest bytes :=
  assert ((zlen (vi_keys i) =? vi_length i) && (zlen (vi_nonces i) =? vi_length i)) "read: unexpected input" ;;
  let len_bytes := uint8_word (vi_length i) in
  let public_output := len_bytes ++ blake3 (vi_msg i) in
  '(cipher_data, hk_data, nonce_data) ←
    ofold (append_block (vi_msg i)) (len_bytes, len_bytes, len_bytes) (zip (vi_keys i) (vi_nonces i));
  Ok (public_output ++ cipher_data ++ hk_data ++ nonce_data).

(** ** [decode_public_outputs_with_cipher] *)

Inductive DecodingError := InvalidLength | IoError (e : string).
Record DecodedZKOutputsWithCipher := {
  d_length : Z;
  d_h_orig_block : bytes;
  d_cipher_block : list bytes;
  d_h_k_commitment : list bytes;
  d_nonce : list bytes;
}.
Definition slice (data : bytes) (start len : Z) : outcome DecodingError bytes :=
  expect (get_range data start len) "range end index out of range".
(** The loop that copies [n] elements of [width] bytes, one per word. *)
Definition read_words (data : bytes) (pos width n : Z) : outcome DecodingError (list bytes) :=
  omapM (fun i => slice data (pos + 32 * Z.of_nat i) width) (seq 0 (Z.to_nat n)).
(** Only the first of the three array lengths is compared; the third is read in
    the wrong byte order. *)
Definition decode_public_outputs_with_cipher (output_bytes : bytes)
    : outcome DecodingError DecodedZKOutputsWithCipher :=
  len ← expect (get_at output_bytes 31) "index out of bounds";
  h_orig_block ← slice output_bytes 32 32;
  let pos := 64 in
  array_len ← slice output_bytes (pos + 24) 8;
  let pos := pos + 32 in
  assert (be_val array_len =? len) "assertion `left == right` failed" ;;
  cipher_block ← read_words output_bytes pos 32 len;
  let pos := pos + 32 * len in
  array_len ← slice output_bytes (pos + 24) 8;
  let pos := pos + 32 in
  h_k_commitment ← read_words output_bytes pos 32 len;
  let pos := pos + 32 * len in
  array_len ← slice output_bytes (pos + 24) 8;
  let pos := pos + 32 in
  nonce ← read_words output_bytes pos 12 len;
  Ok {| d_length := len; d_h_orig_block := h_orig_block; d_cipher_block := cipher_block;
        d_h_k_commitment := h_k_commitment; d_nonce := nonce |}.

Definition decryptContent (self : DecodedZKOutputsWithCipher) (keys : list bytes) : outcome string (list bytes) :=
  omapM (fun i =>
    cipher ← expect (d_cipher_block self !! i) "index out of bounds";
    key ← expect (keys !! i) "index out of bounds";
    nonce ← expect (d_nonce self !! i) "index out of bounds";
    chacha8_decrypt cipher key nonce 0) (seq 0 (Z.to_nat (d_length self))).
End Vss.

(** ** The output of the guest *)

Section Output.
Context `{HC : Crypto} {HL : CryptoLaws HC}.

(** The ciphertexts of the run. *)
Definition vss_ciphers (i : VssInputs) : list bytes :=
  zip_with (fun key nonce => apply_keystream key nonce 0 (vi_msg i)) (vi_keys i) (vi_nonces i).
Definition vss_output (i : VssInputs) : bytes :=
  uint8_word (vi_length i) ++ blake3 (vi_msg i)
  ++ uint8_word (vi_length i) ++ concat (vss_ciphers i)
  ++ uint8_word (vi_length i) ++ concat (blake3 <$> vi_keys i)
  ++ uint8_word (vi_length i) ++ concat (bytes12_word <$> vi_nonces i).
(** The Rust types of the inputs. *)
Definition vss_typed (i : VssInputs) : Prop :=
  0 <= vi_length i < 256 /\ Forall (fun k => length k = 32%nat) (vi_keys i) /\
  Forall (fun n => length n = 12%nat) (vi_nonces i).

Lemma append_blocks msg c h n ks ns : length ks = length ns ->
  ofold (append_block msg) (c, h, n) (zip ks ns)
  = Ok (c ++ concat (zip_with (fun key nonce => apply_keystream key nonce 0 msg) ks ns),
        h ++ concat (blake3 <$> ks), n ++ concat (bytes12_word <$> ns)).
Proof.
  revert c h n ns. induction ks as [|k ks IH]; intros c h n [|m ns] Hl; try discriminate Hl.
  { cbn. by rewrite !app_nil_r. }
  injection Hl as Hl. cbn [zip zip_with ofold append_block].
  change (unwrap (chacha8_encrypt msg k m 0) "encrypt failed") with (@Ok Empty_set _ (apply_keystream k m 0 msg)).
  cbn [mbind outcome_bind]. rewrite IH by done. cbn [fmap list_fmap concat]. by rewrite !app_assoc.
Qed.
Lemma vss_main_Ok i out : main i = Ok out <->
  zlen (vi_keys i) = vi_length i /\ zlen (vi_nonces i) = vi_length i /\ out = vss_output i.
Proof.
  unfold main, vss_output, vss_ciphers. cbv zeta. split.
  - intros (_ & H%assert_Ok & Hm)%bind_Ok_inv. bool_hyps. rewrite append_blocks in Hm by lia.
    cbn [mbind outcome_bind] in Hm. apply Ok_inj in Hm as <-. do 2 (split; [done|]).
    by rewrite <- !app_assoc.
  - intros (Hk & Hn & ->). rewrite (proj2 (Z.eqb_eq _ _) Hk), (proj2 (Z.eqb_eq _ _) Hn). cbn [andb assert mbind outcome_bind].
    rewrite append_blocks by lia. cbn [mbind outcome_bind]. by rewrite <- !app_assoc.
Qed.

(** ** Reading the words back *)

Lemma concat_word (ws : list bytes) k w : Forall (fun x => length x = 32%nat) ws -> ws !! k = Some w ->
  exists a b, concat ws = a ++ w ++ b /\ length a = (32 * k)%nat.
Proof.
  intros Hw. revert k. induction Hw as [|x ws Hx _ IH]; intros k Hk; [done|]. destruct k as [|k].
  - injection Hk as ->. by exists [], (concat ws).
  - destruct (IH k Hk) as (a & b & Hab & Ha). exists (x ++ a), b. cbn [concat]. rewrite Hab, <- app_assoc.
    split; [done|]. rewrite length_app. lia.
Qed.
Lemma slice_word (ws : list bytes) k w off width pos :
  Forall (fun x => length x = 32%nat) ws -> ws !! k = Some w -> 0 <= off -> 0 <= width -> off + width <= 32 ->
  pos = 32 * Z.of_nat k + off ->
  slice (concat ws) pos width = Ok (take (Z.to_nat width) (drop (Z.to_nat off) w)).
Proof.
  intros Hw Hk Ho Hwd Hle ->. destruct (concat_word ws k w Hw Hk) as (a & b & -> & Ha).
  assert (length w = 32%nat) as Hl by exact (Forall_lookup_1 _ _ _ _ Hw Hk).
  unfold slice. apply expect_Ok, get_range_Some. rewrite !length_app. split_and!; [lia..|].
  replace (Z.to_nat (32 * Z.of_nat k + off)) with (length a + Z.to_nat off)%nat by lia.
  rewrite drop_app_add, drop_app_le by lia. rewrite take_app_le by (rewrite length_drop; lia). done.
Qed.
Lemma read_words_ok (a l b : list bytes) width n pos :
  Forall (fun x => length x = 32%nat) (a ++ l ++ b) -> 0 <= width <= 32 -> zlen l = n ->
  pos = 32 * zlen a -> read_words (concat (a ++ l ++ b)) pos width n = Ok (take (Z.to_nat width) <$> l).
Proof.
  intros Hw Hwd Hl ->. unfold read_words. rewrite <- Hl, Nat2Z.id.
  rewrite (omapM_fmap _ (fun i => take (Z.to_nat width) (l !!! i))).
  - apply (f_equal Ok), list_eq. intros i. rewrite !list_lookup_fmap. destruct (decide (i < length l)%nat) as [Hi|Hi].
    + rewrite lookup_seq_lt by done. destruct (lookup_lt_is_Some_2 l i Hi) as [x Hx]. rewrite Hx. cbn.
      by rewrite (list_lookup_total_correct _ _ _ Hx).
    + by rewrite !lookup_ge_None_2 by (rewrite ?length_seq; lia).
  - intros i Hi%elem_of_seq. assert (i < length l)%nat as Hil by lia.
    destruct (lookup_lt_is_Some_2 l i Hil) as [x Hx]. rewrite (list_lookup_total_correct _ _ _ Hx).
    apply (slice_word _ (length a + i) x 0); try lia; [exact Hw|].
    rewrite lookup_app_r by lia. replace (length a + i - length a)%nat with i by lia. by apply lookup_app_l_Some.
Qed.

Lemma uint8_word_length b : length (uint8_word b) = 32%nat.
Proof. done. Qed.
Lemma uint8_word_value b : 0 <= b < 256 -> be_val (drop 24 (uint8_word b)) = b.
Proof. intros _. change (b + 256 * 0 = b). lia. Qed.

(** The words of the output. *)
Definition vss_words (i : VssInputs) : list bytes :=
  let L := uint8_word (vi_length i) in
  [L; blake3 (vi_msg i); L] ++ vss_ciphers i ++ [L] ++ (blake3 <$> vi_keys i) ++ [L] ++ (bytes12_word <$> vi_nonces i).
Lemma vss_output_words i : vss_output i = concat (vss_words i).
Proof. unfold vss_output, vss_words. cbv zeta. rewrite !concat_app. cbn [concat]. by rewrite !app_nil_r, <- !app_assoc. Qed.

Lemma vss_ciphers_typed msg ks ns : length msg = 32%nat ->
  Forall (fun x => length x = 32%nat) (zip_with (fun key nonce => apply_keystream key nonce 0 msg) ks ns).
Proof.
  intros Hm. revert ns. induction ks as [|k ks IH]; intros [|n ns]; cbn [zip_with]; constructor; [|apply IH].
  by rewrite apply_keystream_length.
Qed.
Lemma vss_words_typed i : vss_typed i -> length (vi_msg i) = 32%nat ->
  Forall (fun x => length x = 32%nat) (vss_words i).
Proof.
  intros (_ & _ & Hn) Hm. unfold vss_words. cbv zeta.
  rewrite !Forall_app, !Forall_cons. repeat apply conj; try apply Forall_nil_2; try apply uint8_word_length.
  - apply blake3_length.
  - by apply vss_ciphers_typed.
  - apply Forall_fmap, Forall_true. intros k. apply blake3_length.
  - apply Forall_fmap. eapply Forall_impl; [exact Hn|]. intros nonce Hx. cbn. unfold bytes12_word.
    by rewrite length_app, zeros_length, Hx.
Qed.
Lemma bytes12_words_prefix ns : Forall (fun n => length n = 12%nat) ns -> take 12 <$> (bytes12_word <$> ns) = ns.
Proof.
  induction 1 as [|n ns Hn _ IH]; [done|]. rewrite !fmap_cons, IH. f_equal.
  unfold bytes12_word. by rewrite take_app_length' by done.
Qed.
Lemma take_words (l : list bytes) : Forall (fun x => length x = 32%nat) l -> take 32 <$> l = l.
Proof. induction 1 as [|x l Hx _ IH]; [done|]. rewrite fmap_cons, IH. f_equal. apply take_ge. lia. Qed.

(** What the parser returns of the output. *)
Definition vss_decoded (i : VssInputs) : DecodedZKOutputsWithCipher :=
  {| d_length := vi_length i; d_h_orig_block := blake3 (vi_msg i); d_cipher_block := vss_ciphers i;
     d_h_k_commitment := blake3 <$> vi_keys i; d_nonce := vi_nonces i |}.
Lemma vss_decodes i : vss_typed i -> length (vi_msg i) = 32%nat ->
  zlen (vi_keys i) = vi_length i -> zlen (vi_nonces i) = vi_length i ->
  decode_public_outputs_with_cipher (vss_output i) = Ok (vss_decoded i).
Proof.
  intros Ht Hm Hlk Hln. pose proof (vss_words_typed i Ht Hm) as Hw. destruct Ht as (Hlen & Hk & Hn).
  assert (zlen (vss_ciphers i) = vi_length i) as Hlc by (unfold vss_ciphers; rewrite length_zip_with; lia).
  assert (zlen (blake3 <$> vi_keys i) = vi_length i) as Hlh by (rewrite length_fmap; lia).
  unfold decode_public_outputs_with_cipher. cbv zeta.
  assert (get_at (vss_output i) 31 = Some (vi_length i)) as ->.
  { apply get_at_Some. split; [|reflexivity]. unfold vss_output. rewrite length_app, uint8_word_length. lia. }
  cbn [expect mbind outcome_bind]. rewrite !vss_output_words.
  set (L := uint8_word (vi_length i)). set (cs := vss_ciphers i) in *.
  set (ks := blake3 <$> vi_keys i) in *. set (ns := bytes12_word <$> vi_nonces i).
  assert (vss_words i = [L; blake3 (vi_msg i); L] ++ cs ++ ([L] ++ ks ++ [L] ++ ns)) as H1 by done.
  assert (vss_words i = ([L; blake3 (vi_msg i); L] ++ cs ++ [L]) ++ ks ++ ([L] ++ ns)) as H2 by (by rewrite H1, <- !app_assoc).
  assert (vss_words i = ([L; blake3 (vi_msg i); L] ++ cs ++ [L] ++ ks ++ [L]) ++ ns ++ []) as H3
    by (by rewrite H1, app_nil_r, <- !app_assoc).
  assert (forall k pos, vss_words i !! k = Some L -> pos = 32 * Z.of_nat k + 24 ->
    slice (concat (vss_words i)) pos 8 = Ok (drop 24 L)) as HLw
    by (intros k pos HkL Hp; rewrite (slice_word _ k L 24 8 pos Hw HkL) by lia; reflexivity).
  rewrite (slice_word _ 1 (blake3 (vi_msg i)) 0 32 32 Hw) by (reflexivity || lia).
  rewrite drop_0, take_ge by (rewrite blake3_length; lia). cbn [mbind outcome_bind].
  rewrite (HLw 2%nat (64 + 24)) by (reflexivity || lia). cbn [mbind outcome_bind].
  unfold L at 1. rewrite uint8_word_value, Z.eqb_refl by exact Hlen. cbn [assert mbind outcome_bind].
  assert (read_words (concat (vss_words i)) (64 + 32) 32 (vi_length i) = Ok cs) as ->.
  { rewrite H1, read_words_ok; [|by rewrite <- H1|lia..|reflexivity]. f_equal. apply take_words. by apply vss_ciphers_typed. }
  cbn [mbind outcome_bind]. rewrite (HLw (3 + length cs)%nat (64 + 32 + 32 * vi_length i + 24)) by
    (try lia; rewrite H1, lookup_app_r, lookup_app_r by (cbn [length]; lia); cbn [length]; replace (3 + length cs - 3 - length cs)%nat with 0%nat by lia; reflexivity).
  cbn [mbind outcome_bind].
  assert (read_words (concat (vss_words i)) (64 + 32 + 32 * vi_length i + 32) 32 (vi_length i) = Ok ks) as ->.
  { rewrite H2, read_words_ok; [|by rewrite <- H2|lia..|rewrite !length_app; cbn [length]; lia]. f_equal. apply take_words.
    apply Forall_fmap, Forall_true. intros k. apply blake3_length. }
  cbn [mbind outcome_bind]. rewrite (HLw (4 + length cs + length ks)%nat (64 + 32 + 32 * vi_length i + 32 + 32 * vi_length i + 24)) by
    (try lia; rewrite H2, lookup_app_r, lookup_app_r by (rewrite ?length_app; cbn [length]; lia);
     rewrite !length_app; cbn [length]; replace (4 + length cs + length ks - (3 + (length cs + 1)) - length ks)%nat with 0%nat by lia; reflexivity).
  cbn [mbind outcome_bind].
  assert (read_words (concat (vss_words i)) (64 + 32 + 32 * vi_length i + 32 + 32 * vi_length i + 32) 12 (vi_length i)
    = Ok (vi_nonces i)) as ->; [|done].
  rewrite H3, read_words_ok; [|by rewrite <- H3|lia|unfold ns; rewrite length_fmap; lia|rewrite !length_app; cbn [length]; lia].
  f_equal. by apply bytes12_words_prefix.
Qed.

Lemma decrypt_all msg ks ns keys : length ks = length ns -> keys = ks ->
  omapM (fun i =>
    cipher ← expect (zip_with (fun key nonce => apply_keystream key nonce 0 msg) ks ns !! i) "index out of bounds";
    key ← expect (keys !! i) "index out of bounds";
    nonce ← expect (ns !! i) "index out of bounds";
    chacha8_decrypt cipher key nonce 0) (seq 0 (length ks)) = Ok (replicate (length ks) msg).
Proof.
  intros Hl ->. rewrite (omapM_fmap _ (fun _ => msg)).
  - f_equal. apply list_eq. intros i. rewrite list_lookup_fmap. destruct (decide (i < length ks)%nat).
    + by rewrite lookup_seq_lt, lookup_replicate_2.
    + rewrite !lookup_ge_None_2 by (rewrite ?length_seq, ?length_replicate; lia). done.
  - intros i Hi%elem_of_seq. assert (i < length ks)%nat as Hik by lia. assert (i < length ns)%nat as Hin by lia.
    destruct (lookup_lt_is_Some_2 ks i Hik) as [k Hk], (lookup_lt_is_Some_2 ns i Hin) as [n Hn].
    rewrite lookup_zip_with, Hk, Hn. cbn. unfold chacha8_decrypt. by rewrite apply_keystream_involutive.
Qed.

(** C30: the guest and the parser of its public values fit for messages of 32 bytes:
    the parser answers the number of keys, the digest of the message, the
    ciphertexts, the key commitments and the nonces, and decrypting with any
    keys that open the commitments gives the message once per key, unless
    BLAKE3 collides. *)
Theorem vss_roundtrip i out : vss_typed i -> length (vi_msg i) = 32%nat -> main i = Ok out ->
  exists d, decode_public_outputs_with_cipher out = Ok d /\
    d_length d = vi_length i /\ d_h_orig_block d = blake3 (vi_msg i) /\
    d_h_k_commitment d = blake3 <$> vi_keys i /\ d_nonce d = vi_nonces i /\
    forall keys, blake3 <$> keys = d_h_k_commitment d -> inj_on blake3 (fun m => m ∈ keys ++ vi_keys i) ->
      decryptContent d keys = Ok (replicate (Z.to_nat (vi_length i)) (vi_msg i)).
Proof.
  intros Ht Hm (Hlk & Hln & ->)%vss_main_Ok. exists (vss_decoded i).
  split; [by apply vss_decodes|]. do 4 (split; [done|]). intros keys Hc Hinj.
  unfold decryptContent, vss_decoded, vss_ciphers. cbn [d_length d_cipher_block d_nonce].
  rewrite <- Hlk, Nat2Z.id. apply decrypt_all; [lia|].
  by apply (fmap_inj_on blake3 (fun m => m ∈ keys ++ vi_keys i)).
Qed.
End Output.

(** Two keys and a message of 32 bytes; the buyer holds the same keys. *)
Definition vss_example : VssInputs :=
  {| vi_length := 2; vi_msg := replicate 32 7; vi_keys := [replicate 32 1; replicate 32 2];
     vi_nonces := [replicate 12 3; replicate 12 4] |}.
Lemma vss_roundtrip_witness : exists out d, main vss_example = Ok out /\
  decode_public_outputs_with_cipher out = Ok d /\
  decryptContent d (vi_keys vss_example) = Ok [vi_msg vss_example; vi_msg vss_example].
Proof.
  assert (exists out, main vss_example = Ok out) as [out Hout] by (eexists; vm_compute; reflexivity).
  destruct (vss_roundtrip vss_example out) as (d & Hd & _ & _ & Hc & _ & Hdec); [|reflexivity|exact Hout|].
  - unfold vss_typed. cbn [vi_length vi_keys vi_nonces vss_example]. split; [lia|]. split; repeat constructor.
  - exists out, d. split; [exact Hout|]. split; [exact Hd|]. apply Hdec; [by rewrite Hc|].
    apply inj_on_list. vm_compute. reflexivity.
Defined.
