(* ===== verification/VddGuest.v ===== *)
(** The verifiable data delivery guests [guest/vdd/program-vdd-filecoin] and
    [guest/vdd/program-vdd-walrus]: the zkVM programs that prove to a buyer that
    the file stored under a public address is the encryption, under a committed
    key, of data with a public digest.

    Both programs read the same five byte vectors; four of them carry an
    eight-byte length prefix that the program cuts off.  They differ in the
    address of the ciphertext: a CID for Filecoin, a Walrus blob identifier. *)
From S2P Require Import Prelude Crypto Chacha8 Cid WalrusMerkle WalrusConfig ReedSolomon BlobEncoding BlobMatrix SymbolReader HostOpening EncodedBlob.

(** The byte vectors in the order of the [read_vec] calls. *)
Record VddInputs := {
  c_origin_raw : bytes;
  c_key_raw : bytes;
  c_cipher_raw : bytes;
  origin_raw : bytes;
  key_raw : bytes;
}.

(** [&raw[8..]] *)
Definition payload (raw : bytes) : guest bytes :=
  expect (get_from raw 8) "range start index 8 out of range".

(** The reading of the inputs and the checks of the two commitments, the same
    text in both programs. *)
Definition checked_inputs `{HC : Crypto} (i : VddInputs) : guest (bytes * bytes * bytes * bytes) :=
  let c_origin := c_origin_raw i in
  c_key ← payload (c_key_raw i);
  c_cipher ← payload (c_cipher_raw i);
  origin ← payload (origin_raw i);
  key ← payload (key_raw i);
  assert (zlen origin <? 2 ^ 32) "called `Result::unwrap()` on an `Err` value" ;;
  assert (bool_decide (c_origin = blake3 origin)) "origin data commitment mismatch" ;;
  assert (bool_decide (c_key = blake3 key)) "key commitment mismatch" ;;
  assert (zlen key =? 32) "key must be 32 bytes" ;;
  Ok (c_key, c_cipher, origin, key).

Module Filecoin.
Section Filecoin.
Context `{HC : Crypto} `{HX : CidApi}.

(** The encryption overwrites the buffer of the original, after its prefix. *)
Definition main (i : VddInputs) : guest bytes :=
  '(c_key, c_cipher, origin, key) ← checked_inputs i;
  sealed ← unwrap (chacha8_seal_in_place origin key (c_origin_raw i)) "data encryption failed";
  cipher ← payload (splice (origin_raw i) 8 sealed);
  calculated_cid_bytes ← unwrap (compute_ipfs_cid_zk_optimized cipher) "called `Result::unwrap()` on an `Err` value";
  assert (bool_decide (c_cipher = calculated_cid_bytes)) "cipher CID commitment mismatch" ;;
  Ok (c_origin_raw i ++ c_key ++ c_cipher ++ be_bytes 4 (zlen origin)).
End Filecoin.
End Filecoin.

Module Walrus.
Section Walrus.
Context `{HC : Crypto} `{R : ReedSolomon}.

Definition main (i : VddInputs) : guest bytes :=
  '(c_key, c_cipher, origin, key) ← checked_inputs i;
  cipher ← unwrap (chacha8_seal origin key (c_origin_raw i)) "data encryption failed";
  cipher_blob_id ← unwrap (compute_blob_id_default cipher) "Should compute blob ID for cipher data";
  assert (bool_decide (c_cipher = cipher_blob_id)) "cipher commitment mismatch" ;;
  Ok (c_origin_raw i ++ c_key ++ c_cipher ++ be_bytes 4 (zlen origin)).
End Walrus.
End Walrus.

(** ** What both programs check *)

Lemma payload_Ok raw data : payload raw = Ok data <-> exists p, length p = 8%nat /\ raw = p ++ data.
Proof.
  unfold payload. rewrite expect_Ok, get_from_Some. split.
  - intros [H8 ->]. exists (take 8 raw). split; [rewrite length_take; lia|by rewrite take_drop].
  - intros (p & Hp & ->). rewrite length_app. split_and!; [lia..|].
    change (Z.to_nat 8) with 8%nat. by rewrite <- Hp, drop_app_length.
Qed.
(** Writing a ciphertext of the same length after the prefix. *)
Lemma payload_splice raw data sealed : payload raw = Ok data -> length sealed = length data ->
  payload (splice raw 8 sealed) = Ok sealed.
Proof.
  intros (p & Hp & ->)%payload_Ok Hl. apply payload_Ok. exists p. split; [done|]. unfold splice.
  change (Z.to_nat 8) with 8%nat. rewrite take_app_length' by done. rewrite drop_ge, app_nil_r; [done|].
  rewrite length_app. lia.
Qed.

Section Sale.
Context `{HC : Crypto} {HL : CryptoLaws HC}.

Lemma checked_inputs_Ok i c_key c_cipher origin key :
  checked_inputs i = Ok (c_key, c_cipher, origin, key) <->
  payload (c_key_raw i) = Ok c_key /\ payload (c_cipher_raw i) = Ok c_cipher /\
  payload (origin_raw i) = Ok origin /\ payload (key_raw i) = Ok key /\
  zlen origin < 2 ^ 32 /\ c_origin_raw i = blake3 origin /\ c_key = blake3 key /\ length key = 32%nat.
Proof.
  unfold checked_inputs. split.
  - intros H. do 4 (apply bind_Ok_inv in H as (? & ? & H)).
    do 4 (apply bind_Ok_inv in H as (? & ?%assert_Ok & H)). injection H as -> -> -> ->. bool_hyps.
    split_and!; (done || lia).
  - intros (-> & -> & -> & -> & Hs & Ho & Hk & Hl). cbn [mbind outcome_bind].
    rewrite (proj2 (Z.ltb_lt _ _)) by done. rewrite !bool_decide_eq_true_2 by done.
    by rewrite (proj2 (Z.eqb_eq _ _)) by lia.
Qed.

(** The ciphertext of an original. *)
Definition sealed_of (key origin : bytes) : bytes :=
  apply_keystream key (derive_nonce key (blake3 origin)) 0 origin.
Lemma sealed_length key origin : length (sealed_of key origin) = length origin.
Proof. apply apply_keystream_length. Qed.

(** The guarantee to the buyer: whatever file has the address of the ciphertext
    and whatever key opens the commitment, the file decrypts to the original,
    as long as neither the address nor BLAKE3 collide on them. *)
Lemma sale_delivers origin key file k :
  file = sealed_of key origin -> inj_on blake3 (fun m => m ∈ [key; k]) -> blake3 k = blake3 key ->
  chacha8_unseal file k (blake3 origin) = Ok origin.
Proof.
  intros -> Hinj Hk. assert (k = key) as -> by (apply Hinj; [set_solver|set_solver|done]).
  exact (f_equal Ok (apply_keystream_involutive _ _ _ _)).
Qed.
End Sale.

(** Both programs succeed exactly on the inputs of a sale. *)
Lemma filecoin_main_Ok `{HC : Crypto} {HL : CryptoLaws HC} `{HX : CidApi} i out :
  Filecoin.main i = Ok out <->
  exists c_cipher origin key, checked_inputs i = Ok (blake3 key, c_cipher, origin, key) /\
    compute_ipfs_cid_zk_optimized (sealed_of key origin) = Ok c_cipher /\
    out = blake3 origin ++ blake3 key ++ c_cipher ++ be_bytes 4 (zlen origin).
Proof.
  unfold Filecoin.main. split.
  - intros ([[[c_key c_cipher] origin] key] & Hc & H)%bind_Ok_inv.
    destruct (proj1 (checked_inputs_Ok _ _ _ _ _) Hc) as (_ & _ & Hor & _ & _ & Ho & -> & _).
    rewrite Ho in H. change (unwrap (chacha8_seal_in_place origin key (blake3 origin)) "data encryption failed")
      with (@Ok Empty_set _ (sealed_of key origin)) in H. cbn [mbind outcome_bind] in H.
    rewrite (payload_splice _ origin) in H by (done || apply sealed_length). cbn [mbind outcome_bind] in H.
    apply bind_Ok_inv in H as (c & Hcid%unwrap_Ok & H). apply bind_Ok_inv in H as (_ & Heq%assert_Ok & [= <-]).
    bool_hyps. subst c. by exists c_cipher, origin, key.
  - intros (c_cipher & origin & key & Hc & Hcid & ->). rewrite Hc. cbn [mbind outcome_bind].
    destruct (proj1 (checked_inputs_Ok _ _ _ _ _) Hc) as (_ & _ & Hor & _ & _ & Ho & _ & _). rewrite Ho.
    change (unwrap (chacha8_seal_in_place origin key (blake3 origin)) "data encryption failed")
      with (@Ok Empty_set _ (sealed_of key origin)). cbn [mbind outcome_bind].
    rewrite (payload_splice _ origin) by (done || apply sealed_length). cbn [mbind outcome_bind].
    rewrite Hcid. cbn [unwrap mbind outcome_bind]. by rewrite bool_decide_eq_true_2.
Qed.
Lemma walrus_main_Ok `{HC : Crypto} `{R : ReedSolomon} i out :
  Walrus.main i = Ok out <->
  exists c_cipher origin key, checked_inputs i = Ok (blake3 key, c_cipher, origin, key) /\
    compute_blob_id_default (sealed_of key origin) = Ok c_cipher /\
    out = blake3 origin ++ blake3 key ++ c_cipher ++ be_bytes 4 (zlen origin).
Proof.
  unfold Walrus.main. split.
  - intros ([[[c_key c_cipher] origin] key] & Hc & H)%bind_Ok_inv.
    destruct (proj1 (checked_inputs_Ok _ _ _ _ _) Hc) as (_ & _ & _ & _ & _ & Ho & -> & _).
    rewrite Ho in H. change (unwrap (chacha8_seal origin key (blake3 origin)) "data encryption failed")
      with (@Ok Empty_set _ (sealed_of key origin)) in H. cbn [mbind outcome_bind] in H.
    apply bind_Ok_inv in H as (c & Hid%unwrap_Ok & H). apply bind_Ok_inv in H as (_ & Heq%assert_Ok & [= <-]).
    bool_hyps. subst c. by exists c_cipher, origin, key.
  - intros (c_cipher & origin & key & Hc & Hid & ->). rewrite Hc. cbn [mbind outcome_bind].
    destruct (proj1 (checked_inputs_Ok _ _ _ _ _) Hc) as (_ & _ & _ & _ & _ & Ho & _ & _). rewrite Ho.
    change (unwrap (chacha8_seal origin key (blake3 origin)) "data encryption failed")
      with (@Ok Empty_set _ (sealed_of key origin)). cbn [mbind outcome_bind].
    rewrite Hid. cbn [unwrap mbind outcome_bind]. by rewrite bool_decide_eq_true_2.
Qed.

(** ** The buyer's guarantee *)

(** The private inputs of a run. *)
Definition input_key (i : VddInputs) : bytes := drop 8 (key_raw i).
Definition input_cipher `{HC : Crypto} (i : VddInputs) : bytes :=
  sealed_of (input_key i) (drop 8 (origin_raw i)).
Lemma payload_drop raw data : payload raw = Ok data -> drop 8 raw = data.
Proof. intros (p & Hp & ->)%payload_Ok. by rewrite <- Hp, drop_app_length. Qed.
Lemma checked_private `{HC : Crypto} i c_key c_cipher origin key :
  checked_inputs i = Ok (c_key, c_cipher, origin, key) ->
  input_key i = key /\ input_cipher i = sealed_of key origin /\ zlen origin < 2 ^ 32.
Proof.
  intros (_ & _ & Ho & Hk & Hs & _)%checked_inputs_Ok. unfold input_cipher, input_key.
  by rewrite (payload_drop _ _ Hk), (payload_drop _ _ Ho).
Qed.

(** What the public values [c_origin ++ c_key ++ c_cipher ++ size] promise when
    [address] gives the addresses of files: a file at the address [c_cipher]
    and an opening of [c_key] yield data with the digest [c_origin] and the
    promised size.  [msgs] lists the messages hashed for an address with [H]. *)
Definition delivers `{HC : Crypto} (address : bytes -> bytes -> Prop) (binding : bytes -> Prop)
    (i : VddInputs) (width : nat) (out : bytes) : Prop :=
  exists c_origin c_key c_cipher size,
    out = c_origin ++ c_key ++ c_cipher ++ be_bytes 4 size /\
    length c_origin = 32%nat /\ length c_key = 32%nat /\ length c_cipher = width /\ 0 <= size < 2 ^ 32 /\
    forall file k, address file c_cipher -> blake3 k = c_key ->
      binding file -> inj_on blake3 (fun m => m ∈ [input_key i; k]) ->
      exists data, chacha8_unseal file k c_origin = Ok data /\ blake3 data = c_origin /\ zlen data = size.

(** C3: the Filecoin guest: when a run succeeds, whoever fetches a file with the
    published CID and opens the published key commitment decrypts data with
    the published digest and size, unless SHA-256 or BLAKE3 collide on the
    messages hashed.  The public values have 104 bytes. *)
Theorem filecoin_delivers `{HC : Crypto} {HL : CryptoLaws HC} `{HX : CidApi} {HXL : CidLaws HX} i out :
  Filecoin.main i = Ok out ->
  delivers (fun file c => compute_ipfs_cid_zk_optimized file = Ok c)
    (fun file => inj_on sha256 (fun m => m ∈ cid_msgs file ++ cid_msgs (input_cipher i))) i 36 out.
Proof.
  intros (c & origin & key & Hc & Hcid & ->)%filecoin_main_Ok.
  destruct (checked_private _ _ _ _ _ Hc) as (Hk & Hci & Hs).
  exists (blake3 origin), (blake3 key), c, (zlen origin). split; [done|].
  split; [apply blake3_length|]. split; [apply blake3_length|].
  split; [by destruct (cid_digest_tail _ _ Hcid)|]. split; [lia|].
  intros file k Hf Hkk Hsha Hb3. exists origin. split; [|done]. rewrite Hk in Hb3. rewrite Hci in Hsha.
  apply (sale_delivers _ key); [|done|done]. apply cid_commits_to_file; [done|congruence].
Qed.

(** C4: the Walrus guest: when a run succeeds, whoever fetches a blob with the
    published identifier and opens the published key commitment decrypts data
    with the published digest and size, unless BLAKE2b or BLAKE3 collide on the
    messages hashed.  The public values have 100 bytes. *)
Theorem walrus_delivers `{HC : Crypto} {HL : CryptoLaws HC} `{R : ReedSolomon} {RL : ReedSolomonLaws R} i out :
  codec_supports 1000 -> Walrus.main i = Ok out ->
  delivers (fun file c => zlen file < 2 ^ 63 /\ compute_blob_id_default file = Ok c)
    (fun file => collision_free (fun m => m ∈ encoding_msgs 1000 file ++ encoding_msgs 1000 (input_cipher i)))
    i 32 out.
Proof.
  intros Hsup (c & origin & key & Hc & Hid & ->)%walrus_main_Ok.
  destruct (checked_private _ _ _ _ _ Hc) as (Hk & Hci & Hs).
  assert (zlen (sealed_of key origin) < 2 ^ 63) as Hl by (rewrite sealed_length; lia).
  exists (blake3 origin), (blake3 key), c, (zlen origin). split; [done|].
  split; [apply blake3_length|]. split; [apply blake3_length|].
  split; [by apply (blob_id_length 1000 (sealed_of key origin))|]. split; [lia|].
  intros file k [Hfl Hf] Hkk Hcoll Hb3. exists origin. split; [|done]. rewrite Hk in Hb3. rewrite Hci in Hcoll.
  apply (sale_delivers _ key); [|done|done]. by apply (blob_id_commits 1000 _ _ c).
Qed.

(** ** The hosts ([script/src/bin/main_filecoin.rs], [main_walrus.rs]) *)

(** [stdin.write] of a vector: its length on eight bytes and the bytes. *)
Definition stdin_vec (data : bytes) : bytes := le_bytes 8 (zlen data) ++ data.
Definition host_inputs `{HC : Crypto} (origin key c_cipher : bytes) : VddInputs :=
  {| c_origin_raw := blake3 origin; c_key_raw := stdin_vec (blake3 key); c_cipher_raw := stdin_vec c_cipher;
     origin_raw := stdin_vec origin; key_raw := stdin_vec key |}.
Lemma host_inputs_checked `{HC : Crypto} origin key c_cipher : zlen origin < 2 ^ 32 -> length key = 32%nat ->
  checked_inputs (host_inputs origin key c_cipher) = Ok (blake3 key, c_cipher, origin, key).
Proof.
  intros Ho Hk. apply checked_inputs_Ok.
  split_and!; try done; apply payload_Ok; eexists (le_bytes 8 _); (split; [apply le_bytes_length|done]).
Qed.

(** C5: the hosts are accepted: for every original of less than 4 GiB and every key,
    the ciphertext has an address on both networks, and the guest accepts the
    inputs that the host writes for it. *)
Theorem hosts_accepted `{HC : Crypto} {HL : CryptoLaws HC} `{HX : CidApi} {HXL : CidLaws HX}
    `{R : ReedSolomon} {RL : ReedSolomonLaws R} origin key :
  zlen origin < 2 ^ 32 -> length key = 32%nat -> codec_supports 1000 ->
  exists cipher c_cid c_blob,
    chacha8_seal origin key (blake3 origin) = Ok cipher /\
    compute_ipfs_cid_zk_optimized cipher = Ok c_cid /\ compute_blob_id_default cipher = Ok c_blob /\
    Filecoin.main (host_inputs origin key c_cid)
      = Ok (blake3 origin ++ blake3 key ++ c_cid ++ be_bytes 4 (zlen origin)) /\
    Walrus.main (host_inputs origin key c_blob)
      = Ok (blake3 origin ++ blake3 key ++ c_blob ++ be_bytes 4 (zlen origin)).
Proof.
  intros Ho Hk Hsup. pose proof (sealed_length key origin) as Hl.
  destruct (blob_id_defined (sealed_of key origin)) as [id Hid]; [rewrite Hl; lia|done|].
  eexists (sealed_of key origin), _, id. split; [done|]. split; [apply zk_cid_value|]. split; [done|].
  split; [apply filecoin_main_Ok|apply walrus_main_Ok]; eexists _, origin, key;
    (split; [by apply host_inputs_checked|]); (split; [|reflexivity]); [apply zk_cid_value|done].
Qed.

(** ** Concrete runs *)

Definition sample_key : bytes := seqZ 1 32.
Definition sample_origin : bytes := [7; 8; 9].
Definition filecoin_inputs : VddInputs := Eval vm_compute in
  match compute_ipfs_cid_zk_optimized (HC := toy_crypto) (HX := toy_cid) (sealed_of sample_key sample_origin) with
  | Ok c => host_inputs sample_origin sample_key c
  | _ => host_inputs sample_origin sample_key []
  end.
Lemma filecoin_delivers_witness : exists out,
  Filecoin.main filecoin_inputs = Ok out /\
  delivers (fun file c => compute_ipfs_cid_zk_optimized file = Ok c)
    (fun file => inj_on sha256 (fun m => m ∈ cid_msgs file ++ cid_msgs (input_cipher filecoin_inputs)))
    filecoin_inputs 36 out.
Proof.
  destruct (Filecoin.main filecoin_inputs) as [out| | |] eqn:H.
  2-4: exfalso; revert H; vm_compute; discriminate.
  exists out. split; [reflexivity|]. apply (filecoin_delivers filecoin_inputs out H).
Defined.
Section ZeroSale.
Local Existing Instance cheap_crypto.
Local Existing Instance zero_rs.
Local Existing Instance zero_rs_laws.
Definition zero_inputs : VddInputs := host_inputs zero_blob sample_key (wo_blob_id zero_opening).
Lemma zero_sealed : sealed_of sample_key zero_blob = zero_blob.
Proof. vm_compute. reflexivity. Qed.
Lemma zero_run : Walrus.main zero_inputs
  = Ok (blake3 zero_blob ++ blake3 sample_key ++ wo_blob_id zero_opening ++ be_bytes 4 9).
Proof.
  apply walrus_main_Ok. exists (wo_blob_id zero_opening), zero_blob, sample_key.
  split; [by apply host_inputs_checked|]. split; [|reflexivity]. rewrite zero_sealed. exact zero_blob_id.
Qed.
(** The blob of zeros is its own encryption under a key stream of zeros; it is
    what the buyer gets. *)
Lemma walrus_delivers_witness : exists data,
  chacha8_unseal zero_blob sample_key (blake3 zero_blob) = Ok data /\ blake3 data = blake3 zero_blob /\
  zlen data = 9.
Proof.
  destruct (walrus_delivers zero_inputs _ ltac:(intros s _ _; split; reflexivity) zero_run)
    as (co & ck & cc & size & Hout & Ho & Hk & Hc & Hsize & H).
  apply app_inj_1 in Hout as [<- Hout]; [|by rewrite Ho].
  apply app_inj_1 in Hout as [<- Hout]; [|by rewrite Hk].
  apply app_inj_1 in Hout as [<- Hout]; [|rewrite Hc; vm_compute; reflexivity].
  apply be_bytes_inj in Hout; [|lia|lia]. rewrite Hout. apply H.
  - split; [done|exact zero_blob_id].
  - done.
  - apply (collision_free_weaken _ (fun m => m ∈ zero_msgs_list)).
    + intros m. change (input_cipher zero_inputs) with (sealed_of sample_key zero_blob). rewrite zero_sealed.
      rewrite elem_of_app. intros [Hm|Hm]; by apply zero_encoding_msgs.
    + apply collision_free_list_ok. vm_compute. reflexivity.
  - intros x y. rewrite !elem_of_cons. change (input_key zero_inputs) with sample_key. set_solver.
Defined.
Lemma hosts_accepted_witness : exists cipher c_cid c_blob,
  chacha8_seal sample_origin sample_key (blake3 sample_origin) = Ok cipher /\
  compute_ipfs_cid_zk_optimized cipher = Ok c_cid /\
  compute_blob_id_default cipher = Ok c_blob /\
  Filecoin.main (host_inputs sample_origin sample_key c_cid)
    = Ok (blake3 sample_origin ++ blake3 sample_key ++ c_cid ++ be_bytes 4 3) /\
  Walrus.main (host_inputs sample_origin sample_key c_blob)
    = Ok (blake3 sample_origin ++ blake3 sample_key ++ c_blob ++ be_bytes 4 3).
Proof.
  apply (hosts_accepted sample_origin sample_key).
  - reflexivity.
  - reflexivity.
  - intros s _ _. split; reflexivity.
Defined.

End ZeroSale.
