(* ===== verification/VddRslh.v ===== *)
(** Verifiable data delivery by sampling: the guest
    [guest/vdd/program-vdd-walrus-rslhve], the openings its host builds
    ([build_column_blob_opening] of [drop-lib/src/walrus_open.rs]) and the host
    itself ([guest/vdd/script/src/bin/main_walrus_rslhve.rs]).

    Instead of encrypting the whole asset, the guest checks fifteen columns of
    the byte matrix, drawn from the three commitments.  The theorems relate an
    accepted run to the bytes of the two blobs behind the identifiers. *)
From S2P Require Import Prelude Crypto WalrusMerkle WalrusConfig Gf256 Rslh WalrusOpen ReedSolomon BlobEncoding BlobMatrix EncodedBlob.

(** What the guest reads of one sampled column. *)
Record ShardInput := {
  si_global_index : Z;
  si_origin_shard : bytes;
  si_cipher_shard : bytes;
}.
(** The values in the order of the [read] calls. *)
Record RslhInputs := {
  ri_c_origin : bytes;
  ri_c_cipher : bytes;
  ri_c_key : bytes;
  ri_aux_data : bytes;
  ri_key : bytes;
  ri_shards : list ShardInput;
  ri_origin_opening : WalrusBlobOpening;
  ri_cipher_opening : WalrusBlobOpening;
}.

(** [if let Err(e) = m { panic!("..", e) }] *)
Definition or_panic {A} (prefix : string) (m : outcome string A) : guest A :=
  match m with
  | Ok a => Ok a
  | Err e => Panic (prefix ++ e)
  | Panic p => Panic p
  | OutOfFuel => OutOfFuel
  end.

Section Model.
Context `{HC : Crypto}.

Definition shard_proof (s : ShardInput) : VeShardProof :=
  {| global_index := si_global_index s; col_index := si_global_index s `mod` ROW_WIDTH_PRIMARY;
     parity_offset := 0; origin_shard := si_origin_shard s; cipher_shard := si_cipher_shard s;
     p_type := Col |}.

(** The stream holds the [DEFAULT_SAMPLE_COUNT] shards that the loop reads. *)
Definition main (i : RslhInputs) : guest bytes :=
  assert (bool_decide (ri_c_key i = blake3 (ri_key i)))
    "RSLH-VE Failure: c_key does not match blake3(key)" ;;
  assert (zlen (ri_shards i) =? DEFAULT_SAMPLE_COUNT) "read: unexpected input" ;;
  let proofs := shard_proof <$> ri_shards i in
  or_panic "Origin Walrus-Open Failure: " (verify_walrus_blob_opening (ri_origin_opening i)) ;;
  or_panic "Cipher Walrus-Open Failure: " (verify_walrus_blob_opening (ri_cipher_opening i)) ;;
  assert (bool_decide (bo_blob_id (ri_origin_opening i) = ri_c_origin i))
    "Walrus-Binding Failure: origin opening does not match c_origin" ;;
  assert (bool_decide (bo_blob_id (ri_cipher_opening i) = ri_c_cipher i))
    "Walrus-Binding Failure: cipher opening does not match c_cipher" ;;
  assert (bo_unencoded_length (ri_origin_opening i) =? bo_unencoded_length (ri_cipher_opening i))
    "VDD Length Failure: origin and cipher lengths differ" ;;
  assert (negb (bo_unencoded_length (ri_origin_opening i) <? MIN_VDD_BLOB_BYTES))
    "VDD Length Failure: asset is smaller than 1 MiB" ;;
  let symbol_size := walrus_symbol_size (bo_unencoded_length (ri_origin_opening i)) in
  or_panic "RSLH-Origin-Binding Failure: "
    (verify_origin_column_bound (ri_origin_opening i) proofs symbol_size) ;;
  or_panic "RSLH-Walrus-Binding Failure: "
    (verify_cipher_column_bound (ri_key i) (ri_aux_data i) (ri_cipher_opening i) proofs symbol_size) ;;
  or_panic "RSLH-VE Failure: "
    (verify_rslh_ve_combat_raw (ri_key i) (ri_c_key i) (ri_c_origin i) (ri_c_cipher i) (ri_aux_data i)
       1000 symbol_size proofs) ;;
  Ok (ri_c_origin i ++ ri_c_key i ++ ri_c_cipher i).

(** ** The host *)

Context `{R : ReedSolomon}.

(** The [i]-th challenge of the seed, and the sample it asks for: the whole
    primary sliver and two leaves as examples. *)
Definition challenge (seed : bytes) (i : nat) : Z := expected_idx seed 1000 (Z.of_nat i).
Definition symbol_request (s : Symbols) (r : nat) : outcome string WalrusSymbolRequest :=
  symbol ← symbols_at s (Z.of_nat r);
  Ok {| rq_leaf_index := Z.of_nat r; rq_symbol := symbol |}.
Definition column_sample (slivers : list SliverPair) (seed : bytes) (i : nat)
    : outcome string WalrusSampleRequest :=
  let c := challenge seed i `mod` ROW_WIDTH_PRIMARY in
  pair ← expect (slivers !! Z.to_nat c) "index out of bounds";
  column_symbols ← omapM (symbol_request (sd_symbols (pr_primary pair))) (seq 0 (Z.to_nat COL_HEIGHT_SECONDARY));
  primary ← symbol_request (sd_symbols (pr_primary pair)) 0;
  secondary ← symbol_request (sd_symbols (pr_secondary pair)) 0;
  Ok {| rq_shard_index := c; rq_primary_symbols := [primary]; rq_secondary_symbols := [secondary];
        rq_column_symbols := column_symbols |}.
Definition build_column_blob_opening (blob_data seed : bytes) (pack_size : Z) : outcome string WalrusBlobOpening :=
  config ← config_new 1000;
  encoding_config ← get_for_type config RS2;
  encoder ← map_err (blob_encoder_new encoding_config blob_data)
    (fun _ => "walrus_open: blob metadata computation failed"%string);
  '(metadata_with_id, symbol_hashes) ← unwrap (compute_metadata_with_symbol_hashes encoder) "called `Result::unwrap()` on an `Err` value";
  encoder ← map_err (blob_encoder_new encoding_config blob_data)
    (fun _ => "walrus_open: blob encoding failed"%string);
  '(slivers, encoded_metadata) ← unwrap (encode_with_metadata encoder) "called `Result::unwrap()` on an `Err` value";
  ensure (bool_decide (blob_id metadata_with_id = blob_id encoded_metadata))
    "walrus_open: metadata/blob id divergence" ;;
  ensure (pack_size =? walrus_symbol_size (zlen blob_data)) "walrus_open: pack size mismatch" ;;
  ensure (negb (65535 <=? pack_size)) "walrus_open: pack size out of walrus range" ;;
  samples ← omapM (column_sample slivers seed) (seq 0 (Z.to_nat DEFAULT_SAMPLE_COUNT));
  build_walrus_blob_opening symbol_hashes (encoding_type (metadata metadata_with_id))
    (unencoded_length (metadata metadata_with_id)) samples.

(** [main] of the host, up to the input stream; the exit for short assets is a
    panic. *)
Definition host_shard (key nonce seed : bytes) (symbol_size : Z) (origin_data cipher_data : bytes) (i : nat)
    : guest ShardInput :=
  proof ← unwrap (create_honest_proof key nonce (challenge seed i) symbol_size origin_data cipher_data) "called `Result::unwrap()` on an `Err` value";
  Ok {| si_global_index := global_index proof; si_origin_shard := origin_shard proof;
        si_cipher_shard := cipher_shard proof |}.
Definition host (origin_data key aux_data : bytes) : guest RslhInputs :=
  assert (negb (zlen origin_data <? MIN_VDD_BLOB_BYTES)) "error: VDD requires an asset of at least 1 MiB" ;;
  c_origin ← unwrap (compute_blob_id_default origin_data) "called `Result::unwrap()` on an `Err` value";
  let c_key := blake3 key in
  let nonce := derive_rslh_nonce key aux_data in
  let symbol_size := walrus_symbol_size (zlen origin_data) in
  let cipher_data := apply_keystream key nonce 0 origin_data in
  c_cipher ← unwrap (compute_blob_id_default cipher_data) "called `Result::unwrap()` on an `Err` value";
  let seed := challenge_seed c_origin c_cipher c_key in
  shards ← omapM (host_shard key nonce seed symbol_size origin_data cipher_data)
    (seq 0 (Z.to_nat DEFAULT_SAMPLE_COUNT));
  origin_opening ← unwrap (build_column_blob_opening origin_data seed symbol_size)
    "origin blob opening construction failed";
  assert (bool_decide (bo_blob_id origin_opening = c_origin)) "assertion failed" ;;
  cipher_opening ← unwrap (build_column_blob_opening cipher_data seed symbol_size)
    "cipher blob opening construction failed";
  assert (bool_decide (bo_blob_id cipher_opening = c_cipher)) "opening blob id must match c_cipher" ;;
  Ok {| ri_c_origin := c_origin; ri_c_cipher := c_cipher; ri_c_key := c_key; ri_aux_data := aux_data;
        ri_key := key; ri_shards := shards; ri_origin_opening := origin_opening;
        ri_cipher_opening := cipher_opening |}.
End Model.

(** ** The opened columns and the bytes of the blob *)

Section Matrix.
Context `{HC : Crypto} {HL : CryptoLaws HC} `{R : ReedSolomon} {RL : ReedSolomonLaws R}.
Context (k1 k2 n s : nat) (blob : bytes) (HS : Supported k1 k2 n s blob).
Context (Hk1 : Z.of_nat k1 = ROW_WIDTH_PRIMARY) (Hk2 : Z.of_nat k2 = COL_HEIGHT_SECONDARY).

(** The symbols of the expanded matrix, row by row. *)
Definition matrix_symbols : list bytes :=
  (fun i => cell k1 k2 n s blob (i / n) (i mod n)) <$> seq 0 (n * n).
Lemma matrix_symbols_hashes : leaf_hash <$> matrix_symbols = matrix_hashes k1 k2 n s blob.
Proof. unfold matrix_symbols, matrix_hashes. by rewrite <- list_fmap_compose. Qed.
Lemma matrix_symbols_length : length matrix_symbols = (n * n)%nat.
Proof. unfold matrix_symbols. by rewrite length_fmap, length_seq. Qed.
Lemma matrix_symbols_lookup r c : (r < n)%nat -> (c < n)%nat ->
  matrix_symbols !! (r * n + c)%nat = Some (cell k1 k2 n s blob r c).
Proof.
  intros Hr Hc. unfold matrix_symbols. rewrite list_lookup_fmap, lookup_seq_lt by nia.
  cbn [fmap option_fmap option_map Nat.add]. f_equal.
  rewrite (Nat.mul_comm r n). f_equal.
  - symmetry. apply (Nat.div_unique _ n r c); lia.
  - symmetry. apply (Nat.mod_unique _ n r c); lia.
Qed.

(** The identifier of the blob is the one recomputed from the matrix. *)
Lemma matrix_commits : blob_id (committed_metadata k1 k2 n s blob)
  = compute_blob_id_from_sliver_pair_roots (shard_roots n (leaf_hash <$> matrix_symbols) <$> seq 0 n) RS2 (zlen blob).
Proof.
  rewrite matrix_symbols_hashes. unfold committed_metadata, compute_blob_id_from_sliver_pair_roots.
  cbn [new_verified_from_metadata blob_id]. unfold from_sliver_pair_metadata, compute_root_hash.
  cbn [hashes encoding_type unencoded_length].
  apply (f_equal (fun l => from_metadata (root (build l)) RS2 (zlen blob))).
  rewrite <- !list_fmap_compose. apply list_fmap_ext. intros i j _. unfold compose, pair_leaf_input, roots_metadata,
    sliver_pair_metadata, shard_roots. cbn [primary_hash secondary_hash sp_primary sp_secondary].
  by rewrite !node_bytes_digest.
Qed.

(** Byte [j] of the symbol in column [r] of row [c]. *)
Lemma cell_byte c r j : 0 <= c < ROW_WIDTH_PRIMARY -> 0 <= r < COL_HEIGHT_SECONDARY -> (j < s)%nat ->
  nth j (cell k1 k2 n s blob (Z.to_nat c) (Z.to_nat r)) 0 = sym_at blob c (Z.of_nat s) j r.
Proof.
  intros Hc Hr Hj. rewrite cell_source by (done || lia). unfold sym, sym_at, symbol_offset.
  rewrite pad_to_nth, nth_drop_Z by done. apply (f_equal (fun i => nth i blob 0)), Nat2Z.inj.
  rewrite Z2Nat.id by (unfold COL_HEIGHT_SECONDARY in *; nia).
  rewrite Nat2Z.inj_add, Nat2Z.inj_mul, Nat2Z.inj_add, Nat2Z.inj_mul, !Z2Nat.id, Hk2 by lia. ring.
Qed.
Lemma cell_bytes c r : is_bytes blob -> 0 <= c < ROW_WIDTH_PRIMARY -> 0 <= r < COL_HEIGHT_SECONDARY ->
  is_bytes (cell k1 k2 n s blob (Z.to_nat c) (Z.to_nat r)).
Proof.
  intros Hb Hc Hr. rewrite cell_source by (done || lia). unfold sym, pad_to.
  apply Forall_take, Forall_app. split; [by apply Forall_drop|]. by apply Forall_replicate.
Qed.

(** The shard of an accepted opening shows a row of the matrix, so its full
    sliver is the part of the blob that the column check aggregates. *)
Lemma shown_column sh r : shard_shows n matrix_symbols sh ->
  0 <= shard_index sh < ROW_WIDTH_PRIMARY -> 0 <= r < COL_HEIGHT_SECONDARY ->
  WalrusOpen.column_symbols sh !! Z.to_nat r
  = Some (cell k1 k2 n s blob (Z.to_nat (shard_index sh)) (Z.to_nat r)).
Proof.
  intros (Hi & Hl & Hc & _) Hsh Hr. assert (Z.to_nat r < n)%nat by (destruct HS; lia).
  destruct (lookup_lt_is_Some_2 (WalrusOpen.column_symbols sh) (Z.to_nat r)) as [x Hx]; [lia|].
  assert (Hx' := Hc _ _ ltac:(eassumption) Hx). rewrite matrix_symbols_lookup in Hx' by lia. by rewrite Hx, <- Hx'.
Qed.
Lemma shown_byte sh r j : shard_shows n matrix_symbols sh ->
  0 <= shard_index sh < ROW_WIDTH_PRIMARY -> 0 <= r < COL_HEIGHT_SECONDARY -> (j < s)%nat ->
  opened_at (WalrusOpen.column_symbols sh) j r = sym_at blob (shard_index sh) (Z.of_nat s) j r.
Proof.
  intros Hsh Hi Hr Hj. unfold opened_at. rewrite shown_column by done. by apply cell_byte.
Qed.
Lemma shown_bytes sh : is_bytes blob -> shard_shows n matrix_symbols sh ->
  0 <= shard_index sh < ROW_WIDTH_PRIMARY -> Forall (fun x => is_bytes x) (WalrusOpen.column_symbols sh).
Proof.
  intros Hb Hsh Hi. apply Forall_lookup. intros r x Hx.
  assert (Z.of_nat r < COL_HEIGHT_SECONDARY) as Hr.
  { destruct Hsh as (_ & <- & _). apply lookup_lt_Some in Hx. lia. }
  pose proof (shown_column sh (Z.of_nat r) Hsh Hi ltac:(lia)) as Hx'. rewrite Nat2Z.id in Hx'.
  rewrite Hx in Hx'. injection Hx' as ->. rewrite <- (Nat2Z.id r). apply cell_bytes; [done..|lia].
Qed.
End Matrix.

(** ** An accepted run *)

Section Sound.
Context `{HC : Crypto} {HL : CryptoLaws HC} `{R : ReedSolomon} {RL : ReedSolomonLaws R}.

Lemma or_panic_Ok {A} prefix (m : outcome string A) a : or_panic prefix m = Ok a <-> m = Ok a.
Proof. destruct m; naive_solver. Qed.

(** The matrix of a blob over 1000 shards. *)
Definition blob_size (data : bytes) : nat := Z.to_nat (walrus_symbol_size (zlen data)).
Definition blob_matrix (data : bytes) : list bytes :=
  matrix_symbols (rows_of 1000) (columns_of 1000) (Z.to_nat 1000) (blob_size data) data.
Lemma computed_blob_size data x : zlen data < 2 ^ 63 ->
  compute_symbol_size (zlen data) (Z.of_nat (rows_of 1000) * Z.of_nat (columns_of 1000)) 2 = Ok (Z.of_nat x) ->
  x = blob_size data /\ Z.of_nat x = walrus_symbol_size (zlen data).
Proof.
  intros Hd Hs.
  change (Z.of_nat (rows_of 1000) * Z.of_nat (columns_of 1000)) with (source_symbols_per_blob_for_n_shards 1000) in Hs.
  change 2 with (required_alignment RS2) in Hs. rewrite walrus_symbol_size_computed in Hs by lia.
  destruct (Z.ltb_spec (walrus_symbol_size (zlen data)) 65536) as [_|]; [|done].
  injection Hs as Hs. unfold blob_size. by rewrite Hs, Nat2Z.id.
Qed.
Lemma blob_supported data id :
  zlen data < 2 ^ 63 -> codec_supports 1000 -> compute_blob_id_default data = Ok id ->
  Supported (rows_of 1000) (columns_of 1000) (Z.to_nat 1000) (blob_size data) data /\
  Z.of_nat (blob_size data) = walrus_symbol_size (zlen data) /\
  id = blob_id (metadata_of 1000 (blob_size data) data).
Proof.
  intros Hd Hsup H. destruct (compute_blob_id_inv 1000 data id ltac:(lia) Hd Hsup H) as (s0 & Hsp & Hs & Hid).
  by destruct (computed_blob_size data s0 Hd Hs) as [<- Hw].
Qed.

(** What the opening of a blob shows, unless BLAKE2b collides. *)
Lemma opening_of_blob o data :
  zlen data < 2 ^ 63 -> codec_supports 1000 -> compute_blob_id_default data = Ok (bo_blob_id o) ->
  opening_typed o -> bo_n_shards o = 1000 ->
  collision_free (fun x => x ∈ matrix_msgs (Z.to_nat 1000) (blob_matrix data) (zlen data) ++ opening_msgs o) ->
  verify_walrus_blob_opening o = Ok tt ->
  bo_unencoded_length o = zlen data /\ Forall (shard_shows (Z.to_nat 1000) (blob_matrix data)) (shards o).
Proof.
  intros Hd Hsup Hid Ht Hn HQ Hv. destruct (blob_supported data _ Hd Hsup Hid) as (Hsp & Hs & Hb).
  assert (bo_blob_id o = compute_blob_id_from_sliver_pair_roots
    (shard_roots (Z.to_nat 1000) (leaf_hash <$> blob_matrix data) <$> seq 0 (Z.to_nat 1000)) RS2 (zlen data)) as Hc.
  { rewrite Hb. unfold metadata_of, blob_matrix. apply matrix_commits. }
  destruct (opening_shows_committed_symbols (Z.to_nat 1000) (blob_matrix data) (zlen data) o
    (matrix_symbols_length _ _ _ _ _) ltac:(lia) Ht (eq_trans Hn (eq_sym (Z2Nat.id 1000 ltac:(lia)))) Hc HQ Hv)
    as (_ & Hl & _ & Hsh).
  split; assumption.
Qed.

(** The deviation of the ciphertext from the encryption of the original, at
    byte [j] of the symbol in row [r] of the sampled column [c]. *)
Definition blob_error (key nonce origin cipher : bytes) (c : Z) (j : nat) (r : Z) : Z :=
  let size := walrus_symbol_size (zlen origin) in
  if in_data (zlen origin) c size j r
  then Z.lxor (Z.lxor (sym_at cipher c size j r) (sym_at origin c size j r)) (ks_at key nonce c size j r)
  else 0.

Lemma sym_at_byte data c size j r : is_bytes data -> is_byte (sym_at data c size j r).
Proof. apply bytes_nth_byte. Qed.
Lemma blob_error_byte key nonce origin cipher c j r : is_bytes origin -> is_bytes cipher ->
  is_byte (blob_error key nonce origin cipher c j r).
Proof.
  intros Ho Hc. unfold blob_error. destruct (in_data _ _ _ _ _); [|done].
  apply lxor_byte; [apply lxor_byte; by apply sym_at_byte|apply keystream_byte].
Qed.

(** The column check on the openings of two blobs is a check of their bytes. *)
Lemma column_of_blobs key nonce origin cipher p csh osh :
  zlen origin = zlen cipher -> is_bytes origin -> is_bytes cipher ->
  Supported (rows_of 1000) (columns_of 1000) (Z.to_nat 1000) (blob_size origin) origin ->
  Supported (rows_of 1000) (columns_of 1000) (Z.to_nat 1000) (blob_size cipher) cipher ->
  Z.of_nat (blob_size origin) = walrus_symbol_size (zlen origin) ->
  shard_shows (Z.to_nat 1000) (blob_matrix origin) osh -> shard_shows (Z.to_nat 1000) (blob_matrix cipher) csh ->
  0 <= col_index p -> parity_offset p = 0 ->
  cipher_column_shard key nonce (zlen origin) (walrus_symbol_size (zlen origin)) (p, csh) = Ok tt ->
  origin_column_shard (zlen origin) (walrus_symbol_size (zlen origin)) (p, osh) = Ok tt ->
  verify_col_homomorphism key nonce p (walrus_symbol_size (zlen origin)) = Ok tt <->
  forall j, (j < blob_size origin)%nat -> xsum weight (blob_error key nonce origin cipher (col_index p) j) rows = 0.
Proof.
  intros Hlen Hbo Hbc Hso Hsc Hsz Hosh Hcsh Hc Hpo Hci Hor. set (size := walrus_symbol_size (zlen origin)) in *.
  assert (blob_size cipher = blob_size origin) as Hbs by (unfold blob_size; by rewrite Hlen).
  assert (0 <= size) as Hs0 by lia.
  destruct (cipher_column_shard_Ok _ _ _ _ _ _ Hc Hs0 Hci) as (Hcol & Hci1 & _ & _ & _).
  assert (shard_index osh = col_index p) as Hoi.
  { unfold origin_column_shard in Hor. apply bind_Ok_inv in Hor as (_ & _ & Hor).
    apply bind_Ok_inv in Hor as (_ & Hi%ensure_Ok & _). by bool_hyps. }
  rewrite (column_check_iff key nonce (zlen origin) size p csh osh Hc Hs0 Hpo); try done.
  2: { eapply (shown_bytes _ _ _ _ cipher Hsc); try done. rewrite Hci1. lia. }
  2: { eapply (shown_bytes _ _ _ _ origin Hso); try done. rewrite Hoi. lia. }
  unfold blob_size. fold size. apply forall_proper. intros j.
  assert ((j < Z.to_nat size)%nat -> xsum weight (column_error key nonce (zlen origin) (col_index p) size
    (WalrusOpen.column_symbols csh) (WalrusOpen.column_symbols osh) j) rows
    = xsum weight (blob_error key nonce origin cipher (col_index p) j) rows) as Heq.
  { intros Hj. apply xsum_ext. intros r Hr%elem_of_seqZ. unfold column_error, blob_error. fold size.
    rewrite (shown_byte _ _ _ _ cipher Hsc) by (done || lia). rewrite (shown_byte _ _ _ _ origin Hso) by (done || lia).
    by rewrite Hci1, Hoi, Hbs, Hsz. }
  split; intros H Hj; specialize (H Hj); [by rewrite <- Heq|by rewrite Heq].
Qed.
(** The run of the guest, check by check. *)
Definition accepted (i : RslhInputs) (size : Z) : Prop :=
  ri_c_key i = blake3 (ri_key i) /\ zlen (ri_shards i) = DEFAULT_SAMPLE_COUNT /\
  verify_walrus_blob_opening (ri_origin_opening i) = Ok tt /\
  verify_walrus_blob_opening (ri_cipher_opening i) = Ok tt /\
  bo_blob_id (ri_origin_opening i) = ri_c_origin i /\ bo_blob_id (ri_cipher_opening i) = ri_c_cipher i /\
  bo_unencoded_length (ri_origin_opening i) = bo_unencoded_length (ri_cipher_opening i) /\
  MIN_VDD_BLOB_BYTES <= bo_unencoded_length (ri_origin_opening i) /\
  size = walrus_symbol_size (bo_unencoded_length (ri_origin_opening i)) /\
  verify_origin_column_bound (ri_origin_opening i) (shard_proof <$> ri_shards i) size = Ok tt /\
  verify_cipher_column_bound (ri_key i) (ri_aux_data i) (ri_cipher_opening i) (shard_proof <$> ri_shards i) size = Ok tt /\
  verify_rslh_ve_combat_raw (ri_key i) (ri_c_key i) (ri_c_origin i) (ri_c_cipher i) (ri_aux_data i) 1000 size
    (shard_proof <$> ri_shards i) = Ok tt.
Lemma main_Ok i out : main i = Ok out <->
  out = ri_c_origin i ++ ri_c_key i ++ ri_c_cipher i /\ exists size, accepted i size.
Proof.
  unfold main. split.
  - intros H. do 2 (apply bind_Ok_inv in H as ([] & ?%assert_Ok & H)).
    do 2 (apply bind_Ok_inv in H as ([] & ?%or_panic_Ok & H)).
    do 4 (apply bind_Ok_inv in H as ([] & ?%assert_Ok & H)).
    do 3 (apply bind_Ok_inv in H as ([] & ?%or_panic_Ok & H)).
    injection H as <-. bool_hyps. split; [done|]. eexists. by repeat split.
  - intros [-> (size & H1 & H2 & H3 & H4 & H5 & H6 & H7 & H8 & -> & H9 & H10 & H11)].
    rewrite H3, H4, H9, H10, H11. unfold assert. rewrite !bool_decide_eq_true_2 by done.
    rewrite (proj2 (Z.eqb_eq _ _) H2), (proj2 (Z.eqb_eq _ _) H7), (proj2 (Z.ltb_ge _ _) H8). done.
Qed.

(** The Rust types of the inputs. *)
Definition inputs_typed (i : RslhInputs) : Prop :=
  Forall (fun s => 0 <= si_global_index s < 2 ^ 32) (ri_shards i) /\
  opening_typed (ri_origin_opening i) /\ opening_typed (ri_cipher_opening i).
(** The messages hashed to commit to the blobs and to check the openings. *)
Definition sale_msgs (i : RslhInputs) (origin cipher : bytes) : list bytes :=
  (matrix_msgs (Z.to_nat 1000) (blob_matrix origin) (zlen origin) ++ opening_msgs (ri_origin_opening i))
  ++ matrix_msgs (Z.to_nat 1000) (blob_matrix cipher) (zlen cipher) ++ opening_msgs (ri_cipher_opening i).

(** The checks of one sample, taken out of the loops. *)
Lemma accepted_sample i size k : accepted i size -> (k < Z.to_nat DEFAULT_SAMPLE_COUNT)%nat ->
  exists p osh csh, (shard_proof <$> ri_shards i) !! k = Some p /\
    shards (ri_origin_opening i) !! k = Some osh /\ shards (ri_cipher_opening i) !! k = Some csh /\
    global_index p = challenge (challenge_seed (ri_c_origin i) (ri_c_cipher i) (ri_c_key i)) k /\
    origin_column_shard (bo_unencoded_length (ri_origin_opening i)) size (p, osh) = Ok tt /\
    cipher_column_shard (ri_key i) (derive_rslh_nonce (ri_key i) (ri_aux_data i))
      (bo_unencoded_length (ri_cipher_opening i)) size (p, csh) = Ok tt /\
    verify_col_homomorphism (ri_key i) (derive_rslh_nonce (ri_key i) (ri_aux_data i)) p size = Ok tt.
Proof.
  intros (_ & Hl & _ & _ & _ & _ & _ & _ & _ & Ho & Hc & Hv) Hk. unfold verify_origin_column_bound in Ho.
  unfold verify_cipher_column_bound in Hc. unfold verify_rslh_ve_combat_raw in Hv.
  apply bind_Ok_inv in Hv as (a & Ha%ok_or_Ok & Hv). apply bind_Ok_inv in Hv as (b & Hb%ok_or_Ok & Hv).
  assert (a = ri_c_origin i /\ b = ri_c_cipher i) as [-> ->].
  { unfold blob_id_try_from in *. repeat case_bool_decide; naive_solver. }
  do 3 (apply bind_Ok_inv in Ho as ([] & ?%ensure_Ok & Ho)). do 3 (apply bind_Ok_inv in Hc as ([] & ?%ensure_Ok & Hc)).
  bool_hyps. rewrite length_fmap in *.
  destruct (lookup_lt_is_Some_2 (shard_proof <$> ri_shards i) k) as [p Hp]; [rewrite length_fmap; lia|].
  destruct (lookup_lt_is_Some_2 (shards (ri_origin_opening i)) k) as [osh Hosh]; [lia|].
  destruct (lookup_lt_is_Some_2 (shards (ri_cipher_opening i)) k) as [csh Hcsh]; [lia|].
  exists p, osh, csh. do 3 (split; [done|]).
  destruct (proj1 (combat_Ok _ _ _ _ _ _ _ _ (ltac:(lia) : 0 < 1000)) Hv k p Hp) as [Hg Hh]. split; [done|]. apply oforall_Ok in Ho, Hc.
  split; [|split; [|done]].
  - apply (Forall_lookup_1 _ _ k _ Ho). by rewrite lookup_zip_with, Hp, Hosh.
  - apply (Forall_lookup_1 _ _ k _ Hc). by rewrite lookup_zip_with, Hp, Hcsh.
Qed.

(** C1: the sampling guest is sound: when it accepts openings of the identifiers of
    two blobs, the public values name them, the blobs have the same length of at
    least 1 MiB, the key opens the commitment, and in each of the fifteen
    columns that the commitments draw, at each byte position, the weighted
    deviations of the ciphertext from the encryption of the original cancel;
    so no sampled column holds a single wrong byte at a position, unless
    BLAKE2b collides on the messages hashed. *)
Theorem rslhve_guest_sound i out origin cipher :
  zlen origin < 2 ^ 63 -> zlen cipher < 2 ^ 63 -> is_bytes origin -> is_bytes cipher -> codec_supports 1000 ->
  compute_blob_id_default origin = Ok (ri_c_origin i) -> compute_blob_id_default cipher = Ok (ri_c_cipher i) ->
  inputs_typed i -> collision_free (fun x => x ∈ sale_msgs i origin cipher) -> main i = Ok out ->
  out = ri_c_origin i ++ blake3 (ri_key i) ++ ri_c_cipher i /\
  zlen origin = zlen cipher /\ MIN_VDD_BLOB_BYTES <= zlen origin /\
  let seed := challenge_seed (ri_c_origin i) (ri_c_cipher i) (blake3 (ri_key i)) in
  let nonce := derive_rslh_nonce (ri_key i) (ri_aux_data i) in
  forall k, (k < Z.to_nat DEFAULT_SAMPLE_COUNT)%nat ->
    let err := blob_error (ri_key i) nonce origin cipher (challenge seed k `mod` ROW_WIDTH_PRIMARY) in
    forall j, (j < blob_size origin)%nat ->
      xsum weight (err j) rows = 0 /\
      (forall r, r ∈ rows -> (forall s, s <> r -> err j s = 0) -> err j r = 0).
Proof.
  intros Hdo Hdc Hbo Hbc Hsup Hido Hidc (Hti & Hto & Htc) HQ [-> (size & Hacc)]%main_Ok.
  pose proof Hacc as (Hkey & _ & Hvo & Hvc & Hio & Hic & Hlen & Hmin & Hsize & Ho1 & Hc1 & _).
  rewrite <- Hio in Hido. rewrite <- Hic in Hidc. unfold sale_msgs in HQ.
  assert (bo_n_shards (ri_origin_opening i) = 1000 /\ bo_n_shards (ri_cipher_opening i) = 1000) as [Hno Hnc].
  { unfold verify_origin_column_bound in Ho1. unfold verify_cipher_column_bound in Hc1.
    apply bind_Ok_inv in Ho1 as (_ & _ & Ho1). apply bind_Ok_inv in Ho1 as (_ & ?%ensure_Ok & _).
    apply bind_Ok_inv in Hc1 as (_ & _ & Hc1). apply bind_Ok_inv in Hc1 as (_ & ?%ensure_Ok & _). by bool_hyps. }
  destruct (opening_of_blob _ origin Hdo Hsup Hido Hto Hno) as [Hlo Hso]; [|exact Hvo|].
  { apply (collision_free_weaken _ _ (fun x Hx => proj2 (elem_of_app _ _ _) (or_introl Hx)) HQ). }
  destruct (opening_of_blob _ cipher Hdc Hsup Hidc Htc Hnc) as [Hlc Hsc]; [|exact Hvc|].
  { apply (collision_free_weaken _ _ (fun x Hx => proj2 (elem_of_app _ _ _) (or_intror Hx)) HQ). }
  destruct (blob_supported origin _ Hdo Hsup Hido) as (Hspo & Hso1 & _).
  destruct (blob_supported cipher _ Hdc Hsup Hidc) as (Hspc & _ & _).
  rewrite <- Hkey. split; [done|]. split; [lia|]. split; [lia|]. intros seed nonce k Hk err j Hj.
  destruct (accepted_sample i size k Hacc Hk) as (p & osh & csh & Hp & Hosh & Hcsh & Hg & Hco & Hcc & Hv).
  rewrite <- Hlen, Hlo in Hcc. rewrite Hlo in Hco, Hsize. subst size.
  rewrite list_lookup_fmap in Hp. destruct (ri_shards i !! k) as [si|] eqn:Hsi; [|done]. injection Hp as <-.
  apply (column_of_blobs _ _ origin cipher _ csh osh) with (j := j) in Hv; try assumption.
  - unfold shard_proof in Hv, Hg. cbn [col_index global_index] in Hv, Hg. rewrite Hg in Hv. split; [exact Hv|].
    intros r Hr Hz. fold nonce in Hv. rewrite (xsum_single weight _ rows r) in Hv by (done || apply NoDup_seqZ).
    destruct (decide (err j r = 0)) as [|Hne]; [done|]. exfalso. revert Hv.
    apply gf_log_mul; [|apply weight_byte|done|apply weight_nonzero].
    apply blob_error_byte; assumption.
  - lia.
  - by eapply Forall_lookup_1 in Hso.
  - by eapply Forall_lookup_1 in Hsc.
  - unfold shard_proof. cbn [col_index]. apply Z.mod_pos_bound. done.
  - reflexivity.
Qed.
End Sound.

(** ** The host is accepted *)

Section HostOpening.
Context `{HC : Crypto} {HL : CryptoLaws HC} `{R : ReedSolomon} {RL : ReedSolomonLaws R}.
Context (k1 k2 n s : nat) (blob : bytes) (HS : Supported k1 k2 n s blob).
Context (Hk1 : Z.of_nat k1 = ROW_WIDTH_PRIMARY) (Hk2 : Z.of_nat k2 = COL_HEIGHT_SECONDARY).
Local Notation cell := (cell k1 k2 n s blob).

Lemma primary_symbol_request c r : (c < n)%nat -> (r < k2)%nat ->
  symbol_request (sd_symbols (primary_sliver k1 k2 n s blob c)) r
  = Ok {| rq_leaf_index := Z.of_nat r; rq_symbol := cell c r |}.
Proof.
  intros Hc Hr. unfold symbol_request, primary_sliver. cbn [sd_symbols].
  rewrite (symbols_at_list s _ r (cell c r)); [done| |].
  - apply Forall_fmap, Forall_forall. intros i [_ Hi]%elem_of_seq. apply (cell_symbol k1 k2 n s blob HS); destruct HS; lia.
  - by rewrite list_lookup_fmap, lookup_seq_lt.
Qed.
Lemma secondary_symbol_request c : (c < n)%nat ->
  symbol_request (sd_symbols (secondary_sliver k1 k2 n s blob c)) 0
  = Ok {| rq_leaf_index := 0; rq_symbol := cell 0 c |}.
Proof.
  intros Hc. assert (0 < k1)%nat by (destruct HS; lia). unfold symbol_request, secondary_sliver. cbn [sd_symbols].
  rewrite (symbols_at_list s _ 0 (cell 0 c)); [done| |].
  - by destruct (column_sized k1 k2 n s blob HS c Hc).
  - unfold column. rewrite list_lookup_fmap, lookup_seq_lt by done. cbn. f_equal. symmetry.
    by apply (cell_row k1 k2 n s blob HS).
Qed.

(** The sample of shard [c]. *)
Definition row_sample (c : nat) : WalrusSampleRequest :=
  {| rq_shard_index := Z.of_nat c;
     rq_primary_symbols := [{| rq_leaf_index := 0; rq_symbol := cell c 0 |}];
     rq_secondary_symbols := [{| rq_leaf_index := 0; rq_symbol := cell 0 (n - 1 - c) |}];
     rq_column_symbols := (fun r => {| rq_leaf_index := Z.of_nat r; rq_symbol := cell c r |}) <$> seq 0 k2 |}.
Lemma column_sample_ok seed i :
  column_sample (matrix_pairs k1 k2 n s blob) seed i
  = Ok (row_sample (Z.to_nat (challenge seed i `mod` ROW_WIDTH_PRIMARY))).
Proof.
  pose proof (Z.mod_pos_bound (challenge seed i) ROW_WIDTH_PRIMARY ltac:(done)) as Hc.
  unfold column_sample. set (c := challenge seed i `mod` ROW_WIDTH_PRIMARY) in *. destruct HS as [Hr Hk _ _ _ _ _].
  assert (matrix_pairs k1 k2 n s blob !! Z.to_nat c
    = Some {| pr_primary := primary_sliver k1 k2 n s blob (Z.to_nat c);
              pr_secondary := secondary_sliver k1 k2 n s blob (n - 1 - Z.to_nat c) |}) as ->
    by (unfold matrix_pairs; by rewrite list_lookup_fmap, lookup_seq_lt by lia).
  cbn [expect mbind outcome_bind pr_primary pr_secondary]. rewrite <- Hk2, Nat2Z.id.
  rewrite (omapM_fmap _ (fun r => {| rq_leaf_index := Z.of_nat r; rq_symbol := cell (Z.to_nat c) r |})).
  2: { intros r [_ Hrr]%elem_of_seq. apply primary_symbol_request; lia. }
  cbn [mbind outcome_bind]. rewrite primary_symbol_request by lia. cbn [mbind outcome_bind].
  rewrite secondary_symbol_request by lia. cbn [mbind outcome_bind]. unfold row_sample. by rewrite Z2Nat.id by lia.
Qed.
Lemma row_sample_ok c : (c < k1)%nat -> sample_ok n (matrix_symbols k1 k2 n s blob) (row_sample c).
Proof.
  intros Hc. destruct HS as [Hr Hk _ _ _ _ _]. unfold sample_ok, row_sample.
  cbn [rq_shard_index rq_primary_symbols rq_secondary_symbols rq_column_symbols]. rewrite Nat2Z.id.
  split; [lia|]. split; [|split; [|split]].
  - apply Forall_singleton. unfold request_ok, row_symbols. cbn [rq_leaf_index rq_symbol]. split; [done|].
    rewrite list_lookup_fmap, lookup_seq_lt by lia. cbn [fmap option_fmap option_map]. f_equal.
    apply matrix_symbols_lookup; lia.
  - apply Forall_singleton. unfold request_ok, column_symbols_of. cbn [rq_leaf_index rq_symbol]. split; [done|].
    rewrite list_lookup_fmap, lookup_seq_lt by lia. cbn [fmap option_fmap option_map]. f_equal.
    replace (Z.to_nat 0 + 0)%nat with 0%nat by lia.
    rewrite <- (matrix_symbols_lookup k1 k2 n s blob 0 (n - 1 - c)) by lia. f_equal.
  - rewrite length_fmap, length_seq. lia.
  - intros r rq Hrq. rewrite list_lookup_fmap in Hrq. apply fmap_Some in Hrq as (r' & Hr' & ->).
    apply lookup_seq in Hr' as [-> Hr']. cbn [rq_leaf_index rq_symbol Nat.add]. split; [done|].
    intros _. apply matrix_symbols_lookup; lia.
Qed.
End HostOpening.

Section HostColumn.
Context `{HC : Crypto} {HL : CryptoLaws HC} `{R : ReedSolomon} {RL : ReedSolomonLaws R}.

Definition blob_sample (data seed : bytes) (i : nat) : WalrusSampleRequest :=
  row_sample (rows_of 1000) (columns_of 1000) (Z.to_nat 1000) (blob_size data) data
    (Z.to_nat (challenge seed i `mod` ROW_WIDTH_PRIMARY)).

Lemma build_column_blob_opening_ok data seed id :
  zlen data < 2 ^ 63 -> codec_supports 1000 -> compute_blob_id_default data = Ok id ->
  exists o, build_column_blob_opening data seed (walrus_symbol_size (zlen data)) = Ok o /\
    bo_blob_id o = id /\ bo_n_shards o = 1000 /\ bo_unencoded_length o = zlen data /\
    Forall2 (answers (Z.to_nat 1000) (blob_matrix data)) (blob_sample data seed <$> seq 0 (Z.to_nat DEFAULT_SAMPLE_COUNT)) (shards o) /\
    verify_walrus_blob_opening o = Ok tt.
Proof.
  intros Hd Hsup Hid. destruct (blob_supported data id Hd Hsup Hid) as (Hsp & Hs & Hb).
  assert (exists e, blob_encoder_new {| source_symbols_primary := 1000 - 2 * max_n_faulty 1000;
      source_symbols_secondary := 1000 - max_n_faulty 1000; rs_n_shards := 1000 |} data = Ok e /\
    e = encoder_of 1000 (blob_size data) data) as (e & He & ->).
  { unfold compute_blob_id_default, compute_blob_id in Hid. rewrite config_new_eq in Hid by lia.
    cbn [Z.eqb negb assert get_for_type mbind outcome_bind] in Hid.
    apply bind_Ok_inv in Hid as (e & He & _). exists e. split; [done|].
    destruct (encoder_supported (E := DataTooLargeError) 1000 data _ e ltac:(lia) Hd Hsup (config_new_eq 1000 ltac:(lia)) He)
      as (Hee & _ & Hcs). destruct (computed_blob_size data _ Hd Hcs) as [Hx _].
    rewrite Hx in Hee. exact Hee. }
  unfold build_column_blob_opening. rewrite config_new_eq by lia. cbn [get_for_type mbind outcome_bind].
  rewrite He. cbn [map_err mbind outcome_bind]. unfold encoder_of.
  rewrite (compute_metadata_ok _ _ _ _ _ Hsp), (encode_with_metadata_ok _ _ _ _ _ Hsp).
  cbn [unwrap mbind outcome_bind]. rewrite bool_decide_eq_true_2 by reflexivity. cbn [ensure mbind outcome_bind].
  rewrite Z.eqb_refl. cbn [ensure mbind outcome_bind].
  destruct (sp_size _ _ _ _ _ Hsp) as [Hlt Heven]. rewrite Hs in Hlt, Heven.
  rewrite (proj2 (Z.leb_gt _ _)).
  2: { destruct (decide (walrus_symbol_size (zlen data) = 65535)) as [Hodd|]; [rewrite Hodd in Heven; discriminate Heven|lia]. }
  cbn [negb ensure mbind outcome_bind].
  rewrite (omapM_fmap _ (blob_sample data seed)).
  2: { intros i _. by apply column_sample_ok. }
  cbn [mbind outcome_bind committed_metadata new_verified_from_metadata metadata encoding_type unencoded_length].
  rewrite <- matrix_symbols_hashes.
  destruct (blob_opening_verifies (Z.to_nat 1000) (blob_matrix data) (matrix_symbols_length _ _ _ _ _) (zlen data)
    (blob_sample data seed <$> seq 0 (Z.to_nat DEFAULT_SAMPLE_COUNT))) as (o & Ho & Hoi & Hon & Hol & _ & Ha & Hv).
  - lia.
  - rewrite Z2Nat.id; lia.
  - apply Forall_fmap, Forall_forall. intros i _. unfold compose.
    pose proof (Z.mod_pos_bound (challenge seed i) ROW_WIDTH_PRIMARY ltac:(done)) as Hc.
    apply row_sample_ok; [exact Hsp|reflexivity|]. change (rows_of 1000) with (Z.to_nat ROW_WIDTH_PRIMARY). lia.
  - exists o. split; [exact Ho|]. split; [|split; [by rewrite Hon, Z2Nat.id by lia|]].
    + rewrite Hoi, Hb. unfold metadata_of, blob_matrix. symmetry. apply matrix_commits.
    + split; [exact Hol|]. split; [exact Ha|exact Hv].
Qed.
End HostColumn.

(** ** The aggregates of the host *)

Section HostAggregates.
Context `{HC : Crypto} {HL : CryptoLaws HC}.

(** A shard whose full sliver is column [c] of the padded data. *)
Definition shows_column (data : bytes) (size c : Z) (sh : WalrusShardOpening) : Prop :=
  shard_index sh = c /\ zlen (WalrusOpen.column_symbols sh) = COL_HEIGHT_SECONDARY /\
  forall r, 0 <= r < COL_HEIGHT_SECONDARY -> exists x,
    WalrusOpen.column_symbols sh !! Z.to_nat r = Some x /\ zlen x = size /\
    forall j, (j < Z.to_nat size)%nat -> nth j x 0 = sym_at data c size j r.
Lemma shows_column_sizes data size c sh : shows_column data size c sh ->
  Forall (fun x => zlen x = size) (WalrusOpen.column_symbols sh).
Proof.
  intros (_ & Hl & H). apply Forall_lookup. intros r x Hx. pose proof (lookup_lt_Some _ _ _ Hx).
  destruct (H (Z.of_nat r)) as (y & Hy & Hs & _); [lia|]. rewrite Nat2Z.id in Hy. congruence.
Qed.
Lemma shows_column_byte data size c sh j r : shows_column data size c sh ->
  r ∈ rows -> (j < Z.to_nat size)%nat ->
  opened_at (WalrusOpen.column_symbols sh) j r = sym_at data c size j r.
Proof.
  intros (_ & _ & H) Hr%elem_of_seqZ Hj. destruct (H r) as (x & Hx & _ & Hb); [lia|].
  unfold opened_at. rewrite Hx. by apply Hb.
Qed.

Lemma cipher_column_rows_total key nonce len size c syms rs acc :
  Forall (fun x => zlen x = size) syms -> (forall r, r ∈ rs -> 0 <= r < zlen syms) ->
  exists e, ofold (cipher_column_row key nonce len size c syms) acc rs = Ok e.
Proof.
  intros Hs. revert acc. induction rs as [|r rs IH]; intros acc Hr; [by eexists|]. cbn [ofold].
  destruct (lookup_lt_is_Some_2 syms (Z.to_nat r)) as [x Hx]; [specialize (Hr r ltac:(set_solver)); lia|].
  assert (get_at syms r = Some x) as Hg by (apply get_at_Some; split; [apply Hr; set_solver|done]).
  assert (zlen x = size) as Hxs by exact (Forall_lookup_1 _ _ _ _ Hs Hx).
  unfold cipher_column_row. rewrite Hg. cbn [expect mbind outcome_bind]. rewrite Hxs, Z.eqb_refl.
  destruct (_ <? len); cbn [ensure mbind outcome_bind]; apply IH; set_solver.
Qed.
Lemma origin_column_rows_total len size c k acc syms :
  Forall (fun x => zlen x = size) syms -> exists e, origin_column_rows len size c k acc syms = Ok e.
Proof.
  intros Hs. revert k acc. induction Hs as [|x syms Hx _ IH]; intros k acc; [by eexists|].
  cbn [origin_column_rows]. destruct (_ <=? _); [by eexists|]. rewrite Hx, Z.eqb_refl. apply IH.
Qed.

Lemma host_cipher_column key nonce data size p sh :
  0 <= size -> 0 <= col_index p < ROW_WIDTH_PRIMARY -> shows_column data size (col_index p) sh ->
  zlen (origin_shard p) = size -> zlen (cipher_shard p) = size ->
  (forall j, (j < Z.to_nat size)%nat ->
    nth j (cipher_shard p) 0 = xsum weight (cipher_at key nonce (zlen data) data (col_index p) size j) rows) ->
  cipher_column_shard key nonce (zlen data) size (p, sh) = Ok tt.
Proof.
  intros Hs Hc Hsh Ho Hci Hn. pose proof Hsh as (Hi & Hl & _). unfold cipher_column_shard.
  rewrite (proj2 (Z.leb_gt _ _)), Hi, Z.eqb_refl, Ho, Hci, Z.eqb_refl, Hl, Z.eqb_refl by lia.
  cbn [negb andb ensure mbind outcome_bind].
  destruct (cipher_column_rows_total key nonce (zlen data) size (col_index p) (WalrusOpen.column_symbols sh)
    (seqZ 0 COL_HEIGHT_SECONDARY) (zeros size)) as [e He].
  { by eapply shows_column_sizes. } { intros r Hr%elem_of_seqZ. lia. }
  rewrite He. cbn [mbind outcome_bind]. rewrite bool_decide_eq_true_2; [done|].
  apply cipher_column_rows_spec in He as [Hel He]; [|rewrite zeros_length; lia|intros r Hr; apply (rows_ok _ _ _ (proj1 Hc) Hs Hr)].
  apply list_eq_nth; [lia|]. intros j Hj. rewrite He, zeros_nth, Z.lxor_0_l, Hn by lia.
  apply xsum_ext. intros r Hr. unfold cipher_cell, cipher_at, in_data.
  by rewrite (shows_column_byte data size (col_index p)) by (done || lia).
Qed.
Lemma host_origin_column data size p sh :
  0 <= size -> 0 <= col_index p < ROW_WIDTH_PRIMARY -> shows_column data size (col_index p) sh ->
  zlen (origin_shard p) = size ->
  (forall j, (j < Z.to_nat size)%nat -> nth j (origin_shard p) 0 = xsum weight (sym_at data (col_index p) size j) rows) ->
  origin_column_shard (zlen data) size (p, sh) = Ok tt.
Proof.
  intros Hs Hc Hsh Ho Hn. pose proof Hsh as (Hi & Hl & _). unfold origin_column_shard.
  rewrite (proj2 (Z.leb_gt _ _)), Hi, Z.eqb_refl, Ho, Z.eqb_refl, Hl, Z.eqb_refl by lia.
  cbn [negb andb ensure mbind outcome_bind]. rewrite take_ge by lia.
  destruct (origin_column_rows_total (zlen data) size (col_index p) 0 (zeros size) (WalrusOpen.column_symbols sh))
    as [e He]; [by eapply shows_column_sizes|].
  rewrite He. cbn [mbind outcome_bind]. rewrite bool_decide_eq_true_2; [done|].
  apply (origin_column_rows_spec (zlen data) size (col_index p) (WalrusOpen.column_symbols sh) 0) in He as [Hel He];
    [|rewrite zeros_length; lia|lia|lia|done].
  apply list_eq_nth; [lia|]. intros j Hj. rewrite He, zeros_nth, Z.lxor_0_l, Hn, Z.sub_0_r, Hl by lia.
  apply xsum_ext. intros r Hr. unfold origin_cell, in_data.
  rewrite (shows_column_byte data size (col_index p)) by (done || lia).
  destruct (Z.ltb_spec (symbol_offset (col_index p) r size + Z.of_nat j) (zlen data)); [done|].
  unfold sym_at. symmetry. apply nth_overflow. lia.
Qed.
End HostAggregates.

Section Complete.
Context `{HC : Crypto} {HL : CryptoLaws HC} `{R : ReedSolomon} {RL : ReedSolomonLaws R}.

(** The column of the [k]-th challenge. *)
Definition challenge_column (seed : bytes) (k : nat) : Z := challenge seed k `mod` ROW_WIDTH_PRIMARY.
Lemma challenge_range seed k : 0 <= challenge seed k < 1000.
Proof. apply Z.mod_pos_bound. done. Qed.
Lemma challenge_column_range seed k : 0 <= challenge_column seed k < ROW_WIDTH_PRIMARY.
Proof. apply Z.mod_pos_bound. done. Qed.

(** Shards opened for the challenged columns show them. *)
Definition column_answered (sample : WalrusSampleRequest) (sh : WalrusShardOpening) : Prop :=
  shard_index sh = rq_shard_index sample /\
  WalrusOpen.column_symbols sh = rq_symbol <$> rq_column_symbols sample.
Lemma answers_column n syms samples shs :
  Forall2 (answers n syms) samples shs -> Forall2 column_answered samples shs.
Proof. intros H. eapply Forall2_impl; [exact H|]. intros sample sh (H1 & H2 & _). by split. Qed.
Lemma built_column data seed o k :
  Supported (rows_of 1000) (columns_of 1000) (Z.to_nat 1000) (blob_size data) data ->
  Z.of_nat (blob_size data) = walrus_symbol_size (zlen data) ->
  Forall2 column_answered (blob_sample data seed <$> seq 0 (Z.to_nat DEFAULT_SAMPLE_COUNT)) (shards o) ->
  (k < Z.to_nat DEFAULT_SAMPLE_COUNT)%nat ->
  exists sh, shards o !! k = Some sh /\
    shows_column data (walrus_symbol_size (zlen data)) (challenge_column seed k) sh.
Proof.
  intros Hsp Hs Ha Hk. pose proof (challenge_column_range seed k) as Hc.
  destruct (Forall2_lookup_l _ _ _ k (blob_sample data seed k) Ha) as (sh & Hsh & Hi & Hcs).
  { by rewrite list_lookup_fmap, lookup_seq_lt. }
  exists sh. split; [done|]. unfold blob_sample, row_sample in Hi, Hcs. cbn [rq_shard_index rq_column_symbols] in Hi, Hcs.
  fold (challenge_column seed k) in Hi, Hcs. rewrite Z2Nat.id in Hi by lia. split; [done|].
  rewrite <- list_fmap_compose in Hcs. unfold compose in Hcs. cbn [rq_symbol] in Hcs. rewrite Hcs, length_fmap, length_seq.
  split; [reflexivity|]. intros r Hr.
  assert (Z.to_nat r < columns_of 1000)%nat as Hrk by (change (columns_of 1000) with (Z.to_nat COL_HEIGHT_SECONDARY); lia).
  exists (cell (rows_of 1000) (columns_of 1000) (Z.to_nat 1000) (blob_size data) data
    (Z.to_nat (challenge_column seed k)) (Z.to_nat r)).
  split; [by rewrite list_lookup_fmap, lookup_seq_lt|]. rewrite <- Hs. split.
  - rewrite (cell_symbol _ _ _ _ _ Hsp); [done| |].
    + destruct Hsp as [Hr1 _ _ _ _ _ _]. change (rows_of 1000) with (Z.to_nat ROW_WIDTH_PRIMARY) in Hr1. lia.
    + destruct Hsp as [_ Hr1 _ _ _ _ _]. lia.
  - intros j Hj. apply (cell_byte _ _ _ _ _ Hsp); [reflexivity|reflexivity|done|done|lia].
Qed.

(** The shards that the host writes. *)
Definition honest_shard (key nonce origin : bytes) (size idx : Z) (p : VeShardProof) : Prop :=
  global_index p = idx /\ col_index p = idx `mod` ROW_WIDTH_PRIMARY /\
  zlen (origin_shard p) = size /\ zlen (cipher_shard p) = size /\
  (forall j, (j < Z.to_nat size)%nat ->
    nth j (origin_shard p) 0 = xsum weight (sym_at origin (col_index p) size j) rows /\
    nth j (cipher_shard p) 0 = xsum weight
      (cipher_at key nonce (zlen origin) (apply_keystream key nonce 0 origin) (col_index p) size j) rows) /\
  verify_col_homomorphism key nonce p size = Ok tt.
Lemma host_shard_ok key nonce seed size origin i : 0 <= size -> is_bytes origin ->
  exists si, host_shard key nonce seed size origin (apply_keystream key nonce 0 origin) i = Ok si /\
    honest_shard key nonce origin size (challenge seed i) (shard_proof si).
Proof.
  intros Hs Ho. pose proof (challenge_range seed i) as Hi.
  destruct (create_honest_proof_spec key nonce (challenge seed i) size origin (apply_keystream key nonce 0 origin))
    as (p & Hp & Hg & Hc & Hpo & H1 & H2 & Hn); [lia|done|by rewrite apply_keystream_length|].
  destruct (honest_proof_accepted key nonce (challenge seed i) size origin) as (p' & Hp' & _ & _ & Hv);
    [lia|done|done|].
  rewrite Hp in Hp'. injection Hp' as <-. unfold host_shard. rewrite Hp. cbn [unwrap mbind outcome_bind].
  eexists. split; [done|]. unfold honest_shard, shard_proof.
  cbn [si_global_index si_origin_shard si_cipher_shard global_index col_index origin_shard cipher_shard].
  rewrite Hg, <- Hc. split_and!; try done.
  apply verify_col_homomorphism_Ok in Hv as (_ & _ & Hcl & Hv); [|done]. apply verify_col_homomorphism_Ok; [done|].
  cbn [col_index parity_offset origin_shard cipher_shard]. rewrite Hpo in Hv. by split_and!.
Qed.
Lemma omapM_Forall2 {E A B} (f : A -> outcome E B) (P : A -> B -> Prop) l :
  (forall a, a ∈ l -> exists b, f a = Ok b /\ P a b) -> exists l', omapM f l = Ok l' /\ Forall2 P l l'.
Proof.
  induction l as [|a l IH]; intros H; [by exists []|].
  destruct (H a) as (b & Hb & HP); [set_solver|]. destruct IH as (l' & Hl & HF); [set_solver|].
  exists (b :: l'). cbn [omapM]. rewrite Hb. cbn [mbind outcome_bind]. rewrite Hl. split; [done|by constructor].
Qed.

Lemma origin_bound_ok o proofs len :
  zlen proofs = zlen (shards o) -> bo_n_shards o = 1000 -> bo_unencoded_length o = len ->
  (forall k p sh, proofs !! k = Some p -> shards o !! k = Some sh ->
     origin_column_shard len (walrus_symbol_size len) (p, sh) = Ok tt) ->
  verify_origin_column_bound o proofs (walrus_symbol_size len) = Ok tt.
Proof.
  intros Hl Hn Hu H. unfold verify_origin_column_bound. rewrite Hu, Hl, Hn, !Z.eqb_refl.
  cbn [ensure mbind outcome_bind]. apply oforall_Ok, Forall_lookup. intros k [p sh] Hk.
  rewrite lookup_zip_with in Hk. apply bind_Some in Hk as (p' & Hp & Hk). apply bind_Some in Hk as (sh' & Hsh & [= -> ->]).
  by apply (H k).
Qed.
Lemma cipher_bound_ok key aux o proofs len :
  zlen proofs = zlen (shards o) -> bo_n_shards o = 1000 -> bo_unencoded_length o = len ->
  (forall k p sh, proofs !! k = Some p -> shards o !! k = Some sh ->
     cipher_column_shard key (derive_rslh_nonce key aux) len (walrus_symbol_size len) (p, sh) = Ok tt) ->
  verify_cipher_column_bound key aux o proofs (walrus_symbol_size len) = Ok tt.
Proof.
  intros Hl Hn Hu H. unfold verify_cipher_column_bound. rewrite Hu, Hl, Hn, !Z.eqb_refl.
  cbn [ensure mbind outcome_bind]. apply oforall_Ok, Forall_lookup. intros k [p sh] Hk.
  rewrite lookup_zip_with in Hk. apply bind_Some in Hk as (p' & Hp & Hk). apply bind_Some in Hk as (sh' & Hsh & [= -> ->]).
  by apply (H k).
Qed.
(** Two blobs of the same length either both have an identifier or neither. *)
Lemma blob_id_same_length a b id : zlen a < 2 ^ 63 -> codec_supports 1000 -> length a = length b ->
  compute_blob_id_default a = Ok id -> exists id', compute_blob_id_default b = Ok id'.
Proof.
  intros Ha Hsup Hl. unfold compute_blob_id_default. rewrite !compute_blob_id_eq by (done || lia). rewrite Hl.
  intros (s & -> & _)%bind_Ok_inv. by eexists.
Qed.
Lemma blob_id_try_from_ok data id : zlen data < 2 ^ 63 -> codec_supports 1000 ->
  compute_blob_id_default data = Ok id -> blob_id_try_from id = Some id.
Proof.
  intros Hd Hsup Hid. unfold blob_id_try_from. rewrite bool_decide_eq_true_2; [done|].
  exact (blob_id_length 1000 data id ltac:(lia) Hd Hsup Hid).
Qed.

(** Inputs of an honest host for an asset. *)
Record HonestInputs (origin key aux c_origin c_cipher : bytes) (i : RslhInputs) : Prop := {
  hr_cipher : compute_blob_id_default (apply_keystream key (derive_rslh_nonce key aux) 0 origin) = Ok c_cipher;
  hr_commitments : ri_c_origin i = c_origin /\ ri_c_cipher i = c_cipher /\ ri_c_key i = blake3 key /\
    ri_key i = key /\ ri_aux_data i = aux;
  hr_shards : Forall2 (fun k si => honest_shard key (derive_rslh_nonce key aux) origin
      (walrus_symbol_size (zlen origin)) (challenge (challenge_seed c_origin c_cipher (blake3 key)) k) (shard_proof si))
    (seq 0 (Z.to_nat DEFAULT_SAMPLE_COUNT)) (ri_shards i);
  hr_opening : forall data o,
    (data, o) ∈ [(origin, ri_origin_opening i);
                 (apply_keystream key (derive_rslh_nonce key aux) 0 origin, ri_cipher_opening i)] ->
    bo_n_shards o = 1000 /\ bo_unencoded_length o = zlen origin /\ verify_walrus_blob_opening o = Ok tt /\
    length (shards o) = Z.to_nat DEFAULT_SAMPLE_COUNT /\
    forall k, (k < Z.to_nat DEFAULT_SAMPLE_COUNT)%nat -> exists sh, shards o !! k = Some sh /\
      shows_column data (walrus_symbol_size (zlen origin))
        (challenge_column (challenge_seed c_origin c_cipher (blake3 key)) k) sh;
  hr_ids : bo_blob_id (ri_origin_opening i) = c_origin /\ bo_blob_id (ri_cipher_opening i) = c_cipher;
}.
Lemma host_run origin key aux id :
  MIN_VDD_BLOB_BYTES <= zlen origin < 2 ^ 63 -> is_bytes origin -> codec_supports 1000 ->
  compute_blob_id_default origin = Ok id -> exists c_cipher i, host origin key aux = Ok i /\ HonestInputs origin key aux id c_cipher i.
Proof.
  intros Hlen Hb Hsup Hid. set (nonce := derive_rslh_nonce key aux). set (cipher := apply_keystream key nonce 0 origin).
  assert (length cipher = length origin) as Hcl by apply apply_keystream_length.
  assert (zlen cipher < 2 ^ 63) as Hcd by lia.
  destruct (blob_id_same_length origin cipher id ltac:(lia) Hsup (eq_sym Hcl) Hid) as [c_cipher Hc].
  destruct (blob_supported origin id ltac:(lia) Hsup Hid) as (Hspo & Hso & _).
  destruct (blob_supported cipher c_cipher ltac:(lia) Hsup Hc) as (Hspc & Hsc & _).
  set (seed := challenge_seed id c_cipher (blake3 key)). set (size := walrus_symbol_size (zlen origin)) in *.
  assert (walrus_symbol_size (zlen cipher) = size) as Hsz by (unfold size; by rewrite Hcl).
  destruct (omapM_Forall2 (host_shard key nonce seed size origin cipher)
    (fun k si => honest_shard key nonce origin size (challenge seed k) (shard_proof si))
    (seq 0 (Z.to_nat DEFAULT_SAMPLE_COUNT))) as (ss & Hss & HF).
  { intros k _. apply host_shard_ok; [lia|done]. }
  destruct (build_column_blob_opening_ok origin seed id ltac:(lia) Hsup Hid) as (oo & Hoo & Hoi & Hon & Hol & Hoa & Hov).
  destruct (build_column_blob_opening_ok cipher seed c_cipher Hcd Hsup Hc) as (co & Hco & Hci & Hcn & Hcol & Hca & Hcv).
  exists c_cipher, {| ri_c_origin := id; ri_c_cipher := c_cipher; ri_c_key := blake3 key; ri_aux_data := aux; ri_key := key;
    ri_shards := ss; ri_origin_opening := oo; ri_cipher_opening := co |}. split; [|split; try done].
  - unfold host. rewrite (proj2 (Z.ltb_ge _ _)) by lia. cbn [negb assert mbind outcome_bind]. rewrite Hid.
    cbn [unwrap mbind outcome_bind]. fold nonce cipher. rewrite Hc. cbn [unwrap mbind outcome_bind].
    fold seed size. rewrite Hss. cbn [mbind outcome_bind]. fold size in Hoo. rewrite Hoo.
    cbn [unwrap mbind outcome_bind]. rewrite bool_decide_eq_true_2 by done. cbn [assert mbind outcome_bind].
    rewrite Hsz in Hco. rewrite Hco. cbn [unwrap mbind outcome_bind]. by rewrite bool_decide_eq_true_2.
  - intros data o Ho. apply elem_of_cons in Ho as [[= -> ->]|[= -> ->]%list_elem_of_singleton];
      cbn [ri_origin_opening ri_cipher_opening].
    + do 3 (split; [done|]). split; [by rewrite <- (Forall2_length _ _ _ Hoa), length_fmap, length_seq|].
      intros k Hk. by apply (built_column origin seed oo k); [| |apply answers_column in Hoa|].
    + split; [done|]. split; [lia|]. split; [done|].
      split; [by rewrite <- (Forall2_length _ _ _ Hca), length_fmap, length_seq|].
      intros k Hk. fold size. rewrite <- Hsz. by apply (built_column cipher seed co k); [| |apply answers_column in Hca|].
Qed.

Lemma host_run_accepted origin key aux id c_cipher i :
  MIN_VDD_BLOB_BYTES <= zlen origin -> zlen origin < 2 ^ 63 -> is_bytes origin -> codec_supports 1000 ->
  compute_blob_id_default origin = Ok id -> HonestInputs origin key aux id c_cipher i ->
  accepted i (walrus_symbol_size (zlen origin)).
Proof.
  intros Hmin Hlen Hb Hsup Hid [Hc (Hio & Hic & Hik & Hkey & Haux) HF Hop (Hbo & Hbc)].
  set (nonce := derive_rslh_nonce key aux) in *. set (cipher := apply_keystream key nonce 0 origin) in *.
  assert (length cipher = length origin) as Hcl by apply apply_keystream_length.
  set (seed := challenge_seed id c_cipher (blake3 key)) in *. set (size := walrus_symbol_size (zlen origin)) in *.
  destruct (blob_supported origin id Hlen Hsup Hid) as (_ & Hso & _).
  assert (0 <= size) as Hs0 by (unfold size; lia).
  destruct (Hop origin (ri_origin_opening i)) as (Hon & Hol & Hov & Hosl & Hos); [set_solver|].
  destruct (Hop cipher (ri_cipher_opening i)) as (Hcn & Hcol & Hcv & Hcsl & Hcs); [set_solver|].
  pose proof (Forall2_length _ _ _ HF) as Hfl. rewrite length_seq in Hfl.
  assert (forall k p, (shard_proof <$> ri_shards i) !! k = Some p ->
    (k < Z.to_nat DEFAULT_SAMPLE_COUNT)%nat /\ honest_shard key nonce origin size (challenge seed k) p) as Hp.
  { intros k p Hk. rewrite list_lookup_fmap in Hk. destruct (ri_shards i !! k) as [si|] eqn:Hsi; [|done].
    injection Hk as <-. pose proof (lookup_lt_Some _ _ _ Hsi). split; [lia|].
    destruct (Forall2_lookup_r _ _ _ _ _ HF Hsi) as (k' & Hk' & Hh). by apply lookup_seq in Hk' as [-> _]. }
  unfold accepted. rewrite Hik, Hkey, Haux, Hio, Hic, Hol, Hcol. fold size. split_and!; try done.
  - by rewrite <- Hfl.
  - apply origin_bound_ok; [by rewrite length_fmap, <- Hfl, Hosl|done|done|].
    intros k p sh Hk Hsh. destruct (Hp k p Hk) as (Hkl & _ & Hci & Hl1 & Hl2 & Hn & _).
    destruct (Hos k Hkl) as (sh' & Hsh' & Hcs'). rewrite Hsh in Hsh'. injection Hsh' as <-.
    pose proof (challenge_column_range seed k) as Hr. fold (challenge_column seed k) in Hci.
    apply host_origin_column; rewrite ?Hci; try done. intros j Hj. rewrite <- Hci. by apply Hn.
  - apply (cipher_bound_ok key aux _ _ (zlen origin)); [by rewrite length_fmap, <- Hfl, Hcsl|done|done|].
    intros k p sh Hk Hsh. destruct (Hp k p Hk) as (Hkl & _ & Hci & Hl1 & Hl2 & Hn & _).
    destruct (Hcs k Hkl) as (sh' & Hsh' & Hcs'). rewrite Hsh in Hsh'. injection Hsh' as <-.
    pose proof (challenge_column_range seed k) as Hr. fold (challenge_column seed k) in Hci.
    fold size. replace (zlen origin) with (zlen cipher) by (by rewrite Hcl).
    apply host_cipher_column; rewrite ?Hci; try done. intros j Hj. rewrite <- Hci, Hcl. by apply Hn.
  - unfold verify_rslh_ve_combat_raw. rewrite (blob_id_try_from_ok origin id) by done. cbn [ok_or mbind outcome_bind].
    rewrite (blob_id_try_from_ok cipher c_cipher) by (done || lia). cbn [ok_or mbind outcome_bind].
    apply combat_Ok; [lia|]. intros k p Hk. destruct (Hp k p Hk) as (_ & Hg & _ & _ & _ & _ & Hv). by split.
Qed.

(** C2: the sampling host is accepted: for every asset of at least 1 MiB that has an
    identifier and every key, the host writes inputs without a failure and the
    guest accepts them, committing the two identifiers and the key. *)
Theorem rslhve_host_accepted origin key aux id :
  MIN_VDD_BLOB_BYTES <= zlen origin < 2 ^ 63 -> is_bytes origin -> codec_supports 1000 ->
  compute_blob_id_default origin = Ok id ->
  exists i c_cipher, host origin key aux = Ok i /\
    compute_blob_id_default (apply_keystream key (derive_rslh_nonce key aux) 0 origin) = Ok c_cipher /\
    main i = Ok (id ++ blake3 key ++ c_cipher).
Proof.
  intros Hlen Hb Hsup Hid. destruct (host_run origin key aux id Hlen Hb Hsup Hid) as (c_cipher & i & Hhost & HR).
  exists i, c_cipher. split; [done|]. split; [apply HR|]. apply main_Ok.
  pose proof (host_run_accepted origin key aux id c_cipher i (proj1 Hlen) ltac:(lia) Hb Hsup Hid HR) as Hacc.
  destruct HR as [_ (-> & -> & -> & _ & _) _ _ _]. split; [done|by eexists].
Qed.
End Complete.
