(* ===== verification/VddRslhRuns.v ===== *)
(** Concrete runs of the sampling guest [VddRslh], on an asset of one mebibyte of
    zeros: the symbols of its matrix are all alike, so the messages hashed to
    commit to it are few and their digests can be compared. *)
From S2P Require Import Prelude Crypto WalrusMerkle WalrusConfig Gf256 Rslh WalrusOpen ReedSolomon BlobEncoding BlobMatrix HostOpening EncodedBlob VddRslh.

(** ** The commitment to a matrix of zeros *)

Section ZeroCommitment.
Context `{HC : Crypto} (n s : nat) (len : Z).
Definition zero_leaves : list Node := leaf_hash <$> replicate n (replicate s 0).
Definition zero_shard_roots : SliverPairRoots :=
  {| sp_primary := node_bytes (root (build_from_leaf_hashes zero_leaves));
     sp_secondary := node_bytes (root (build_from_leaf_hashes zero_leaves)) |}.
Definition zero_commitment : list bytes :=
  metadata_msgs (roots_md (replicate n zero_shard_roots) RS2 len) ++ build_msgs (replicate n (replicate s 0)).
End ZeroCommitment.

Section ZeroMatrix.
Context `{HC : Crypto} {HL : CryptoLaws HC}.
Local Existing Instance zero_rs.
Local Existing Instance zero_rs_laws.
Context (k1 k2 n s m : nat) (HS : Supported k1 k2 n s (replicate m 0)).
Let z : bytes := replicate s 0.
Let syms := matrix_symbols k1 k2 n s (replicate m 0).
Local Notation zero_leaves := (zero_leaves n s).
Local Notation zero_shard_roots := (zero_shard_roots n s).
Local Notation zero_commitment := (zero_commitment n s (Z.of_nat m)).

Lemma zero_leaves_ok : Forall node_ok zero_leaves.
Proof. apply Forall_fmap, Forall_true. intros d. apply blake2b256_length. Qed.
Lemma zero_roots_typed : roots_typed zero_shard_roots.
Proof. split; apply node_bytes_length, build_root_ok, zero_leaves_ok. Qed.
Lemma zero_cells (f : nat -> bytes) : (forall i, (i < n)%nat -> f i = z) -> f <$> seq 0 n = replicate n z.
Proof.
  intros Hf. rewrite (list_fmap_ext f (fun _ => z) _) by (intros i j [-> Hi]%lookup_seq; by apply Hf).
  by rewrite (const_fmap (fun _ => z) _ z), length_seq.
Qed.
Lemma zero_matrix_row i : (i < n)%nat -> matrix_row n (leaf_hash <$> syms) i = zero_leaves.
Proof.
  intros Hi. unfold syms. rewrite matrix_symbols_hashes, row_hashes by done. unfold zero_leaves. f_equal.
  apply zero_cells. intros c Hc. by apply zero_cell.
Qed.
Lemma zero_matrix_column i : (i < n)%nat -> matrix_column n (leaf_hash <$> syms) i = zero_leaves.
Proof.
  intros Hi. unfold syms. rewrite matrix_symbols_hashes, column_hashes by done. unfold zero_leaves. f_equal.
  apply zero_cells. intros r Hr. apply zero_cell; [done|done|lia].
Qed.
Lemma zero_roots_eq : shard_roots n (leaf_hash <$> syms) <$> seq 0 n = replicate n zero_shard_roots.
Proof.
  rewrite (list_fmap_ext _ (fun _ => zero_shard_roots) _).
  - by rewrite (const_fmap (fun _ => zero_shard_roots) _ zero_shard_roots), length_seq.
  - intros i j [-> Hi]%lookup_seq. cbn [Nat.add]. unfold shard_roots, primary_tree, secondary_tree.
    by rewrite zero_matrix_row, zero_matrix_column.
Qed.
Lemma zero_symbols_all x : x ∈ syms -> x = z.
Proof.
  intros (i & -> & Hi%elem_of_seq)%list_elem_of_fmap. assert (0 < n)%nat by nia.
  pose proof (Nat.Div0.div_lt_upper_bound i n n ltac:(lia)). pose proof (Nat.mod_upper_bound i n ltac:(lia)).
  by apply zero_cell.
Qed.
Lemma zero_leaf_msg : (0 < n)%nat -> LEAF_PREFIX ++ z ∈ zero_commitment.
Proof.
  intros Hn. unfold zero_commitment, build_msgs. rewrite !elem_of_app. right. left.
  apply list_elem_of_fmap. exists z. split; [done|]. apply elem_of_replicate. split; [done|lia].
Qed.
Lemma zero_tree_msgs x : x ∈ tree_msgs n zero_leaves -> x ∈ zero_commitment.
Proof.
  intros Hx. unfold zero_commitment, build_msgs. rewrite !elem_of_app, length_replicate. by right; right.
Qed.
Lemma zero_matrix_msgs x : x ∈ matrix_msgs n syms (Z.of_nat m) -> x ∈ zero_commitment.
Proof.
  assert (0 < n)%nat as Hn by (destruct HS; lia). unfold matrix_msgs. rewrite zero_roots_eq, !elem_of_app. intros [Hx|[Hx|Hx]].
  - unfold zero_commitment. rewrite elem_of_app. by left.
  - apply list_elem_of_fmap in Hx as (y & -> & Hy%zero_symbols_all). rewrite Hy. by apply zero_leaf_msg.
  - apply list_elem_of_In, in_concat in Hx as (l & Hl%list_elem_of_In & Hx%list_elem_of_In).
    apply list_elem_of_fmap in Hl as (i & -> & Hi%elem_of_seq).
    rewrite zero_matrix_row, zero_matrix_column, elem_of_app in Hx by lia.
    apply zero_tree_msgs. by destruct Hx.
Qed.
(** An opening without single symbols hashes nothing else. *)
Lemma zero_opening_msgs o x : sliver_pair_roots o = replicate n zero_shard_roots ->
  bo_unencoded_length o = Z.of_nat m ->
  Forall (fun sh => primary_symbols sh = [] /\ secondary_symbols sh = [] /\
    Forall (eq z) (WalrusOpen.column_symbols sh) /\ column_leaf_hashes sh = zero_leaves) (shards o) ->
  x ∈ opening_msgs o -> x ∈ zero_commitment.
Proof.
  assert (0 < n)%nat as Hn by (destruct HS; lia). intros Hr Hl Hsh. unfold opening_msgs. rewrite Hr, Hl, elem_of_app.
  intros [Hx|Hx]; [unfold zero_commitment; rewrite elem_of_app; by left|].
  apply list_elem_of_In, in_concat in Hx as (l & Hll%list_elem_of_In & Hx%list_elem_of_In).
  apply list_elem_of_fmap in Hll as (sh & -> & Hin). rewrite Forall_forall in Hsh.
  destruct (Hsh sh Hin) as (Hp & Hs & Hc & Hlh). unfold shard_msgs in Hx. rewrite Hp, Hs, Hlh in Hx.
  cbn [fmap list_fmap concat app] in Hx. apply elem_of_app in Hx as [Hx|Hx].
  - apply list_elem_of_fmap in Hx as (y & -> & Hy). rewrite Forall_forall in Hc. rewrite <- (Hc y Hy). by apply zero_leaf_msg.
  - apply zero_tree_msgs. unfold zero_leaves in Hx at 1. by rewrite length_fmap, length_replicate in Hx.
Qed.
End ZeroMatrix.

(** ** An opening without example symbols *)

Section PlainOpening.
Context `{HC : Crypto} {HL : CryptoLaws HC} `{R : ReedSolomon} {RL : ReedSolomonLaws R}.

Definition plain (sample : WalrusSampleRequest) : WalrusSampleRequest :=
  {| rq_shard_index := rq_shard_index sample; rq_primary_symbols := []; rq_secondary_symbols := [];
     rq_column_symbols := rq_column_symbols sample |}.
Lemma plain_ok n syms sample : sample_ok n syms sample -> sample_ok n syms (plain sample).
Proof.
  intros (H1 & _ & _ & H2 & H3). split; [exact H1|]. split; [constructor|].
  split; [constructor|]. split; [exact H2|exact H3].
Qed.
Lemma plain_columns samples shs :
  Forall2 column_answered (plain <$> samples) shs -> Forall2 column_answered samples shs.
Proof. rewrite Forall2_fmap_l. intros H. eapply Forall2_impl; [exact H|]. intros sample sh [H1 H2]. by split. Qed.
Lemma plain_opening data seed id :
  zlen data < 2 ^ 63 -> codec_supports 1000 -> compute_blob_id_default data = Ok id ->
  exists o, bo_blob_id o = id /\ bo_n_shards o = 1000 /\ bo_unencoded_length o = zlen data /\
    sliver_pair_roots o = shard_roots (Z.to_nat 1000) (leaf_hash <$> blob_matrix data) <$> seq 0 (Z.to_nat 1000) /\
    Forall2 (answers (Z.to_nat 1000) (blob_matrix data))
      (plain <$> (blob_sample data seed <$> seq 0 (Z.to_nat DEFAULT_SAMPLE_COUNT))) (shards o) /\
    verify_walrus_blob_opening o = Ok tt.
Proof.
  intros Hd Hsup Hid. destruct (blob_supported data id Hd Hsup Hid) as (Hsp & Hs & Hb).
  destruct (blob_opening_verifies (Z.to_nat 1000) (blob_matrix data) (matrix_symbols_length _ _ _ _ _) (zlen data)
    (plain <$> (blob_sample data seed <$> seq 0 (Z.to_nat DEFAULT_SAMPLE_COUNT))))
    as (o & _ & Hoi & Hon & Hol & Hor & Ha & Hv).
  - lia.
  - rewrite Z2Nat.id; lia.
  - apply Forall_fmap, Forall_fmap, Forall_forall. intros i _. unfold compose. apply plain_ok.
    pose proof (challenge_column_range seed i) as Hc.
    apply row_sample_ok; [exact Hsp|reflexivity|]. fold (challenge_column seed i).
    change (rows_of 1000) with (Z.to_nat ROW_WIDTH_PRIMARY). lia.
  - exists o. split; [|split; [by rewrite Hon, Z2Nat.id by lia|]].
    + rewrite Hoi, Hb. unfold metadata_of, blob_matrix. symmetry. apply matrix_commits.
    + split; [exact Hol|]. split; [exact Hor|]. split; [exact Ha|exact Hv].
Qed.
End PlainOpening.

(** ** The asset of zeros *)

Section ZeroAsset.
Local Existing Instance cheap_crypto.
Local Existing Instance zero_rs.
Local Existing Instance zero_rs_laws.
Definition asset_length : nat := Z.to_nat MIN_VDD_BLOB_BYTES.
Local Notation zero_asset := (replicate asset_length (0 : Z)).
Definition asset_key : bytes := seqZ 1 32.
Lemma asset_zlen : zlen zero_asset = MIN_VDD_BLOB_BYTES.
Proof. rewrite length_replicate. apply Z2Nat.id. unfold MIN_VDD_BLOB_BYTES. lia. Qed.
Lemma asset_bytes : is_bytes zero_asset.
Proof. by apply Forall_replicate. Qed.
Lemma zero_codec : codec_supports 1000.
Proof. intros s _ _. split; reflexivity. Qed.
Lemma asset_id : exists id, compute_blob_id_default zero_asset = Ok id.
Proof. apply blob_id_defined; [rewrite asset_zlen; unfold MIN_VDD_BLOB_BYTES; lia|exact zero_codec]. Qed.
(** The key stream of [cheap_crypto] is zero. *)
Lemma asset_sealed key nonce : apply_keystream key nonce 0 zero_asset = zero_asset.
Proof.
  apply list_eq. intros i. unfold apply_keystream. rewrite list_lookup_imap.
  destruct (zero_asset !! i) as [b|]; [|done]. cbn. by rewrite Z.lxor_0_r.
Qed.

Lemma rslhve_host_accepted_witness : exists i c_origin c_cipher,
  host zero_asset asset_key [1; 2] = Ok i /\ main i = Ok (c_origin ++ blake3 asset_key ++ c_cipher).
Proof.
  destruct asset_id as [id Hid].
  destruct (rslhve_host_accepted zero_asset asset_key [1; 2] id) as (i & c & Hh & _ & Hm).
  - rewrite asset_zlen. unfold MIN_VDD_BLOB_BYTES. lia.
  - exact asset_bytes.
  - exact zero_codec.
  - exact Hid.
  - exists i, id, c. split; [exact Hh|exact Hm].
Defined.

Lemma asset_size : blob_size zero_asset = 6%nat.
Proof. unfold blob_size. rewrite asset_zlen. vm_compute. reflexivity. Qed.
Lemma asset_supported id : compute_blob_id_default zero_asset = Ok id ->
  Supported (rows_of 1000) (columns_of 1000) (Z.to_nat 1000) (blob_size zero_asset) zero_asset /\
  Z.of_nat (blob_size zero_asset) = walrus_symbol_size (zlen zero_asset).
Proof.
  intros Hid. destruct (blob_supported zero_asset id) as (H1 & H2 & _); [|exact zero_codec|exact Hid|by split].
  rewrite asset_zlen. unfold MIN_VDD_BLOB_BYTES. lia.
Qed.

Lemma asset_supported_6 id : compute_blob_id_default zero_asset = Ok id ->
  Supported (rows_of 1000) (columns_of 1000) (Z.to_nat 1000) 6 (replicate asset_length 0).
Proof. intros Hid. rewrite <- asset_size. exact (proj1 (asset_supported id Hid)). Qed.
Lemma asset_matrix : blob_matrix zero_asset
  = matrix_symbols (rows_of 1000) (columns_of 1000) (Z.to_nat 1000) 6 (replicate asset_length 0).
Proof. unfold blob_matrix. by rewrite asset_size. Qed.
Lemma asset_sample seed k : blob_sample zero_asset seed k
  = row_sample (rows_of 1000) (columns_of 1000) (Z.to_nat 1000) 6 (replicate asset_length 0)
      (Z.to_nat (challenge_column seed k)).
Proof. unfold blob_sample. by rewrite asset_size. Qed.

(** A shard of a plain opening of zeros. *)
Lemma plain_zero_shard k1 k2 n s m c sh : Supported k1 k2 n s (replicate m 0) -> (c < n)%nat ->
  answers n (matrix_symbols k1 k2 n s (replicate m 0)) (plain (row_sample k1 k2 n s (replicate m 0) c)) sh ->
  0 <= shard_index sh /\ primary_symbols sh = [] /\ secondary_symbols sh = [] /\
  Forall (eq (replicate s 0)) (WalrusOpen.column_symbols sh) /\ column_leaf_hashes sh = zero_leaves n s.
Proof.
  intros HS Hc (H1 & H2 & H3 & H4 & H5).
  cbn [plain row_sample rq_shard_index rq_primary_symbols rq_secondary_symbols rq_column_symbols] in *.
  split; [lia|]. split; [by apply length_zero_iff_nil|]. split; [by apply length_zero_iff_nil|]. split.
  - rewrite H2. apply Forall_forall. intros x Hx. rewrite <- list_fmap_compose in Hx.
    apply list_elem_of_fmap in Hx as (r & -> & Hr%elem_of_seq). unfold compose. cbn [rq_symbol].
    symmetry. apply zero_cell; [done|done|]. destruct HS; lia.
  - rewrite H3, Nat2Z.id. by apply zero_matrix_row.
Qed.
(** The shards of a plain opening of the asset. *)
Lemma plain_shard seed k sh id : compute_blob_id_default zero_asset = Ok id ->
  answers (Z.to_nat 1000) (blob_matrix zero_asset) (plain (blob_sample zero_asset seed k)) sh ->
  0 <= shard_index sh /\ primary_symbols sh = [] /\ secondary_symbols sh = [] /\
  Forall (eq (replicate 6 0)) (WalrusOpen.column_symbols sh) /\
  column_leaf_hashes sh = zero_leaves (Z.to_nat 1000) 6.
Proof.
  intros Hid. rewrite asset_matrix, asset_sample. apply plain_zero_shard; [by apply (asset_supported_6 id)|].
  pose proof (challenge_column_range seed k) as Hc. unfold ROW_WIDTH_PRIMARY in Hc. clear -Hc. lia.
Qed.

(** Inputs of an honest host that asks for no example symbols. *)
Definition asset_commitment : list bytes := zero_commitment (Z.to_nat 1000) 6 MIN_VDD_BLOB_BYTES.
Lemma plain_run id : compute_blob_id_default zero_asset = Ok id ->
  exists i, ri_c_origin i = id /\ ri_c_cipher i = id /\ ri_key i = asset_key /\ ri_aux_data i = [1; 2] /\ inputs_typed i /\
    (forall x, x ∈ sale_msgs i zero_asset zero_asset -> x ∈ asset_commitment) /\
    accepted i (walrus_symbol_size (zlen zero_asset)).
Proof.
  intros Hid. set (nonce := derive_rslh_nonce asset_key [1; 2]). set (seed := challenge_seed id id (blake3 asset_key)).
  assert (MIN_VDD_BLOB_BYTES <= zlen zero_asset < 2 ^ 63) as [Hmin Hlen]
    by (rewrite asset_zlen; unfold MIN_VDD_BLOB_BYTES; clear; lia).
  destruct (plain_opening zero_asset seed id Hlen zero_codec Hid) as (o & Ho & Hn & Hl & Hr & Ha & Hv).
  destruct (asset_supported id Hid) as [Hsp Hs].
  destruct (omapM_Forall2 (host_shard asset_key nonce seed (walrus_symbol_size (zlen zero_asset)) zero_asset zero_asset)
    (fun k si => honest_shard asset_key nonce zero_asset (walrus_symbol_size (zlen zero_asset)) (challenge seed k)
       (shard_proof si)) (seq 0 (Z.to_nat DEFAULT_SAMPLE_COUNT))) as (ss & _ & HF).
  { intros k _. pose proof (host_shard_ok asset_key nonce seed (walrus_symbol_size (zlen zero_asset)) zero_asset k) as H.
    rewrite asset_sealed in H. apply H; [rewrite <- Hs; apply Nat2Z.is_nonneg|exact asset_bytes]. }
  assert (Forall (fun sh => 0 <= shard_index sh /\ primary_symbols sh = [] /\ secondary_symbols sh = [] /\
    Forall (eq (replicate 6 0)) (WalrusOpen.column_symbols sh) /\
    column_leaf_hashes sh = zero_leaves (Z.to_nat 1000) 6) (shards o)) as Hshards.
  { apply Forall_lookup. intros k sh Hk. destruct (Forall2_lookup_r _ _ _ _ _ Ha Hk) as (sample & Hsm & Hans).
    rewrite <- list_fmap_compose in Hsm. apply list_lookup_fmap_Some in Hsm as (k' & -> & _).
    by apply (plain_shard seed k' sh id). }
  assert (opening_typed o) as Htyped.
  { split; [rewrite Hl, asset_zlen; clear; unfold MIN_VDD_BLOB_BYTES; lia|]. split.
    - rewrite Hr, asset_matrix, (zero_roots_eq _ _ _ _ _ (asset_supported_6 id Hid)).
      apply Forall_replicate. apply zero_roots_typed.
    - eapply Forall_impl; [exact Hshards|]. intros sh (H1 & H2 & H3 & _ & H5). unfold shard_typed.
      rewrite H2, H3, H5. split; [exact H1|]. split; [constructor|]. split; [constructor|]. apply zero_leaves_ok. }
  exists {| ri_c_origin := id; ri_c_cipher := id; ri_c_key := blake3 asset_key; ri_aux_data := [1; 2];
    ri_key := asset_key; ri_shards := ss; ri_origin_opening := o; ri_cipher_opening := o |}.
  do 4 (split; [reflexivity|]). split; [|split].
  - split; [|split].
    + apply Forall_lookup. intros k si Hk. destruct (Forall2_lookup_r _ _ _ _ _ HF Hk) as (k' & _ & Hg & _).
      unfold shard_proof in Hg. cbn [global_index] in Hg. rewrite Hg. pose proof (challenge_range seed k') as Hc.
      clear -Hc. lia.
    + exact Htyped.
    + exact Htyped.
  - unfold sale_msgs. cbn [ri_origin_opening ri_cipher_opening]. intros x Hx. unfold asset_commitment.
    rewrite <- asset_zlen, length_replicate.
    assert (x ∈ matrix_msgs (Z.to_nat 1000) (blob_matrix zero_asset) (zlen zero_asset) \/ x ∈ opening_msgs o) as [Hm|Hm]
      by (rewrite !elem_of_app in Hx; clear -Hx; tauto).
    + rewrite asset_matrix, length_replicate in Hm. exact (zero_matrix_msgs _ _ _ _ _ (asset_supported_6 id Hid) x Hm).
    + apply (zero_opening_msgs _ _ _ _ _ (asset_supported_6 id Hid) o x); [| | |exact Hm].
      * rewrite Hr, asset_matrix. exact (zero_roots_eq _ _ _ _ _ (asset_supported_6 id Hid)).
      * rewrite Hl. rewrite length_replicate. reflexivity.
      * eapply Forall_impl; [exact Hshards|]. intros sh (_ & H2 & H3 & H4 & H5).
        exact (conj H2 (conj H3 (conj H4 H5))).
  - apply (host_run_accepted zero_asset asset_key [1; 2] id id); try assumption; [exact asset_bytes|exact zero_codec|].
    split; cbn [ri_c_origin ri_c_cipher ri_c_key ri_key ri_aux_data ri_shards ri_origin_opening ri_cipher_opening].
    + fold nonce. by rewrite asset_sealed.
    + repeat (split; [reflexivity|]). reflexivity.
    + exact HF.
    + intros data o' Ho'. assert (data = zero_asset /\ o' = o) as [-> ->].
      { fold nonce in Ho'. rewrite asset_sealed in Ho'.
        apply elem_of_cons in Ho' as [Hp|Hp%list_elem_of_singleton]; apply pair_eq in Hp; exact Hp. }
      split; [exact Hn|]. split; [exact Hl|]. split; [exact Hv|].
      split; [rewrite <- (Forall2_length _ _ _ Ha), !length_fmap, length_seq; reflexivity|].
      intros k Hk. apply (built_column zero_asset seed o k Hsp Hs); [|exact Hk].
      exact (plain_columns _ _ (answers_column _ _ _ _ Ha)).
    + exact (conj Ho Ho).
Qed.

Lemma asset_commitment_free : collision_free (fun x => x ∈ asset_commitment).
Proof. apply collision_free_list_ok. vm_compute. reflexivity. Qed.

Lemma rslhve_guest_sound_witness : exists i out err,
  main i = Ok out /\ err = blob_error asset_key (derive_rslh_nonce asset_key [1; 2]) zero_asset zero_asset
    (challenge (challenge_seed (ri_c_origin i) (ri_c_cipher i) (blake3 (ri_key i))) 14 `mod` ROW_WIDTH_PRIMARY) /\
  xsum weight (err 5%nat) rows = 0.
Proof.
  destruct asset_id as [id Hid]. destruct (plain_run id Hid) as (i & Ho & Hc & Hk & Ha & Ht & HQ & Hacc).
  pose proof (proj2 (main_Ok i _) (conj eq_refl (ex_intro _ _ Hacc))) as Hm.
  assert (zlen zero_asset < 2 ^ 63) as Hlen by (rewrite asset_zlen; unfold MIN_VDD_BLOB_BYTES; clear; lia).
  destruct (rslhve_guest_sound i _ zero_asset zero_asset Hlen Hlen asset_bytes asset_bytes zero_codec
    (eq_trans Hid (f_equal Ok (eq_sym Ho))) (eq_trans Hid (f_equal Ok (eq_sym Hc))) Ht
    (collision_free_weaken _ _ HQ asset_commitment_free) Hm) as (_ & _ & _ & Hs).
  rewrite <- Hk, <- Ha. do 3 eexists. split; [exact Hm|]. split; [reflexivity|].
  refine (proj1 (Hs 14%nat _ 5%nat _)); [apply Nat.ltb_lt; reflexivity|].
  rewrite asset_size. apply Nat.ltb_lt. reflexivity.
Defined.
End ZeroAsset.
