(* ===== verification/Archive.v ===== *)
(** What the archives of the sampling guests share
    ([guest/{cluster,flow-graph}-sampling]): big-endian fields, directories cut
    into entries, readers of byte ranges, and the digest of a sample's CID. *)
From S2P Require Import Prelude Crypto Cid Multiproof.

(** Slicing that panics out of range, and the big-endian fields. *)
Definition slice (data : bytes) (offset len : Z) : guest bytes :=
  expect (get_range data offset len) "range end index out of range".
Definition read_u64 (data : bytes) (offset : Z) : guest Z := b ← slice data offset 8; Ok (be_val b).
Definition read_u32 (data : bytes) (offset : Z) : guest Z := b ← slice data offset 4; Ok (be_val b).

Section SampleCid.
Context `{HC : Crypto} `{X : CidApi}.

(** [cid[cid.len() - 32..]] of the CID of the sample. *)
Definition sample_cid_digest (sample : bytes) : guest bytes :=
  cid ← unwrap (compute_ipfs_cid_zk_optimized sample) "compute_ipfs_cid_zk_optimized";
  from ← expect (to_u64 (zlen cid - 32)) "attempt to subtract with overflow";
  expect (get_from cid from) "range start index out of range".
Lemma sample_cid_digest_Ok sample digest : sample_cid_digest sample = Ok digest ->
  exists cid, compute_ipfs_cid_zk_optimized sample = Ok cid /\ get_from cid (zlen cid - 32) = Some digest.
Proof.
  intros H. unfold sample_cid_digest in H. apply bind_Ok_inv in H as (cid & Hcid%unwrap_Ok & H).
  apply bind_Ok_inv in H as (from & [-> _]%expect_Ok%to_u64_Some & H%expect_Ok). by exists cid.
Qed.
End SampleCid.

(** ** Readers and fields *)

(** The reader returns ranges of the data. *)
Definition reads (read : Z -> Z -> guest bytes) (data : bytes) : Prop :=
  forall off len r, 0 <= off -> 0 <= len -> read off len = Ok r -> get_range data off len = Some r.

(** The reader of the whole blob. *)
Definition reader_of (data : bytes) (off len : Z) : guest bytes := slice data off len.

Lemma slice_Ok data off len r : slice data off len = Ok r <-> get_range data off len = Some r.
Proof. apply expect_Ok. Qed.
Lemma field_Ok data off n v : is_bytes data ->
  (b ← slice data off (Z.of_nat n); Ok (be_val b)) = Ok v <->
  get_range data off (Z.of_nat n) = Some (be_bytes n v) /\ 0 <= v < 2 ^ (8 * Z.of_nat n).
Proof.
  intros Hd. rewrite bind_Ok_inv. split.
  - intros (b & Hb%slice_Ok & [= <-]). pose proof (get_range_Forall _ _ _ _ _ Hd Hb) as Hbb.
    pose proof (get_range_length _ _ _ _ Hb). split.
    + rewrite Hb. f_equal. replace n with (length b) by lia. by rewrite be_bytes_val.
    + replace (Z.of_nat n) with (zlen b) by lia. by apply be_val_range.
  - intros [Hb Hv]. exists (be_bytes n v). split; [by apply slice_Ok|]. f_equal. by apply be_val_bytes.
Qed.
Lemma read_u32_Ok data off v : is_bytes data ->
  read_u32 data off = Ok v <-> get_range data off 4 = Some (be_bytes 4 v) /\ 0 <= v < 2 ^ 32.
Proof. exact (field_Ok data off 4 v). Qed.
Lemma read_u64_Ok data off v : is_bytes data ->
  read_u64 data off = Ok v <-> get_range data off 8 = Some (be_bytes 8 v) /\ 0 <= v < 2 ^ 64.
Proof. exact (field_Ok data off 8 v). Qed.
(** A blob as its header, its directory and the rest. *)
Lemma two_ranges {A} (data h d : list A) a b :
  get_range data 0 a = Some h -> get_range data a b = Some d -> data = h ++ d ++ drop (Z.to_nat (a + b)) data.
Proof.
  intros (_ & Ha & _ & ->)%get_range_Some (_ & Hb & _ & ->)%get_range_Some.
  change (Z.to_nat 0) with 0%nat. rewrite drop_0.
  rewrite <- (take_drop (Z.to_nat a) data) at 1. f_equal.
  rewrite <- (take_drop (Z.to_nat b) (drop (Z.to_nat a) data)) at 1. f_equal.
  rewrite drop_drop. f_equal. lia.
Qed.
(** The fields of a record, one after the other from an offset on. *)
Fixpoint fields_at (l : bytes) (off : Z) (fs : list bytes) : Prop :=
  match fs with
  | [] => True
  | f :: fs => get_range l off (zlen f) = Some f /\ fields_at l (off + zlen f) fs
  end.
Lemma fields_at_concat l off fs :
  fields_at l off fs -> 0 <= off -> off + zlen (concat fs) = zlen l -> drop (Z.to_nat off) l = concat fs.
Proof.
  revert off. induction fs as [|f fs IH]; intros off Hfs Hoff Hl; cbn in *.
  - apply drop_ge. lia.
  - destruct Hfs as [Hf Hfs]. rewrite length_app in Hl. rewrite <- (IH (off + zlen f) Hfs) by lia.
    apply get_range_Some in Hf as (_ & _ & _ & Hf). rewrite Nat2Z.id in Hf.
    replace (Z.to_nat (off + zlen f)) with (Z.to_nat off + length f)%nat by lia. rewrite <- drop_drop.
    rewrite Hf at 1. by rewrite take_drop.
Qed.
(** Fields that fill a record. *)
Lemma fields_fill l fs : fields_at l 0 fs -> zlen (concat fs) = zlen l -> l = concat fs.
Proof. intros Hfs Hl. by apply (fields_at_concat l 0 fs Hfs). Qed.
Lemma four_fields (l a b c d : bytes) x y z w :
  get_range l 0 x = Some a -> get_range l x y = Some b -> get_range l (x + y) z = Some c ->
  get_range l (x + y + z) w = Some d -> zlen l = x + y + z + w -> l = a ++ b ++ c ++ d.
Proof.
  intros Ha Hb Hc Hd Hl. pose proof (get_range_length _ _ _ _ Ha). pose proof (get_range_length _ _ _ _ Hb).
  pose proof (get_range_length _ _ _ _ Hc). pose proof (get_range_length _ _ _ _ Hd). subst x y z w.
  rewrite (fields_fill l [a; b; c; d]); cbn [concat]; [by rewrite app_nil_r|by split_and!|].
  rewrite !length_app. cbn. lia.
Qed.
Lemma concat_fields_at pre fs post : fields_at (pre ++ concat fs ++ post) (zlen pre) fs.
Proof.
  revert pre. induction fs as [|f fs IH]; intros pre; cbn [fields_at concat]; [done|].
  rewrite <- app_assoc. split; [by apply get_range_app|].
  specialize (IH (pre ++ f)). by rewrite <- app_assoc, length_app, Nat2Z.inj_add in IH.
Qed.
Lemma fields_of_concat fs : fields_at (concat fs) 0 fs.
Proof. pose proof (concat_fields_at [] fs []) as H. by rewrite app_nil_r in H. Qed.

(** A directory of [k] entries of [n] bytes, cut into entries. *)
Lemma directory_chunks n k (dir : bytes) : (0 < n)%nat -> is_bytes dir -> length dir = (k * n)%nat ->
  chunks_exact n dir = chunks n dir /\ Forall is_bytes (chunks n dir) /\
  Forall (fun c => zlen c = Z.of_nat n) (chunks n dir).
Proof.
  intros Hn Hb Hl. destruct (chunks_exact_full n k dir Hn Hl) as [-> Hcl]. split; [done|]. split.
  - rewrite <- (concat_chunks n dir) in Hb by done. by apply Forall_concat in Hb.
  - eapply Forall_impl; [exact Hcl|]. by intros c ->.
Qed.
