(* ===== verification/ClusterGuest.v ===== *)
(** The cluster sampling programs
    ([guest/cluster-sampling/{lib,program,script}]): the archive of wallet
    clusters that the host writes, the guest that reads its directory and three
    of its records through authenticated symbols, and the values it commits.

    The guest's functions take the reader of byte ranges as an argument, so that
    a run over an opening is compared with a run over the blob itself.  The
    ABI encoding of the committed values ([alloy]) is not modelled. *)
From S2P Require Import Prelude Crypto Rslh Cid WalrusMerkle WalrusConfig Multiproof SymbolReader HostOpening DatasetSampling Archive.
From stdpp Require Import sorting.
#[local] Open Scope Z_scope.

(** ** The library crate *)

Definition SAMPLE_CLUSTER_COUNT : Z := 3.
Definition CLUSTER_ID_LEN : Z := 28.
Definition ARCHIVE_MAGIC : bytes := ascii_bytes "TDCLUS01".
Definition ARCHIVE_HEADER_LEN : Z := 24.
Definition ARCHIVE_ENTRY_LEN : Z := 48.

Record ClusterSamplingPublicValues := {
  originBlobId : bytes;
  samplingSeed : bytes;
  clusterId0 : bytes;
  clusterId1 : bytes;
  clusterId2 : bytes;
  sampleCidDigest : bytes;
}.
Record ClusterEntry := {
  ce_cluster_id : bytes;
  ce_offset : Z;
  ce_len : Z;
}.
Record SourceCluster := {
  sc_cluster_id : bytes;
  sc_bytes : bytes;
}.

(** [a < b] on byte arrays: lexicographic. *)
Fixpoint bytes_ltb (a b : bytes) : bool :=
  match a, b with
  | [], _ :: _ => true
  | x :: a, y :: b => (x <? y) || ((x =? y) && bytes_ltb a b)
  | _, [] => false
  end.

(** [data.windows(n)] *)
Definition windows (n : nat) (data : bytes) : list bytes :=
  (fun i => take n (drop i data)) <$> seq 0 (length data + 1 - n).

(** ** The guest *)

Definition is_hex_digit (byte : Z) : bool :=
  ((48 <=? byte) && (byte <=? 57)) || ((97 <=? byte) && (byte <=? 102)).
Definition validate_cluster_id (cluster_id : bytes) : guest unit :=
  assert (bool_decide (take 4 cluster_id = ascii_bytes "wcl_")) "invalid cluster ID prefix" ;;
  assert (forallb is_hex_digit (drop 4 cluster_id)) "invalid cluster ID".

(** One round of the loop over the directory entries. *)
Definition directory_entry (st : list ClusterEntry * Z) (chunk : bytes)
    : guest (list ClusterEntry * Z) :=
  let '(entries, expected_offset) := st in
  cluster_id ← slice chunk 0 CLUSTER_ID_LEN;
  reserved ← read_u32 chunk 28;
  assert (reserved =? 0) "cluster entry reserved field changed" ;;
  validate_cluster_id cluster_id ;;
  offset ← read_u64 chunk 32;
  len ← read_u64 chunk 40;
  assert (offset =? expected_offset) "non-contiguous cluster payload" ;;
  assert (0 <? len) "empty cluster payload" ;;
  expected_offset ← expect (to_u64 (expected_offset + len)) "cluster payload length overflow";
  assert (match last entries with
          | Some previous => bytes_ltb (ce_cluster_id previous) cluster_id
          | None => true
          end) "cluster IDs not canonical" ;;
  Ok (entries ++ [{| ce_cluster_id := cluster_id; ce_offset := offset; ce_len := len |}],
      expected_offset).

Definition read_authenticated_directory (read : Z -> Z -> guest bytes) (unencoded_length : Z)
    : guest (list ClusterEntry * Z) :=
  header ← read 0 ARCHIVE_HEADER_LEN;
  magic ← slice header 0 8;
  assert (bool_decide (magic = ARCHIVE_MAGIC)) "invalid cluster archive magic" ;;
  entry_count ← read_u64 header 8;
  reserved ← read_u64 header 16;
  assert (reserved =? 0) "cluster archive reserved field changed" ;;
  assert (SAMPLE_CLUSTER_COUNT <=? entry_count) "cluster catalog is too small" ;;
  directory_len ← expect (to_u64 (entry_count * ARCHIVE_ENTRY_LEN)) "cluster directory length overflow";
  directory_end ← expect (to_u64 (ARCHIVE_HEADER_LEN + directory_len)) "cluster directory end overflow";
  data ← read ARCHIVE_HEADER_LEN directory_len;
  '(entries, expected_offset) ← ofold directory_entry ([], directory_end)
    (chunks_exact (Z.to_nat ARCHIVE_ENTRY_LEN) data);
  assert (expected_offset =? unencoded_length) "archive length mismatch" ;;
  Ok (entries, directory_end).

Definition FIELD : bytes := [34] ++ ascii_bytes "wallet_cluster_id" ++ [34; 58; 34].
Definition validate_cluster_record (record expected_cluster_id : bytes) : guest unit :=
  assert (bool_decide (head record = Some 123)) "cluster record must be a JSON object" ;;
  assert (bool_decide (last record = Some 125)) "cluster record must end at object boundary" ;;
  field_offset ← expect (fst <$> list_find (fun window => window = FIELD) (windows (length FIELD) record))
    "cluster record missing wallet_cluster_id";
  let value_offset := Z.of_nat field_offset + zlen FIELD in
  let value_end := value_offset + CLUSTER_ID_LEN in
  assert (value_end <? zlen record) "truncated wallet_cluster_id" ;;
  value ← slice record value_offset CLUSTER_ID_LEN;
  assert (bool_decide (value = expected_cluster_id)) "cluster directory ID does not match record" ;;
  quote ← expect (get_at record value_end) "index out of bounds";
  assert (quote =? 34) "wallet_cluster_id has wrong length" ;;
  rest ← expect (get_from record (value_end + 1)) "range start index out of range";
  assert (forallb (fun window => negb (bool_decide (window = FIELD))) (windows (length FIELD) rest))
    "duplicate wallet_cluster_id field".

Definition public_cluster_id (cluster_id : bytes) : bytes := cluster_id ++ replicate 4 0.

(** Marking the ranges of the selected records. *)
Definition mark_entry (entries : list ClusterEntry) (symbol_size : Z) (required : selection) (index : Z)
    : guest selection :=
  entry ← expect (get_at entries index) "index out of bounds";
  mark_range required (ce_offset entry) (ce_len entry) symbol_size.

Section Guest.
Context `{HC : Crypto} `{X : CidApi}.

(** One record of the sample. *)
Definition append_record (read : Z -> Z -> guest bytes) (entries : list ClusterEntry) (sample : bytes)
    (ordinal_index : nat * Z) : guest bytes :=
  let '(ordinal, index) := ordinal_index in
  let sample := if (0 <? ordinal)%nat then sample ++ [44] else sample in
  entry ← expect (get_at entries index) "index out of bounds";
  record ← read (ce_offset entry) (ce_len entry);
  validate_cluster_record record (ce_cluster_id entry) ;;
  Ok (sample ++ record).

(** The program after the check of the opening; [select] checks the opened
    symbols against the selection. *)
Definition sample_clusters (fuel : nat) (read : Z -> Z -> guest bytes) (select : selection -> guest unit)
    (blob_id : bytes) (unencoded_length : Z) (sampling_seed : bytes)
    : guest ClusterSamplingPublicValues :=
  '(entries, directory_end) ← read_authenticated_directory read unencoded_length;
  selected_indices ← unwrap (Cluster.derive_cluster_indices fuel sampling_seed (zlen entries) [0; 0; 0])
    "invalid cluster catalog";
  let symbol_size := walrus_symbol_size unencoded_length in
  required ← mark_range ∅ 0 directory_end symbol_size;
  required ← ofold (mark_entry entries symbol_size) required selected_indices;
  select required ;;
  sample ← ofold (append_record read entries) [91] (imap pair selected_indices);
  let sample := sample ++ [93; 10] in
  digest ← sample_cid_digest sample;
  ids ← omapM (fun index => entry ← expect (get_at entries index) "index out of bounds";
                            Ok (public_cluster_id (ce_cluster_id entry))) selected_indices;
  id0 ← expect (get_at ids 0) "index out of bounds";
  id1 ← expect (get_at ids 1) "index out of bounds";
  id2 ← expect (get_at ids 2) "index out of bounds";
  Ok {| originBlobId := blob_id; samplingSeed := sampling_seed; clusterId0 := id0; clusterId1 := id1;
        clusterId2 := id2; sampleCidDigest := digest |}.

(** The whole program; the committed values are its result. *)
Definition main (fuel : nat) (origin : WalrusOpening) (sampling_seed : bytes)
    : guest ClusterSamplingPublicValues :=
  verify_walrus_opening origin ;;
  sample_clusters fuel (read_origin_range origin) (assert_exact_symbol_selection origin)
    (wo_blob_id origin) (wo_unencoded_length origin) sampling_seed.
End Guest.

(** ** The host *)

(** The loop of [build_archive] over the directory. *)
Definition archive_entry (st : bytes * Z) (cluster : SourceCluster) : bytes * Z :=
  let '(archive, offset) := st in
  (archive ++ sc_cluster_id cluster ++ be_bytes 4 0 ++ be_bytes 8 offset
     ++ be_bytes 8 (zlen (sc_bytes cluster)),
   offset + zlen (sc_bytes cluster)).
Definition build_archive (clusters : list SourceCluster) : bytes :=
  let directory_end := ARCHIVE_HEADER_LEN + ARCHIVE_ENTRY_LEN * zlen clusters in
  let archive := ARCHIVE_MAGIC ++ be_bytes 8 (zlen clusters) ++ be_bytes 8 0 in
  let '(archive, _) := foldl archive_entry (archive, directory_end) clusters in
  foldl (fun archive cluster => archive ++ sc_bytes cluster) archive clusters.

Definition cluster_offsets (clusters : list SourceCluster) (directory_end : Z) : list Z :=
  (foldl (fun '(offsets, offset) cluster => (offsets ++ [offset], offset + zlen (sc_bytes cluster)))
     ([], directory_end) clusters).1.

Definition append_cluster (clusters : list SourceCluster) (sample : bytes) (ordinal_index : nat * Z)
    : guest bytes :=
  let '(ordinal, index) := ordinal_index in
  let sample := if (0 <? ordinal)%nat then sample ++ [44] else sample in
  cluster ← expect (get_at clusters index) "index out of bounds";
  Ok (sample ++ sc_bytes cluster).
Definition build_sample (clusters : list SourceCluster) (selected : list Z) : guest bytes :=
  sample ← ofold (append_cluster clusters) [91] (imap pair selected);
  Ok (sample ++ [93; 10]).

(** What [read_source_clusters] asserts of the clusters it returns. *)
Definition valid_cluster_id (id : bytes) : bool :=
  (zlen id =? CLUSTER_ID_LEN) && bool_decide (take 4 id = ascii_bytes "wcl_")
  && forallb is_hex_digit (drop 4 id).

(** ** The archive format *)

(** A directory entry as bytes, and the directory of clusters laid out from
    [offset]. *)
Definition entry_bytes (e : ClusterEntry) : bytes :=
  ce_cluster_id e ++ be_bytes 4 0 ++ be_bytes 8 (ce_offset e) ++ be_bytes 8 (ce_len e).
Fixpoint entries_at (offset : Z) (clusters : list SourceCluster) : list ClusterEntry :=
  match clusters with
  | [] => []
  | c :: clusters =>
      {| ce_cluster_id := sc_cluster_id c; ce_offset := offset; ce_len := zlen (sc_bytes c) |}
        :: entries_at (offset + zlen (sc_bytes c)) clusters
  end.
Definition directory_end_of (n : Z) : Z := ARCHIVE_HEADER_LEN + ARCHIVE_ENTRY_LEN * n.

Lemma archive_entries_fold clusters archive offset :
  foldl archive_entry (archive, offset) clusters =
  (archive ++ concat (entry_bytes <$> entries_at offset clusters),
   offset + zlen (concat (sc_bytes <$> clusters))).
Proof.
  revert archive offset. induction clusters as [|c cs IH]; intros archive offset; cbn [foldl entries_at].
  - cbn. rewrite app_nil_r. f_equal. lia.
  - unfold archive_entry at 2. rewrite IH. cbn [fmap list_fmap concat]. rewrite length_app.
    f_equal; [|lia]. unfold entry_bytes. cbn. by rewrite <- !app_assoc.
Qed.
Lemma append_payloads clusters archive :
  foldl (fun archive cluster => archive ++ sc_bytes cluster) archive clusters
    = archive ++ concat (sc_bytes <$> clusters).
Proof.
  revert archive. induction clusters as [|c cs IH]; intros archive; cbn; [by rewrite app_nil_r|].
  by rewrite IH, <- app_assoc.
Qed.
(** An archive: header, directory, payloads. *)
Lemma build_archive_eq clusters :
  build_archive clusters =
  (ARCHIVE_MAGIC ++ be_bytes 8 (zlen clusters) ++ be_bytes 8 0)
    ++ concat (entry_bytes <$> entries_at (directory_end_of (zlen clusters)) clusters)
    ++ concat (sc_bytes <$> clusters).
Proof.
  unfold build_archive. rewrite archive_entries_fold, append_payloads. by rewrite <- app_assoc.
Qed.

Lemma entries_at_length off cs : length (entries_at off cs) = length cs.
Proof. revert off. induction cs as [|c cs IH]; intros off; cbn; [done|]. by rewrite IH. Qed.
Lemma entries_at_lookup off cs i c : cs !! i = Some c ->
  exists o, entries_at off cs !! i
      = Some {| ce_cluster_id := sc_cluster_id c; ce_offset := o; ce_len := zlen (sc_bytes c) |} /\
    o = off + zlen (concat (sc_bytes <$> take i cs)).
Proof.
  revert off i. induction cs as [|c' cs IH]; intros off [|i] Hi; cbn in *; try done.
  - injection Hi as ->. eexists. split; [done|]. lia.
  - destruct (IH (off + zlen (sc_bytes c')) i Hi) as (o & Ho & ->). exists (off + zlen (sc_bytes c') + zlen (concat (sc_bytes <$> take i cs))).
    split; [done|]. rewrite length_app. lia.
Qed.

(** ** Reading a directory *)

(** Identifiers in ascending order, after [prev] if there is one. *)
Fixpoint ascending (prev : option bytes) (ids : list bytes) : Prop :=
  match ids with
  | [] => True
  | id :: ids => (forall p, prev = Some p -> bytes_ltb p id = true) /\ ascending (Some id) ids
  end.
(** Entries that follow one another from [off] to [end_]. *)
Fixpoint contiguous (off : Z) (es : list ClusterEntry) (end_ : Z) : Prop :=
  match es with
  | [] => off = end_
  | e :: es => ce_offset e = off /\ 0 < ce_len e /\ off + ce_len e < 2 ^ 64 /\
      valid_cluster_id (ce_cluster_id e) = true /\ contiguous (off + ce_len e) es end_
  end.

(** One directory entry, both ways. *)
Lemma directory_entry_Ok entries exp chunk entries' exp' :
  is_bytes chunk -> zlen chunk = ARCHIVE_ENTRY_LEN -> 0 <= exp < 2 ^ 64 ->
  directory_entry (entries, exp) chunk = Ok (entries', exp') <->
  exists e, chunk = entry_bytes e /\ entries' = entries ++ [e] /\ exp' = exp + ce_len e /\
    contiguous exp [e] exp' /\ ascending (ce_cluster_id <$> last entries) [ce_cluster_id e].
Proof.
  intros Hb Hl Hexp. unfold ARCHIVE_ENTRY_LEN in Hl. split.
  - intros H. unfold directory_entry in H.
    apply bind_Ok_inv in H as (id & Hid%slice_Ok & H). apply bind_Ok_inv in H as (res & Hres & H).
    apply bind_Ok_inv in H as ([] & H0%assert_Ok & H). apply bind_Ok_inv in H as ([] & Hval & H).
    apply bind_Ok_inv in H as (off & Hoff & H). apply bind_Ok_inv in H as (len & Hlen & H).
    apply bind_Ok_inv in H as ([] & H1%assert_Ok & H). apply bind_Ok_inv in H as ([] & H2%assert_Ok & H).
    apply bind_Ok_inv in H as (e' & [-> He]%expect_Ok%to_u64_Some & H).
    apply bind_Ok_inv in H as ([] & H3%assert_Ok & [= <- <-]). bool_hyps. subst res off.
    apply read_u32_Ok in Hres as [Hres _]; [|done].
    apply read_u64_Ok in Hoff as [Hoff _]; [|done].
    apply read_u64_Ok in Hlen as [Hlen _]; [|done].
    unfold validate_cluster_id in Hval. apply bind_Ok_inv in Hval as ([] & Hv1%assert_Ok & Hv2%assert_Ok).
    exists {| ce_cluster_id := id; ce_offset := exp; ce_len := len |}.
    split; [by eapply (four_fields chunk _ _ _ _ 28 4 8 8)|]. split; [done|]. split; [done|]. cbn. split.
    + split_and!; try done; [lia|]. unfold valid_cluster_id. rewrite Hv1, Hv2, andb_true_r, andb_true_r.
      apply Z.eqb_eq. by apply get_range_length in Hid.
    + split; [|done]. destruct (last entries); cbn; [|done]. by intros p [= <-].
  - intros (e & -> & -> & -> & (Heo & Hel & Hov & Hval & _) & (Hasc & _)). unfold directory_entry.
    unfold valid_cluster_id in Hval. apply andb_true_iff in Hval as [Hval Hhex].
    apply andb_true_iff in Hval as [Hidl%Z.eqb_eq Hpre]. unfold entry_bytes in *. unfold CLUSTER_ID_LEN in *.
    set (id := ce_cluster_id e) in *.
    pose proof (be_bytes_length 4 0) as L4. pose proof (be_bytes_length 8 (ce_offset e)) as L8.
    pose proof (be_bytes_length 8 (ce_len e)) as L8'.
    assert (get_range (id ++ be_bytes 4 0 ++ be_bytes 8 (ce_offset e) ++ be_bytes 8 (ce_len e)) 0 28 = Some id)
      as Hg1 by (apply (get_range_app []); [done|lia]).
    rewrite (proj2 (slice_Ok _ _ _ _) Hg1). cbn [mbind outcome_bind].
    rewrite (proj2 (read_u32_Ok _ 28 0 Hb)) by (split; [apply get_range_app; lia|lia]).
    cbn [mbind outcome_bind Z.eqb assert]. unfold validate_cluster_id. fold id. rewrite Hpre, Hhex.
    cbn [mbind outcome_bind assert].
    rewrite (proj2 (read_u64_Ok _ 32 (ce_offset e) Hb)); cycle 1.
    { split; [|rewrite Heo; lia]. rewrite app_assoc. apply get_range_app; [|lia]. rewrite length_app. lia. }
    cbn [mbind outcome_bind].
    rewrite (proj2 (read_u64_Ok _ 40 (ce_len e) Hb)); cycle 1.
    { split; [|lia]. rewrite !app_assoc, <- (app_nil_r (_ ++ be_bytes 8 (ce_len e))), <- app_assoc.
      apply get_range_app; [|lia]. rewrite !length_app. lia. }
    cbn [mbind outcome_bind]. rewrite Heo, Z.eqb_refl, (proj2 (Z.ltb_lt _ _)) by lia.
    cbn [assert mbind outcome_bind]. rewrite to_u64_ok by lia. cbn [expect mbind outcome_bind].
    assert (match last entries with
            | Some previous => bytes_ltb (ce_cluster_id previous) id
            | None => true
            end = true) as ->.
    { destruct (last entries) as [p|]; cbn in *; [by apply Hasc|done]. }
    cbn. repeat f_equal. destruct e; cbn in *. by subst.
Qed.

Lemma directory_loop cs es0 off es off' : Forall is_bytes cs -> Forall (fun c => zlen c = ARCHIVE_ENTRY_LEN) cs ->
  0 <= off < 2 ^ 64 ->
  ofold directory_entry (es0, off) cs = Ok (es, off') <->
  exists nes, es = es0 ++ nes /\ cs = entry_bytes <$> nes /\ contiguous off nes off' /\
    ascending (ce_cluster_id <$> last es0) (ce_cluster_id <$> nes).
Proof.
  intros Hb Hl. revert es0 off. induction Hb as [|c cs Hc Hb IH]; intros es0 off Hoff; cbn [ofold].
  - split.
    + intros [= <- <-]. exists []. by rewrite app_nil_r.
    + intros (nes & -> & Heq & Hcont & _). destruct nes; [|done]. cbn in Hcont. subst. by rewrite app_nil_r.
  - apply Forall_cons in Hl as [Hcl Hl]. specialize (IH Hl). rewrite bind_Ok_inv. split.
    + intros ([es1 off1] & Hstep & H).
      apply directory_entry_Ok in Hstep as (e & -> & -> & -> & Hcont & Hasc); [|done..].
      cbn in Hcont. destruct Hcont as (H1 & H2 & H3 & H4 & _).
      apply IH in H as (nes & -> & -> & Hcn & Han); [|lia].
      exists (e :: nes). rewrite <- app_assoc. split; [done|]. split; [done|]. split; [by cbn|].
      cbn. rewrite last_snoc in Han. destruct Hasc as [Hasc _]. by split.
    + intros (nes & -> & Heq & Hcont & Hasc). destruct nes as [|e nes]; [done|].
      injection Heq as -> ->. cbn in Hcont. destruct Hcont as (H1 & H2 & H3 & H4 & H5).
      destruct Hasc as [Hasc Hascs]. exists (es0 ++ [e], off + ce_len e). split.
      * apply directory_entry_Ok; [done..|]. exists e. by cbn.
      * apply IH; [lia|]. exists nes. rewrite <- app_assoc, last_snoc. done.
Qed.

Lemma entry_bytes_length e : valid_cluster_id (ce_cluster_id e) = true -> length (entry_bytes e) = 48%nat.
Proof.
  unfold valid_cluster_id, CLUSTER_ID_LEN. intros H. bool_hyps. unfold entry_bytes.
  rewrite !length_app, !be_bytes_length. lia.
Qed.
Lemma contiguous_valid off es off' : contiguous off es off' ->
  Forall (fun e => valid_cluster_id (ce_cluster_id e) = true) es /\ off <= off'.
Proof.
  revert off. induction es as [|e es IH]; intros off H; cbn in H; [by subst|].
  destruct H as (_ & Hl & _ & Hv & H). apply IH in H as [Hall Hle]. split; [by constructor|lia].
Qed.

Lemma entries_bytes_length es : Forall (fun e => valid_cluster_id (ce_cluster_id e) = true) es ->
  length (concat (entry_bytes <$> es)) = (48 * length es)%nat.
Proof.
  induction 1 as [|e es He _ IH]; [done|]. cbn [fmap list_fmap concat length].
  rewrite length_app, entry_bytes_length, IH by done. lia.
Qed.

(** The clusters that entries describe in the data. *)
Definition cluster_of (data : bytes) (e : ClusterEntry) : SourceCluster :=
  {| sc_cluster_id := ce_cluster_id e;
     sc_bytes := take (Z.to_nat (ce_len e)) (drop (Z.to_nat (ce_offset e)) data) |}.
Lemma clusters_of_entries data off es : 0 <= off -> contiguous off es (zlen data) ->
  entries_at off (cluster_of data <$> es) = es /\
  concat (sc_bytes <$> (cluster_of data <$> es)) = drop (Z.to_nat off) data.
Proof.
  revert off. induction es as [|e es IH]; intros off Hoff H; cbn in H.
  - split; [done|]. cbn. rewrite drop_ge by lia. done.
  - destruct H as (Ho & Hl & Hov & _ & H). pose proof (contiguous_valid _ _ _ H) as [_ Hle].
    destruct (IH (off + ce_len e) ltac:(lia) H) as [He Hc]. cbn [fmap list_fmap entries_at concat].
    assert (zlen (sc_bytes (cluster_of data e)) = ce_len e) as Hz.
    { cbn. rewrite length_take, length_drop. lia. }
    rewrite Hz. split.
    + f_equal; [|exact He]. destruct e; cbn in *. by subst.
    + transitivity (sc_bytes (cluster_of data e) ++ drop (Z.to_nat (off + ce_len e)) data); [by f_equal|].
      cbn. rewrite Ho. replace (Z.to_nat (off + ce_len e)) with (Z.to_nat off + Z.to_nat (ce_len e))%nat by lia.
      rewrite <- drop_drop. apply take_drop.
Qed.

(** What the host guarantees of the clusters, and what the guest's checks
    establish. *)
Record canonical (clusters : list SourceCluster) : Prop := {
  cn_count : SAMPLE_CLUSTER_COUNT <= zlen clusters;
  cn_ids : Forall (fun c => valid_cluster_id (sc_cluster_id c) = true) clusters;
  cn_nonempty : Forall (fun c => 0 < zlen (sc_bytes c)) clusters;
  cn_ascending : ascending None (sc_cluster_id <$> clusters);
  cn_length : zlen (build_archive clusters) < 2 ^ 64;
}.

Lemma header_fields (h : bytes) n : is_bytes h -> zlen h = 24 ->
  get_range h 0 8 = Some ARCHIVE_MAGIC -> get_range h 8 8 = Some (be_bytes 8 n) ->
  get_range h 16 8 = Some (be_bytes 8 0) -> h = ARCHIVE_MAGIC ++ be_bytes 8 n ++ be_bytes 8 0.
Proof.
  intros Hb Hl H1 H2 H3.
  assert (h = ARCHIVE_MAGIC ++ be_bytes 8 n ++ be_bytes 8 0 ++ []) as Heq; [|by rewrite app_nil_r in Heq].
  apply (four_fields h _ _ _ _ 8 8 8 0); try done.
  apply get_range_Some. rewrite Hl. split_and!; try lia. done.
Qed.

(** A directory that the guest accepts is the directory of a canonical archive,
    and the blob is that archive. *)
Lemma directory_sound read data entries end_ :
  is_bytes data -> zlen data < 2 ^ 64 -> reads read data ->
  read_authenticated_directory read (zlen data) = Ok (entries, end_) ->
  exists clusters, data = build_archive clusters /\ canonical clusters /\
    end_ = directory_end_of (zlen clusters) /\ entries = entries_at end_ clusters /\
    clusters = cluster_of data <$> entries.
Proof.
  intros Hb Hd Hread H. unfold read_authenticated_directory, ARCHIVE_HEADER_LEN in H.
  apply bind_Ok_inv in H as (h & Hh & H). apply Hread in Hh; [|lia..].
  pose proof (get_range_Forall _ _ _ _ _ Hb Hh) as Hhb. pose proof (get_range_length _ _ _ _ Hh) as Hhl.
  apply bind_Ok_inv in H as (mg & Hmg%slice_Ok & H). apply bind_Ok_inv in H as ([] & H0%assert_Ok & H).
  apply bind_Ok_inv in H as (n & Hn & H). apply bind_Ok_inv in H as (res & Hres & H).
  apply bind_Ok_inv in H as ([] & H1%assert_Ok & H). apply bind_Ok_inv in H as ([] & H2%assert_Ok & H).
  apply bind_Ok_inv in H as (dl & [-> Hdl]%expect_Ok%to_u64_Some & H).
  apply bind_Ok_inv in H as (de & [-> Hde]%expect_Ok%to_u64_Some & H).
  apply bind_Ok_inv in H as (dir & Hdir & H). apply bind_Ok_inv in H as ([es exp] & Hloop & H).
  apply bind_Ok_inv in H as ([] & H3%assert_Ok & [= <- <-]). bool_hyps. subst mg res exp.
  apply read_u64_Ok in Hn as [Hn Hn64]; [|done]. apply read_u64_Ok in Hres as [Hres _]; [|done].
  unfold ARCHIVE_ENTRY_LEN in *. apply Hread in Hdir; [|lia..].
  pose proof (get_range_Forall _ _ _ _ _ Hb Hdir) as Hdb. pose proof (get_range_length _ _ _ _ Hdir) as Hdl'.
  change (Z.to_nat 48) with 48%nat in Hloop.
  destruct (directory_chunks 48 (Z.to_nat n) dir ltac:(lia) Hdb ltac:(lia)) as (Hce & Hcb & Hcl).
  rewrite Hce in Hloop. apply directory_loop in Hloop as (nes & Hnes & Hcs & Hcont & Hasc); [|done|done|lia].
  cbn in Hnes. subst nes. cbn [last fmap option_fmap option_map] in Hasc.
  assert (zlen es = n) as Hlen.
  { assert (length es * 48 = length dir)%nat; [|lia].
    rewrite <- (concat_chunks 48 dir), Hcs, entries_bytes_length by (lia || by apply contiguous_valid in Hcont as [? _]).
    lia. }
  destruct (clusters_of_entries data (24 + n * 48) es ltac:(lia) Hcont) as [Hent Hpay].
  assert (data = build_archive (cluster_of data <$> es)) as Harch.
  { rewrite build_archive_eq, length_fmap, Hlen.
    replace (directory_end_of n) with (24 + n * 48)
      by (unfold directory_end_of, ARCHIVE_HEADER_LEN, ARCHIVE_ENTRY_LEN; lia).
    rewrite Hent, Hpay, <- Hcs, concat_chunks by lia.
    rewrite <- (header_fields h n Hhb Hhl Hmg Hn Hres).
    by apply two_ranges. }
  exists (cluster_of data <$> es).
  assert (24 + n * 48 = directory_end_of (zlen (cluster_of data <$> es))) as Hend.
  { rewrite length_fmap, Hlen. unfold directory_end_of, ARCHIVE_HEADER_LEN, ARCHIVE_ENTRY_LEN. lia. }
  split; [exact Harch|]. split; [|by split].
  split; [rewrite length_fmap; lia| | |by rewrite <- list_fmap_compose|by rewrite <- Harch].
  - apply Forall_fmap. by apply contiguous_valid in Hcont as [Hv _].
  - apply Forall_fmap. assert (0 <= 24 + n * 48) as Hpos by lia. clear -Hcont Hpos.
    revert Hcont Hpos. generalize (24 + n * 48).
    induction es as [|e es IH]; intros off Hcont Hpos; [constructor|]. cbn in Hcont.
    destruct Hcont as (Ho & Hl & _ & _ & Hcont). pose proof (contiguous_valid _ _ _ Hcont) as [_ Hle].
    constructor; [|apply (IH _ Hcont); lia]. cbn. rewrite length_take, length_drop. lia.
Qed.

Lemma contiguous_entries off cs : Forall (fun c => valid_cluster_id (sc_cluster_id c) = true) cs ->
  Forall (fun c => 0 < zlen (sc_bytes c)) cs -> off + zlen (concat (sc_bytes <$> cs)) < 2 ^ 64 ->
  contiguous off (entries_at off cs) (off + zlen (concat (sc_bytes <$> cs))).
Proof.
  intros Hv. revert off. induction Hv as [|c cs Hc Hv IH]; intros off Hn Hlt; cbn in *; [lia|].
  apply Forall_cons in Hn as [Hcn Hn]. rewrite length_app in *.
  specialize (IH (off + zlen (sc_bytes c)) Hn ltac:(lia)). split_and!; try done; [lia|].
  replace (off + Z.of_nat (length (sc_bytes c) + _)) with
    (off + zlen (sc_bytes c) + zlen (concat (sc_bytes <$> cs))) by lia. done.
Qed.
Lemma entries_at_ids off cs : ce_cluster_id <$> entries_at off cs = sc_cluster_id <$> cs.
Proof. revert off. induction cs as [|c cs IH]; intros off; cbn; [done|]. by rewrite IH. Qed.

Section Canonical.
Context (clusters : list SourceCluster) (Hcn : canonical clusters).
Context (Hb : is_bytes (build_archive clusters)).
Let data := build_archive clusters.
Let n := zlen clusters.
Let end_ := directory_end_of n.
Let es := entries_at end_ clusters.

Lemma archive_sizes : valid_cluster_id <$> (ce_cluster_id <$> es) = replicate (length clusters) true /\
  length (concat (entry_bytes <$> es)) = (48 * length clusters)%nat /\
  zlen data = end_ + zlen (concat (sc_bytes <$> clusters)) /\ end_ = 24 + 48 * n /\
  zlen (ARCHIVE_MAGIC ++ be_bytes 8 n ++ be_bytes 8 0) = 24.
Proof.
  destruct Hcn as [_ Hv _ _ _].
  assert (Forall (fun e => valid_cluster_id (ce_cluster_id e) = true) es) as Hes.
  { apply Forall_fmap with (f := ce_cluster_id) (P := fun i => valid_cluster_id i = true).
    unfold es. rewrite entries_at_ids. by apply Forall_fmap. }
  assert (length (concat (entry_bytes <$> es)) = (48 * length clusters)%nat) as Hl.
  { rewrite entries_bytes_length by done. unfold es. by rewrite entries_at_length. }
  assert (zlen (ARCHIVE_MAGIC ++ be_bytes 8 n ++ be_bytes 8 0) = 24) as Hh
    by (rewrite !length_app, !be_bytes_length; done).
  split.
  { unfold es. rewrite entries_at_ids. clear -Hv. induction Hv as [|c cs Hc _ IH]; [done|].
    cbn. by rewrite Hc, IH. }
  split; [done|]. split; [|by split].
  unfold data. rewrite build_archive_eq, !length_app. fold n. fold end_. fold es.
  rewrite Hl. unfold end_, directory_end_of, ARCHIVE_HEADER_LEN, ARCHIVE_ENTRY_LEN.
  rewrite !length_app in Hh. lia.
Qed.

(** Reading back the directory of a canonical archive. *)
Lemma directory_complete :
  read_authenticated_directory (reader_of data) (zlen data) = Ok (es, end_).
Proof.
  destruct archive_sizes as (_ & Hdl & Hdata & Hend & Hh). destruct Hcn as [Hc Hv Hne Hasc Hlen].
  fold data in Hlen. unfold SAMPLE_CLUSTER_COUNT in Hc. fold n in Hc.
  set (H := ARCHIVE_MAGIC ++ be_bytes 8 n ++ be_bytes 8 0) in *. set (D := concat (entry_bytes <$> es)) in *.
  set (P := concat (sc_bytes <$> clusters)) in *.
  assert (data = H ++ D ++ P) as Heq by (unfold data; by rewrite build_archive_eq).
  assert (is_bytes H /\ is_bytes D) as [HbH HbD].
  { fold data in Hb. rewrite Heq in Hb. apply Forall_app in Hb as [? [? _]%Forall_app]. done. }
  assert (get_range data 0 24 = Some H) as Hg1 by (rewrite Heq; apply (get_range_app []); [done|lia]).
  assert (get_range data 24 (n * 48) = Some D) as Hg2 by (rewrite Heq; apply get_range_app; lia).
  unfold read_authenticated_directory, ARCHIVE_HEADER_LEN, ARCHIVE_ENTRY_LEN, SAMPLE_CLUSTER_COUNT.
  assert (reader_of data 0 24 = Ok H) as -> by by apply slice_Ok. cbn [mbind outcome_bind].
  assert (get_range H 0 8 = Some ARCHIVE_MAGIC) as Hm by by apply (get_range_app []).
  rewrite (proj2 (slice_Ok _ _ _ _) Hm). cbn [mbind outcome_bind].
  rewrite bool_decide_eq_true_2 by done. cbn [assert mbind outcome_bind].
  assert (0 <= n < 2 ^ 64) as Hn64 by (unfold data in *; lia).
  assert (get_range H 8 8 = Some (be_bytes 8 n)) as Hf1
    by (apply get_range_app; [done|by rewrite be_bytes_length]).
  assert (get_range H 16 8 = Some (be_bytes 8 0)) as Hf2.
  { unfold H. rewrite app_assoc, <- (app_nil_r (_ ++ be_bytes 8 0)), <- app_assoc.
    apply get_range_app; rewrite ?length_app, be_bytes_length; done. }
  rewrite (proj2 (read_u64_Ok H 8 n HbH)) by done. cbn [mbind outcome_bind].
  rewrite (proj2 (read_u64_Ok H 16 0 HbH)) by (split; [exact Hf2|lia]).
  cbn [mbind outcome_bind Z.eqb assert]. rewrite (proj2 (Z.leb_le 3 n)) by done.
  cbn [assert mbind outcome_bind]. rewrite !to_u64_ok by lia. cbn [expect mbind outcome_bind].
  rewrite to_u64_ok by lia. cbn [expect mbind outcome_bind].
  assert (reader_of data 24 (n * 48) = Ok D) as -> by by apply slice_Ok. cbn [mbind outcome_bind].
  change (Z.to_nat 48) with 48%nat.
  destruct (directory_chunks 48 (length clusters) D ltac:(lia) HbD ltac:(lia)) as (-> & Hcb & Hcl).
  replace (24 + n * 48) with end_ by lia.
  assert (ofold directory_entry ([], end_) (chunks 48 D) = Ok (es, zlen data)) as ->.
  { apply directory_loop; [exact Hcb|exact Hcl| |].
    - lia.
    - exists es. split; [done|]. split.
      + unfold D. apply chunks_concat; [lia|]. apply Forall_fmap.
        assert (Forall (fun i => valid_cluster_id i = true) (ce_cluster_id <$> es)) as Hids
          by (unfold es; rewrite entries_at_ids; by apply Forall_fmap).
        apply Forall_fmap in Hids. eapply Forall_impl; [exact Hids|]. intros e. apply entry_bytes_length.
      + pose proof (contiguous_entries end_ clusters Hv Hne) as Hce. fold es P in Hce.
        rewrite Hdata. split; [apply Hce; lia|]. unfold es. by rewrite entries_at_ids. }
  cbn [mbind outcome_bind]. by rewrite Z.eqb_refl.
Qed.
End Canonical.


(** ** The archive and its reader *)

Lemma entries_at_nonneg off cs : 0 <= off ->
  Forall (fun e => 0 <= ce_offset e /\ 0 <= ce_len e) (entries_at off cs).
Proof.
  revert off. induction cs as [|c cs IH]; intros off Hoff; cbn; constructor; [cbn; lia|]. apply IH. lia.
Qed.
Lemma valid_cluster_id_bytes id : valid_cluster_id id = true -> is_bytes id.
Proof.
  unfold valid_cluster_id. intros H. bool_hyps. rewrite <- (take_drop 4 id). apply Forall_app. split.
  - match goal with H : take 4 id = _ |- _ => rewrite H end. by apply is_bytes_check.
  - eapply forallb_Forall; [|eassumption]. unfold is_hex_digit, is_byte. intros b Hb. bool_hyps.
    destruct Hb; bool_hyps; lia.
Qed.
Lemma build_archive_bytes clusters : Forall (fun c => valid_cluster_id (sc_cluster_id c) = true) clusters ->
  Forall (fun c => is_bytes (sc_bytes c)) clusters -> is_bytes (build_archive clusters).
Proof.
  intros Hv Hb. rewrite build_archive_eq, !Forall_app.
  split_and!; try apply be_bytes_bytes; [by apply is_bytes_check| |].
  - apply Forall_concat, Forall_fmap. generalize (directory_end_of (zlen clusters)).
    clear Hb. induction Hv as [|c cs Hc _ IH]; intros off; cbn [entries_at fmap list_fmap]; constructor; [|apply IH].
    unfold compose, entry_bytes. rewrite !Forall_app. split_and!; try apply be_bytes_bytes. by apply valid_cluster_id_bytes.
  - by apply Forall_concat, Forall_fmap.
Qed.
Lemma cluster_offsets_eq cs off : cluster_offsets cs off = ce_offset <$> entries_at off cs.
Proof.
  unfold cluster_offsets.
  enough (forall acc, (foldl (fun '(offsets, offset) cluster =>
      (offsets ++ [offset], offset + zlen (sc_bytes cluster))) (acc, off) cs).1
    = acc ++ (ce_offset <$> entries_at off cs)) as H by apply H.
  revert off. induction cs as [|c cs IH]; intros off acc; cbn; [by rewrite app_nil_r|].
  by rewrite IH, <- app_assoc.
Qed.
(** Every entry of an archive points at the bytes of its cluster. *)
Lemma archive_payload pre off cs : off = zlen pre ->
  Forall2 (fun e c => get_range (pre ++ concat (sc_bytes <$> cs)) (ce_offset e) (ce_len e) = Some (sc_bytes c))
    (entries_at off cs) cs.
Proof.
  revert pre off. induction cs as [|c cs IH]; intros pre off ->; cbn; constructor; cbn.
  - by apply get_range_app.
  - rewrite app_assoc. apply IH. rewrite length_app. lia.
Qed.

(** C27: The guest reads back what the host archives: the directory of a canonical
    archive is accepted, its entries have the clusters' identifiers in order at
    the offsets the host computes, and each entry's range is the cluster. *)
Theorem archive_roundtrip clusters :
  canonical clusters -> Forall (fun c => is_bytes (sc_bytes c)) clusters ->
  let data := build_archive clusters in
  let directory_end := directory_end_of (zlen clusters) in
  exists entries, read_authenticated_directory (reader_of data) (zlen data) = Ok (entries, directory_end) /\
    ce_cluster_id <$> entries = sc_cluster_id <$> clusters /\
    ce_offset <$> entries = cluster_offsets clusters directory_end /\
    Forall2 (fun e c => reader_of data (ce_offset e) (ce_len e) = Ok (sc_bytes c)) entries clusters.
Proof.
  intros Hcn Hb data directory_end. exists (entries_at directory_end clusters).
  pose proof (build_archive_bytes _ (cn_ids _ Hcn) Hb) as Hdb.
  split; [by apply directory_complete|]. split; [apply entries_at_ids|]. split; [by rewrite cluster_offsets_eq|].
  destruct (archive_sizes clusters Hcn) as (_ & Hd & _ & He & Hh).
  eapply Forall2_impl; [|intros e c; apply slice_Ok].
  unfold data. rewrite build_archive_eq, app_assoc. apply archive_payload.
  unfold directory_end. rewrite length_app. lia.
Qed.

(** ** What a run of the guest shows *)

Section Sound.
Context `{HC : Crypto} `{X : CidApi} {HL : CryptoLaws HC}.

(** Reading records from the blob is taking them from the archived clusters. *)
Lemma append_record_sound read data entries sample oi sample' :
  reads read data -> Forall (fun e => 0 <= ce_offset e /\ 0 <= ce_len e) entries ->
  append_record read entries sample oi = Ok sample' ->
  append_cluster (cluster_of data <$> entries) sample oi = Ok sample' /\
  exists c, get_at (cluster_of data <$> entries) oi.2 = Some c /\
    validate_cluster_record (sc_bytes c) (sc_cluster_id c) = Ok tt.
Proof.
  intros Hr Hnn. destruct oi as [o i]. unfold append_record, append_cluster. intros H.
  apply bind_Ok_inv in H as (e & [Hi He]%expect_Ok%get_at_Some & H).
  apply bind_Ok_inv in H as (rec & Hrec & H). apply bind_Ok_inv in H as ([] & Hval & [= <-]).
  assert (get_at (cluster_of data <$> entries) i = Some (cluster_of data e)) as Hg.
  { apply get_at_Some. rewrite length_fmap, list_lookup_fmap, He. done. }
  rewrite Forall_forall in Hnn. destruct (Hnn e) as [Ho Hl]; [by eapply list_elem_of_lookup_2|].
  apply Hr in Hrec; [|done..]. apply get_range_Some in Hrec as (_ & _ & _ & ->).
  rewrite Hg. cbn [expect mbind outcome_bind]. split; [done|]. by exists (cluster_of data e).
Qed.

(** C6: When the program succeeds on an opening of a blob, the blob is a canonical
    archive, the committed digest is that of the sample the host assembles from
    the clusters that the seed selects, each of which is a valid record, and the
    committed identifiers are theirs. *)
Theorem cluster_guest_sound fuel origin seed v data roots rows :
  opening_typed origin -> is_bytes data ->
  Committed (wo_blob_id origin) (zlen data) roots rows -> systematic data rows ->
  collision_free (fun m => m ∈ commitment_msgs (zlen data) roots rows origin ++ reader_msgs origin) ->
  main fuel origin seed = Ok v ->
  exists clusters selected sample cid,
    data = build_archive clusters /\ canonical clusters /\
    Cluster.derive_cluster_indices fuel seed (zlen clusters) [0; 0; 0] = Ok selected /\
    build_sample clusters selected = Ok sample /\
    compute_ipfs_cid_zk_optimized sample = Ok cid /\
    originBlobId v = wo_blob_id origin /\ samplingSeed v = seed /\
    get_from cid (zlen cid - 32) = Some (sampleCidDigest v) /\
    (forall i id, [clusterId0 v; clusterId1 v; clusterId2 v] !! i = Some id ->
       exists index c, selected !! i = Some index /\ get_at clusters index = Some c /\
         id = public_cluster_id (sc_cluster_id c) /\
         validate_cluster_record (sc_bytes c) (sc_cluster_id c) = Ok tt).
Proof.
  intros Ho Hb Hc Hsys HQ H. unfold main in H. apply bind_Ok_inv in H as ([] & Hv & H).
  destruct (opening_reads_source origin data roots rows Ho Hc Hsys HQ (or_introl Hv)) as (Hl & _ & Hr).
  destruct Hc as [Hd _ _ _].
  assert (reads (read_origin_range origin) data) as Hreads.
  { intros off len r Hoff Hlen. apply read_range_Ok; try done. lia. }
  unfold sample_clusters in H. rewrite Hl in H.
  apply bind_Ok_inv in H as ([entries directory_end] & Hdir & H).
  apply bind_Ok_inv in H as (selected & Hsel%unwrap_Ok & H).
  apply bind_Ok_inv in H as (req & _ & H). apply bind_Ok_inv in H as (req' & _ & H).
  apply bind_Ok_inv in H as ([] & _ & H). apply bind_Ok_inv in H as (sample & Hsample & H).
  apply bind_Ok_inv in H as (digest & Hdig & H). apply bind_Ok_inv in H as (ids & Hids & H).
  apply bind_Ok_inv in H as (id0 & [_ H0]%expect_Ok%get_at_Some & H).
  apply bind_Ok_inv in H as (id1 & [_ H1]%expect_Ok%get_at_Some & H).
  apply bind_Ok_inv in H as (id2 & [_ H2]%expect_Ok%get_at_Some & [= <-]).
  pose proof (directory_sound _ data _ _ Hb ltac:(lia) Hreads Hdir) as (clusters & Hdata & Hcn & Hend & Hent & Hcl).
  assert (Forall (fun e => 0 <= ce_offset e /\ 0 <= ce_len e) entries) as Hnn.
  { rewrite Hent. apply entries_at_nonneg. rewrite Hend. unfold directory_end_of, ARCHIVE_HEADER_LEN, ARCHIVE_ENTRY_LEN. lia. }
  apply (ofold_inv (fun done acc => ofold (append_cluster clusters) [91] done = Ok acc /\
    Forall (fun oi => exists c, get_at clusters oi.2 = Some c /\
      validate_cluster_record (sc_bytes c) (sc_cluster_id c) = Ok tt) done)) in Hsample; [|done|].
  2: { intros dn oi todo acc acc' _ [Hacc Hall] Hstep. rewrite ofold_app, Hacc. cbn [mbind outcome_bind ofold].
       apply (append_record_sound _ data) in Hstep as [Hs Hval]; [|done..]. rewrite <- Hcl in Hs, Hval.
       rewrite Hs. split; [done|]. apply Forall_app. split; [done|by apply Forall_singleton]. }
  destruct Hsample as [Hsample Hval].
  apply sample_cid_digest_Ok in Hdig as (cid & Hcid & Hdig).
  exists clusters, selected, (sample ++ [93; 10]), cid. split; [done|]. split; [done|].
  split; [by rewrite Hcl, length_fmap|]. split; [unfold build_sample; by rewrite Hsample|].
  split; [done|]. split; [done|]. split; [done|]. split; [done|]. cbn [clusterId0 clusterId1 clusterId2].
  intros i id Hid. assert (ids !! i = Some id) as Hidi by 
    (destruct i as [|[|[|i]]]; [rewrite <- Hid; first [exact H0|exact H1|exact H2]..|by destruct i]).
  apply omapM_Ok in Hids. destruct (Forall2_lookup_r _ _ _ _ _ Hids Hidi) as (index & Hindex & Hpub).
  apply bind_Ok_inv in Hpub as (e & [Hi He]%expect_Ok%get_at_Some & [= <-]).
  rewrite Forall_forall in Hval. destruct (Hval (i, index)) as (c & Hc & Hvalid).
  { apply (list_elem_of_lookup_2 _ i). by rewrite list_lookup_imap, Hindex. }
  exists index, c. split; [done|]. split; [done|]. split; [|done].
  apply get_at_Some in Hc as [_ Hc]. cbn in Hc. rewrite Hcl, list_lookup_fmap, He in Hc. by injection Hc as <-.
Qed.

(** The byte ranges that a run discloses: the directory, and the records of the
    selected clusters. *)
Definition cluster_disclosed (clusters : list SourceCluster) (selected : list Z) (range : Z * Z) : Prop :=
  let directory_end := directory_end_of (zlen clusters) in
  range = (0, directory_end) \/
  exists index offset c, index ∈ selected /\
    get_at (cluster_offsets clusters directory_end) index = Some offset /\
    get_at clusters index = Some c /\ range = (offset, zlen (sc_bytes c)).

Lemma mark_entries_ranges entries size needed selected r :
  ofold (mark_entry entries size) needed selected = Ok r ->
  exists es, Forall2 (fun index e => get_at entries index = Some e) selected es /\
    ofold (mark_one size) needed ((fun e => (ce_offset e, ce_len e)) <$> es) = Ok r.
Proof.
  revert needed. induction selected as [|index selected IH]; intros needed; cbn [ofold].
  - intros H. exists []. split; [constructor|exact H].
  - intros (needed' & (e & He%expect_Ok & Hm)%bind_Ok_inv & H)%bind_Ok_inv.
    destruct (IH _ H) as (es & Hes & Hr). exists (e :: es). split; [by constructor|].
    cbn [fmap list_fmap]. rewrite mark_one_cons, Hm. exact Hr.
Qed.
(** A record of a canonical archive lies behind the directory and inside the
    archive, at the offset of the host. *)
Lemma cluster_entry_range clusters index e : canonical clusters ->
  let end_ := directory_end_of (zlen clusters) in
  get_at (entries_at end_ clusters) index = Some e ->
  (exists c, get_at clusters index = Some c /\ ce_len e = zlen (sc_bytes c)) /\
  get_at (cluster_offsets clusters end_) index = Some (ce_offset e) /\
  0 <= ce_offset e /\ 0 < ce_len e /\ ce_offset e + ce_len e <= zlen (build_archive clusters).
Proof.
  intros Hcn end_ [Hi He]%get_at_Some. rewrite entries_at_length in Hi.
  destruct (archive_sizes clusters Hcn) as (_ & _ & Hz & Hend & _). fold end_ in Hz, Hend.
  destruct (lookup_lt_is_Some_2 clusters (Z.to_nat index)) as [c Hc]; [lia|].
  destruct (entries_at_lookup end_ clusters (Z.to_nat index) c Hc) as (o & Ho & Hoff).
  rewrite He in Ho. injection Ho as ->. cbn [ce_offset ce_len].
  pose proof (cn_nonempty _ Hcn) as Hne. rewrite Forall_forall in Hne.
  specialize (Hne c ltac:(by eapply list_elem_of_lookup_2)).
  split; [exists c; split; [apply get_at_Some; split; [lia|done]|done]|]. split.
  - rewrite cluster_offsets_eq. apply get_at_Some. rewrite length_fmap, entries_at_length, list_lookup_fmap, He. by split.
  - split; [lia|]. split; [done|]. rewrite Hz, Hoff.
    rewrite <- (take_drop_middle clusters (Z.to_nat index) c Hc) at 2. rewrite fmap_app, concat_app.
    cbn [fmap list_fmap concat]. rewrite !length_app. lia.
Qed.
(** A run opens the symbols of these ranges and no others. *)
Lemma cluster_main_opens fuel origin seed v data roots rows :
  opening_typed origin -> is_bytes data ->
  Committed (wo_blob_id origin) (zlen data) roots rows -> systematic data rows ->
  collision_free (fun m => m ∈ commitment_msgs (zlen data) roots rows origin ++ reader_msgs origin) ->
  main fuel origin seed = Ok v ->
  exists clusters selected, data = build_archive clusters /\ canonical clusters /\
    Cluster.derive_cluster_indices fuel seed (zlen clusters) [0; 0; 0] = Ok selected /\
    forall shard leaf, opened_at origin shard leaf <->
      exists k range, cluster_disclosed clusters selected range /\ overlaps (walrus_symbol_size (zlen data)) k range /\
        shard = k `div` COL_HEIGHT_SECONDARY /\ leaf = k `mod` COL_HEIGHT_SECONDARY.
Proof.
  intros Ho Hb Hc Hsys HQ H. unfold main in H. apply bind_Ok_inv in H as ([] & Hv & H).
  destruct (opening_reads_source origin data roots rows Ho Hc Hsys HQ (or_introl Hv)) as (Hl & Hnd & Hr).
  destruct Hc as [Hd _ _ _].
  assert (reads (read_origin_range origin) data) as Hreads.
  { intros off len r Hoff Hlen. apply read_range_Ok; try done. lia. }
  unfold sample_clusters in H. rewrite Hl in H.
  apply bind_Ok_inv in H as ([entries end_] & Hdir & H).
  apply bind_Ok_inv in H as (selected & Hsel%unwrap_Ok & H).
  apply bind_Ok_inv in H as (needed & H1 & H). apply bind_Ok_inv in H as (required & H2 & H).
  apply bind_Ok_inv in H as ([] & Hex & _).
  pose proof (directory_sound _ data _ _ Hb ltac:(lia) Hreads Hdir) as (clusters & Hdata & Hcn & -> & -> & Hcl).
  apply mark_entries_ranges in H2 as (es & Hes & H2).
  exists clusters, selected. split; [done|]. split; [done|]. split; [by rewrite entries_at_length in Hsel|].
  set (end_ := directory_end_of (zlen clusters)) in *.
  set (ranges := (0, end_) :: ((fun e => (ce_offset e, ce_len e)) <$> es)).
  assert (ofold (mark_one (walrus_symbol_size (zlen data))) ∅ ranges = Ok required) as Hm.
  { unfold ranges. rewrite mark_one_cons, H1. exact H2. }
  assert (forall range, range ∈ ranges <-> cluster_disclosed clusters selected range) as Hdis.
  { intros range. unfold ranges, cluster_disclosed. fold end_. rewrite elem_of_cons, list_elem_of_fmap. split.
    - intros [|(e & -> & [i Hi]%list_elem_of_lookup)]; [by left|right].
      destruct (Forall2_lookup_r _ _ _ _ _ Hes Hi) as (index & Hindex & He).
      destruct (cluster_entry_range clusters index e Hcn He) as ((c & Hc & ->) & Hoff & _).
      exists index, (ce_offset e), c. split_and!; try done. by eapply list_elem_of_lookup_2.
    - intros [|(index & off & c & [i Hi]%list_elem_of_lookup & Hoff & Hc & ->)]; [by left|right].
      destruct (Forall2_lookup_l _ _ _ _ _ Hes Hi) as (e & He & Hat).
      destruct (cluster_entry_range clusters index e Hcn Hat) as ((c' & Hc' & Hlen) & Hoff' & _).
      fold end_ in Hoff'. rewrite Hoff in Hoff'. injection Hoff' as ->. rewrite Hc in Hc'. injection Hc' as <-.
      exists e. split; [by rewrite Hlen|by eapply list_elem_of_lookup_2]. }
  destruct (archive_sizes clusters Hcn) as (_ & _ & Hz & Hend & _). fold end_ in Hz, Hend. rewrite <- Hdata in Hz.
  destruct (symbol_size_bounds (zlen data) ltac:(lia)) as [Hs1 Hs2].
  intros shard leaf. rewrite (exact_openings origin (walrus_symbol_size (zlen data)) ranges required);
    [|lia|lia| |done..].
  - by setoid_rewrite Hdis.
  - rewrite Hl. constructor; [cbn [fst snd]; lia|]. apply Forall_fmap, Forall_forall.
    intros e [i Hi]%list_elem_of_lookup. destruct (Forall2_lookup_r _ _ _ _ _ Hes Hi) as (index & _ & He).
    destruct (cluster_entry_range clusters index e Hcn He) as (_ & _ & Hrange). by rewrite <- Hdata in Hrange.
Qed.
End Sound.

(** ** An archive of three clusters *)

Definition sample_id (digit : Z) : bytes := ascii_bytes "wcl_" ++ replicate 23 48 ++ [digit].
Definition sample_cluster (digit : Z) : SourceCluster :=
  {| sc_cluster_id := sample_id digit; sc_bytes := [123] ++ FIELD ++ sample_id digit ++ [34; 125] |}.
Definition three_clusters : list SourceCluster := sample_cluster <$> [49; 50; 51].
Definition three_data : bytes := Eval vm_compute in build_archive three_clusters.
Lemma three_canonical : canonical three_clusters.
Proof.
  split; [by vm_compute|by repeat constructor|by repeat constructor| |by vm_compute].
  split; [by intros|]. repeat (split; [by intros p [= <-]|]). exact I.
Qed.

Lemma archive_roundtrip_witness :
  exists entries, read_authenticated_directory (reader_of three_data) 324 = Ok (entries, 168) /\
    ce_offset <$> entries = [168; 220; 272].
Proof.
  destruct (archive_roundtrip three_clusters three_canonical) as (es & Hes & _ & Ho & _).
  { do 3 (apply Forall_cons; split; [apply is_bytes_check; reflexivity|]). constructor. }
  exists es. split; [exact Hes|]. rewrite Ho. vm_compute. reflexivity.
Defined.

Local Existing Instance cheap_crypto.
Definition three_needed : selection :=
  match mark_range ∅ 0 324 (walrus_symbol_size 324) with Ok n => n | _ => ∅ end.
Definition three_opening : WalrusOpening := Eval vm_compute in small_opening three_data three_needed.

Lemma cluster_guest_sound_witness :
  exists v clusters, main (X := toy_cid) 9 three_opening [1; 2; 3] = Ok v /\
    three_data = build_archive clusters /\ canonical clusters.
Proof.
  assert (exists v, main (X := toy_cid) 9 three_opening [1; 2; 3] = Ok v) as [v Hv]
    by (eexists; vm_compute; reflexivity).
  destruct (cluster_guest_sound (X := toy_cid) 9 three_opening [1; 2; 3] v three_data
    (small_roots three_data) (small_rows three_data)) as (clusters & selected & sample & cid & H1 & H2 & _).
  - apply reader_typedb_ok. vm_compute. reflexivity.
  - apply is_bytes_check. reflexivity.
  - apply small_committed; [done|vm_compute; reflexivity].
  - apply small_systematic. done.
  - apply collision_free_list_ok. vm_compute. reflexivity.
  - exact Hv.
  - exists v, clusters. split; [exact Hv|]. split; [exact H1|exact H2].
Defined.
