(* ===== verification/FlowGuest.v ===== *)
(** The flow graph sampling programs
    ([guest/flow-graph-sampling/{lib,program,script}]): the archive of the time
    buckets of a flow graph that the host writes, the guest that reads its
    directory and one bucket through authenticated symbols, and the values it
    commits.

    The guest's opening check and reader are those of the cluster guest, text for
    text ([SymbolReader.v]).  The JSON rows that the host cuts into buckets and
    the ABI encoding of the committed values are not modelled. *)
From S2P Require Import Prelude Crypto Rslh Cid WalrusMerkle WalrusConfig Multiproof SymbolReader HostOpening Rejection DatasetSampling Archive.
#[local] Open Scope Z_scope.

Definition ARCHIVE_MAGIC : bytes := ascii_bytes "TDFLOW01".
Definition ARCHIVE_HEADER_LEN : Z := 40.
Definition ARCHIVE_ENTRY_LEN : Z := 24.

Record FlowGraphSamplingPublicValues := {
  fv_originBlobId : bytes;
  fv_samplingSeed : bytes;
  fv_bucketStart : Z;
  fv_bucketEnd : Z;
  fv_sampleCidDigest : bytes;
}.
Record BucketEntry := {
  en_bucket_start : Z;
  en_offset : Z;
  en_len : Z;
}.
Record SourceBucket := {
  sb_bucket_start : Z;
  sb_bucket_end : Z;
  sb_bytes : bytes;
}.

(** ** The guest *)

(** One round of the loop over the directory entries. *)
Definition directory_entry (st : list BucketEntry * Z) (chunk : bytes) : guest (list BucketEntry * Z) :=
  let '(entries, expected_offset) := st in
  bucket_start ← read_u64 chunk 0;
  offset ← read_u64 chunk 8;
  len ← read_u64 chunk 16;
  assert (offset =? expected_offset) "non-contiguous bucket payload" ;;
  assert (0 <? len) "empty bucket payload" ;;
  expected_offset ← expect (to_u64 (expected_offset + len)) "flow payload length overflow";
  Ok (entries ++ [{| en_bucket_start := bucket_start; en_offset := offset; en_len := len |}],
      expected_offset).

(** [entries.windows(2)], and the check of one window. *)
Definition pairs {A} (l : list A) : list (A * A) := zip l (tail l).
Definition contiguous_pair (bucket_seconds : Z) (pair : BucketEntry * BucketEntry) : guest unit :=
  next ← expect (to_u64 (en_bucket_start pair.1 + bucket_seconds)) "bucket timestamp overflow";
  assert (en_bucket_start pair.2 =? next) "flow archive buckets are not contiguous".

Definition read_authenticated_directory (read : Z -> Z -> guest bytes) (unencoded_length : Z)
    : guest (FlowGraph.TimeCoverage * list BucketEntry * Z) :=
  header ← read 0 ARCHIVE_HEADER_LEN;
  magic ← slice header 0 8;
  assert (bool_decide (magic = ARCHIVE_MAGIC)) "invalid flow archive magic" ;;
  bucket_seconds ← read_u64 header 8;
  first_timestamp ← read_u64 header 16;
  last_timestamp ← read_u64 header 24;
  entry_count ← read_u32 header 32;
  assert (0 <? bucket_seconds) "flow bucket width must be positive" ;;
  reserved ← read_u32 header 36;
  assert (reserved =? 0) "flow archive reserved field changed" ;;
  assert (0 <? entry_count) "flow archive has no buckets" ;;
  directory_len ← expect (to_u64 (entry_count * ARCHIVE_ENTRY_LEN)) "flow directory length overflow";
  directory_end ← expect (to_u64 (ARCHIVE_HEADER_LEN + directory_len)) "flow directory end overflow";
  data ← read ARCHIVE_HEADER_LEN directory_len;
  '(entries, expected_offset) ← ofold directory_entry ([], directory_end)
    (chunks_exact (Z.to_nat ARCHIVE_ENTRY_LEN) data);
  assert (expected_offset =? unencoded_length) "archive length mismatch" ;;
  oforall (contiguous_pair bucket_seconds) (pairs entries) ;;
  first ← expect (head entries) "called `Option::unwrap()` on a `None` value";
  assert (first_timestamp =? en_bucket_start first) "coverage start mismatch" ;;
  last ← expect (last entries) "called `Option::unwrap()` on a `None` value";
  last_end ← expect (to_u64 (en_bucket_start last + (bucket_seconds - 1))) "coverage end overflow";
  assert (last_timestamp =? last_end) "coverage end mismatch" ;;
  Ok ({| FlowGraph.first_timestamp := first_timestamp; FlowGraph.last_timestamp := last_timestamp;
         FlowGraph.bucket_seconds := bucket_seconds |}, entries, directory_end).

Definition validate_sample_shape (sample : bytes) : guest unit :=
  assert (bool_decide (last sample = Some 10)) "sample must end on a row boundary" ;;
  assert (existsb (fun byte => negb (byte =? 10)) sample) "selected bucket contains no rows".

Section Guest.
Context `{HC : Crypto} `{X : CidApi}.

(** The program after the check of the opening; [select] checks the opened
    symbols against the selection. *)
Definition sample_bucket (fuel : nat) (read : Z -> Z -> guest bytes) (select : selection -> guest unit)
    (blob_id : bytes) (unencoded_length : Z) (sampling_seed : bytes)
    : guest FlowGraphSamplingPublicValues :=
  '(coverage, entries, directory_end) ← read_authenticated_directory read unencoded_length;
  selected ← unwrap (FlowGraph.derive_time_window fuel sampling_seed coverage) "invalid flow coverage";
  entry ← expect (find (fun entry => en_bucket_start entry =? FlowGraph.bucket_start selected) entries)
    "selected bucket missing from authenticated directory";
  assert (0 <? en_len entry) "selected bucket is empty" ;;
  let symbol_size := walrus_symbol_size unencoded_length in
  required ← mark_range ∅ 0 directory_end symbol_size;
  required ← mark_range required (en_offset entry) (en_len entry) symbol_size;
  select required ;;
  sample ← read (en_offset entry) (en_len entry);
  validate_sample_shape sample ;;
  digest ← sample_cid_digest sample;
  Ok {| fv_originBlobId := blob_id; fv_samplingSeed := sampling_seed;
        fv_bucketStart := FlowGraph.bucket_start selected; fv_bucketEnd := FlowGraph.bucket_end selected;
        fv_sampleCidDigest := digest |}.

(** The whole program; the committed values are its result. *)
Definition main (fuel : nat) (origin : WalrusOpening) (sampling_seed : bytes)
    : guest FlowGraphSamplingPublicValues :=
  verify_walrus_opening origin ;;
  sample_bucket fuel (read_origin_range origin) (assert_exact_symbol_selection origin)
    (wo_blob_id origin) (wo_unencoded_length origin) sampling_seed.
End Guest.

(** ** The host *)

(** The loop of [build_archive] over the directory. *)
Definition archive_entry (st : bytes * Z) (bucket : SourceBucket) : bytes * Z :=
  let '(archive, offset) := st in
  (archive ++ be_bytes 8 (sb_bucket_start bucket) ++ be_bytes 8 offset
     ++ be_bytes 8 (zlen (sb_bytes bucket)),
   offset + zlen (sb_bytes bucket)).
Definition build_archive (buckets : list SourceBucket) : guest bytes :=
  first ← expect (head buckets) "index out of bounds";
  bucket_seconds ← expect (to_u64 (sb_bucket_end first - sb_bucket_start first))
    "attempt to subtract with overflow";
  assert (zlen buckets <? 2 ^ 32) "flow archive has more than u32::MAX buckets" ;;
  directory_end ← expect (entries_len ← to_u64 (ARCHIVE_ENTRY_LEN * zlen buckets);
                          to_u64 (ARCHIVE_HEADER_LEN + entries_len))
    "flow archive directory length overflow";
  last ← expect (last buckets) "called `Option::unwrap()` on a `None` value";
  last_timestamp ← expect (to_u64 (sb_bucket_end last - 1)) "attempt to subtract with overflow";
  let archive := ARCHIVE_MAGIC ++ be_bytes 8 bucket_seconds ++ be_bytes 8 (sb_bucket_start first)
    ++ be_bytes 8 last_timestamp ++ be_bytes 4 (zlen buckets) ++ be_bytes 4 0 in
  let '(archive, _) := foldl archive_entry (archive, directory_end) buckets in
  Ok (foldl (fun archive bucket => archive ++ sb_bytes bucket) archive buckets).

(** What the host takes the sample from: the coverage of the buckets, and the
    place of the selected one. *)
Definition source_coverage (buckets : list SourceBucket) : guest FlowGraph.TimeCoverage :=
  first ← expect (head buckets) "called `Option::unwrap()` on a `None` value";
  last ← expect (last buckets) "called `Option::unwrap()` on a `None` value";
  last_timestamp ← expect (to_u64 (sb_bucket_end last - 1)) "attempt to subtract with overflow";
  bucket_seconds ← expect (to_u64 (sb_bucket_end first - sb_bucket_start first))
    "attempt to subtract with overflow";
  Ok {| FlowGraph.first_timestamp := sb_bucket_start first; FlowGraph.last_timestamp := last_timestamp;
        FlowGraph.bucket_seconds := bucket_seconds |}.
Definition selected_range (buckets : list SourceBucket) (selected : FlowGraph.TimeWindow)
    : guest (Z * Z * SourceBucket) :=
  '(selected_index, bucket) ← expect
    (list_find (fun bucket => sb_bucket_start bucket = FlowGraph.bucket_start selected) buckets)
    "selected source bucket";
  let directory_end := ARCHIVE_HEADER_LEN + ARCHIVE_ENTRY_LEN * zlen buckets in
  let selected_offset := directory_end
    + foldr Z.add 0 ((fun bucket => zlen (sb_bytes bucket)) <$> take selected_index buckets) in
  Ok (selected_offset, zlen (sb_bytes bucket), bucket).

(** ** The archive format *)

Definition entry_bytes (e : BucketEntry) : bytes :=
  concat [be_bytes 8 (en_bucket_start e); be_bytes 8 (en_offset e); be_bytes 8 (en_len e)].
Fixpoint entries_at (offset : Z) (buckets : list SourceBucket) : list BucketEntry :=
  match buckets with
  | [] => []
  | b :: buckets =>
      {| en_bucket_start := sb_bucket_start b; en_offset := offset; en_len := zlen (sb_bytes b) |}
        :: entries_at (offset + zlen (sb_bytes b)) buckets
  end.
Definition directory_end_of (n : Z) : Z := ARCHIVE_HEADER_LEN + ARCHIVE_ENTRY_LEN * n.

(** Timestamps [width] apart, from [start] on. *)
Fixpoint evenly (start width : Z) (l : list Z) : Prop :=
  match l with
  | [] => True
  | x :: l => x = start /\ evenly (start + width) width l
  end.

(** The header, and an archive of [buckets] of one width. *)
Definition header_bytes (width first n : Z) : bytes :=
  concat [ARCHIVE_MAGIC; be_bytes 8 width; be_bytes 8 first; be_bytes 8 (first + n * width - 1);
          be_bytes 4 n; be_bytes 4 0].
Definition archive_bytes (width first : Z) (buckets : list SourceBucket) : bytes :=
  header_bytes width first (zlen buckets)
    ++ concat (entry_bytes <$> entries_at (directory_end_of (zlen buckets)) buckets)
    ++ concat (sb_bytes <$> buckets).

(** What the host asserts of its buckets, and what the guest's checks
    establish. *)
Record canonical (width first : Z) (buckets : list SourceBucket) : Prop := {
  fc_width : 0 < width < 2 ^ 64;
  fc_count : 0 < zlen buckets < 2 ^ 32;
  fc_starts : evenly first width (sb_bucket_start <$> buckets);
  fc_ends : Forall (fun b => sb_bucket_end b = sb_bucket_start b + width) buckets;
  fc_range : 0 <= first /\ first + zlen buckets * width - 1 < 2 ^ 64;
  fc_nonempty : Forall (fun b => 0 < zlen (sb_bytes b)) buckets;
  fc_length : zlen (archive_bytes width first buckets) < 2 ^ 64;
}.

Lemma evenly_lookup start width l i x :
  evenly start width l -> l !! i = Some x -> x = start + Z.of_nat i * width.
Proof.
  revert start i. induction l as [|y l IH]; intros start i Hl Hi; [done|].
  destruct Hl as [-> Hl]. destruct i as [|i]; cbn in Hi; [injection Hi as <-; lia|].
  rewrite (IH _ i Hl Hi). lia.
Qed.
Lemma evenly_last start width l x :
  evenly start width l -> last l = Some x -> x = start + (zlen l - 1) * width.
Proof.
  intros Hl Hx. rewrite last_lookup in Hx. rewrite (evenly_lookup _ _ _ _ _ Hl Hx).
  do 2 f_equal. destruct l; [done|]. cbn [length Nat.pred]. lia.
Qed.
Lemma canonical_ends width first buckets : canonical width first buckets ->
  exists b0 bn, head buckets = Some b0 /\ last buckets = Some bn /\ sb_bucket_start b0 = first /\
    sb_bucket_end b0 = first + width /\ sb_bucket_end bn = first + zlen buckets * width.
Proof.
  intros [_ Hn Hs He _ _ _]. destruct buckets as [|b0 bs] eqn:Hbs; [cbn in Hn; lia|]. rewrite <- Hbs in *.
  destruct (last_is_Some buckets) as [_ [bn Hbn]]; [by rewrite Hbs|]. exists b0, bn.
  assert (head buckets = Some b0) as Hh by by rewrite Hbs.
  rewrite Forall_forall in He. pose proof (He b0) as H0. pose proof (He bn) as H1.
  assert (sb_bucket_start b0 = first) as Hf by (rewrite Hbs in Hs; by destruct Hs).
  assert (last (sb_bucket_start <$> buckets) = Some (sb_bucket_start bn)) as Hl by by rewrite fmap_last, Hbn.
  apply (evenly_last _ _ _ _ Hs) in Hl. rewrite length_fmap in Hl.
  split_and!; try done.
  - rewrite H0; [lia|]. rewrite Hbs. by left.
  - rewrite H1; [lia|]. rewrite last_lookup in Hbn. by eapply list_elem_of_lookup_2.
Qed.

Lemma archive_fold buckets archive offset :
  foldl archive_entry (archive, offset) buckets =
  (archive ++ concat (entry_bytes <$> entries_at offset buckets),
   offset + zlen (concat (sb_bytes <$> buckets))).
Proof.
  revert archive offset. induction buckets as [|c cs IH]; intros archive offset; cbn [foldl entries_at].
  - cbn. rewrite app_nil_r. f_equal. lia.
  - unfold archive_entry at 2. rewrite IH. cbn [fmap list_fmap concat]. rewrite length_app.
    f_equal; [|lia]. unfold entry_bytes. cbn [concat en_bucket_start en_offset en_len].
    by rewrite app_nil_r, <- !app_assoc.
Qed.
Lemma bucket_payloads buckets archive :
  foldl (fun archive bucket => archive ++ sb_bytes bucket) archive buckets
    = archive ++ concat (sb_bytes <$> buckets).
Proof.
  revert archive. induction buckets as [|c cs IH]; intros archive; cbn; [by rewrite app_nil_r|].
  by rewrite IH, <- app_assoc.
Qed.
(** The host's archive of canonical buckets. *)
Lemma build_flow_archive width first buckets : canonical width first buckets ->
  build_archive buckets = Ok (archive_bytes width first buckets) /\
  source_coverage buckets = Ok {| FlowGraph.first_timestamp := first;
    FlowGraph.last_timestamp := first + zlen buckets * width - 1; FlowGraph.bucket_seconds := width |}.
Proof.
  intros Hc. destruct (canonical_ends _ _ _ Hc) as (b0 & bn & Hh & Hl & Hs & He0 & Hen).
  destruct Hc as [Hw Hn _ _ Hr _ _]. unfold build_archive, source_coverage.
  rewrite Hh, Hl. cbn [expect mbind outcome_bind]. rewrite Hs, He0, Hen.
  unfold ARCHIVE_ENTRY_LEN, ARCHIVE_HEADER_LEN. replace (first + width - first) with width by lia.
  rewrite (to_u64_ok width), (to_u64_ok (24 * zlen buckets)), (to_u64_ok (first + zlen buckets * width - 1))
    by nia.
  cbn [expect mbind outcome_bind option_bind]. rewrite (to_u64_ok (40 + 24 * zlen buckets)) by lia.
  rewrite (proj2 (Z.ltb_lt _ _)) by lia. cbn [assert expect mbind outcome_bind].
  rewrite archive_fold, bucket_payloads. split; [|done]. f_equal.
Qed.

(** ** Reading a directory *)

(** Entries that follow one another from [off] to [end_]. *)
Fixpoint contiguous (off : Z) (es : list BucketEntry) (end_ : Z) : Prop :=
  match es with
  | [] => off = end_
  | e :: es => en_offset e = off /\ 0 < en_len e /\ off + en_len e < 2 ^ 64 /\
      0 <= en_bucket_start e < 2 ^ 64 /\ contiguous (off + en_len e) es end_
  end.

Lemma flow_entry_bytes_length e : length (entry_bytes e) = 24%nat.
Proof. unfold entry_bytes. cbn [concat]. by rewrite !length_app, !be_bytes_length. Qed.
Lemma entry_fields e l : l = entry_bytes e ->
  get_range l 0 8 = Some (be_bytes 8 (en_bucket_start e)) /\
  get_range l 8 8 = Some (be_bytes 8 (en_offset e)) /\ get_range l 16 8 = Some (be_bytes 8 (en_len e)).
Proof.
  intros ->. destruct (fields_of_concat [be_bytes 8 (en_bucket_start e); be_bytes 8 (en_offset e);
    be_bytes 8 (en_len e)]) as (H1 & H2 & H3 & _).
  rewrite !be_bytes_length in *. done.
Qed.
Lemma entry_of_fields l s o n : zlen l = 24 ->
  get_range l 0 8 = Some (be_bytes 8 s) -> get_range l 8 8 = Some (be_bytes 8 o) ->
  get_range l 16 8 = Some (be_bytes 8 n) ->
  l = entry_bytes {| en_bucket_start := s; en_offset := o; en_len := n |}.
Proof.
  intros Hl H1 H2 H3. apply fields_fill.
  - cbn [fields_at en_bucket_start en_offset en_len]. by rewrite !be_bytes_length.
  - cbn [concat]. rewrite !length_app, !be_bytes_length. by rewrite Hl.
Qed.

Lemma flow_directory_entry_Ok entries exp chunk entries' exp' :
  is_bytes chunk -> zlen chunk = ARCHIVE_ENTRY_LEN -> 0 <= exp < 2 ^ 64 ->
  directory_entry (entries, exp) chunk = Ok (entries', exp') <->
  exists e, chunk = entry_bytes e /\ entries' = entries ++ [e] /\ exp' = exp + en_len e /\
    contiguous exp [e] exp'.
Proof.
  intros Hb Hl Hexp. unfold ARCHIVE_ENTRY_LEN in Hl. split.
  - intros H. unfold directory_entry in H.
    apply bind_Ok_inv in H as (s & [Hs Hsr]%read_u64_Ok & H); [|done].
    apply bind_Ok_inv in H as (o & [Ho Hor]%read_u64_Ok & H); [|done].
    apply bind_Ok_inv in H as (n & [Hn Hnr]%read_u64_Ok & H); [|done].
    apply bind_Ok_inv in H as ([] & H1%assert_Ok & H). apply bind_Ok_inv in H as ([] & H2%assert_Ok & H).
    apply bind_Ok_inv in H as (e' & [-> He]%expect_Ok%to_u64_Some & [= <- <-]). bool_hyps. subst o.
    eexists. split; [by apply entry_of_fields|]. cbn. split_and!; done || lia.
  - intros (e & Hc & -> & -> & (Heo & Hel & Hov & Hs & _)). unfold directory_entry.
    destruct (entry_fields e chunk Hc) as (F1 & F2 & F3).
    rewrite (proj2 (read_u64_Ok chunk 0 (en_bucket_start e) Hb)) by done. cbn [mbind outcome_bind].
    rewrite (proj2 (read_u64_Ok chunk 8 (en_offset e) Hb)) by (split; [done|lia]). cbn [mbind outcome_bind].
    rewrite (proj2 (read_u64_Ok chunk 16 (en_len e) Hb)) by (split; [done|lia]). cbn [mbind outcome_bind].
    rewrite Heo, Z.eqb_refl, (proj2 (Z.ltb_lt _ _)) by lia.
    cbn [assert mbind outcome_bind]. rewrite to_u64_ok by lia. cbn. do 4 f_equal. destruct e; cbn in *. by subst.
Qed.
Lemma flow_directory_loop cs es0 off es off' : Forall is_bytes cs -> Forall (fun c => zlen c = ARCHIVE_ENTRY_LEN) cs ->
  0 <= off < 2 ^ 64 ->
  ofold directory_entry (es0, off) cs = Ok (es, off') <->
  exists nes, es = es0 ++ nes /\ cs = entry_bytes <$> nes /\ contiguous off nes off'.
Proof.
  intros Hb Hl. revert es0 off. induction Hb as [|c cs Hc Hb IH]; intros es0 off Hoff; cbn [ofold].
  - split.
    + intros [= <- <-]. exists []. by rewrite app_nil_r.
    + intros (nes & -> & Heq & Hcont). destruct nes; [|done]. cbn in Hcont. subst. by rewrite app_nil_r.
  - apply Forall_cons in Hl as [Hcl Hl]. specialize (IH Hl). rewrite bind_Ok_inv. split.
    + intros ([es1 off1] & Hstep & H).
      apply flow_directory_entry_Ok in Hstep as (e & -> & -> & -> & Hcont); [|done..].
      cbn in Hcont. destruct Hcont as (H1 & H2 & H3 & H4 & _).
      apply IH in H as (nes & -> & -> & Hcn); [|lia].
      exists (e :: nes). by rewrite <- app_assoc.
    + intros (nes & -> & Heq & Hcont). destruct nes as [|e nes]; [done|].
      injection Heq as -> ->. cbn in Hcont. destruct Hcont as (H1 & H2 & H3 & H4 & H5).
      exists (es0 ++ [e], off + en_len e). split.
      * apply flow_directory_entry_Ok; [done..|]. by exists e.
      * apply IH; [lia|]. exists nes. by rewrite <- app_assoc.
Qed.

Lemma flow_contiguous_valid off es off' : contiguous off es off' ->
  Forall (fun e => 0 <= en_bucket_start e < 2 ^ 64) es /\ off <= off'.
Proof.
  revert off. induction es as [|e es IH]; intros off H; cbn in H; [by subst|].
  destruct H as (_ & Hl & _ & Hv & H). apply IH in H as [Hall Hle]. split; [by constructor|lia].
Qed.
(** The windows of the entries, all checked. *)
Lemma pairs_Ok width e es : 0 <= width -> Forall (fun e => 0 <= en_bucket_start e < 2 ^ 64) (e :: es) ->
  oforall (contiguous_pair width) (pairs (e :: es)) = Ok tt <->
  evenly (en_bucket_start e) width (en_bucket_start <$> e :: es).
Proof.
  intros Hw Hall. revert e Hall. induction es as [|e' es IH]; intros e Hall; cbn; [tauto|].
  apply Forall_cons in Hall as [He Hall]. pose proof Hall as [He' _]%Forall_cons.
  specialize (IH e' Hall). unfold pairs in IH. cbn [tail] in IH.
  rewrite bind_Ok_inv. unfold contiguous_pair at 1. cbn [fst snd]. split.
  - intros ([] & (x & [-> _]%expect_Ok%to_u64_Some & Hx%assert_Ok%Z.eqb_eq)%bind_Ok_inv & H).
    apply IH in H as [_ H]. rewrite <- Hx. done.
  - intros (_ & Hx & H). exists tt. rewrite Hx, to_u64_ok by lia. cbn [expect mbind outcome_bind].
    rewrite Z.eqb_refl. split; [done|].
    apply IH. cbn. by rewrite Hx.
Qed.

(** The buckets that entries describe in the data. *)
Definition bucket_of (data : bytes) (width : Z) (e : BucketEntry) : SourceBucket :=
  {| sb_bucket_start := en_bucket_start e; sb_bucket_end := en_bucket_start e + width;
     sb_bytes := take (Z.to_nat (en_len e)) (drop (Z.to_nat (en_offset e)) data) |}.
Lemma buckets_of_entries data width off es : 0 <= off -> contiguous off es (zlen data) ->
  entries_at off (bucket_of data width <$> es) = es /\
  concat (sb_bytes <$> (bucket_of data width <$> es)) = drop (Z.to_nat off) data /\
  Forall (fun b => 0 < zlen (sb_bytes b)) (bucket_of data width <$> es).
Proof.
  revert off. induction es as [|e es IH]; intros off Hoff H; cbn in H.
  - split; [done|]. cbn. rewrite drop_ge by lia. by split.
  - destruct H as (Ho & Hl & Hov & _ & H). pose proof (flow_contiguous_valid _ _ _ H) as [_ Hle].
    destruct (IH (off + en_len e) ltac:(lia) H) as (He & Hc & Hn).
    cbn [fmap list_fmap entries_at concat].
    assert (zlen (sb_bytes (bucket_of data width e)) = en_len e) as Hz.
    { cbn. rewrite length_take, length_drop. lia. }
    rewrite Hz. split; [|split].
    + f_equal; [|exact He]. destruct e; cbn in *. by subst.
    + transitivity (sb_bytes (bucket_of data width e) ++ drop (Z.to_nat (off + en_len e)) data); [by f_equal|].
      cbn. rewrite Ho. replace (Z.to_nat (off + en_len e)) with (Z.to_nat off + Z.to_nat (en_len e))%nat by lia.
      rewrite <- drop_drop. apply take_drop.
    + constructor; [by rewrite Hz|done].
Qed.

(** The header's fields. *)
Lemma flow_header_fields w f n :
  let h := header_bytes w f n in
  zlen h = 40 /\ get_range h 0 8 = Some ARCHIVE_MAGIC /\ get_range h 8 8 = Some (be_bytes 8 w) /\
  get_range h 16 8 = Some (be_bytes 8 f) /\ get_range h 24 8 = Some (be_bytes 8 (f + n * w - 1)) /\
  get_range h 32 4 = Some (be_bytes 4 n) /\ get_range h 36 4 = Some (be_bytes 4 0).
Proof.
  intros h. destruct (fields_of_concat [ARCHIVE_MAGIC; be_bytes 8 w; be_bytes 8 f;
    be_bytes 8 (f + n * w - 1); be_bytes 4 n; be_bytes 4 0]) as (H1 & H2 & H3 & H4 & H5 & H6 & _).
  rewrite !be_bytes_length in *. split; [|done].
  unfold h, header_bytes. cbn [concat]. by rewrite !length_app, !be_bytes_length.
Qed.
Lemma header_of_fields h w f l n : zlen h = 40 -> l = f + n * w - 1 ->
  get_range h 0 8 = Some ARCHIVE_MAGIC -> get_range h 8 8 = Some (be_bytes 8 w) ->
  get_range h 16 8 = Some (be_bytes 8 f) -> get_range h 24 8 = Some (be_bytes 8 l) ->
  get_range h 32 4 = Some (be_bytes 4 n) -> get_range h 36 4 = Some (be_bytes 4 0) ->
  h = header_bytes w f n.
Proof.
  intros Hl -> H1 H2 H3 H4 H5 H6. apply fields_fill.
  - cbn [fields_at]. by rewrite !be_bytes_length.
  - cbn [concat]. rewrite !length_app, !be_bytes_length. by rewrite Hl.
Qed.
Lemma flow_entries_bytes_length es : length (concat (entry_bytes <$> es)) = (24 * length es)%nat.
Proof.
  induction es as [|e es IH]; [done|]. cbn [fmap list_fmap concat length].
  rewrite length_app, flow_entry_bytes_length, IH. lia.
Qed.

(** What the checks after the loop establish. *)
Lemma coverage_checks width first lst es u e0 en lend :
  0 < width -> Forall (fun e => 0 <= en_bucket_start e < 2 ^ 64) es ->
  oforall (contiguous_pair width) (pairs es) = Ok u -> head es = Some e0 -> first = en_bucket_start e0 ->
  last es = Some en -> to_u64 (en_bucket_start en + (width - 1)) = Some lend -> lst = lend ->
  evenly first width (en_bucket_start <$> es) /\ lst = first + zlen es * width - 1 /\ 0 <= first /\
  0 < zlen es /\ first + zlen es * width - 1 < 2 ^ 64.
Proof.
  intros Hw Ht Hp Hh -> Hl [-> Hr]%to_u64_Some ->. destruct u, es as [|e es]; [done|]. injection Hh as ->.
  apply pairs_Ok in Hp; [|lia|done]. split; [done|].
  assert (last (en_bucket_start <$> e0 :: es) = Some (en_bucket_start en)) as Hle by by rewrite fmap_last, Hl.
  apply (evenly_last _ _ _ _ Hp) in Hle. rewrite length_fmap in Hle.
  apply Forall_cons in Ht as [He0 _]. cbn [length] in *. lia.
Qed.

(** A directory that the guest accepts is the directory of canonical buckets, and
    the blob is their archive. *)
Lemma flow_directory_sound read data coverage entries end_ :
  is_bytes data -> zlen data < 2 ^ 64 -> reads read data ->
  read_authenticated_directory read (zlen data) = Ok (coverage, entries, end_) ->
  exists width first buckets, data = archive_bytes width first buckets /\ canonical width first buckets /\
    coverage = {| FlowGraph.first_timestamp := first;
                  FlowGraph.last_timestamp := first + zlen buckets * width - 1;
                  FlowGraph.bucket_seconds := width |} /\
    end_ = directory_end_of (zlen buckets) /\ entries = entries_at end_ buckets /\
    buckets = bucket_of data width <$> entries.
Proof.
  intros Hb Hd Hread H. unfold read_authenticated_directory, ARCHIVE_HEADER_LEN in H.
  apply bind_Ok_inv in H as (h & Hh & H). apply Hread in Hh; [|lia..].
  pose proof (get_range_Forall _ _ _ _ _ Hb Hh) as Hhb. pose proof (get_range_length _ _ _ _ Hh) as Hhl.
  apply bind_Ok_inv in H as (mg & Hmg%slice_Ok & H). apply bind_Ok_inv in H as ([] & H0%assert_Ok & H).
  apply bind_Ok_inv in H as (w & [Hw Hwr]%read_u64_Ok & H); [|done].
  apply bind_Ok_inv in H as (f & [Hf Hfr]%read_u64_Ok & H); [|done].
  apply bind_Ok_inv in H as (l & [Hl Hlr]%read_u64_Ok & H); [|done].
  apply bind_Ok_inv in H as (n & [Hn Hnr]%read_u32_Ok & H); [|done].
  apply bind_Ok_inv in H as ([] & H1%assert_Ok & H).
  apply bind_Ok_inv in H as (rs & [Hrs _]%read_u32_Ok & H); [|done].
  apply bind_Ok_inv in H as ([] & H2%assert_Ok & H). apply bind_Ok_inv in H as ([] & H3%assert_Ok & H).
  apply bind_Ok_inv in H as (dl & [-> Hdl]%expect_Ok%to_u64_Some & H).
  apply bind_Ok_inv in H as (de & [-> Hde]%expect_Ok%to_u64_Some & H).
  apply bind_Ok_inv in H as (dir & Hdir & H). apply bind_Ok_inv in H as ([es exp] & Hloop & H).
  apply bind_Ok_inv in H as ([] & H4%assert_Ok & H). apply bind_Ok_inv in H as (u & Hpairs & H).
  apply bind_Ok_inv in H as (e0 & He0%expect_Ok & H). apply bind_Ok_inv in H as ([] & H5%assert_Ok & H).
  apply bind_Ok_inv in H as (en & Hen%expect_Ok & H). apply bind_Ok_inv in H as (lend & Hlend%expect_Ok & H).
  apply bind_Ok_inv in H as ([] & H6%assert_Ok & [= <- <- <-]). bool_hyps. subst mg rs exp.
  unfold ARCHIVE_ENTRY_LEN in *. apply Hread in Hdir; [|lia..].
  pose proof (get_range_Forall _ _ _ _ _ Hb Hdir) as Hdb. pose proof (get_range_length _ _ _ _ Hdir) as Hdl'.
  change (Z.to_nat 24) with 24%nat in Hloop.
  destruct (directory_chunks 24 (Z.to_nat n) dir ltac:(lia) Hdb ltac:(lia)) as (Hce & Hcb & Hcl).
  rewrite Hce in Hloop. apply flow_directory_loop in Hloop as (nes & Hnes & Hcs & Hcont); [|done|done|lia].
  cbn in Hnes. subst nes.
  destruct (flow_contiguous_valid _ _ _ Hcont) as [Htyped _].
  destruct (coverage_checks w f l es u e0 en lend) as (Hev & Hlast & Hf0 & Hn0 & Hover); try done.
  assert (zlen es = n) as Hlen.
  { assert (length es * 24 = length dir)%nat; [|lia].
    rewrite <- (concat_chunks 24 dir), Hcs, flow_entries_bytes_length by lia. lia. }
  destruct (buckets_of_entries data w (40 + n * 24) es ltac:(lia) Hcont) as (Hent & Hpay & Hne).
  set (bs := bucket_of data w <$> es) in *. assert (zlen bs = n) as Hbs by (unfold bs; by rewrite length_fmap).
  assert (directory_end_of n = 40 + n * 24) as Hend
    by (unfold directory_end_of, ARCHIVE_HEADER_LEN, ARCHIVE_ENTRY_LEN; lia).
  assert (data = archive_bytes w f bs) as Harch.
  { unfold archive_bytes. rewrite Hbs, Hend, Hent, Hpay, <- Hcs, concat_chunks by lia.
    rewrite <- (header_of_fields h w f l n) by (done || by rewrite Hlast, Hlen).
    by apply two_ranges. }
  exists w, f, bs. split; [exact Harch|]. rewrite Hbs, Hend. split; [|by rewrite Hlast, Hlen].
  split; [lia|rewrite Hbs; lia| |by apply Forall_fmap, Forall_true|rewrite Hbs, <- Hlen; lia|done|by rewrite <- Harch].
  unfold bs. by rewrite <- list_fmap_compose.
Qed.

(** ** The archive and its reader *)

Lemma flow_entries_at_length off bs : length (entries_at off bs) = length bs.
Proof. revert off. induction bs as [|b bs IH]; intros off; cbn; [done|]. by rewrite IH. Qed.
Lemma flow_entries_at_lookup off bs i b : bs !! i = Some b ->
  entries_at off bs !! i = Some {| en_bucket_start := sb_bucket_start b;
    en_offset := off + zlen (concat (sb_bytes <$> take i bs)); en_len := zlen (sb_bytes b) |}.
Proof.
  revert off i. induction bs as [|b' bs IH]; intros off [|i] Hi; cbn in *; try done.
  - injection Hi as ->. by rewrite Z.add_0_r.
  - rewrite (IH _ i Hi), length_app. do 2 f_equal. lia.
Qed.
Lemma entries_at_starts off bs : en_bucket_start <$> entries_at off bs = sb_bucket_start <$> bs.
Proof. revert off. induction bs as [|b bs IH]; intros off; cbn; [done|]. by rewrite IH. Qed.
Lemma flow_entries_at_nonneg off bs : 0 <= off ->
  Forall (fun e => 0 <= en_offset e /\ 0 <= en_len e) (entries_at off bs).
Proof.
  revert off. induction bs as [|b bs IH]; intros off Hoff; cbn; constructor; [cbn; lia|]. apply IH. lia.
Qed.
Lemma zlen_payloads bs :
  foldr Z.add 0 ((fun bucket => zlen (sb_bytes bucket)) <$> bs) = zlen (concat (sb_bytes <$> bs)).
Proof. induction bs as [|b bs IH]; [done|]. cbn. rewrite length_app, IH. lia. Qed.

Lemma flow_contiguous_entries off bs :
  Forall (fun b => 0 < zlen (sb_bytes b)) bs -> Forall (fun b => 0 <= sb_bucket_start b < 2 ^ 64) bs ->
  off + zlen (concat (sb_bytes <$> bs)) < 2 ^ 64 ->
  contiguous off (entries_at off bs) (off + zlen (concat (sb_bytes <$> bs))).
Proof.
  intros Hn. revert off. induction Hn as [|b bs Hb Hn IH]; intros off Hs Hlt; cbn in *; [lia|].
  apply Forall_cons in Hs as [Hsb Hs]. rewrite length_app in *.
  specialize (IH (off + zlen (sb_bytes b)) Hs ltac:(lia)). split_and!; try lia.
  replace (off + Z.of_nat (length (sb_bytes b) + _)) with
    (off + zlen (sb_bytes b) + zlen (concat (sb_bytes <$> bs))) by lia. done.
Qed.

Section Canonical.
Context (width first : Z) (buckets : list SourceBucket) (Hcn : canonical width first buckets).
Context (Hpb : Forall (fun b => is_bytes (sb_bytes b)) buckets).
Let data := archive_bytes width first buckets.
Let n := zlen buckets.
Let end_ := directory_end_of n.
Let es := entries_at end_ buckets.
Let coverage := {| FlowGraph.first_timestamp := first; FlowGraph.last_timestamp := first + n * width - 1;
                   FlowGraph.bucket_seconds := width |}.

Lemma bucket_start_at i b : buckets !! i = Some b -> sb_bucket_start b = first + Z.of_nat i * width.
Proof.
  intros Hi. apply (evenly_lookup first width (sb_bucket_start <$> buckets) i); [apply Hcn|].
  by rewrite list_lookup_fmap, Hi.
Qed.
Lemma starts_typed : Forall (fun b => 0 <= sb_bucket_start b < 2 ^ 64) buckets.
Proof.
  apply Forall_lookup. intros i b Hi. rewrite (bucket_start_at i b Hi).
  apply lookup_lt_Some in Hi. destruct Hcn as [Hw _ _ _ Hr _ _]. nia.
Qed.
Lemma archive_is_bytes : is_bytes data.
Proof.
  unfold data, archive_bytes, header_bytes. cbn [concat]. rewrite !Forall_app.
  split_and!; try apply be_bytes_bytes; try done; [by apply is_bytes_check| |].
  - apply Forall_concat, Forall_fmap, Forall_true. intros e. unfold compose, entry_bytes. cbn [concat].
    rewrite !Forall_app. split_and!; apply be_bytes_bytes || done.
  - apply Forall_concat, Forall_fmap. exact Hpb.
Qed.
Lemma archive_parts : zlen data = end_ + zlen (concat (sb_bytes <$> buckets)) /\ end_ = 40 + n * 24 /\
  zlen (concat (entry_bytes <$> es)) = n * 24.
Proof.
  assert (end_ = 40 + n * 24) as He by (unfold end_, directory_end_of, ARCHIVE_HEADER_LEN, ARCHIVE_ENTRY_LEN; lia).
  assert (zlen (concat (entry_bytes <$> es)) = n * 24) as Hd
    by (rewrite flow_entries_bytes_length; unfold es; rewrite flow_entries_at_length; lia).
  split; [|done]. unfold data, archive_bytes. fold n end_ es.
  destruct (flow_header_fields width first n) as [Hh _]. rewrite !length_app. lia.
Qed.

Lemma coverage_complete : oforall (contiguous_pair width) (pairs es) = Ok tt /\
  exists e0 en, head es = Some e0 /\ last es = Some en /\ en_bucket_start e0 = first /\
    en_bucket_start en = first + (n - 1) * width.
Proof.
  pose proof starts_typed as Hst. destruct Hcn as [Hw Hn Hs _ _ _ _].
  assert (Forall (fun e => 0 <= en_bucket_start e < 2 ^ 64) es) as Ht.
  { assert (Forall (fun s => 0 <= s < 2 ^ 64) (en_bucket_start <$> es)) as H; [|by apply Forall_fmap in H].
    unfold es. rewrite entries_at_starts. by apply Forall_fmap. }
  rewrite <- (entries_at_starts end_ buckets) in Hs. fold es in Hs.
  assert (length es = length buckets) as Hl by apply flow_entries_at_length.
  destruct (last_is_Some es) as [_ [en Hen]]; [by intros Hnil; rewrite Hnil in Hl; cbn in Hl; lia|].
  destruct es as [|e0 es'] eqn:Hes; [done|]. pose proof Hs as [He0 _]. split.
  - apply pairs_Ok; [lia|done|]. by rewrite He0.
  - exists e0, en. split; [done|]. split; [done|]. split; [done|].
    assert (last (en_bucket_start <$> e0 :: es') = Some (en_bucket_start en)) as Hle by by rewrite fmap_last, Hen.
    apply (evenly_last _ _ _ _ Hs) in Hle. rewrite length_fmap, Hl in Hle. exact Hle.
Qed.

(** Reading back the directory of canonical buckets. *)
Lemma flow_directory_complete :
  read_authenticated_directory (reader_of data) (zlen data) = Ok (coverage, es, end_).
Proof.
  destruct archive_parts as (Hdata & Hend & Hdl). pose proof archive_is_bytes as Hb.
  destruct (flow_header_fields width first n) as (Hhl & F0 & F1 & F2 & F3 & F4 & F5).
  destruct Hcn as [Hw Hn Hs He Hr Hne Hlen]. fold data in Hlen. fold n in Hn, Hr.
  set (H := header_bytes width first n) in *. set (D := concat (entry_bytes <$> es)) in *.
  set (P := concat (sb_bytes <$> buckets)) in *. assert (data = H ++ D ++ P) as Heq by done.
  assert (is_bytes H /\ is_bytes D) as [HbH HbD]
    by (rewrite Heq in Hb; apply Forall_app in Hb as [? [? _]%Forall_app]; done).
  unfold read_authenticated_directory, ARCHIVE_HEADER_LEN, ARCHIVE_ENTRY_LEN.
  assert (reader_of data 0 40 = Ok H) as -> by (apply slice_Ok; rewrite Heq; by apply (get_range_app [])).
  cbn [mbind outcome_bind]. rewrite (proj2 (slice_Ok _ _ _ _) F0). cbn [mbind outcome_bind].
  rewrite bool_decide_eq_true_2 by done. cbn [assert mbind outcome_bind].
  rewrite (proj2 (read_u64_Ok H 8 width HbH)) by (split; [done|lia]). cbn [mbind outcome_bind].
  rewrite (proj2 (read_u64_Ok H 16 first HbH)) by (split; [done|nia]). cbn [mbind outcome_bind].
  rewrite (proj2 (read_u64_Ok H 24 (first + n * width - 1) HbH)) by (split; [done|nia]). cbn [mbind outcome_bind].
  rewrite (proj2 (read_u32_Ok H 32 n HbH)) by (split; [done|lia]). cbn [mbind outcome_bind].
  rewrite (proj2 (Z.ltb_lt 0 width)) by lia. cbn [assert mbind outcome_bind].
  rewrite (proj2 (read_u32_Ok H 36 0 HbH)) by (split; [done|lia]). cbn [mbind outcome_bind Z.eqb assert].
  rewrite (proj2 (Z.ltb_lt 0 n)) by lia. cbn [assert mbind outcome_bind].
  rewrite (to_u64_ok (n * 24)) by lia. cbn [expect mbind outcome_bind].
  rewrite to_u64_ok by lia. cbn [expect mbind outcome_bind].
  assert (reader_of data 40 (n * 24) = Ok D) as -> by (apply slice_Ok; rewrite Heq; by apply get_range_app).
  cbn [mbind outcome_bind]. change (Z.to_nat 24) with 24%nat.
  destruct (directory_chunks 24 (length buckets) D ltac:(lia) HbD ltac:(lia)) as (-> & Hcb & Hcl).
  rewrite <- Hend. assert (ofold directory_entry ([], end_) (chunks 24 D) = Ok (es, zlen data)) as ->.
  { apply flow_directory_loop; [exact Hcb|exact Hcl|lia|]. exists es. split; [done|]. split.
    - apply chunks_concat; [lia|]. apply Forall_fmap, Forall_true. apply flow_entry_bytes_length.
    - rewrite Hdata. apply flow_contiguous_entries; [done|apply starts_typed|]. fold P. lia. }
  cbn [mbind outcome_bind]. rewrite Z.eqb_refl. cbn [assert mbind outcome_bind].
  destruct coverage_complete as (-> & e0 & en & -> & -> & He0 & Hen). cbn [expect mbind outcome_bind].
  rewrite He0, Z.eqb_refl. cbn [assert expect mbind outcome_bind]. rewrite Hen.
  replace (first + (n - 1) * width + (width - 1)) with (first + n * width - 1) by lia.
  rewrite to_u64_ok by nia. cbn [expect mbind outcome_bind]. by rewrite Z.eqb_refl.
Qed.

(** The window of an aligned coverage is one of the buckets; that of another is
    none of them. *)
Lemma window_bucket `{HC : Crypto} fuel seed w : FlowGraph.derive_time_window fuel seed coverage = Ok w ->
  FlowGraph.bucket_start w `mod` width = 0 /\
  (first `mod` width = 0 -> exists i b, buckets !! i = Some b /\
     sb_bucket_start b = FlowGraph.bucket_start w /\ sb_bucket_end b = FlowGraph.bucket_end w).
Proof.
  destruct Hcn as [Hw Hn Hs He Hr _ _]. fold n in Hn, Hr. intros H.
  rewrite FlowGraph.derive_time_window_eq in H by (unfold coverage; split_and!; cbn; nia).
  unfold coverage, FlowGraph.bucket_count in H. cbn in H. rewrite (proj2 (Z.eqb_neq width 0)) in H by lia.
  destruct (_ <? _); [done|]. destruct (_ <=? _); [done|].
  apply bind_Ok_inv in H as (i & Hi & H). destruct (_ <=? _); [done|]. injection H as <-. cbn.
  split; [apply Z.mod_mul; lia|]. intros Hal.
  pose proof (Z.div_mod first width) as Hdm. rewrite Hal in Hdm. set (q := first `div` width) in *.
  assert ((first + n * width - 1) `div` width = q + n - 1) as Hlast
    by (symmetry; apply Z.div_unique with (width - 1); lia).
  rewrite Hlast in Hi. apply reject_loop_range in Hi; [|lia].
  destruct (lookup_lt_is_Some_2 buckets (Z.to_nat i)) as [b Hb]; [lia|].
  exists (Z.to_nat i), b. pose proof (bucket_start_at _ _ Hb) as Hsb. split; [done|].
  rewrite Forall_forall in He. rewrite (He b) by by eapply list_elem_of_lookup_2. nia.
Qed.

(** The host's choice of the selected bucket and the guest's. *)
Lemma select_entry i b w : buckets !! i = Some b -> sb_bucket_start b = FlowGraph.bucket_start w ->
  let off := end_ + zlen (concat (sb_bytes <$> take i buckets)) in
  selected_range buckets w = Ok (off, zlen (sb_bytes b), b) /\
  find (fun entry => en_bucket_start entry =? FlowGraph.bucket_start w) es
    = Some {| en_bucket_start := sb_bucket_start b; en_offset := off; en_len := zlen (sb_bytes b) |} /\
  reader_of data off (zlen (sb_bytes b)) = Ok (sb_bytes b).
Proof.
  intros Hi Hb off. pose proof Hcn as [Hw _ _ _ _ _ _].
  assert (forall j b', buckets !! j = Some b' -> sb_bucket_start b' = FlowGraph.bucket_start w -> j = i) as Huniq.
  { intros j b' Hj Hb'. apply bucket_start_at in Hj as Hsj. pose proof (bucket_start_at _ _ Hi). nia. }
  split; [|split].
  - unfold selected_range. rewrite (proj2 (list_find_Some _ _ i b)).
    + cbn. rewrite zlen_payloads. done.
    + split; [done|]. split; [done|]. intros j y Hj Hlt Hy. pose proof (Huniq j y Hj Hy). lia.
  - pose proof (flow_entries_at_lookup end_ buckets i b Hi) as He. fold es off in He.
    destruct (find _ es) as [e|] eqn:Hf.
    + apply find_some in Hf as [Hin Hst%Z.eqb_eq]. apply list_elem_of_In, list_elem_of_lookup in Hin as [j Hj].
      assert (exists b', buckets !! j = Some b' /\ sb_bucket_start b' = en_bucket_start e) as (b' & Hb' & Hbe).
      { assert ((en_bucket_start <$> es) !! j = Some (en_bucket_start e)) as Hl by by rewrite list_lookup_fmap, Hj.
        unfold es in Hl. rewrite entries_at_starts, list_lookup_fmap in Hl.
        destruct (buckets !! j) as [b'|]; [|done]. injection Hl as Hl. by exists b'. }
      rewrite (Huniq j b' Hb') in Hj by congruence. congruence.
    + apply list_elem_of_lookup_2, list_elem_of_In in He. apply (find_none _ _ Hf) in He. cbn in He.
      rewrite Hb in He. by rewrite Z.eqb_refl in He.
  - destruct archive_parts as (_ & He & Hdl). destruct (flow_header_fields width first n) as [Hhl _].
    apply slice_Ok. unfold data, archive_bytes. fold n end_ es.
    set (H := header_bytes width first n) in *. set (D := concat (entry_bytes <$> es)) in *.
    rewrite <- (take_drop_middle buckets i b Hi) at 1. rewrite fmap_app, concat_app.
    cbn [fmap list_fmap concat]. rewrite (app_assoc H), (app_assoc (H ++ D)).
    apply get_range_app; [|done]. unfold off. rewrite !length_app. lia.
Qed.
End Canonical.

(** The guest reads back what the host archives: the directory of canonical
    buckets is accepted with the host's coverage and offsets.  When the first
    timestamp is a multiple of the bucket width, the bucket that the seed selects
    is found by both at the same place, and the guest reads its rows there; when
    it is not, the selected bucket is in no directory, whatever the seed. *)
Theorem flow_archive_roundtrip `{HC : Crypto} width first buckets :
  canonical width first buckets -> Forall (fun b => is_bytes (sb_bytes b)) buckets ->
  let data := archive_bytes width first buckets in
  exists coverage entries,
    build_archive buckets = Ok data /\ source_coverage buckets = Ok coverage /\
    read_authenticated_directory (reader_of data) (zlen data)
      = Ok (coverage, entries, directory_end_of (zlen buckets)) /\
    forall fuel seed w, FlowGraph.derive_time_window fuel seed coverage = Ok w ->
      let found := find (fun entry => en_bucket_start entry =? FlowGraph.bucket_start w) entries in
      (first `mod` width = 0 ->
         exists off len b e, selected_range buckets w = Ok (off, len, b) /\ found = Some e /\
           en_offset e = off /\ en_len e = len /\ reader_of data off len = Ok (sb_bytes b) /\
           sb_bucket_end b = FlowGraph.bucket_end w) /\
      (first `mod` width <> 0 -> found = None).
Proof.
  intros Hcn Hpb data. destruct (build_flow_archive _ _ _ Hcn) as [Hba Hsc].
  eexists _, _. split; [exact Hba|]. split; [exact Hsc|]. split; [by apply flow_directory_complete|].
  intros fuel seed w Hw found. destruct (window_bucket width first buckets Hcn fuel seed w Hw) as [Hal Hb].
  split.
  - intros H0. destruct (Hb H0) as (i & b & Hi & Hs & He).
    destruct (select_entry width first buckets Hcn i b w Hi Hs) as (Hsel & Hf & Hr).
    eexists _, _, b, _. split; [exact Hsel|]. split; [exact Hf|]. done.
  - intros Hna. unfold found. destruct (find _ _) as [e|] eqn:Hf; [|done]. exfalso.
    apply find_some in Hf as [Hin Hst%Z.eqb_eq]. apply list_elem_of_In, list_elem_of_lookup in Hin as [j Hj].
    assert ((en_bucket_start <$> entries_at (directory_end_of (zlen buckets)) buckets) !! j
      = Some (en_bucket_start e)) as Hl by by rewrite list_lookup_fmap, Hj.
    rewrite entries_at_starts in Hl. apply (evenly_lookup first width) in Hl; [|apply Hcn].
    destruct Hcn as [Hwp _ _ _ _ _ _]. rewrite <- Hst, Hl, Z.mod_add in Hal by lia. done.
Qed.

(** ** What a run of the guest shows *)

Section Sound.
Context `{HC : Crypto} `{X : CidApi} {HL : CryptoLaws HC}.

(** C7: When the program succeeds on an opening of a blob, the blob is the archive of
    canonical buckets aligned to their width, the committed window is the one
    that the seed selects for their coverage and it is one of the buckets, and
    the committed digest is that of this bucket's rows, which are not empty and
    end with a line break. *)
Theorem flow_guest_sound fuel origin seed v data roots rows :
  opening_typed origin -> is_bytes data ->
  Committed (wo_blob_id origin) (zlen data) roots rows -> systematic data rows ->
  collision_free (fun m => m ∈ commitment_msgs (zlen data) roots rows origin ++ reader_msgs origin) ->
  main fuel origin seed = Ok v ->
  exists width first buckets coverage bucket cid,
    build_archive buckets = Ok data /\ canonical width first buckets /\ first `mod` width = 0 /\
    source_coverage buckets = Ok coverage /\
    FlowGraph.derive_time_window fuel seed coverage
      = Ok {| FlowGraph.bucket_start := fv_bucketStart v; FlowGraph.bucket_end := fv_bucketEnd v |} /\
    bucket ∈ buckets /\ sb_bucket_start bucket = fv_bucketStart v /\ sb_bucket_end bucket = fv_bucketEnd v /\
    validate_sample_shape (sb_bytes bucket) = Ok tt /\
    compute_ipfs_cid_zk_optimized (sb_bytes bucket) = Ok cid /\
    fv_originBlobId v = wo_blob_id origin /\ fv_samplingSeed v = seed /\
    get_from cid (zlen cid - 32) = Some (fv_sampleCidDigest v).
Proof.
  intros Ho Hb Hc Hsys HQ H. unfold main in H. apply bind_Ok_inv in H as ([] & Hv & H).
  destruct (opening_reads_source origin data roots rows Ho Hc Hsys HQ (or_introl Hv)) as (Hl & _ & Hr).
  destruct Hc as [Hd _ _ _].
  assert (reads (read_origin_range origin) data) as Hreads.
  { intros off len r Hoff Hlen. apply read_range_Ok; try done. lia. }
  unfold sample_bucket in H. rewrite Hl in H.
  apply bind_Ok_inv in H as ([[coverage entries] end_] & Hdir & H).
  apply bind_Ok_inv in H as (w & Hw%unwrap_Ok & H). apply bind_Ok_inv in H as (e & Hf%expect_Ok & H).
  apply bind_Ok_inv in H as ([] & _ & H). apply bind_Ok_inv in H as (req & _ & H).
  apply bind_Ok_inv in H as (req' & _ & H). apply bind_Ok_inv in H as ([] & _ & H).
  apply bind_Ok_inv in H as (sample & Hsample & H). apply bind_Ok_inv in H as ([] & Hshape & H).
  apply bind_Ok_inv in H as (digest & Hdig & [= <-]).
  pose proof (flow_directory_sound _ data _ _ _ Hb ltac:(lia) Hreads Hdir)
    as (width & first & buckets & Hdata & Hcn & -> & Hend & Hent & Hbk).
  destruct (build_flow_archive _ _ _ Hcn) as [Hba Hsc]. rewrite <- Hdata in Hba.
  assert (Forall (fun e => 0 <= en_offset e /\ 0 <= en_len e) entries) as Hnn.
  { rewrite Hent. apply flow_entries_at_nonneg. rewrite Hend. unfold directory_end_of, ARCHIVE_HEADER_LEN, ARCHIVE_ENTRY_LEN. lia. }
  apply find_some in Hf as [Hin Hst%Z.eqb_eq]. apply list_elem_of_In in Hin.
  rewrite Forall_forall in Hnn. destruct (Hnn e Hin) as [Hoff Hlen].
  apply Hreads in Hsample; [|done..]. apply get_range_Some in Hsample as (_ & _ & _ & Hsample).
  assert (bucket_of data width e ∈ buckets) as Hbin by (rewrite Hbk; by apply list_elem_of_fmap_2).
  pose proof Hbin as [j Hj]%list_elem_of_lookup. apply (bucket_start_at width first buckets Hcn) in Hj.
  cbn in Hj. destruct (window_bucket width first buckets Hcn fuel seed w Hw) as [Hal Hwb].
  pose proof Hcn as [Hwp _ _ Hends _ _ _].
  assert (first `mod` width = 0) as Hal0 by (rewrite <- Hst, Hj, Z.mod_add in Hal by lia; done).
  destruct (Hwb Hal0) as (i & b & Hbi & Hbs & Hbe). apply list_elem_of_lookup_2 in Hbi.
  rewrite Forall_forall in Hends. pose proof (Hends b Hbi) as Hend1.
  apply sample_cid_digest_Ok in Hdig as (cid & Hcid & Hdig).
  eexists width, first, buckets, _, (bucket_of data width e), cid. cbn [fv_bucketStart fv_bucketEnd].
  subst sample. split_and!; try done; [rewrite Hw; by destruct w|].
  cbn. by rewrite <- Hbe, Hend1, Hbs, Hst.
Qed.

(** The byte ranges that a run discloses: the directory, and the rows of the
    bucket at the host's place. *)
Definition flow_disclosed (buckets : list SourceBucket) (w : FlowGraph.TimeWindow) (range : Z * Z) : Prop :=
  range = (0, directory_end_of (zlen buckets)) \/
  exists bucket, selected_range buckets w = Ok (range, bucket).

(** A run opens the symbols of these ranges and no others. *)
Lemma flow_main_opens fuel origin seed v data roots rows :
  opening_typed origin -> is_bytes data ->
  Committed (wo_blob_id origin) (zlen data) roots rows -> systematic data rows ->
  collision_free (fun m => m ∈ commitment_msgs (zlen data) roots rows origin ++ reader_msgs origin) ->
  main fuel origin seed = Ok v ->
  exists width first buckets coverage w,
    build_archive buckets = Ok data /\ canonical width first buckets /\
    source_coverage buckets = Ok coverage /\ FlowGraph.derive_time_window fuel seed coverage = Ok w /\
    (exists range bucket, selected_range buckets w = Ok (range, bucket)) /\
    forall shard leaf, opened_at origin shard leaf <->
      exists k range, flow_disclosed buckets w range /\ overlaps (walrus_symbol_size (zlen data)) k range /\
        shard = k `div` COL_HEIGHT_SECONDARY /\ leaf = k `mod` COL_HEIGHT_SECONDARY.
Proof.
  intros Ho Hb Hc Hsys HQ H. unfold main in H. apply bind_Ok_inv in H as ([] & Hv & H).
  destruct (opening_reads_source origin data roots rows Ho Hc Hsys HQ (or_introl Hv)) as (Hl & Hnd & Hr).
  destruct Hc as [Hd _ _ _].
  assert (reads (read_origin_range origin) data) as Hreads.
  { intros off len r Hoff Hlen. apply read_range_Ok; try done. lia. }
  unfold sample_bucket in H. rewrite Hl in H.
  apply bind_Ok_inv in H as ([[coverage entries] end_] & Hdir & H).
  apply bind_Ok_inv in H as (w & Hw%unwrap_Ok & H). apply bind_Ok_inv in H as (e & Hf%expect_Ok & H).
  apply bind_Ok_inv in H as ([] & _ & H). apply bind_Ok_inv in H as (needed & H1 & H).
  apply bind_Ok_inv in H as (required & H2 & H). apply bind_Ok_inv in H as ([] & Hex & _).
  pose proof (flow_directory_sound _ data _ _ _ Hb ltac:(lia) Hreads Hdir)
    as (width & first & buckets & Hdata & Hcn & -> & -> & -> & _).
  destruct (build_flow_archive _ _ _ Hcn) as [Hba Hsc]. rewrite <- Hdata in Hba.
  pose proof Hf as [Hin Hst%Z.eqb_eq]%find_some. apply list_elem_of_In, list_elem_of_lookup in Hin as [i Hi].
  destruct (lookup_lt_is_Some_2 buckets i) as [b Hbi].
  { apply lookup_lt_Some in Hi. by rewrite flow_entries_at_length in Hi. }
  pose proof (flow_entries_at_lookup (directory_end_of (zlen buckets)) buckets i b Hbi) as He.
  rewrite Hi in He. injection He as He. rewrite He in Hst. cbn [en_bucket_start] in Hst.
  destruct (select_entry width first buckets Hcn i b w Hbi Hst) as (Hsel & Hfind & Hread).
  rewrite Hf in Hfind. injection Hfind as He'. apply slice_Ok, get_range_Some in Hread as (Hr1 & Hr2 & Hr3 & _).
  rewrite <- Hdata in Hr3.
  set (off := directory_end_of (zlen buckets) + zlen (concat (sb_bytes <$> take i buckets))) in *.
  exists width, first, buckets. eexists _, w. split; [done|]. split; [done|]. split; [exact Hsc|].
  split; [done|]. split; [eauto|].
  set (ranges := [(0, directory_end_of (zlen buckets)); (off, zlen (sb_bytes b))]).
  assert (ofold (mark_one (walrus_symbol_size (zlen data))) ∅ ranges = Ok required) as Hm.
  { unfold ranges. rewrite mark_one_cons, H1. cbn [mbind outcome_bind]. rewrite mark_one_cons.
    rewrite He in H2. cbn [en_offset en_len] in H2. by rewrite H2. }
  assert (forall range, range ∈ ranges <-> flow_disclosed buckets w range) as Hdis.
  { intros range. unfold ranges, flow_disclosed. rewrite Hsel, elem_of_cons, list_elem_of_singleton. naive_solver. }
  pose proof (fc_nonempty _ _ _ Hcn) as Hne. rewrite Forall_forall in Hne.
  specialize (Hne b ltac:(by eapply list_elem_of_lookup_2)).
  assert (0 < directory_end_of (zlen buckets) <= off) as Hend.
  { unfold off, directory_end_of, ARCHIVE_HEADER_LEN, ARCHIVE_ENTRY_LEN. lia. }
  destruct (symbol_size_bounds (zlen data) ltac:(lia)) as [Hs1 Hs2].
  intros shard leaf. rewrite (exact_openings origin (walrus_symbol_size (zlen data)) ranges required);
    [|lia|lia| |done..].
  - by setoid_rewrite Hdis.
  - rewrite Hl. unfold ranges. repeat (constructor; cbn [fst snd]); lia.
Qed.
End Sound.

(** ** An archive of two buckets *)

Definition two_buckets : list SourceBucket :=
  [{| sb_bucket_start := 120; sb_bucket_end := 180; sb_bytes := [97; 10] |};
   {| sb_bucket_start := 180; sb_bucket_end := 240; sb_bytes := [98; 10; 99; 10] |}].
Definition two_data : bytes := Eval vm_compute in archive_bytes 60 120 two_buckets.
Lemma two_canonical : canonical 60 120 two_buckets.
Proof. split; by repeat constructor. Qed.
Local Existing Instance cheap_crypto.
Definition two_coverage : FlowGraph.TimeCoverage :=
  {| FlowGraph.first_timestamp := 120; FlowGraph.last_timestamp := 239; FlowGraph.bucket_seconds := 60 |}.
Definition two_window : FlowGraph.TimeWindow :=
  {| FlowGraph.bucket_start := 120; FlowGraph.bucket_end := 180 |}.

Lemma flow_archive_roundtrip_witness :
  build_archive two_buckets = Ok two_data /\
  exists b, selected_range two_buckets two_window = Ok (88, 2, b) /\ sb_bytes b = [97; 10].
Proof.
  destruct (flow_archive_roundtrip 60 120 two_buckets two_canonical) as (cov & es & Ha & Hc & _ & Hw).
  { do 2 (apply Forall_cons; split; [apply is_bytes_check; reflexivity|]). constructor. }
  split; [exact Ha|].
  assert (cov = two_coverage) as -> by (vm_compute in Hc; injection Hc as <-; reflexivity).
  destruct (Hw 1%nat [1; 2; 3] two_window) as [Hsel _]; [vm_compute; reflexivity|].
  destruct (Hsel eq_refl) as (off & len & b & e & Hr & _).
  vm_compute in Hr. injection Hr as <- <- <-. eexists. split; [vm_compute; reflexivity|reflexivity].
Defined.

Definition two_needed : selection :=
  match needed ← mark_range ∅ 0 88 (walrus_symbol_size 94); mark_range needed 88 2 (walrus_symbol_size 94) with
  | Ok n => n | _ => ∅ end.
Definition two_opening : WalrusOpening := Eval vm_compute in small_opening two_data two_needed.

Lemma flow_guest_sound_witness :
  exists v width first buckets, main (X := toy_cid) 1 two_opening [1; 2; 3] = Ok v /\
    build_archive buckets = Ok two_data /\ canonical width first buckets /\ first `mod` width = 0.
Proof.
  assert (exists v, main (X := toy_cid) 1 two_opening [1; 2; 3] = Ok v) as [v Hv]
    by (eexists; vm_compute; reflexivity).
  destruct (flow_guest_sound (X := toy_cid) 1 two_opening [1; 2; 3] v two_data
    (small_roots two_data) (small_rows two_data)) as (width & first & buckets & cov & b & cid & H1 & H2 & H3 & _).
  - apply reader_typedb_ok. vm_compute. reflexivity.
  - apply is_bytes_check. reflexivity.
  - apply small_committed; [done|vm_compute; reflexivity].
  - apply small_systematic. done.
  - apply collision_free_list_ok. vm_compute. reflexivity.
  - exact Hv.
  - exists v, width, first, buckets. split; [exact Hv|]. split; [exact H1|]. split; [exact H2|exact H3].
Defined.
