(* ===== verification/ExactOpenings.v ===== *)
(** What the openings of the cluster and of the flow graph sampling programs
    disclose ([assert_exact_symbol_selection] as the two [main]s call it,
    [guest/{cluster,flow-graph}-sampling/program]).

    Both programs mark the ranges that they need and compare them with the
    opening they were given; [ClusterGuest] and [FlowGuest] say which ranges
    these are for the archive that is sampled.  The video program makes no such
    comparison. *)
From S2P Require Import Prelude Crypto Cid WalrusMerkle WalrusConfig Rslh Multiproof SymbolReader HostOpening.
From S2P Require Import DatasetSampling Archive ClusterGuest FlowGuest.
#[local] Open Scope Z_scope.

Section Exact.
Context `{HC : Crypto} `{X : CidApi} {HL : CryptoLaws HC}.

(** C12: An accepted run opens exactly what its sample needs. When the cluster
    program succeeds on an opening, symbol [leaf] of the sliver of [shard] is
    opened if and only if it overlaps the directory of the archive or the record
    of a cluster that the seed selects; when the flow graph program succeeds, if
    and only if it overlaps the directory or the rows of the bucket that the
    seed selects. *)
Theorem sampling_opens_exactly origin data roots rows :
  opening_typed origin -> is_bytes data ->
  Committed (wo_blob_id origin) (zlen data) roots rows -> systematic data rows ->
  collision_free (fun m => m ∈ commitment_msgs (zlen data) roots rows origin ++ reader_msgs origin) ->
  let opens_exactly (disclosed : Z * Z -> Prop) := forall shard leaf, opened_at origin shard leaf <->
    exists k range, disclosed range /\ overlaps (walrus_symbol_size (zlen data)) k range /\
      shard = k `div` COL_HEIGHT_SECONDARY /\ leaf = k `mod` COL_HEIGHT_SECONDARY in
  (forall fuel seed v, ClusterGuest.main fuel origin seed = Ok v ->
     exists clusters selected,
       data = ClusterGuest.build_archive clusters /\ ClusterGuest.canonical clusters /\
       Cluster.derive_cluster_indices fuel seed (zlen clusters) [0; 0; 0] = Ok selected /\
       opens_exactly (cluster_disclosed clusters selected)) /\
  (forall fuel seed v, FlowGuest.main fuel origin seed = Ok v ->
     exists width first buckets coverage w,
       FlowGuest.build_archive buckets = Ok data /\ FlowGuest.canonical width first buckets /\
       source_coverage buckets = Ok coverage /\
       FlowGraph.derive_time_window fuel seed coverage = Ok w /\
       (exists range bucket, selected_range buckets w = Ok (range, bucket)) /\
       opens_exactly (flow_disclosed buckets w)).
Proof.
  intros Ho Hb Hc Hsys HQ opens_exactly. split; intros fuel seed v H.
  - by apply (cluster_main_opens fuel origin seed v data roots rows).
  - by apply (flow_main_opens fuel origin seed v data roots rows).
Qed.
End Exact.

(** The runs over the archives of three clusters and of two buckets: the last
    symbol of the first archive is disclosed, and the rows of the bucket that is
    not selected, symbols 45 and 46 of the second, are not. *)
Local Existing Instance cheap_crypto.
Lemma sampling_opens_exactly_witness :
  (exists clusters selected, three_data = ClusterGuest.build_archive clusters /\
     exists k range, cluster_disclosed clusters selected range /\ overlaps 2 k range /\ k `mod` 667 = 161) /\
  (exists buckets w, FlowGuest.build_archive buckets = Ok two_data /\
     forall range, flow_disclosed buckets w range -> ~ overlaps 2 45 range).
Proof.
  split.
  - destruct (sampling_opens_exactly (X := toy_cid) three_opening three_data
      (small_roots three_data) (small_rows three_data)) as [H _].
    + apply reader_typedb_ok. vm_compute. reflexivity.
    + apply is_bytes_check. reflexivity.
    + apply small_committed; [done|vm_compute; reflexivity].
    + apply small_systematic. done.
    + apply collision_free_list_ok. vm_compute. reflexivity.
    + assert (exists v, ClusterGuest.main (X := toy_cid) 9 three_opening [1; 2; 3] = Ok v) as [v Hv]
        by (eexists; vm_compute; reflexivity).
      destruct (H _ _ _ Hv) as (clusters & selected & Hdata & _ & _ & Hex).
      exists clusters, selected. split; [exact Hdata|].
      assert (opened_at three_opening 0 161) as Hopen by (apply opened_atb_ok; vm_compute; reflexivity).
      assert (walrus_symbol_size (zlen three_data) = 2) as Hsize by (vm_compute; reflexivity).
      apply Hex in Hopen as (k & range & Hdis & Hov & _ & Hleaf). rewrite Hsize in Hov.
      exists k, range. split; [exact Hdis|]. split; [exact Hov|]. symmetry. exact Hleaf.
  - destruct (sampling_opens_exactly (X := toy_cid) two_opening two_data
      (small_roots two_data) (small_rows two_data)) as [_ H].
    + apply reader_typedb_ok. vm_compute. reflexivity.
    + apply is_bytes_check. reflexivity.
    + apply small_committed; [done|vm_compute; reflexivity].
    + apply small_systematic. done.
    + apply collision_free_list_ok. vm_compute. reflexivity.
    + assert (exists v, FlowGuest.main (X := toy_cid) 1 two_opening [1; 2; 3] = Ok v) as [v Hv]
        by (eexists; vm_compute; reflexivity).
      destruct (H _ _ _ Hv) as (width & first & buckets & coverage & w & Hdata & _ & _ & _ & _ & Hex).
      exists buckets, w. split; [exact Hdata|]. intros range Hdis Hov.
      assert (walrus_symbol_size (zlen two_data) = 2) as Hsize by (vm_compute; reflexivity).
      assert (opened_atb two_opening 0 45 = true) as Hopen
        by (apply opened_atb_ok, Hex; exists 45, range; split; [exact Hdis|]; rewrite Hsize;
            split; [exact Hov|split; reflexivity]).
      vm_compute in Hopen. discriminate.
Defined.
