(* ===== verification/VideoGuest.v ===== *)
(** The video sampling guest ([guest/video-sampling/program/src/main.rs]): the
    directory of top-level MP4 boxes read back through authenticated symbols, the
    plan of three previews of the authenticated track, and the previews put
    together from host templates and authenticated samples.

    The guest's functions take the reader of byte ranges as an argument, so that
    a run over an opening is compared with a run over the video itself: the
    directory check is proved to give what the parser of whole files gives, and
    a preview to hold the video's samples.  The ABI encoding of the committed
    values is not modelled. *)
From S2P Require Import Prelude Crypto Rslh Cid WalrusMerkle WalrusConfig Multiproof SymbolReader HostOpening Rejection Mp4 VideoSampling Archive.
From stdpp Require Import sorting.
#[local] Open Scope Z_scope.

Definition PREVIEW_DURATION_MS : Z := 5000.

Record TopLevelBox := {
  tb_offset : Z;
  tb_size : Z;
  tb_kind : bytes;
  tb_header_size : Z;
}.
Record PreviewSegment := {
  ps_offset : Z;
  ps_bytes : bytes;
}.
Record PreviewTemplate := {
  pt_file_len : Z;
  pt_non_sample_segments : list PreviewSegment;
}.
Record VideoSamplingWitness := {
  vw_origin : WalrusOpening;
  vw_top_level_boxes : list TopLevelBox;
  vw_previews : list PreviewTemplate;
}.
Record SaleContext := {
  sale_chain_id : Z;
  sale_sale_contract : bytes;
  sale_sale_id : bytes;
  sale_external_randomness : bytes;
}.
Record VideoSamplingPublicValues := {
  vv_originBlobId : bytes;
  vv_specHash : bytes;
  vv_samplingSeed : bytes;
  vv_previewCidDigest0 : bytes;
  vv_previewCidDigest1 : bytes;
  vv_previewCidDigest2 : bytes;
}.

(** ** The directory of top-level boxes *)

(** One round of the loop of [authenticated_moov]. *)
Definition check_box (read : Z -> Z -> guest bytes) (st : Z * option bytes) (entry : TopLevelBox)
    : guest (Z * option bytes) :=
  let '(cursor, moov_payload) := st in
  assert (tb_offset entry =? cursor) "top-level MP4 directory has a gap" ;;
  assert ((tb_header_size entry =? 8) || (tb_header_size entry =? 16)) "invalid MP4 header size" ;;
  assert (tb_header_size entry <=? tb_size entry) "invalid top-level MP4 box size" ;;
  header ← read (tb_offset entry) (tb_header_size entry);
  kind ← slice header 4 4;
  assert (bool_decide (kind = tb_kind entry)) "top-level MP4 type mismatch" ;;
  word ← Archive.read_u32 header 0;
  declared ←
    (if tb_header_size entry =? 8 then Ok word
     else assert (word =? 1) "assertion failed" ;; Archive.read_u64 header 8);
  assert (declared =? tb_size entry) "top-level MP4 size mismatch" ;;
  assert (negb (bool_decide (tb_kind entry = ascii_bytes "moof"))) "fragmented MP4 is unsupported" ;;
  moov_payload ←
    (if bool_decide (tb_kind entry = ascii_bytes "moov") then
       assert (bool_decide (moov_payload = None)) "multiple moov boxes" ;;
       moov ← read (tb_offset entry + tb_header_size entry) (tb_size entry - tb_header_size entry);
       Ok (Some moov)
     else Ok moov_payload);
  cursor ← expect (to_u64 (cursor + tb_size entry)) "MP4 directory overflow";
  Ok (cursor, moov_payload).
Definition authenticated_moov (read : Z -> Z -> guest bytes) (unencoded_length : Z)
    (top_level_boxes : list TopLevelBox) : guest bytes :=
  '(cursor, moov_payload) ← ofold (check_box read) (0, None) top_level_boxes;
  assert (cursor =? unencoded_length) "MP4 directory length mismatch" ;;
  expect moov_payload "missing moov box".

(** ** The samples of a preview *)

(** [iter.max()] *)
Definition iter_max (l : list Z) : option Z :=
  match l with [] => None | x :: l => Some (foldl Z.max x l) end.
Definition selected_samples (samples : list VideoSample) (plan : SamplePlan) : guest (list VideoSample) :=
  last_index ← expect (iter_max (index <$> filter (fun sample =>
      (decode_start_sample plan <=? index sample) && (presentation_time sample <? presentation_end_time plan) = true)
      samples)) "sample window contains no frames";
  Ok (filter (fun sample => (decode_start_sample plan <=? index sample) && (index sample <=? last_index) = true)
        samples).

(** One segment of the template: the preview, the ranges supplied so far and the
    end of the last one. *)
Definition place_segment (file_len : Z) (st : bytes * list (Z * Z) * Z) (segment : PreviewSegment)
    : guest (bytes * list (Z * Z) * Z) :=
  let '(preview, supplied_segments, previous_end) := st in
  let start := ps_offset segment in
  end_ ← expect (to_u64 (start + zlen (ps_bytes segment))) "preview segment overflow";
  assert ((previous_end <=? start) && (end_ <=? file_len)) "invalid preview segment" ;;
  Ok (splice preview start (ps_bytes segment), supplied_segments ++ [(start, end_)], end_).

(** The lexicographic order of pairs. *)
Definition range_le (x y : Z * Z) : Prop := x.1 < y.1 \/ (x.1 = y.1 /\ x.2 <= y.2).
#[export] Instance range_le_dec x y : Decision (range_le x y).
Proof. unfold range_le. apply _. Defined.

Definition sample_range (file_len : Z) (sample : VideoSample) : guest (Z * Z) :=
  let start := byte_offset sample in
  end_ ← expect (to_u64 (start + byte_size sample)) "sample range overflow";
  assert (end_ <=? file_len) "sample outside preview" ;;
  Ok (start, end_).
Definition sorted_sample_ranges (samples : list VideoSample) (file_len : Z) : guest (list (Z * Z)) :=
  ranges ← omapM (sample_range file_len) samples;
  let ranges := merge_sort range_le ranges in
  oforall (fun '(a, b) => assert (a.2 <=? b.1) "overlapping preview samples") (zip ranges (tail ranges)) ;;
  Ok ranges.

Definition complement_step (st : list (Z * Z) * Z) (range : Z * Z) : list (Z * Z) * Z :=
  let '(result, cursor) := st in
  let '(start, end_) := range in
  (if cursor <? start then result ++ [(cursor, start)] else result, end_).
Definition complement_ranges (sample_ranges : list (Z * Z)) (file_len : Z) : list (Z * Z) :=
  let '(result, cursor) := foldl complement_step ([], 0) sample_ranges in
  if cursor <? file_len then result ++ [(cursor, file_len)] else result.

(** One sample copied into the preview. *)
Definition place_sample (read : Z -> Z -> guest bytes) (preview : bytes) (pair : VideoSample * VideoSample)
    : guest bytes :=
  let '(preview_sample, source_sample) := pair in
  assert (byte_size preview_sample =? byte_size source_sample) "preview sample size changed" ;;
  assert (duration preview_sample =? duration source_sample) "preview sample duration changed" ;;
  assert (bool_decide (is_sync preview_sample = is_sync source_sample)) "preview sync table changed" ;;
  let preview_start := byte_offset preview_sample in
  source_bytes ← read (byte_offset source_sample) (byte_size source_sample);
  old ← expect (get_range preview preview_start (byte_size preview_sample)) "range end index out of range";
  assert (length old =? length source_bytes)%nat "copy_from_slice: source slice length does not match" ;;
  Ok (splice preview preview_start source_bytes).

Definition materialize_preview (read : Z -> Z -> guest bytes) (template : PreviewTemplate)
    (source_codec : bytes) (source_samples : list VideoSample) : guest bytes :=
  let file_len := pt_file_len template in
  '(preview, supplied_segments, _) ← ofold (place_segment file_len) (zeros file_len, [], 0)
    (pt_non_sample_segments template);
  preview_track ← unwrap (parse_mp4_video_track preview) "invalid preview MP4 template";
  assert (bool_decide (codec preview_track = source_codec)) "preview codec changed" ;;
  assert (length (samples preview_track) =? length source_samples)%nat "preview sample count changed" ;;
  sample_ranges ← sorted_sample_ranges (samples preview_track) file_len;
  assert (bool_decide (supplied_segments = complement_ranges sample_ranges file_len))
    "preview template must contain exactly the non-sample bytes" ;;
  ofold (place_sample read) preview (zip (samples preview_track) source_samples).

(** ** The program *)

Section Guest.
Context `{HC : Crypto} `{X : CidApi}.

(** One plan: the digest of its preview is written at its bucket. *)
Definition preview_digest (read : Z -> Z -> guest bytes) (previews : list PreviewTemplate)
    (track : VideoTrack) (digests : list bytes) (plan : SamplePlan) : guest (list bytes) :=
  selected ← selected_samples (samples track) plan;
  template ← expect (get_at previews (bucket_index plan)) "index out of bounds";
  preview ← materialize_preview read template (codec track) selected;
  digest ← sample_cid_digest preview;
  expect (get_at digests (bucket_index plan)) "index out of bounds" ;;
  Ok (<[Z.to_nat (bucket_index plan) := digest]> digests).

(** The program after the check of the opening. *)
Definition sample_video (fuel : nat) (read : Z -> Z -> guest bytes) (blob_id : bytes)
    (unencoded_length : Z) (boxes : list TopLevelBox) (previews : list PreviewTemplate)
    (sale : SaleContext) : guest VideoSamplingPublicValues :=
  moov ← authenticated_moov read unencoded_length boxes;
  source_track ← unwrap (parse_mp4_video_track_from_moov moov unencoded_length)
    "unsupported authenticated MP4 metadata";
  spec_hash ← unwrap (sampling_spec_hash PREVIEW_DURATION_MS) "valid sampling spec";
  let sampling_seed := derive_sampling_seed {|
    chain_id := sale_chain_id sale; sale_contract := sale_sale_contract sale;
    sale_id := sale_sale_id sale; origin_blob_id := blob_id; spec_hash := spec_hash;
    external_randomness := sale_external_randomness sale |} in
  plans ← unwrap (plan_three_samples fuel source_track sampling_seed PREVIEW_DURATION_MS)
    "unable to plan authenticated video samples";
  digests ← ofold (preview_digest read previews source_track) (replicate 3 (replicate 32 0)) plans;
  d0 ← expect (get_at digests 0) "index out of bounds";
  d1 ← expect (get_at digests 1) "index out of bounds";
  d2 ← expect (get_at digests 2) "index out of bounds";
  Ok {| vv_originBlobId := blob_id; vv_specHash := spec_hash; vv_samplingSeed := sampling_seed;
        vv_previewCidDigest0 := d0; vv_previewCidDigest1 := d1; vv_previewCidDigest2 := d2 |}.

(** The whole program; the committed values are its result. *)
Definition main (fuel : nat) (witness : VideoSamplingWitness) (sale : SaleContext)
    : guest VideoSamplingPublicValues :=
  let origin := vw_origin witness in
  verify_walrus_video_opening origin ;;
  sample_video fuel (read_video_range origin) (wo_blob_id origin) (wo_unencoded_length origin)
    (vw_top_level_boxes witness) (vw_previews witness) sale.
End Guest.

(** ** The directory and the parser of whole files *)

Lemma get_range_within {A} (l h x : list A) off len a b :
  get_range l off len = Some h -> get_range h a b = Some x -> get_range (drop (Z.to_nat off) l) a b = Some x.
Proof.
  intros (Ho & Hl & Hle & ->)%get_range_Some (Ha & Hb & Hab & ->)%get_range_Some.
  rewrite length_take, length_drop in Hab. apply get_range_Some. rewrite length_drop.
  split_and!; [lia..|]. rewrite skipn_firstn_comm, take_take. f_equal. lia.
Qed.
Lemma be_word n b v : b = be_bytes n v -> 0 <= v < 2 ^ (8 * Z.of_nat n) -> be_val b = v.
Proof. intros ->. apply be_val_bytes. Qed.

(** The size a header declares is the size that the iterator reads. *)
Lemma box_next_declared data cursor hs size word rest :
  0 <= cursor -> 0 <= size -> cursor + size <= zlen data -> zlen data < 2 ^ 64 -> hs <= size ->
  rest = drop (Z.to_nat cursor) data ->
  (hs = 8 /\ word = size \/ hs = 16 /\ word = 1 /\ Mp4.read_u64 rest 8 = Some size) ->
  Mp4.read_u32 rest 0 = Some word ->
  exists p, get_range data (cursor + hs) (size - hs) = Some p /\
    box_next data cursor = (Some (Ok {| kind := take 4 (drop 4 rest); payload := p |}), cursor + size).
Proof.
  intros Hc Hs Hle Hd Hhs -> Hhdr Hw. assert (hs = 8 \/ hs = 16) as Hh by lia.
  destruct (get_range_is_Some data (cursor + hs) (size - hs)) as [p Hp]; [lia..|]. exists p. split; [done|].
  unfold box_next. rewrite (proj2 (Z.eqb_neq cursor (zlen data))) by lia.
  assert (zlen (drop (Z.to_nat cursor) data) = zlen data - cursor) as Hl by (rewrite length_drop; lia).
  rewrite (proj2 (Z.ltb_ge _ _)) by lia. rewrite Hw.
  assert (forall k, box_item data cursor (drop (Z.to_nat cursor) data) k hs size
    = (Some (Ok {| kind := k; payload := p |}), cursor + size)) as Hitem.
  { intros k. unfold box_item. rewrite (proj2 (Z.ltb_ge size hs)), (proj2 (Z.ltb_ge _ size)) by lia. cbn [orb].
    rewrite to_u64_ok by lia. do 2 f_equal.
    assert (get_range (drop (Z.to_nat cursor) data) hs (size - hs) = Some p) as ->.
    { apply get_range_Some in Hp as (_ & _ & _ & ->). apply get_range_Some. rewrite Hl.
      split_and!; [lia..|]. rewrite drop_drop. do 2 f_equal. lia. }
    done. }
  destruct Hhdr as [[-> ->]|(-> & -> & H64)].
  - rewrite (proj2 (Z.eqb_neq size 1)), (proj2 (Z.eqb_neq size 0)) by lia. apply Hitem.
  - cbn [Z.eqb Pos.eqb]. rewrite (proj2 (Z.ltb_ge _ 16)) by lia. rewrite H64, to_u64_ok by lia. apply Hitem.
Qed.

Section Directory.
Context (read : Z -> Z -> guest bytes) (data : bytes).
Context (Hb : is_bytes data) (Hd : zlen data < 2 ^ 64) (Hread : reads read data).

(** One entry of the directory is the box the iterator finds at the cursor. *)
Lemma check_box_next cursor m entry cursor' m' :
  0 <= cursor -> check_box read (cursor, m) entry = Ok (cursor', m') -> cursor' <= zlen data ->
  8 <= cursor' - cursor /\
  exists item, box_next data cursor = (Some (Ok item), cursor') /\ top_box m item = Ok m'.
Proof.
  intros Hc H Hle. unfold check_box in H.
  apply bind_Ok_inv in H as ([] & H1%assert_Ok & H). apply bind_Ok_inv in H as ([] & H2%assert_Ok & H).
  apply bind_Ok_inv in H as ([] & H3%assert_Ok & H). apply bind_Ok_inv in H as (header & Hh & H).
  apply bind_Ok_inv in H as (k & Hk%slice_Ok & H). apply bind_Ok_inv in H as ([] & H4%assert_Ok & H).
  apply bind_Ok_inv in H as (word & Hw & H). apply bind_Ok_inv in H as (declared & Hdecl & H).
  apply bind_Ok_inv in H as ([] & H5%assert_Ok & H). apply bind_Ok_inv in H as ([] & H6%assert_Ok & H).
  apply bind_Ok_inv in H as (m1 & Hm & H).
  apply bind_Ok_inv in H as (c1 & [-> Hc1]%expect_Ok%to_u64_Some & [= <- <-]). bool_hyps.
  set (hs := tb_header_size entry) in *. set (size := tb_size entry) in *. subst declared k. rewrite H1 in *.
  assert (hs = 8 \/ hs = 16) as Hhs by (destruct H2; bool_hyps; lia).
  apply Hread in Hh; [|lia..]. pose proof (get_range_Forall _ _ _ _ _ Hb Hh) as Hhb.
  apply read_u32_Ok in Hw as [Hw Hwr]; [|done]. pose proof (get_range_within _ _ _ _ _ _ _ Hh Hw) as Hwd.
  set (rest := drop (Z.to_nat cursor) data) in *.
  assert (Mp4.read_u32 rest 0 = Some word) as Hword
    by (unfold Mp4.read_u32; rewrite Hwd; cbn; f_equal; by apply (be_word 4 _ _ eq_refl)).
  assert (hs = 8 /\ word = size \/ hs = 16 /\ word = 1 /\ Mp4.read_u64 rest 8 = Some size) as Hdeclared.
  { destruct Hhs as [E|E]; rewrite E in Hdecl.
    - injection Hdecl as ->. by left.
    - right. split; [done|]. apply bind_Ok_inv in Hdecl as ([] & Hw1%assert_Ok%Z.eqb_eq & H64).
      split; [done|]. apply read_u64_Ok in H64 as [H64 Hr]; [|done].
      apply (get_range_within _ _ _ _ _ _ _ Hh) in H64. fold rest in H64.
      unfold Mp4.read_u64. rewrite H64. cbn. f_equal. by apply (be_word 8 _ _ eq_refl). }
  destruct (box_next_declared data cursor hs size word rest) as (p & Hp & Hn); try done; [lia..|].
  apply (get_range_within _ _ _ _ _ _ _ Hh) in Hk. apply get_range_Some in Hk as (_ & _ & _ & Hk).
  change (Z.to_nat 4) with 4%nat in Hk. fold rest in Hk. rewrite <- Hk in Hn.
  split; [lia|]. eexists. split; [exact Hn|]. unfold top_box. cbn [kind payload].
  destruct (bool_decide_reflect (tb_kind entry = ascii_bytes "moov")) as [Hmoov|].
  - apply bind_Ok_inv in Hm as ([] & Hnone%assert_Ok & Hm). bool_hyps. subst m.
    apply bind_Ok_inv in Hm as (q & Hq & [= <-]). apply Hread in Hq; [|lia..]. by rewrite Hp in Hq; injection Hq as ->.
  - rewrite bool_decide_eq_false_2 by done. by injection Hm as <-.
Qed.
Lemma check_box_mono cursor m entry cursor' m' :
  check_box read (cursor, m) entry = Ok (cursor', m') -> cursor <= cursor' /\ 0 <= cursor'.
Proof.
  intros H. unfold check_box in H.
  do 3 apply bind_Ok_inv in H as ([] & ?%assert_Ok & H). apply bind_Ok_inv in H as (header & _ & H).
  apply bind_Ok_inv in H as (k & _ & H). apply bind_Ok_inv in H as ([] & _ & H).
  apply bind_Ok_inv in H as (word & _ & H). apply bind_Ok_inv in H as (declared & _ & H).
  do 2 apply bind_Ok_inv in H as ([] & _ & H). apply bind_Ok_inv in H as (m1 & _ & H).
  apply bind_Ok_inv in H as (c1 & [-> Hc1]%expect_Ok%to_u64_Some & [= <- <-]). bool_hyps.
  match goal with H : _ \/ _ |- _ => destruct H end; bool_hyps; lia.
Qed.
Lemma check_boxes_mono boxes cursor m cursor' m' : 0 <= cursor ->
  ofold (check_box read) (cursor, m) boxes = Ok (cursor', m') -> cursor <= cursor'.
Proof.
  revert cursor m. induction boxes as [|e boxes IH]; intros cursor m Hc; cbn; [by intros [= <- <-]|].
  intros ([c1 m1] & H1%check_box_mono & H)%bind_Ok_inv. apply IH in H; lia.
Qed.
Lemma check_boxes_iterate boxes cursor m m' fuel : 0 <= cursor <= zlen data ->
  ofold (check_box read) (cursor, m) boxes = Ok (zlen data, m') -> zlen data - cursor < Z.of_nat fuel ->
  for_boxes_from fuel data cursor top_box m = Ok m'.
Proof.
  revert cursor m fuel. induction boxes as [|e boxes IH]; intros cursor m fuel Hc H Hf; cbn in H.
  - injection H as -> ->. destruct fuel as [|fuel]; [lia|]. cbn [for_boxes_from]. unfold box_next.
    by rewrite Z.eqb_refl.
  - apply bind_Ok_inv in H as ([c1 m1] & H1 & H). pose proof (check_box_mono _ _ _ _ _ H1).
    assert (0 <= c1) as Hc1 by lia. pose proof (check_boxes_mono _ _ _ _ _ Hc1 H) as Hle.
    destruct (check_box_next _ _ _ _ _ (proj1 Hc) H1 Hle) as (H8 & item & Hn & Ht).
    destruct fuel as [|fuel]; [lia|]. cbn [for_boxes_from]. rewrite Hn. cbn [mbind outcome_bind].
    rewrite Ht. cbn [mbind outcome_bind]. apply IH; [lia|done|lia].
Qed.
(** The guest's partial reading gives what the parser of the whole file gives. *)
Lemma authenticated_moov_parses boxes moov :
  authenticated_moov read (zlen data) boxes = Ok moov ->
  parse_mp4_video_track data = parse_mp4_video_track_from_moov moov (zlen data).
Proof.
  unfold authenticated_moov. intros ([c m] & Hl & ([] & Hc%assert_Ok%Z.eqb_eq & Hm%expect_Ok)%bind_Ok_inv)%bind_Ok_inv.
  subst c m. unfold parse_mp4_video_track, for_boxes.
  rewrite (check_boxes_iterate boxes 0 None (Some moov)) by (done || lia). done.
Qed.
End Directory.

(** ** Writing into the preview *)

(** ** Ranges that do not overlap *)

Definition disjoint_ranges (a b : Z * Z) : Prop := a.2 <= b.1 \/ b.2 <= a.1.
Fixpoint apart (l : list (Z * Z)) : Prop :=
  match l with [] => True | a :: l => Forall (disjoint_ranges a) l /\ apart l end.
#[export] Instance apart_Proper : Proper ((≡ₚ) ==> iff) apart.
Proof.
  enough (forall l l', l ≡ₚ l' -> apart l -> apart l') as H by (intros l l' Hl; split; apply H; by rewrite Hl).
  induction 1 as [|a l l' Hl IH|a b l|l l' l'' _ IH1 _ IH2]; cbn; try tauto.
  - intros [Ha H]. split; [by rewrite <- Hl|by apply IH].
  - intros [Hb [Ha H]]. apply Forall_cons in Hb as [Hba Hb]. split; [|by split].
    constructor; [|done]. unfold disjoint_ranges in *. tauto.
Qed.
(** Sorted ranges whose neighbours do not overlap. *)
Lemma neighbours_apart (l : list (Z * Z)) u : Forall (fun r => r.1 <= r.2) l ->
  @oforall Empty_set _ (fun '(a, b) => assert (a.2 <=? b.1) "overlapping preview samples") (zip l (tail l)) = Ok u ->
  apart l.
Proof.
  intros Hl. destruct u. intros H.
  enough (forall a l, Forall (fun r => r.1 <= r.2) (a :: l) ->
    @oforall Empty_set _ (fun '(a, b) => assert (a.2 <=? b.1) "overlapping preview samples") (zip (a :: l) l) = Ok tt ->
    Forall (fun b => a.2 <= b.1) l /\ apart (a :: l)) as Hg.
  { destruct l as [|a l]; [done|]. by apply (Hg a l). }
  clear. intros a l. revert a. induction l as [|b l IH]; intros a Hl H; [done|].
  cbn in H. apply bind_Ok_inv in H as ([] & Hab%assert_Ok%Z.leb_le & H).
  apply Forall_cons in Hl as [Ha Hl]. pose proof Hl as [Hb _]%Forall_cons.
  destruct (IH b Hl H) as [Hbl Hap].
  assert (Forall (fun c => a.2 <= c.1) (b :: l)) as Hal.
  { constructor; [done|]. eapply Forall_impl; [exact Hbl|]. cbn. intros c Hc. lia. }
  split; [done|]. split; [|done]. eapply Forall_impl; [exact Hal|]. intros c Hc. by left.
Qed.

Definition range_of (s : VideoSample) : Z * Z := (byte_offset s, byte_offset s + byte_size s).
Lemma sorted_sample_ranges_Ok ss file_len ranges :
  Forall (fun s => 0 <= byte_size s) ss -> sorted_sample_ranges ss file_len = Ok ranges ->
  ranges ≡ₚ (range_of <$> ss) /\ apart (range_of <$> ss) /\
  Forall (fun s => byte_offset s + byte_size s <= file_len) ss.
Proof.
  intros Hss H. unfold sorted_sample_ranges in H. apply bind_Ok_inv in H as (rs & Hrs%omapM_Ok & H).
  apply bind_Ok_inv in H as (u & Hu & [= <-]).
  assert (rs = range_of <$> ss /\ Forall (fun s => byte_offset s + byte_size s <= file_len) ss) as [-> Hle].
  { clear Hu. induction Hrs as [|s r ss rs Hr Hrs IH]; [done|]. apply Forall_cons in Hss as [_ Hss].
    destruct (IH Hss) as [-> Hle]. unfold sample_range in Hr.
    apply bind_Ok_inv in Hr as (e & [-> _]%expect_Ok%to_u64_Some & Hr).
    apply bind_Ok_inv in Hr as ([] & He%assert_Ok%Z.leb_le & [= <-]). by repeat constructor. }
  assert (merge_sort range_le (range_of <$> ss) ≡ₚ (range_of <$> ss)) as Hp by apply merge_sort_Permutation.
  split; [done|]. split; [|done]. rewrite <- Hp. apply (neighbours_apart _ u); [|done].
  rewrite Hp. apply Forall_fmap. eapply Forall_impl; [exact Hss|]. cbn. lia.
Qed.

(** ** What a preview holds *)

(** The preview of [template] with the samples of [data]: the template's skeleton
    is a file with as many samples, whose bytes are the source's; every other
    byte is the skeleton's. *)
Definition preview_of (data : bytes) (template : PreviewTemplate) (source_codec : bytes)
    (sources : list VideoSample) (preview : bytes) : Prop :=
  exists skeleton supplied last_end track,
    ofold (place_segment (pt_file_len template)) (zeros (pt_file_len template), [], 0)
      (pt_non_sample_segments template) = Ok (skeleton, supplied, last_end) /\
    parse_mp4_video_track skeleton = Ok track /\ codec track = source_codec /\
    length preview = length skeleton /\
    Forall2 (fun p s => byte_size p = byte_size s /\ duration p = duration s /\ is_sync p = is_sync s /\
      exists content, get_range preview (byte_offset p) (byte_size p) = Some content /\
        get_range data (byte_offset s) (byte_size s) = Some content) (samples track) sources /\
    apart (range_of <$> samples track) /\
    (forall x, Forall (fun p => ~ (byte_offset p <= Z.of_nat x < byte_offset p + byte_size p)) (samples track) ->
      preview !! x = skeleton !! x).

Section Materialize.
Context (read : Z -> Z -> guest bytes) (data : bytes) (Hread : reads read data).

Lemma place_sample_Ok preview p s preview' :
  0 <= byte_offset s -> place_sample read preview (p, s) = Ok preview' ->
  exists content, get_range data (byte_offset s) (byte_size s) = Some content /\
    byte_size p = byte_size s /\ duration p = duration s /\ is_sync p = is_sync s /\
    0 <= byte_offset p /\ zlen content = byte_size p /\ byte_offset p + zlen content <= zlen preview /\
    preview' = splice preview (byte_offset p) content.
Proof.
  intros Hs H. unfold place_sample in H.
  do 3 (apply bind_Ok_inv in H as ([] & ?%assert_Ok & H)). bool_hyps.
  apply bind_Ok_inv in H as (content & Hc & H). apply bind_Ok_inv in H as (old & Hold%expect_Ok & H).
  apply bind_Ok_inv in H as ([] & Hl%assert_Ok%Nat.eqb_eq & [= <-]).
  pose proof (get_range_length _ _ _ _ Hold). apply get_range_Some in Hold as (Hg1 & Hg2 & Hg3 & _).
  exists content. split; [apply Hread; [done|lia|done]|]. split_and!; done || lia.
Qed.

(** The invariant of the loop over the samples. *)
Lemma place_samples_Ok skeleton ps ss preview : length ps = length ss ->
  Forall (fun s => 0 <= byte_offset s) ss ->
  ofold (place_sample read) skeleton (zip ps ss) = Ok preview ->
  Forall (fun p => 0 <= byte_size p) ps /\ length preview = length skeleton /\
  (apart (range_of <$> ps) ->
   Forall2 (fun p s => byte_size p = byte_size s /\ duration p = duration s /\ is_sync p = is_sync s /\
     exists content, get_range preview (byte_offset p) (byte_size p) = Some content /\
       get_range data (byte_offset s) (byte_size s) = Some content) ps ss) /\
  (forall x, Forall (fun p => ~ (byte_offset p <= Z.of_nat x < byte_offset p + byte_size p)) ps ->
     preview !! x = skeleton !! x).
Proof.
  intros Hl Hss. revert skeleton ps Hl.
  enough (forall ps skeleton, length ps = length ss -> ofold (place_sample read) skeleton (zip ps ss) = Ok preview ->
    Forall (fun p => 0 <= byte_size p) ps /\ length preview = length skeleton /\
    (forall o n, Forall (fun p => disjoint_ranges (o, o + n) (range_of p)) ps ->
       get_range preview o n = get_range skeleton o n) /\
    (apart (range_of <$> ps) ->
     Forall2 (fun p s => byte_size p = byte_size s /\ duration p = duration s /\ is_sync p = is_sync s /\
       exists content, get_range preview (byte_offset p) (byte_size p) = Some content /\
         get_range data (byte_offset s) (byte_size s) = Some content) ps ss) /\
    (forall x, Forall (fun p => ~ (byte_offset p <= Z.of_nat x < byte_offset p + byte_size p)) ps ->
       preview !! x = skeleton !! x)) as Hg.
  { intros skeleton ps Hl H. destruct (Hg ps skeleton Hl H) as (? & ? & _ & ? & ?). done. }
  induction Hss as [|s ss Hs Hss IH]; intros ps skeleton Hl H.
  { destruct ps; [|done]. cbn in H. injection H as ->. split_and!; try done. }
  destruct ps as [|p ps]; [done|]. injection Hl as Hl. cbn [zip zip_with ofold] in H.
  apply bind_Ok_inv in H as (sk1 & Hp & H).
  apply place_sample_Ok in Hp as (content & Hc & E1 & E2 & E3 & Hpo & Hn & Hle & ->); [|done].
  destruct (IH ps _ Hl H) as (Hsz & Hlen & Hapart & Hall & Hout).
  pose proof (splice_length skeleton (byte_offset p) content Hpo Hle) as Hsl.
  split; [constructor; [lia|done]|]. split; [lia|]. split; [|split].
  - intros o n [Hd Hds]%Forall_cons. rewrite (Hapart o n Hds). unfold disjoint_ranges, range_of in Hd. cbn in Hd.
    apply splice_apart; lia.
  - intros [Hap Haps]. constructor; [|by apply Hall]. split_and!; try done. exists content. split; [|done].
    change (list_fmap _ _ range_of ps) with (range_of <$> ps) in Hap. rewrite Forall_fmap in Hap. rewrite Hapart by exact Hap. rewrite <- Hn. by apply splice_same.
  - intros x [Hx Hxs]%Forall_cons. rewrite (Hout x Hxs). apply splice_lookup; lia.
Qed.

Lemma materialize_preview_Ok template cdc sources preview :
  Forall (fun s => 0 <= byte_offset s) sources ->
  materialize_preview read template cdc sources = Ok preview -> preview_of data template cdc sources preview.
Proof.
  intros Hss H. unfold materialize_preview in H.
  apply bind_Ok_inv in H as ([[skeleton supplied] last_end] & Hsk & H).
  apply bind_Ok_inv in H as (track & Htr%unwrap_Ok & H). apply bind_Ok_inv in H as ([] & Hcdc%assert_Ok & H).
  apply bind_Ok_inv in H as ([] & Hl%assert_Ok%Nat.eqb_eq & H). apply bind_Ok_inv in H as (ranges & Hr & H).
  apply bind_Ok_inv in H as ([] & _ & H). bool_hyps.
  destruct (place_samples_Ok _ _ _ _ Hl Hss H) as (Hsz & Hlen & Hall & Hout).
  apply sorted_sample_ranges_Ok in Hr as (_ & Hap & _); [|done].
  exists skeleton, supplied, last_end, track. split_and!; try done. by apply Hall.
Qed.
End Materialize.

(** ** What a run of the guest shows *)

Section Sound.
Context `{HC : Crypto} `{X : CidApi} {HL : CryptoLaws HC}.

(** The digest [d] of the preview made for [plan]. *)
Definition digest_of (data : bytes) (previews : list PreviewTemplate) (track : VideoTrack)
    (plan : SamplePlan) (d : bytes) : Prop :=
  exists template selected preview cid, get_at previews (bucket_index plan) = Some template /\
    selected_samples (samples track) plan = Ok selected /\
    preview_of data template (codec track) selected preview /\
    compute_ipfs_cid_zk_optimized preview = Ok cid /\ get_from cid (zlen cid - 32) = Some d.

Lemma preview_digest_Ok read data previews track digests plan digests' : reads read data ->
  Forall (fun s => 0 <= byte_offset s /\ 0 <= byte_size s) (samples track) ->
  preview_digest read previews track digests plan = Ok digests' ->
  exists d, digest_of data previews track plan d /\ 0 <= bucket_index plan < zlen digests /\
    digests' = <[Z.to_nat (bucket_index plan) := d]> digests.
Proof.
  intros Hread Hss H. unfold preview_digest in H.
  apply bind_Ok_inv in H as (selected & Hsel & H). apply bind_Ok_inv in H as (template & Ht%expect_Ok & H).
  apply bind_Ok_inv in H as (preview & Hp & H). apply bind_Ok_inv in H as (d & Hd & H).
  apply bind_Ok_inv in H as (old & [Hi _]%expect_Ok%get_at_Some & [= <-]).
  apply sample_cid_digest_Ok in Hd as (cid & Hcid & Hd). exists d. split; [|by split].
  exists template, selected, preview, cid. split_and!; try done. eapply materialize_preview_Ok; [done| |done].
  pose proof Hsel as (last & _ & [= <-])%bind_Ok_inv. rewrite Forall_forall in Hss |- *.
  intros s [_ Hs]%list_elem_of_filter. by apply Hss.
Qed.
(** The digests after the loop over the three plans. *)
Lemma preview_digests_Ok read data previews track plans digests : reads read data ->
  Forall (fun s => 0 <= byte_offset s /\ 0 <= byte_size s) (samples track) ->
  bucket_index <$> plans = [0; 1; 2] ->
  ofold (preview_digest read previews track) (replicate 3 (replicate 32 0)) plans = Ok digests ->
  forall i plan d, plans !! i = Some plan -> digests !! i = Some d -> digest_of data previews track plan d.
Proof.
  intros Hread Hss Hidx H.
  apply (ofold_inv (fun done digests => length digests = 3%nat /\ forall i plan d,
    done !! i = Some plan -> digests !! i = Some d -> digest_of data previews track plan d)) in H;
    [by destruct H|by split|].
  intros done plan todo ds ds' Hplans [Hl Hall] Hstep.
  apply (preview_digest_Ok _ data) in Hstep as (d0 & Hd0 & Hi & ->); [|done..].
  rewrite length_insert. split; [done|].
  assert (bucket_index plan = Z.of_nat (length done)) as Hb.
  { assert ((bucket_index <$> plans) !! length done = Some (bucket_index plan)) as Hx
      by by rewrite Hplans, list_lookup_fmap, list_lookup_middle.
    rewrite Hidx in Hx. destruct (length done) as [|[|[|n]]]; [injection Hx as <-; done..|by destruct n]. }
  rewrite Hb in *. rewrite Nat2Z.id. intros i p d Hp Hd.
  destruct (decide (i = length done)) as [->|Hne].
  - rewrite list_lookup_middle in Hp by done. injection Hp as <-.
    rewrite list_lookup_insert_eq in Hd by lia. by injection Hd as <-.
  - rewrite list_lookup_insert_ne in Hd by done. apply lookup_app_Some in Hp as [Hp|[Hge Hp]].
    + by apply (Hall i).
    + apply list_lookup_singleton_Some in Hp as [Hi0 _]. lia.
Qed.

(** C8: When the program succeeds on an opening of a blob, the blob is a video that
    the parser accepts, the three previews are planned for its track with the
    seed of the sale, and each committed digest is that of a preview that holds
    the planned samples of the video, byte for byte, in a template of the host. *)
Theorem video_guest_sound fuel witness sale v data roots rows :
  let origin := vw_origin witness in
  opening_typed origin -> is_bytes data ->
  Committed (wo_blob_id origin) (zlen data) roots rows -> systematic data rows ->
  collision_free (fun m => m ∈ commitment_msgs (zlen data) roots rows origin ++ reader_msgs origin) ->
  main fuel witness sale = Ok v ->
  exists track plans,
    parse_mp4_video_track data = Ok track /\
    sampling_spec_hash PREVIEW_DURATION_MS = Ok (vv_specHash v) /\
    vv_originBlobId v = wo_blob_id origin /\
    vv_samplingSeed v = derive_sampling_seed {|
      chain_id := sale_chain_id sale; sale_contract := sale_sale_contract sale;
      sale_id := sale_sale_id sale; origin_blob_id := wo_blob_id origin; spec_hash := vv_specHash v;
      external_randomness := sale_external_randomness sale |} /\
    plan_three_samples fuel track (vv_samplingSeed v) PREVIEW_DURATION_MS = Ok plans /\
    bucket_index <$> plans = [0; 1; 2] /\
    forall i plan d, plans !! i = Some plan ->
      [vv_previewCidDigest0 v; vv_previewCidDigest1 v; vv_previewCidDigest2 v] !! i = Some d ->
      digest_of data (vw_previews witness) track plan d.
Proof.
  intros origin Ho Hb Hc Hsys HQ H. unfold main in H. apply bind_Ok_inv in H as ([] & Hv & H).
  destruct (opening_reads_source origin data roots rows Ho Hc Hsys HQ (or_intror Hv)) as (Hl & _ & Hr).
  destruct Hc as [Hd _ _ _]. fold origin in H. rewrite Hl in H.
  assert (reads (read_video_range origin) data) as Hreads.
  { intros off len r Hoff Hlen. apply read_range_Ok; try done. lia. }
  unfold sample_video in H. apply bind_Ok_inv in H as (moov & Hmoov & H).
  apply bind_Ok_inv in H as (track & Ht%unwrap_Ok & H). apply bind_Ok_inv in H as (sh & Hsh%unwrap_Ok & H).
  apply bind_Ok_inv in H as (plans & Hplans%unwrap_Ok & H). apply bind_Ok_inv in H as (ds & Hds & H).
  apply bind_Ok_inv in H as (d0 & [_ H0]%expect_Ok%get_at_Some & H).
  apply bind_Ok_inv in H as (d1 & [_ H1]%expect_Ok%get_at_Some & H).
  apply bind_Ok_inv in H as (d2 & [_ H2]%expect_Ok%get_at_Some & [= <-]).
  apply (authenticated_moov_parses _ data Hb ltac:(lia) Hreads) in Hmoov. rewrite <- Hmoov in Ht.
  pose proof (plan_indices _ _ _ _ _ Hplans) as Hidx.
  pose proof (parsed_file_nonneg data track Hb ltac:(lia) Ht) as Hnn.
  exists track, plans. split_and!; try done. intros i plan d Hp Hdi.
  apply (preview_digests_Ok _ data _ _ _ _ Hreads Hnn Hidx Hds i plan d Hp).
  destruct i as [|[|[|i]]]; [rewrite <- Hdi; first [exact H0|exact H1|exact H2]..|by destruct i].
Qed.
End Sound.

(** ** A video of three samples *)

(** An index of [sizes] in one chunk at [offset], five seconds each. *)
Definition small_moov (sizes : list Z) (offset : Z) : bytes :=
  let n := zlen sizes in
  let mdhd := mp4_box "mdhd" (full_box 0 (replicate 8 0 ++ u32s [1; 5 * n; 0])) in
  let hdlr := mp4_box "hdlr" (full_box 0 (replicate 4 0 ++ ascii_bytes "vide" ++ replicate 12 0)) in
  let stbl := mp4_box "stbl"
    (mp4_box "stsd" (full_box 0 (u32s [1; 8] ++ ascii_bytes "avc1"))
       ++ mp4_box "stts" (full_box 0 (u32s [1; n; 5])) ++ mp4_box "stsz" (full_box 0 (u32s (0 :: n :: sizes)))
       ++ mp4_box "stsc" (full_box 0 (u32s [1; 1; n; 1])) ++ mp4_box "stco" (full_box 0 (u32s [1; offset]))) in
  let dinf := mp4_box "dinf" (mp4_box "dref" (full_box 0 (u32s [1] ++ mp4_box "url " [0; 0; 0; 1]))) in
  mp4_box "moov" (mp4_box "trak" (mp4_box "mdia" (mdhd ++ hdlr ++ mp4_box "minf" (dinf ++ stbl)))).
(** The file but for its samples, whose offset follows. *)
Definition small_header (sizes : list Z) : bytes :=
  let offset := zlen (small_moov sizes 0) + 8 in
  small_moov sizes offset ++ be_bytes 4 (foldr Z.add 8 sizes) ++ ascii_bytes "mdat".
Definition small_video : bytes :=
  Eval vm_compute in small_header [2; 3; 1] ++ [11; 12; 21; 22; 23; 31].
Definition small_boxes : list TopLevelBox :=
  Eval vm_compute in
  let n := zlen (small_moov [2; 3; 1] 0) in
  [{| tb_offset := 0; tb_size := n; tb_kind := ascii_bytes "moov"; tb_header_size := 8 |};
   {| tb_offset := n; tb_size := 14; tb_kind := ascii_bytes "mdat"; tb_header_size := 8 |}].
Definition small_preview (size : Z) : PreviewTemplate :=
  let header := small_header [size] in
  {| pt_file_len := zlen header + size; pt_non_sample_segments := [{| ps_offset := 0; ps_bytes := header |}] |}.

Local Existing Instance cheap_crypto.
Definition small_needed : selection :=
  match mark_range ∅ 0 (zlen small_video) (walrus_symbol_size (zlen small_video)) with Ok n => n | _ => ∅ end.
Definition small_witness : VideoSamplingWitness := Eval vm_compute in
  {| vw_origin := small_opening small_video small_needed; vw_top_level_boxes := small_boxes;
     vw_previews := small_preview <$> [2; 3; 1] |}.
Definition small_sale : SaleContext :=
  {| sale_chain_id := 1; sale_sale_contract := replicate 20 1; sale_sale_id := replicate 32 2;
     sale_external_randomness := replicate 32 3 |}.

Lemma video_guest_sound_witness :
  exists v track, main (X := toy_cid) 1 small_witness small_sale = Ok v /\
    parse_mp4_video_track small_video = Ok track /\ length (samples track) = 3%nat.
Proof.
  assert (exists v, main (X := toy_cid) 1 small_witness small_sale = Ok v) as [v Hv]
    by (eexists; vm_compute; reflexivity).
  destruct (video_guest_sound (X := toy_cid) 1 small_witness small_sale v small_video
    (small_roots small_video) (small_rows small_video)) as (track & plans & Ht & _).
  - apply reader_typedb_ok. vm_compute. reflexivity.
  - apply is_bytes_check. vm_compute. reflexivity.
  - apply small_committed; [vm_compute; reflexivity|vm_compute; reflexivity].
  - apply small_systematic. vm_compute. discriminate.
  - apply collision_free_list_ok. vm_compute. reflexivity.
  - exact Hv.
  - exists v, track. split; [exact Hv|]. split; [exact Ht|]. vm_compute in Ht. by injection Ht as <-.
Defined.
